(** * AASX / OPC package model: a shallow embedding of the package library

    The development follows the TypeScript source: the JavaScript string
    primitives the path resolver relies on, the path resolver itself, the
    insertion-ordered [Map] of the runtime, the relationship graph, the part
    registry, the read and read-write facades and the container codec.

    Conventions.
    - A JavaScript string is a [string]; it stands for the UTF-8 encoding of
      the JavaScript value.  Every path a caller hands to the facade is the
      [pathname] (or the [href]) of a [URL] object, which is pure ASCII;
      [toLowerCase] is the ASCII lower-casing.
    - A [Uint8Array] is a [list byte].
    - A JavaScript [Map] is an association list in insertion order.
    - The record of files the writer fills is a [JsObject.t]: a dictionary
      until the name [__proto__] is assigned.
    - A thrown [Error] is the left injection of a sum; the payload is the
      error's [message]. *)

From Stdlib Require Import List Bool Arith NArith ZArith Lia.
From Stdlib Require Import Ascii String.
From Stdlib.Strings Require Import Byte.
From Stdlib Require Import Sorted Permutation.
Import ListNotations.

Local Open Scope list_scope.
Local Open Scope string_scope.

(** ** JavaScript string primitives *)

Module Js.

(** [s.startsWith(p)] *)
Definition startsWith (s p : string) : bool := String.prefix p s.

(** [s.slice(n)] for [0 <= n] *)
Fixpoint drop (n : nat) (s : string) : string :=
  match n, s with
  | O, _ => s
  | S n', String _ s' => drop n' s'
  | S _, EmptyString => EmptyString
  end.

(** [s.slice(0, n)] for [0 <= n] *)
Fixpoint take (n : nat) (s : string) : string :=
  match n, s with
  | S n', String c s' => String c (take n' s')
  | _, _ => EmptyString
  end.

(** [s.endsWith(p)] *)
Definition endsWith (s p : string) : bool :=
  (String.length p <=? String.length s)%nat
  && String.eqb (drop (String.length s - String.length p) s) p.

(** [s.includes(p)] *)
Fixpoint includes (s p : string) : bool :=
  String.prefix p s
  || match s with
     | EmptyString => false
     | String _ s' => includes s' p
     end.

(** [s.lastIndexOf(c)] for a one-character needle; [-1] when absent. *)
Fixpoint lastIndexOf_from (c : ascii) (s : string) (i acc : Z) : Z :=
  match s with
  | EmptyString => acc
  | String x s' =>
      lastIndexOf_from c s' (i + 1)%Z (if Ascii.eqb x c then i else acc)
  end.

Definition lastIndexOf (s : string) (c : ascii) : Z :=
  lastIndexOf_from c s 0%Z (-1)%Z.

(** [s.slice(a, b)]; a negative index counts from the end, an omitted
    [b] is the length. *)
Definition slice (s : string) (a : Z) (b : option Z) : string :=
  let len := Z.of_nat (String.length s) in
  let norm i := if (i <? 0)%Z then Z.max (len + i) 0 else Z.min i len in
  let from := norm a in
  let to := match b with Some e => norm e | None => len end in
  take (Z.to_nat (to - from)) (drop (Z.to_nat from) s).

Definition lowerChar (c : ascii) : ascii :=
  let n := nat_of_ascii c in
  if ((65 <=? n) && (n <=? 90))%nat then ascii_of_nat (n + 32) else c.

(** [s.toLowerCase()] on ASCII strings: the letters [A]-[Z] are lowered and
    every other character is kept.  The runtime also lowers letters outside
    ASCII; the pathname of a [URL] has none, the names of archive entries,
    relationship targets and override part names read from an archive may
    have some. *)
Fixpoint toLowerCase (s : string) : string :=
  match s with
  | EmptyString => EmptyString
  | String c s' => String (lowerChar c) (toLowerCase s')
  end.

(** [s.split(c)] for a one-character separator; never the empty list. *)
Fixpoint split (c : ascii) (s : string) : list string :=
  match s with
  | EmptyString => [EmptyString]
  | String x s' =>
      if Ascii.eqb x c then EmptyString :: split c s'
      else match split c s' with
           | h :: t => String x h :: t
           | [] => [String x EmptyString]
           end
  end.

(** [xs.join(sep)] *)
Definition join (sep : string) (xs : list string) : string :=
  String.concat sep xs.

(** [s.replace(c, '')] with a string pattern: the first occurrence only. *)
Fixpoint removeFirst (c : ascii) (s : string) : string :=
  match s with
  | EmptyString => EmptyString
  | String x s' => if Ascii.eqb x c then s' else String x (removeFirst c s')
  end.

(** [s.replace(/c/g, d)] for one-character [c] and [d]. *)
Fixpoint replaceAll (c d : ascii) (s : string) : string :=
  match s with
  | EmptyString => EmptyString
  | String x s' =>
      String (if Ascii.eqb x c then d else x) (replaceAll c d s')
  end.

(** [s.replace(/suffix$/, '')] for a literal [suffix]. *)
Definition stripSuffix (suffix s : string) : string :=
  if endsWith s suffix
  then take (String.length s - String.length suffix) s
  else s.

(** [s.replace(/^whole$/, '')] for a literal [whole]. *)
Definition stripWhole (whole s : string) : string :=
  if String.eqb s whole then EmptyString else s.

(** [s.padStart(n, '0')] *)
Fixpoint zeros (n : nat) : string :=
  match n with
  | O => EmptyString
  | S n' => String "0" (zeros n')
  end.

Definition padStart0 (n : nat) (s : string) : string :=
  zeros (n - String.length s) ++ s.

(** Truthiness of a string: [!s] holds of the empty string only. *)
Definition truthy (s : string) : bool :=
  match s with EmptyString => false | _ => true end.

(** ** Numbers

    The relationship counter is a JavaScript number that starts at [1] and
    only ever grows by [+= 1]: it is an integer, exact up to [2^53], where
    [n + 1] rounds back to [n]. *)

Definition maxSafe : N := 2 ^ 53.

Definition incr (n : N) : N := if (n <? maxSafe)%N then (n + 1)%N else n.

Definition hexDigit (d : N) : ascii :=
  if (d <? 10)%N then ascii_of_N (48 + d) else ascii_of_N (87 + d).

(** Digits of [n] in base 16, most significant first, accumulated in
    [acc]; [fuel] bounds the number of digits. *)
Fixpoint hexDigits (fuel : nat) (n : N) (acc : string) : string :=
  match fuel with
  | O => acc
  | S f =>
      if (n =? 0)%N then acc
      else hexDigits f (n / 16)%N (String (hexDigit (n mod 16)%N) acc)
  end.

(** [n.toString(16)] *)
Definition toString16 (n : N) : string :=
  if (n =? 0)%N then "0" else hexDigits (N.to_nat (N.size n)) n EmptyString.

End Js.

(** ** PathResolver *)

Definition trimTrailingSlash (path : string) : string :=
  if (1 <? String.length path)%nat && Js.endsWith path "/"
  then Js.slice path 0 (Some (-1)%Z)
  else path.

Definition ensureLeadingSlash (path : string) : string :=
  if Js.startsWith path "/" then path else "/" ++ path.

Definition trimLeadingSlash (path : string) : string :=
  if Js.startsWith path "/" then Js.slice path 1 None else path.

Definition dirName (path : string) : string :=
  let normalized := trimTrailingSlash path in
  let index := Js.lastIndexOf normalized "/" in
  if (index <=? 0)%Z then "/" else Js.slice normalized 0 (Some index).

Definition baseName (path : string) : string :=
  let normalized := trimTrailingSlash path in
  let index := Js.lastIndexOf normalized "/" in
  if (index <? 0)%Z then normalized else Js.slice normalized (index + 1) None.

Definition extName (path : string) : string :=
  let base := baseName path in
  let index := Js.lastIndexOf base "." in
  if (index <=? 0)%Z then "" else Js.slice base index None.

(** The segment stack of [normalizePath]: [stack] is kept reversed, its head
    is the top. *)
Fixpoint normalizeSegments (segments stack : list string) : list string :=
  match segments with
  | [] => rev stack
  | segment :: rest =>
      if negb (Js.truthy segment) || String.eqb segment "." then
        normalizeSegments rest stack
      else if String.eqb segment ".." then
        normalizeSegments rest (tl stack)
      else normalizeSegments rest (segment :: stack)
  end.

Definition normalizePath (input : string) : string :=
  "/" ++ Js.join "/" (normalizeSegments (Js.split "/" input) []).

Definition normalizePathForMap (path : string) : string :=
  if negb (Js.truthy path) then ""
  else
    let withPrefix := if Js.startsWith path "/" then path else "/" ++ path in
    Js.toLowerCase (normalizePath withPrefix).

Definition getSourcePathFromRelsPath (relsPath : string) : string :=
  let clean := trimLeadingSlash relsPath in
  if String.eqb clean "_rels/.rels" then ""
  else
    let dir := Js.stripWhole "_rels" (Js.stripSuffix "/_rels" (dirName clean)) in
    let base := Js.stripSuffix ".rels" (baseName clean) in
    if negb (Js.truthy dir) || String.eqb dir "."
    then ensureLeadingSlash base
    else ensureLeadingSlash (dir ++ "/" ++ base).

Definition getRelsPath (sourcePath : string) : string :=
  let normalized := normalizePathForMap sourcePath in
  if negb (Js.truthy normalized) then "/_rels/.rels"
  else
    let dir := dirName normalized in
    let base := baseName normalized in
    if negb (Js.truthy dir) || String.eqb dir "/"
    then "/_rels/" ++ base ++ ".rels"
    else dir ++ "/_rels/" ++ base ++ ".rels".

Definition resolveRelativeURI (sourcePath target : string) : string :=
  let normalizedTarget := Js.replaceAll "\" "/" target in
  if Js.startsWith normalizedTarget "/" then normalizedTarget
  else
    let sourceDirectory :=
      if negb (Js.truthy sourcePath) then "/"
      else let d := dirName sourcePath in if Js.truthy d then d else "/" in
    normalizePath (sourceDirectory ++ "/" ++ normalizedTarget).

(** ** The runtime's insertion-ordered [Map] with string keys *)

Module JsMap.
Section Ops.
Context {V : Type}.

Definition t := list (string * V).

Fixpoint get (k : string) (m : t) : option V :=
  match m with
  | [] => None
  | (k', v) :: m' => if String.eqb k' k then Some v else get k m'
  end.

Definition has (k : string) (m : t) : bool :=
  match get k m with Some _ => true | None => false end.

(** [m.set(k, v)]: an existing key keeps its position. *)
Fixpoint set (k : string) (v : V) (m : t) : t :=
  match m with
  | [] => [(k, v)]
  | (k', v') :: m' =>
      if String.eqb k' k then (k, v) :: m' else (k', v') :: set k v m'
  end.

Fixpoint delete (k : string) (m : t) : t :=
  match m with
  | [] => []
  | (k', v') :: m' =>
      if String.eqb k' k then m' else (k', v') :: delete k m'
  end.

Definition keys (m : t) : list string := map fst m.
Definition values (m : t) : list V := map snd m.
End Ops.
Arguments t : clear implicits.
End JsMap.

(** ** A record used as a dictionary of byte arrays

    [const files: Record<string, Uint8Array> = {}] is an object whose
    prototype is [Object.prototype].  The assignment [files[name] = bytes]
    creates or replaces the own property [name], except for the name
    [__proto__]: [Object.prototype] has a setter of that name, so the
    assignment makes [bytes] the prototype of [files] and creates no
    property.  What a later assignment and the enumeration of the
    properties do on a record whose prototype is a byte array depends on
    the names written; the model keeps the own properties written before,
    the new prototype and the assignments made since, and reads nothing
    into them.

    The own properties are kept in the order they were written; the runtime
    lists integer-like names first. *)

Module JsObject.

Inductive t : Type :=
| Plain (own : JsMap.t (list byte))
| Replaced (own : JsMap.t (list byte)) (prototype : list byte)
    (later : list (string * list byte)).

(** [{}] *)
Definition empty : t := Plain [].

(** [files[name] = bytes] *)
Definition set (name : string) (bytes : list byte) (files : t) : t :=
  match files with
  | Plain own =>
      if String.eqb name "__proto__" then Replaced own bytes []
      else Plain (JsMap.set name bytes own)
  | Replaced own prototype later =>
      Replaced own prototype (later ++ [(name, bytes)])
  end.

(** The own properties written while the prototype was [Object.prototype]. *)
Definition own (files : t) : JsMap.t (list byte) :=
  match files with
  | Plain own => own
  | Replaced own _ _ => own
  end.

End JsObject.

(** ** Data model *)

(** The two fields of a [URL] object the library reads. *)
Record URL := mkURL { pathname : string; href : string }.

Record Part := mkPart {
  URI : URL;
  ContentType : string;
  content : list byte
}.

Record Relationship := mkRel {
  id : string;
  relType : string;
  target : string;
  targetMode : string
}.

Record PackageBase := mkPackage {
  parts : JsMap.t Part;
  relationships : JsMap.t (list Relationship);
  originURI : string;
  nextRelID : N;
  path : string;
  readWrite : bool
}.

Definition RelationTypeAasxOrigin :=
  "http://admin-shell.io/aasx/relationships/aasx-origin".
Definition RelationTypeAasxSpec :=
  "http://admin-shell.io/aasx/relationships/aas-spec".
Definition RelationTypeAasxSupplementary :=
  "http://admin-shell.io/aasx/relationships/aas-suppl".
Definition RelationTypeThumbnail :=
  "http://schemas.openxmlformats.org/package/2006/relationships/metadata/thumbnail".

Definition ErrNoOriginPart := "no origin part found".
Definition ErrPartNotFound := "part not found".
Definition ErrInvalidFormat := "invalid package format".

(** A computation that may throw: [inl message] is a thrown [Error]. *)
Definition result (A : Type) : Type := (string + A)%type.

Definition ret {A} (a : A) : result A := inr a.
Definition throw {A} (message : string) : result A := inl message.
Definition bind {A B} (c : result A) (k : A -> result B) : result B :=
  match c with
  | inl e => inl e
  | inr a => k a
  end.

Notation "x <- c ;; k" := (bind c (fun x => k))
  (at level 61, c at next level, right associativity).
Notation "c ;;; k" := (bind c (fun _ => k))
  (at level 61, right associativity).

Definition pathFromUri (uri : URL) : string :=
  if Js.truthy (pathname uri) then pathname uri else href uri.

Definition normalizeURI (uri : option URL) : string :=
  match uri with
  | None => ""
  | Some u =>
      let value := pathFromUri u in
      normalizePathForMap (if Js.startsWith value "/" then value else "/" ++ value)
  end.

(** ** RelationshipGraph *)

Definition setRelationships (pkg : PackageBase) (r : JsMap.t (list Relationship))
  : PackageBase :=
  mkPackage (parts pkg) r (originURI pkg) (nextRelID pkg) (path pkg) (readWrite pkg).

Definition setParts (pkg : PackageBase) (p : JsMap.t Part) : PackageBase :=
  mkPackage p (relationships pkg) (originURI pkg) (nextRelID pkg) (path pkg)
    (readWrite pkg).

Definition setNextRelID (pkg : PackageBase) (n : N) : PackageBase :=
  mkPackage (parts pkg) (relationships pkg) (originURI pkg) n (path pkg)
    (readWrite pkg).

Definition setOriginURI (pkg : PackageBase) (o : string) : PackageBase :=
  mkPackage (parts pkg) (relationships pkg) o (nextRelID pkg) (path pkg)
    (readWrite pkg).

(** [this.relationships.get(k) ?? []] *)
Definition bucket (pkg : PackageBase) (k : string) : list Relationship :=
  match JsMap.get k (relationships pkg) with
  | Some rels => rels
  | None => []
  end.

Definition addRelationshipWithID (pkg : PackageBase)
  (sourcePath targetPath rtype rid : string) : string * PackageBase :=
  let normalizedSource := normalizePathForMap sourcePath in
  let existing := bucket pkg normalizedSource in
  let existing := (existing ++ [mkRel rid rtype targetPath "Internal"])%list in
  (rid, setRelationships pkg (JsMap.set normalizedSource existing (relationships pkg))).

Definition relID (n : N) : string := "R" ++ Js.padStart0 8 (Js.toString16 n).

Definition addRelationship (pkg : PackageBase)
  (sourcePath targetPath rtype : string) : string * PackageBase :=
  let rid := relID (nextRelID pkg) in
  let pkg := setNextRelID pkg (Js.incr (nextRelID pkg)) in
  addRelationshipWithID pkg sourcePath targetPath rtype rid.

Definition removeRelationship (pkg : PackageBase)
  (sourcePath targetPath rtype : string) : PackageBase :=
  let normalizedSource := normalizePathForMap sourcePath in
  let normalizedTarget := normalizePathForMap targetPath in
  let old := bucket pkg normalizedSource in
  setRelationships pkg
    (JsMap.set normalizedSource
       (filter (fun rel =>
          negb (String.eqb (normalizePathForMap (target rel)) normalizedTarget
                && String.eqb (relType rel) rtype)) old)
       (relationships pkg)).

(** One turn of the loop of [removeAllRelationshipsWithSourceOrTarget]. *)
Definition sweepBucket (normalizedPath : string)
  (m : JsMap.t (list Relationship)) (entry : string * list Relationship)
  : JsMap.t (list Relationship) :=
  let '(source, rels) := entry in
  let filtered :=
    filter (fun rel =>
      negb (String.eqb (normalizePathForMap (target rel)) normalizedPath)) rels in
  if (List.length filtered =? 0)%nat then JsMap.delete source m
  else JsMap.set source filtered m.

(** The loop runs over the live map; it deletes only the entry it stands on
    and overwrites only existing keys, so it visits exactly the entries
    present when it starts. *)
Definition removeAllRelationshipsWithSourceOrTarget (pkg : PackageBase)
  (uriPath : string) : PackageBase :=
  let normalizedPath := normalizePathForMap uriPath in
  let m := JsMap.delete normalizedPath (relationships pkg) in
  setRelationships pkg (fold_left (sweepBucket normalizedPath) m m).

Definition hasRelationship (pkg : PackageBase)
  (sourcePath targetPath rtype : string) : bool :=
  let normalizedSource := normalizePathForMap sourcePath in
  let normalizedTarget := normalizePathForMap targetPath in
  existsb (fun rel =>
      String.eqb (relType rel) rtype
      && String.eqb (normalizePathForMap (target rel)) normalizedTarget)
    (bucket pkg normalizedSource).

Definition getRelationshipsByType (pkg : PackageBase)
  (sourcePath rtype : string) : list Relationship :=
  let normalizedSource := normalizePathForMap sourcePath in
  filter (fun rel => String.eqb (relType rel) rtype)
    (bucket pkg normalizedSource).

(** ** Computations over the package state

    A write operation is a computation over the package state: it ends in a
    value or in a thrown error, and in both cases leaves a state behind (an
    exception does not roll anything back). *)

Definition M (A : Type) : Type := PackageBase -> result A * PackageBase.

Definition mret {A} (a : A) : M A := fun pkg => (inr a, pkg).
Definition lift {A} (r : result A) : M A := fun pkg => (r, pkg).
Definition gets {A} (f : PackageBase -> A) : M A := fun pkg => (inr (f pkg), pkg).
Definition modify (f : PackageBase -> PackageBase) : M unit :=
  fun pkg => (inr tt, f pkg).
Definition mbind {A B} (c : M A) (k : A -> M B) : M B :=
  fun pkg =>
    match c pkg with
    | (inl e, pkg') => (inl e, pkg')
    | (inr a, pkg') => k a pkg'
    end.

Notation "x <-- c ;; k" := (mbind c (fun x => k))
  (at level 61, c at next level, right associativity).
Notation "c ;;;; k" := (mbind c (fun _ => k))
  (at level 61, right associativity).

(** The state an operation leaves, and how it ends. *)
Definition exec {A} (c : M A) (pkg : PackageBase) : PackageBase := snd (c pkg).
Definition outcome {A} (c : M A) (pkg : PackageBase) : result A := fst (c pkg).

(** ** Package facade *)

Section Facade.

(** The contract checks are active only in debug mode; [debug] is the value
    the debug toggle resolves to. *)
Variable debug : bool.

(** The [URL] constructor, on the strings [https://package.local/...] the
    library gives it. *)
Variable newURL : string -> URL.

(** Modelled from the spec: the contract-check helpers [Require] and
    [Ensure] of the [dbc] module, which raise a failure labelled with a fixed
    prefix and the message when the condition is false and debug mode is
    enabled. *)
Definition Require (condition : bool) (message : string) : result unit :=
  if debug && negb condition
  then throw ("precondition violation: " ++ message)
  else ret tt.

Definition Ensure (condition : bool) (message : string) : result unit :=
  if debug && negb condition
  then throw ("postcondition violation: " ++ message)
  else ret tt.

Definition asPackageUrl (p : string) : URL :=
  newURL ("https://package.local" ++ ensureLeadingSlash p).

(** *** Read-only view *)

Fixpoint collectSpecs (registry : JsMap.t Part) (rels : list Relationship)
  : list Part :=
  match rels with
  | [] => []
  | rel :: rest =>
      match JsMap.get (normalizePathForMap (target rel)) registry with
      | Some part => part :: collectSpecs registry rest
      | None => collectSpecs registry rest
      end
  end.

Definition Specs (pkg : PackageBase) : result (list Part) :=
  let rels := getRelationshipsByType pkg (originURI pkg) RelationTypeAasxSpec in
  ret (collectSpecs (parts pkg) rels).

Definition IsSpec (pkg : PackageBase) (part : Part) : result bool :=
  ret (hasRelationship pkg (originURI pkg) (pathFromUri (URI part))
         RelationTypeAasxSpec).

Fixpoint collectSupplementaries (registry : JsMap.t Part)
  (rels : list Relationship) : result (list Part) :=
  match rels with
  | [] => ret []
  | rel :: rest =>
      match JsMap.get (normalizePathForMap (target rel)) registry with
      | None => throw ("supplementary part " ++ target rel ++ " not found")
      | Some part =>
          more <- collectSupplementaries registry rest ;;
          ret (part :: more)
      end
  end.

Definition SupplementariesFor (pkg : PackageBase) (spec : Part)
  : result (list Part) :=
  let rels :=
    getRelationshipsByType pkg (pathFromUri (URI spec))
      RelationTypeAasxSupplementary in
  collectSupplementaries (parts pkg) rels.

Record SupplementaryRelationship := mkSupplementaryRelationship {
  Spec : Part;
  Supplementary : Part
}.

Fixpoint pairSupplementaries (pkg : PackageBase) (specs : list Part)
  : result (list SupplementaryRelationship) :=
  match specs with
  | [] => ret []
  | spec :: rest =>
      supplementaries <- SupplementariesFor pkg spec ;;
      more <- pairSupplementaries pkg rest ;;
      ret (map (mkSupplementaryRelationship spec) supplementaries ++ more)%list
  end.

Definition SupplementaryRelationships (pkg : PackageBase)
  : result (list SupplementaryRelationship) :=
  specs <- Specs pkg ;;
  pairSupplementaries pkg specs.

Definition FindPart (pkg : PackageBase) (uri : URL) : result (option Part) :=
  ret (JsMap.get (normalizeURI (Some uri)) (parts pkg)).

Definition MustPart (pkg : PackageBase) (uri : URL) : result Part :=
  found <- FindPart pkg uri ;;
  match found with
  | None => throw (ErrPartNotFound ++ ": " ++ pathFromUri uri)
  | Some part => ret part
  end.

Definition Thumbnail (pkg : PackageBase) : result (option Part) :=
  let rels := getRelationshipsByType pkg "" RelationTypeThumbnail in
  match rels with
  | [] => ret None
  | rel0 :: _ =>
      match JsMap.get (normalizePathForMap (target rel0)) (parts pkg) with
      | None =>
          throw ("thumbnail relationship exists but part not found: "
                 ++ target rel0)
      | Some part => ret (Some part)
      end
  end.

(** *** Read-write view *)

Definition PutPart (uri : URL) (contentType : string) (bytes : list byte)
  : M Part :=
  let normalized := normalizeURI (Some uri) in
  existing <-- gets (fun pkg => JsMap.get normalized (parts pkg)) ;;
  let part :=
    match existing with
    | Some found => mkPart (URI found) contentType bytes
    | None => mkPart uri contentType bytes
    end in
  modify (fun pkg => setParts pkg (JsMap.set normalized part (parts pkg))) ;;;;
  included <-- gets (fun pkg => JsMap.has normalized (parts pkg)) ;;
  lift (Ensure included "The part should be included in the package.") ;;;;
  mret part.

Definition DeletePart (part : Part) : M unit :=
  let normalized := normalizeURI (Some (URI part)) in
  modify (fun pkg => setParts pkg (JsMap.delete normalized (parts pkg))) ;;;;
  modify (fun pkg =>
    removeAllRelationshipsWithSourceOrTarget pkg (pathFromUri (URI part))) ;;;;
  present <-- gets (fun pkg => JsMap.has normalized (parts pkg)) ;;
  lift (Ensure (negb present)
          "The part should not exist in the package anymore.").

Definition isSpecOf (part : Part) (pkg : PackageBase) : bool :=
  hasRelationship pkg (originURI pkg) (pathFromUri (URI part))
    RelationTypeAasxSpec.

Definition MakeSpec (part : Part) : M unit :=
  isSpec <-- gets (isSpecOf part) ;;
  if isSpec then mret tt
  else
    modify (fun pkg =>
      snd (addRelationship pkg (originURI pkg) (pathFromUri (URI part))
             RelationTypeAasxSpec)).

Definition UnmakeSpec (part : Part) : M unit :=
  isSpec <-- gets (isSpecOf part) ;;
  lift (Require isSpec "The part fulfills the spec property.") ;;;;
  modify (fun pkg =>
    removeRelationship pkg (originURI pkg) (pathFromUri (URI part))
      RelationTypeAasxSpec) ;;;;
  modify (fun pkg =>
    setRelationships pkg
      (JsMap.delete (normalizeURI (Some (URI part))) (relationships pkg))).

Definition RelateSupplementaryToSpec (supplementary spec : Part) : M unit :=
  isSpec <-- gets (isSpecOf spec) ;;
  lift (Require isSpec "The part fulfills the spec property.") ;;;;
  related <-- gets (fun pkg =>
    hasRelationship pkg (pathFromUri (URI spec))
      (pathFromUri (URI supplementary)) RelationTypeAasxSupplementary) ;;
  if related then mret tt
  else
    modify (fun pkg =>
      snd (addRelationship pkg (pathFromUri (URI spec))
             (pathFromUri (URI supplementary)) RelationTypeAasxSupplementary)).

Definition UnrelateSupplementaryFromSpec (supplementary spec : Part) : M unit :=
  isSpec <-- gets (isSpecOf spec) ;;
  lift (Require isSpec "The part fulfills the spec property.") ;;;;
  modify (fun pkg =>
    removeRelationship pkg (pathFromUri (URI spec))
      (pathFromUri (URI supplementary)) RelationTypeAasxSupplementary).

(** The loop shared by [SetThumbnail] and [UnsetThumbnail]: the thumbnail
    edges are read once, then each one's target is removed in turn. *)
Definition removeThumbnails (pkg : PackageBase) : PackageBase :=
  let rels := getRelationshipsByType pkg "" RelationTypeThumbnail in
  fold_left
    (fun p rel => removeRelationship p "" (target rel) RelationTypeThumbnail)
    rels pkg.

Definition SetThumbnail (part : Part) : M unit :=
  modify removeThumbnails ;;;;
  modify (fun pkg =>
    snd (addRelationship pkg "" (pathFromUri (URI part)) RelationTypeThumbnail)).

Definition UnsetThumbnail : M unit := modify removeThumbnails.

(** *** Creation *)

Definition newPackageBase (p : string) (rw : bool) : PackageBase :=
  mkPackage [] [] "" 1 p rw.

Definition encodeUtf8 (value : string) : list byte := list_byte_of_string value.
Definition decodeUtf8 (value : list byte) : string := string_of_list_byte value.

Definition initializeNewPackage (pkg : PackageBase) : PackageBase :=
  let originUri := asPackageUrl "/aasx/aasx-origin" in
  let origin := mkPart originUri "text/plain" (encodeUtf8 "Intentionally empty.") in
  let pkg := setParts pkg (JsMap.set (normalizeURI (Some originUri)) origin (parts pkg)) in
  let pkg := setOriginURI pkg (normalizeURI (Some originUri)) in
  snd (addRelationship pkg "" (pathFromUri originUri) RelationTypeAasxOrigin).

(** [CreateInStream]; [Create] adds the check that [Specs] is empty. *)
Definition CreateInStream : PackageBase :=
  initializeNewPackage (newPackageBase "" true).

Definition Create (p : string) : result PackageBase :=
  let pkg := initializeNewPackage (newPackageBase p true) in
  specs <- Specs pkg ;;
  Ensure (List.length specs =? 0)%nat "Specs must be empty in a new package." ;;;
  ret pkg.

End Facade.

(** ** ContentTypeResolver and ContainerCodec *)

(** An [XmlNodeLike]: a child is a text node or an element; absent
    [attributes] and [children] are the empty lists. *)
Inductive XmlNodeLike : Type :=
| XmlNode (name : string) (attributes : list (string * string))
    (children : list XmlChild)
with XmlChild : Type :=
| XmlText (text : string)
| XmlElement (node : XmlNodeLike).

Definition xmlName (n : XmlNodeLike) : string :=
  match n with XmlNode name _ _ => name end.
Definition xmlAttributes (n : XmlNodeLike) : list (string * string) :=
  match n with XmlNode _ attributes _ => attributes end.
Definition xmlChildren (n : XmlNodeLike) : list XmlChild :=
  match n with XmlNode _ _ children => children end.

Definition OpcRelationshipNamespace :=
  "http://schemas.openxmlformats.org/package/2006/relationships".
Definition OpcContentTypesNamespace :=
  "http://schemas.openxmlformats.org/package/2006/content-types".

Definition newline : string := String (ascii_of_nat 10) EmptyString.

(** [!v] for a possibly undefined string. *)
Definition truthyOpt (v : option string) : bool :=
  match v with Some s => Js.truthy s | None => false end.

(** [v ?? d] *)
Definition orElse (v : option string) (d : string) : string :=
  match v with Some s => s | None => d end.

(** [xs.sort(compare)]: the sort is stable; each element is placed before
    the first element of the sorted rest it does not compare greater than. *)
Fixpoint insertSorted {A} (compare : A -> A -> Z) (x : A) (l : list A) : list A :=
  match l with
  | [] => [x]
  | y :: l' =>
      if (compare x y <=? 0)%Z then x :: l else y :: insertSorted compare x l'
  end.

Fixpoint sortBy {A} (compare : A -> A -> Z) (l : list A) : list A :=
  match l with
  | [] => []
  | x :: l' => insertSorted compare x (sortBy compare l')
  end.

(** The extension key of a path: [extName(p).replace('.', '').toLowerCase()] *)
Definition extKey (p : string) : string :=
  Js.toLowerCase (Js.removeFirst "." (extName p)).

(** One turn of the loop over the parts in [buildContentTypesXml]; the state
    is the pair of [extMap] and [overrides]. *)
Definition contentTypeStep (st : JsMap.t string * JsMap.t string) (part : Part)
  : JsMap.t string * JsMap.t string :=
  let '(extMap, overrides) := st in
  let p := pathFromUri (URI part) in
  let ext := extKey p in
  if negb (Js.truthy ext) then (extMap, JsMap.set p (ContentType part) overrides)
  else
    let existing := JsMap.get ext extMap in
    if truthyOpt existing
       && negb (String.eqb (orElse existing "") (ContentType part))
    then (extMap, JsMap.set p (ContentType part) overrides)
    else if negb (truthyOpt existing)
         then (JsMap.set ext (ContentType part) extMap, overrides)
         else (extMap, overrides).

Definition contentTypeTables (registry : JsMap.t Part)
  : JsMap.t string * JsMap.t string :=
  fold_left contentTypeStep (JsMap.values registry) ([], []).

Definition RelsContentType :=
  "application/vnd.openxmlformats-package.relationships+xml".

Definition defaultElement (item : string * string) : XmlChild :=
  XmlElement (XmlNode "Default"
         [("Extension", fst item); ("ContentType", snd item)] []).

Definition overrideElement (item : string * string) : XmlChild :=
  XmlElement (XmlNode "Override"
         [("PartName", fst item); ("ContentType", snd item)] []).

Definition relationshipElement (rel : Relationship) : XmlChild :=
  XmlElement (XmlNode "Relationship"
         ([("Id", id rel); ("Type", relType rel); ("Target", target rel)]
          ++ (if Js.truthy (targetMode rel)
                 && negb (String.eqb (targetMode rel) "Internal")
              then [("TargetMode", targetMode rel)] else []))%list
         []).

Definition relationshipsDocument (rels : list Relationship) : XmlNodeLike :=
  XmlNode "Relationships" [("xmlns", OpcRelationshipNamespace)]
    (map relationshipElement rels).

Section Codec.

Variable debug : bool.
Variable newURL : string -> URL.

(** [a.localeCompare(b)] *)
Variable localeCompare : string -> string -> Z.

(** [serializeXml(node, { pretty: true, xmlDeclaration: true })] and
    [parseXmlString] of the XML library; the parser throws on malformed
    input. *)
Variable serializeXml : XmlNodeLike -> string.
Variable parseXmlString : string -> result XmlNodeLike.

(** [zipSync(files, { level: 0 })] and [unzipSync] of the zip library.
    [zipSync] is the call on a record with the prototype [Object.prototype],
    given by its own properties; [zipReplaced] is the call on a record whose
    prototype was replaced.  [unzipSync] answers with the files of the
    archive, listed in the order of [Object.keys]. *)
Variable zipSync : JsMap.t (list byte) -> list byte.
Variable zipReplaced :
  JsMap.t (list byte) -> list byte -> list (string * list byte)
  -> result (list byte).
Variable unzipSync : list byte -> result (JsMap.t (list byte)).

Definition compareFst (l r : string * string) : Z :=
  localeCompare (fst l) (fst r).

(** The [defaults] and [overrideEntries] arrays of [buildContentTypesXml]. *)
Definition contentTypeDefaults (registry : JsMap.t Part)
  : list (string * string) :=
  ("rels", RelsContentType)
  :: sortBy compareFst (fst (contentTypeTables registry)).

Definition contentTypeOverrides (registry : JsMap.t Part)
  : list (string * string) :=
  sortBy compareFst (snd (contentTypeTables registry)).

Definition contentTypesDocument (registry : JsMap.t Part) : XmlNodeLike :=
  XmlNode "Types" [("xmlns", OpcContentTypesNamespace)]
    (map defaultElement (contentTypeDefaults registry)
     ++ map overrideElement (contentTypeOverrides registry))%list.

Definition buildContentTypesXml (registry : JsMap.t Part) : string :=
  serializeXml (contentTypesDocument registry) ++ newline.

Definition buildRelationshipsXml (rels : list Relationship) : string :=
  serializeXml (relationshipsDocument rels) ++ newline.

Definition parseRelationship (child : XmlChild)
  : list Relationship :=
  match child with
  | XmlText _ => []
  | XmlElement node =>
      if negb (String.eqb (xmlName node) "Relationship") then []
      else
        let attributes := xmlAttributes node in
        let rid := JsMap.get "Id" attributes in
        let rtype := JsMap.get "Type" attributes in
        let rtarget := JsMap.get "Target" attributes in
        if negb (truthyOpt rid) || negb (truthyOpt rtype)
           || negb (truthyOpt rtarget)
        then []
        else [mkRel (orElse rid "") (orElse rtype "") (orElse rtarget "")
                (orElse (JsMap.get "TargetMode" attributes) "Internal")]
  end.

Definition parseRelationshipsXml (xml : string) : result (list Relationship) :=
  root <- parseXmlString xml ;;
  if negb (String.eqb (xmlName root) "Relationships") then ret []
  else ret (flat_map parseRelationship (xmlChildren root)).

Definition parseDefault (child : XmlChild) : list (string * string) :=
  match child with
  | XmlText _ => []
  | XmlElement node =>
      if String.eqb (xmlName node) "Default" then
        let extension := JsMap.get "Extension" (xmlAttributes node) in
        let contentType := JsMap.get "ContentType" (xmlAttributes node) in
        if truthyOpt extension && truthyOpt contentType
        then [(orElse extension "", orElse contentType "")] else []
      else []
  end.

Definition parseOverride (child : XmlChild) : list (string * string) :=
  match child with
  | XmlText _ => []
  | XmlElement node =>
      if String.eqb (xmlName node) "Default" then []
      else if String.eqb (xmlName node) "Override" then
        let partName := JsMap.get "PartName" (xmlAttributes node) in
        let contentType := JsMap.get "ContentType" (xmlAttributes node) in
        if truthyOpt partName && truthyOpt contentType
        then [(orElse partName "", orElse contentType "")] else []
      else []
  end.

(** The result is the pair of the [defaults] and the [overrides] arrays. *)
Definition parseContentTypesXml (xml : string)
  : result (list (string * string) * list (string * string)) :=
  root <- parseXmlString xml ;;
  if negb (String.eqb (xmlName root) "Types") then ret ([], [])
  else ret (flat_map parseDefault (xmlChildren root),
            flat_map parseOverride (xmlChildren root)).

(** *** Encode *)

Definition contentTypePath := "[Content_Types].xml".

Definition writeRelationships (files : JsObject.t)
  (entry : string * list Relationship) : JsObject.t :=
  let '(sourcePath, rels) := entry in
  if (List.length rels =? 0)%nat then files
  else
    let relsPath := getRelsPath sourcePath in
    let relsXml := buildRelationshipsXml rels in
    JsObject.set (trimLeadingSlash relsPath) (encodeUtf8 relsXml) files.

Definition writePart (files : JsObject.t) (part : Part) : JsObject.t :=
  JsObject.set (trimLeadingSlash (pathFromUri (URI part))) (content part) files.

(** The [files] record handed to [zipSync]. *)
Definition packageFiles (pkg : PackageBase) : JsObject.t :=
  let files :=
    JsObject.set contentTypePath
      (encodeUtf8 (buildContentTypesXml (parts pkg))) JsObject.empty in
  let files := fold_left writeRelationships (relationships pkg) files in
  fold_left writePart (JsMap.values (parts pkg)) files.

Definition writeToBytes (pkg : PackageBase) : result (list byte) :=
  match packageFiles pkg with
  | JsObject.Plain own => ret (zipSync own)
  | JsObject.Replaced own prototype later => zipReplaced own prototype later
  end.

(** [Flush] returns the encoded bytes; handing them to the sink is I/O. *)
Definition Flush (pkg : PackageBase) : result (list byte) :=
  writeToBytes pkg.

(** *** Decode *)

Definition isRelsEntry (name : string) : bool :=
  Js.includes name "_rels/" && Js.endsWith name ".rels".

Definition loadRelationship (sourcePath : string) (pkg : PackageBase)
  (rel : Relationship) : PackageBase :=
  let targetPath := resolveRelativeURI sourcePath (target rel) in
  let pkg := snd (addRelationshipWithID pkg sourcePath targetPath (relType rel) (id rel)) in
  if String.eqb (relType rel) RelationTypeAasxOrigin && String.eqb sourcePath ""
  then setOriginURI pkg (normalizePathForMap targetPath)
  else pkg.

Fixpoint loadRelationships (entries : JsMap.t (list byte))
  (names : list string) (pkg : PackageBase) : result PackageBase :=
  match names with
  | [] => ret pkg
  | name :: rest =>
      if isRelsEntry name then
        let sourcePath := getSourcePathFromRelsPath name in
        rels <- parseRelationshipsXml
                  (decodeUtf8 (match JsMap.get name entries with
                               | Some b => b | None => [] end)) ;;
        loadRelationships entries rest
          (fold_left (loadRelationship sourcePath) rels pkg)
      else loadRelationships entries rest pkg
  end.

Definition loadPart (defaultTypes contentTypesMap : JsMap.t string)
  (entries : JsMap.t (list byte)) (pkg : PackageBase) (name : string)
  : PackageBase :=
  if String.eqb name contentTypePath || Js.includes name "_rels/"
     || Js.endsWith name "/"
  then pkg
  else
    let partPath := ensureLeadingSlash name in
    let normalized := normalizePathForMap partPath in
    let contentType := orElse (JsMap.get normalized contentTypesMap) "" in
    let contentType :=
      if negb (Js.truthy contentType) then
        let ext := extKey name in
        orElse (JsMap.get ext defaultTypes) "application/octet-stream"
      else contentType in
    let uri := asPackageUrl newURL partPath in
    setParts pkg
      (JsMap.set normalized
         (mkPart uri contentType
            (match JsMap.get name entries with Some b => b | None => [] end))
         (parts pkg)).

Definition loadContentTypes (entries : JsMap.t (list byte))
  : result (JsMap.t string * JsMap.t string) :=
  match JsMap.get contentTypePath entries with
  | None => ret ([], [])
  | Some doc =>
      parsed <- parseContentTypesXml (decodeUtf8 doc) ;;
      ret (fold_left
             (fun m item => JsMap.set (Js.toLowerCase (fst item)) (snd item) m)
             (fst parsed) [],
           fold_left
             (fun m item => JsMap.set (normalizePathForMap (fst item)) (snd item) m)
             (snd parsed) [])
  end.

(** The body of the [try] block of [openFromBytes]. *)
Definition openFromBytesTry (bytes : list byte) (p : string) (rw : bool)
  : result PackageBase :=
  entries <- unzipSync bytes ;;
  let pkg := newPackageBase p rw in
  tables <- loadContentTypes entries ;;
  let '(defaultTypes, contentTypesMap) := tables in
  pkg <- loadRelationships entries (JsMap.keys entries) pkg ;;
  if negb (Js.truthy (originURI pkg)) then throw ErrNoOriginPart
  else
    ret (fold_left (loadPart defaultTypes contentTypesMap entries)
           (JsMap.keys entries) pkg).

(** The [catch] block rethrows the missing-origin error and wraps every
    other one. *)
Definition openFromBytes (bytes : list byte) (p : string) (rw : bool)
  : result PackageBase :=
  match openFromBytesTry bytes p rw with
  | inr pkg => ret pkg
  | inl message =>
      if String.eqb message ErrNoOriginPart then throw message
      else throw (ErrInvalidFormat ++ ": " ++ message)
  end.

Definition OpenReadFromBytes (bytes : list byte) : result PackageBase :=
  openFromBytes bytes "" false.

Definition OpenReadWriteFromBytes (bytes : list byte) : result PackageBase :=
  openFromBytes bytes "" true.

End Codec.

(** ** Auxiliary notions used by the statements *)

(** A [Map] never holds a key twice. *)
Fixpoint uniqueKeys (ks : list string) : bool :=
  match ks with
  | [] => true
  | k :: ks' => negb (existsb (String.eqb k) ks') && uniqueKeys ks'
  end.

Definition wfMap {V} (m : JsMap.t V) : bool := uniqueKeys (JsMap.keys m).

Definition digitValue (c : ascii) : N :=
  let n := N_of_ascii c in
  if (n <? 58)%N then (n - 48)%N else (n - 87)%N.

Fixpoint hexValueFrom (acc : N) (s : string) : N :=
  match s with
  | EmptyString => acc
  | String c s' => hexValueFrom (16 * acc + digitValue c)%N s'
  end.

(** The number a string of lower-case hexadecimal digits denotes. *)
Definition hexValue (s : string) : N := hexValueFrom 0 s.

(** The number denoted by the digits of a relationship id. *)
Definition relIDValue (rid : string) : N := hexValue (Js.drop 1 rid).

(** Whether an edge of the root bucket survives the removal of the targets
    of [rels]. *)
Definition survivesThumbnailRemoval (rels : list Relationship)
  (r : Relationship) : bool :=
  forallb (fun rel =>
    negb (String.eqb (normalizePathForMap (target r))
            (normalizePathForMap (target rel))
          && String.eqb (relType r) RelationTypeThumbnail)) rels.

(** What [removeAllRelationshipsWithSourceOrTarget] leaves of a bucket, and
    of the buckets it loops over. *)
Definition sweptBucket (normalizedPath : string) (rels : list Relationship)
  : list Relationship :=
  filter (fun rel =>
    negb (String.eqb (normalizePathForMap (target rel)) normalizedPath)) rels.

Definition sweepAll (normalizedPath : string)
  (m : JsMap.t (list Relationship)) : JsMap.t (list Relationship) :=
  flat_map (fun entry =>
    if (List.length (sweptBucket normalizedPath (snd entry)) =? 0)%nat then []
    else [(fst entry, sweptBucket normalizedPath (snd entry))]) m.

(** Every part is registered under the canonical path of its own URI. *)
Definition registryKeyed (registry : JsMap.t Part) : bool :=
  forallb (fun entry =>
    String.eqb (fst entry) (normalizeURI (Some (URI (snd entry))))) registry.

(** The canonical path of a part. *)
Definition canonical (part : Part) : string := normalizeURI (Some (URI part)).

(** ** A sample package

    The [URL] constructor on a plain ASCII path in normal form keeps the
    path as the [pathname]. *)

Module Sample.

Definition origin := "https://package.local".

Definition plainURL (s : string) : URL :=
  mkURL (Js.drop (String.length origin) s) s.

Definition url (p : string) : URL := plainURL (origin ++ p).

Definition specUri := url "/aasx/spec.aas.xml".
Definition docUri := url "/aasx/doc.pdf".
Definition thumbUri := url "/aasx/thumb.png".

Definition spec := mkPart specUri "application/xml" (encodeUtf8 "<aas/>").
Definition doc := mkPart docUri "application/pdf" (encodeUtf8 "123").
Definition thumb := mkPart thumbUri "image/png" (encodeUtf8 "987").

(** A part that is never registered. *)
Definition ghost := mkPart (url "/aasx/ghost.xml") "application/xml" [].

Definition empty : PackageBase := CreateInStream plainURL.

(** The package of the round-trip test: three parts, a spec, a
    supplementary and a thumbnail. *)
Definition full : PackageBase :=
  exec (SetThumbnail thumb)
    (exec (RelateSupplementaryToSpec true doc spec)
       (exec (MakeSpec spec)
          (exec (PutPart true thumbUri "image/png" (encodeUtf8 "987"))
             (exec (PutPart true docUri "application/pdf" (encodeUtf8 "123"))
                (exec (PutPart true specUri "application/xml"
                         (encodeUtf8 "<aas/>"))
                   empty))))).

(** A package with a spec edge and a thumbnail edge to a part that is not
    registered. *)
Definition dangling : PackageBase :=
  exec (SetThumbnail ghost) (exec (MakeSpec ghost) empty).

End Sample.

(** ** The content-type tables, in the words of the specification *)

Definition partPath (part : Part) : string := pathFromUri (URI part).

(** The lower-cased, dot-stripped extension of a part; empty when the part
    has none. *)
Definition extensionOf (part : Part) : string := extKey (partPath part).

Definition hasExtension (e : string) (part : Part) : bool :=
  String.eqb (extensionOf part) e.

(** The extensions of the parts, in the order they are first seen. *)
Definition extensionsSeen (seen : list Part) : list string :=
  fold_left
    (fun acc part =>
       let e := extensionOf part in
       if Js.truthy e && negb (existsb (String.eqb e) acc)
       then (acc ++ [e])%list else acc)
    seen [].

(** The default of an extension after the parts [seen]: the content type of
    the first part with that extension and a non-empty content type; the
    empty string while every part seen with the extension has an empty
    content type. *)
Definition typedDefault (seen : list Part) (e : string) : option string :=
  match find (fun p => hasExtension e p && Js.truthy (ContentType p)) seen with
  | Some p => Some (ContentType p)
  | None => if existsb (hasExtension e) seen then Some "" else None
  end.

(** A part becomes an override when it has no extension, or when the parts
    seen before it gave its extension a non-empty default that differs from
    its content type. *)
Definition isOverride (seen : list Part) (part : Part) : bool :=
  negb (Js.truthy (extensionOf part))
  || match typedDefault seen (extensionOf part) with
     | Some d => Js.truthy d && negb (String.eqb d (ContentType part))
     | None => false
     end.

Definition specDefaults (seen : list Part) : list (string * string) :=
  map (fun e => (e, orElse (typedDefault seen e) "")) (extensionsSeen seen).

Definition overrideStep (st : list Part * list (string * string)) (part : Part)
  : list Part * list (string * string) :=
  ((fst st ++ [part])%list,
   if isOverride (fst st) part
   then (snd st ++ [(partPath part, ContentType part)])%list
   else snd st).

Definition specOverrides (seen : list Part) : list (string * string) :=
  snd (fold_left overrideStep seen ([], [])).

(** The reading of the claim as stated: the default is the content type of
    the first part seen with the extension. *)
Definition firstDefault (seen : list Part) (e : string) : option string :=
  option_map ContentType (find (hasExtension e) seen).

(** [a] sorts before or with [b]. *)
Definition sortsBefore (compare : string -> string -> Z)
  (a b : string * string) : Prop :=
  (compare (fst a) (fst b) <= 0)%Z.

(** The code-unit order of strings, as a comparison function. *)
Definition ordinalCompare (a b : string) : Z :=
  match String.compare a b with
  | Lt => (-1)%Z
  | Eq => 0%Z
  | Gt => 1%Z
  end.

Module Sample8.

Definition plain := mkPart (Sample.url "/aasx/x.txt") "" [].
Definition typed := mkPart (Sample.url "/aasx/y.txt") "text/plain" [].

(** A registry whose first part with extension [txt] has the empty content
    type. *)
Definition registry : JsMap.t Part :=
  [("/aasx/x.txt", plain); ("/aasx/y.txt", typed)].

End Sample8.

(** An entry of an archive holds no origin relationship of the package
    root: it is no relationship document of the root, or none of its
    relationships has the origin type. *)
Definition noRootOrigin (sourcePath : string) (rels : list Relationship) : bool :=
  negb (String.eqb sourcePath "")
  || forallb (fun rel => negb (String.eqb (relType rel) RelationTypeAasxOrigin))
       rels.

(** A zip library that rejects everything but the empty archive, and an XML
    parser that rejects everything. *)
Module SampleCodec.

Definition unzipSync (bytes : list byte) : result (JsMap.t (list byte)) :=
  match bytes with
  | [] => inr []
  | _ => inl "invalid zip data"
  end.

Definition parseXmlString (xml : string) : result XmlNodeLike :=
  inl "unexpected end of input".

End SampleCodec.

(** ** Round trip: operations, views and the packages that survive it *)

Inductive Operation : Type :=
| OpPutPart (uri : URL) (contentType : string) (bytes : list byte)
| OpMakeSpec (part : Part)
| OpRelateSupplementaryToSpec (supplementary spec : Part)
| OpSetThumbnail (part : Part).

Definition perform (debug : bool) (op : Operation) : M unit :=
  match op with
  | OpPutPart uri contentType bytes =>
      PutPart debug uri contentType bytes ;;;; mret tt
  | OpMakeSpec part => MakeSpec part
  | OpRelateSupplementaryToSpec supplementary spec =>
      RelateSupplementaryToSpec debug supplementary spec
  | OpSetThumbnail part => SetThumbnail part
  end.

(** A sequence of calls; a call that throws leaves the state it found, and
    the caller goes on. *)
Definition performAll (debug : bool) (ops : list Operation)
  (pkg : PackageBase) : PackageBase :=
  fold_left (fun p op => exec (perform debug op) p) ops pkg.

Definition mapResult {A B} (f : A -> B) (r : result A) : result B :=
  match r with
  | inl e => inl e
  | inr a => inr (f a)
  end.

(** A logical part: its path and its content type. *)
Definition partView (part : Part) : string * string :=
  (partPath part, ContentType part).

Definition specsView (pkg : PackageBase) : result (list (string * string)) :=
  mapResult (map partView) (Specs pkg).

Definition supplementaryView (pkg : PackageBase)
  : result (list ((string * string) * (string * string))) :=
  mapResult
    (map (fun r => (partView (Spec r), partView (Supplementary r))))
    (SupplementaryRelationships pkg).

Definition thumbnailView (pkg : PackageBase) : result (option (string * string)) :=
  mapResult (option_map partView) (Thumbnail pkg).

(** A path [PutPart] may store: it starts with one slash, ends with a slash
    only if it is the root, does not hold [_rels/], and is neither the path
    of the content-types document nor the path whose entry name,
    [__proto__], replaces the prototype of the writer's record. *)
Definition plainPath (p : string) : bool :=
  Js.startsWith p "/"
  && negb (Js.startsWith p "//")
  && (String.eqb p "/" || negb (Js.endsWith p "/"))
  && negb (Js.includes p "_rels/")
  && negb (String.eqb p "/[Content_Types].xml")
  && negb (String.eqb p "/__proto__").

(** The path of the target of a relationship: absolute, without
    backslash. *)
Definition plainTarget (t : string) : bool :=
  Js.startsWith t "/" && negb (Js.includes t "\").

(** The path of the source of a relationship: its key is not the root path
    and does not lie in the directory [/_rels]. *)
Definition plainSource (s : string) : bool :=
  negb (String.eqb (normalizePathForMap s) "/")
  && negb (String.eqb (dirName (normalizePathForMap s)) "/_rels").

Definition plainOperation (op : Operation) : bool :=
  match op with
  | OpPutPart uri contentType _ =>
      plainPath (pathFromUri uri) && Js.truthy contentType
  | OpMakeSpec part => plainTarget (pathFromUri (URI part))
  | OpRelateSupplementaryToSpec supplementary spec =>
      plainTarget (pathFromUri (URI supplementary))
      && plainSource (pathFromUri (URI spec))
  | OpSetThumbnail part => plainTarget (pathFromUri (URI part))
  end.

(** The key of a bucket that is not the root's. *)
Definition sourceKey (k : string) : bool :=
  String.eqb (normalizePath k) k
  && negb (String.eqb k "/")
  && String.eqb (Js.toLowerCase k) k
  && negb (String.eqb (dirName k) "/_rels").

Definition plainRelationship (rel : Relationship) : bool :=
  Js.truthy (id rel) && Js.truthy (relType rel)
  && Js.startsWith (target rel) "/" && negb (Js.includes (target rel) "\")
  && String.eqb (targetMode rel) "Internal".

Record RoundTrippable (pkg : PackageBase) : Prop := {
  rt_parts_wf : wfMap (parts pkg) = true;
  rt_rels_wf : wfMap (relationships pkg) = true;
  rt_parts : forall k part, In (k, part) (parts pkg) ->
    plainPath (partPath part) = true
    /\ Js.truthy (ContentType part) = true
    /\ k = normalizePathForMap (partPath part);
  rt_keys : forall k rels, In (k, rels) (relationships pkg) ->
    k = "" \/ sourceKey k = true;
  rt_rels : forall k rels rel, In (k, rels) (relationships pkg) ->
    In rel rels -> plainRelationship rel = true;
  rt_origin : sourceKey (originURI pkg) = true;
  rt_root : exists rel,
    In rel (bucket pkg "") /\ relType rel = RelationTypeAasxOrigin;
  rt_root_origin : forall rel, In rel (bucket pkg "") ->
    relType rel = RelationTypeAasxOrigin ->
    normalizePathForMap (target rel) = originURI pkg
}.

(** Two packages in which every lookup gives the same answer. *)
Definition sameLookups (pkg pkg' : PackageBase) : Prop :=
  (forall k, JsMap.get k (parts pkg') = JsMap.get k (parts pkg))
  /\ (forall k, JsMap.get k (relationships pkg')
                = JsMap.get k (relationships pkg))
  /\ originURI pkg' = originURI pkg.

(** The element children of a node, by name and attributes. *)
Definition elementsOf (children : list XmlChild)
  : list (string * list (string * string)) :=
  flat_map (fun child =>
    match child with
    | XmlText _ => []
    | XmlElement node => [(xmlName node, xmlAttributes node)]
    end) children.

(** The parser reads [doc'] where [doc] was written: the same root and the
    same elements under it, whatever text the pretty-printer put between
    them. *)
Definition sameDocument (doc doc' : XmlNodeLike) : Prop :=
  xmlName doc' = xmlName doc
  /\ elementsOf (xmlChildren doc') = elementsOf (xmlChildren doc).

Definition nonEmptyBuckets (m : JsMap.t (list Relationship))
  : JsMap.t (list Relationship) :=
  filter (fun entry => negb (List.length (snd entry) =? 0)%nat) m.

Section Written.
Variable localeCompare : string -> string -> Z.

(** The XML documents [writeToBytes] puts into the archive. *)
Definition writtenDocuments (pkg : PackageBase) : list XmlNodeLike :=
  contentTypesDocument localeCompare (parts pkg)
  :: map (fun entry => relationshipsDocument (snd entry))
       (nonEmptyBuckets (relationships pkg)).

End Written.

(** ** A table-driven codec for the examples

    The serializer prints a root and its element children; the parser knows
    the documents of one package and rejects every other text; the archive
    of that package is the only one the zip library opens. *)

Module Table.

Definition printAttributes (attributes : list (string * string)) : string :=
  String.concat ""
    (map (fun a => " " ++ fst a ++ "='" ++ snd a ++ "'") attributes).

Definition printChild (child : XmlChild) : string :=
  match child with
  | XmlText text => text
  | XmlElement node =>
      "<" ++ xmlName node ++ printAttributes (xmlAttributes node) ++ "/>"
  end.

Definition serializeXml (doc : XmlNodeLike) : string :=
  "<" ++ xmlName doc ++ printAttributes (xmlAttributes doc) ++ ">"
  ++ String.concat "" (map printChild (xmlChildren doc))
  ++ "</" ++ xmlName doc ++ ">".

Definition parseXmlString (docs : list XmlNodeLike) (xml : string)
  : result XmlNodeLike :=
  match find (fun doc => String.eqb (serializeXml doc ++ newline) xml) docs with
  | Some doc => inr doc
  | None => inl "malformed document"
  end.

Definition zipSync (files : JsMap.t (list byte)) : list byte := [].

Definition zipReplaced (own : JsMap.t (list byte)) (prototype : list byte)
  (later : list (string * list byte)) : result (list byte) :=
  inl "the record is not a dictionary".

Definition unzipSync (files : JsMap.t (list byte)) (bytes : list byte)
  : result (JsMap.t (list byte)) :=
  match bytes with
  | [] => inr files
  | _ => inl "invalid zip data"
  end.

End Table.

Module Sample1.

(** A part in a directory whose name ends in [_rels]. *)
Definition uri := Sample.url "/my_rels/a.xml".
Definition part := mkPart uri "application/xml" (encodeUtf8 "<aas/>").

Definition ops : list Operation :=
  [OpPutPart uri "application/xml" (encodeUtf8 "<aas/>"); OpMakeSpec part].

Definition pkg : PackageBase := performAll true ops Sample.empty.

Definition files : JsMap.t (list byte) :=
  JsObject.own (packageFiles ordinalCompare Table.serializeXml pkg).

Definition reopen (pkg : PackageBase) : result PackageBase :=
  bytes <- Flush ordinalCompare Table.serializeXml Table.zipSync
             Table.zipReplaced pkg ;;
  OpenReadFromBytes Sample.plainURL
    (Table.parseXmlString (writtenDocuments ordinalCompare pkg))
    (Table.unzipSync
       (JsObject.own (packageFiles ordinalCompare Table.serializeXml pkg)))
    bytes.

Definition reopened : result PackageBase := reopen pkg.

(** The operations of the round-trip test. *)
Definition fullOps : list Operation :=
  [OpPutPart Sample.specUri "application/xml" (encodeUtf8 "<aas/>");
   OpPutPart Sample.docUri "application/pdf" (encodeUtf8 "123");
   OpPutPart Sample.thumbUri "image/png" (encodeUtf8 "987");
   OpMakeSpec Sample.spec;
   OpRelateSupplementaryToSpec Sample.doc Sample.spec;
   OpSetThumbnail Sample.thumb].

(** The same operations on a spec whose path has capital letters and an
    empty segment. *)
Definition mixedUri := Sample.url "/AASX//Spec.AAS.xml".
Definition mixedSpec := mkPart mixedUri "application/xml" (encodeUtf8 "<aas/>").

Definition mixedOps : list Operation :=
  [OpPutPart mixedUri "application/xml" (encodeUtf8 "<aas/>");
   OpPutPart Sample.docUri "application/pdf" (encodeUtf8 "123");
   OpPutPart Sample.thumbUri "image/png" (encodeUtf8 "987");
   OpMakeSpec mixedSpec;
   OpRelateSupplementaryToSpec Sample.doc mixedSpec;
   OpSetThumbnail Sample.thumb].

(** A spec stored with the empty content type. *)
Definition untypedUri := Sample.url "/aasx/data.bin".
Definition untypedPart := mkPart untypedUri "" (encodeUtf8 "<aas/>").

Definition untypedOps : list Operation :=
  [OpPutPart untypedUri "" (encodeUtf8 "<aas/>"); OpMakeSpec untypedPart].

Definition untyped : PackageBase := performAll true untypedOps Sample.empty.

Definition untypedFiles : JsMap.t (list byte) :=
  JsObject.own (packageFiles ordinalCompare Table.serializeXml untyped).

Definition untypedReopened : result PackageBase := reopen untyped.

(** A spec stored under a path that ends with a slash. *)
Definition folderUri := Sample.url "/aasx/data/".
Definition folderPart := mkPart folderUri "application/xml" (encodeUtf8 "<aas/>").

Definition folderOps : list Operation :=
  [OpPutPart folderUri "application/xml" (encodeUtf8 "<aas/>");
   OpMakeSpec folderPart].

Definition folder : PackageBase := performAll true folderOps Sample.empty.

Definition folderReopened : result PackageBase := reopen folder.

(** A part whose archive entry would be named [__proto__]. *)
Definition protoUri := Sample.url "/__proto__".
Definition protoPart := mkPart protoUri "application/xml" (encodeUtf8 "<aas/>").

Definition protoOps : list Operation :=
  [OpPutPart protoUri "application/xml" (encodeUtf8 "<aas/>");
   OpMakeSpec protoPart].

Definition proto : PackageBase := performAll true protoOps Sample.empty.

End Sample1.

(** ** Segments *)

(** Whether the character [c] occurs in [s]. *)
Fixpoint occurs (c : ascii) (s : string) : bool :=
  match s with
  | EmptyString => false
  | String x s' => Ascii.eqb x c || occurs c s'
  end.

(** A segment of a path in normal form. *)
Definition goodSegment (s : string) : Prop :=
  Js.truthy s = true /\ occurs "/" s = false /\ s <> "." /\ s <> "..".

(** The path with the given segments. *)
Definition pathOf (segments : list string) : string :=
  "/" ++ Js.join "/" segments.

(** The directory part of [a ++ "/" ++ base]. *)
Definition dirOf (segments : list string) : string :=
  match segments with
  | [] => ""
  | _ => pathOf segments
  end.

(** The archive entry that holds the relationships of the bucket [k]. *)
Definition relsName (k : string) : string := trimLeadingSlash (getRelsPath k).

(** The archive entries of a bucket and of a part. *)
Definition relsFile (serializeXml : XmlNodeLike -> string)
  (entry : string * list Relationship) : string * list byte :=
  (relsName (fst entry),
   encodeUtf8 (buildRelationshipsXml serializeXml (snd entry))).

Definition partName (part : Part) : string := trimLeadingSlash (partPath part).

Definition partFile (part : Part) : string * list byte :=
  (partName part, content part).

(** The files of the archive of a package: the content-types document, one
    relationship document per non-empty bucket and the parts. *)
Definition archiveFiles (localeCompare : string -> string -> Z)
  (serializeXml : XmlNodeLike -> string) (pkg : PackageBase)
  : JsMap.t (list byte) :=
  ((contentTypePath,
    encodeUtf8 (buildContentTypesXml localeCompare serializeXml (parts pkg)))
   :: map (relsFile serializeXml) (nonEmptyBuckets (relationships pkg))
   ++ map partFile (JsMap.values (parts pkg)))%list.

(** An entry of a content-type table the reader keeps. *)
Definition bothTruthy (item : string * string) : Prop :=
  Js.truthy (fst item) = true /\ Js.truthy (snd item) = true.

(** The tables the reader builds from the content-types document of a
    registry. *)
Definition readDefaultTypes (localeCompare : string -> string -> Z)
  (registry : JsMap.t Part) : JsMap.t string :=
  fold_left (fun m item => JsMap.set (Js.toLowerCase (fst item)) (snd item) m)
    (contentTypeDefaults localeCompare registry) [].

Definition readContentTypesMap (localeCompare : string -> string -> Z)
  (registry : JsMap.t Part) : JsMap.t string :=
  fold_left
    (fun m item => JsMap.set (normalizePathForMap (fst item)) (snd item) m)
    (contentTypeOverrides localeCompare registry) [].

(** A part as the reader registers it: the URI is built anew from the
    path. *)
Definition loaded (newURL : string -> URL) (part : Part) : Part :=
  mkPart (asPackageUrl newURL (partPath part)) (ContentType part)
    (content part).

(** The package the reader builds from the archive of [pkg]. *)
Definition reopenedPackage (newURL : string -> URL) (pkg : PackageBase)
  (p : string) (rw : bool) : PackageBase :=
  mkPackage
    (map (fun entry => (fst entry, loaded newURL (snd entry))) (parts pkg))
    (nonEmptyBuckets (relationships pkg))
    (originURI pkg) 1 p rw.

Definition isOrigin (rel : Relationship) : bool :=
  String.eqb (relType rel) RelationTypeAasxOrigin.

(** A pair of parts as the reader registers them. *)
Definition loadedPair (newURL : string -> URL) (r : SupplementaryRelationship)
  : SupplementaryRelationship :=
  mkSupplementaryRelationship (loaded newURL (Spec r))
    (loaded newURL (Supplementary r)).

(** ** Further operations of the facade *)

(** *** [PutPartFromStream]

    The reader is given by the answers of [reader.read()] that come before
    the one with [done] set: each is a chunk, or carries no [value]. *)

Definition readChunks (answers : list (option (list byte)))
  : list (list byte) :=
  fold_left
    (fun chunks value =>
       match value with
       | Some chunk => (chunks ++ [chunk])%list
       | None => chunks
       end)
    answers [].

(** [chunks.reduce((sum, chunk) => sum + chunk.length, 0)] *)
Definition totalLength (chunks : list (list byte)) : nat :=
  fold_left (fun sum chunk => sum + List.length chunk)%nat chunks 0%nat.

(** [merged.set(chunk, offset)]: a chunk that does not fit raises. *)
Definition typedArraySet (merged chunk : list byte) (offset : nat)
  : result (list byte) :=
  if (offset + List.length chunk <=? List.length merged)%nat
  then ret (firstn offset merged ++ chunk
            ++ skipn (offset + List.length chunk) merged)%list
  else throw "RangeError: offset is out of bounds".

Definition mergeStep (state : result (list byte * nat)) (chunk : list byte)
  : result (list byte * nat) :=
  st <- state ;;
  merged <- typedArraySet (fst st) chunk (snd st) ;;
  ret (merged, (snd st + List.length chunk)%nat).

Definition mergeChunks (chunks : list (list byte)) : result (list byte) :=
  let total := totalLength chunks in
  let merged := repeat x00 total in
  st <- fold_left mergeStep chunks (ret (merged, 0%nat)) ;;
  ret (fst st).

Definition PutPartFromStream (debug : bool) (uri : URL) (contentType : string)
  (answers : list (option (list byte))) : M Part :=
  merged <-- lift (mergeChunks (readChunks answers)) ;;
  PutPart debug uri contentType merged.

(** *** [SpecsByContentType]

    The answer is an object used as a map from content type to parts.  A
    key that names a property every object inherits is never created:
    [??=] finds the inherited value and [push] fails on it.  The entries
    stand in the order of their creation; the order in which the object
    enumerates its keys is not modelled -- each group is sorted on its own,
    and a group is found by its key. *)

Section Grouping.
Variable localeCompare : string -> string -> Z.

(** The property names an object literal inherits. *)
Variable inherited : string -> bool.

Definition groupSpec (state : result (JsMap.t (list Part))) (spec : Part)
  : result (JsMap.t (list Part)) :=
  grouped <- state ;;
  match JsMap.get (ContentType spec) grouped with
  | Some group =>
      ret (JsMap.set (ContentType spec) (group ++ [spec])%list grouped)
  | None =>
      if inherited (ContentType spec)
      then throw "grouped[spec.ContentType].push is not a function"
      else ret (JsMap.set (ContentType spec) [spec] grouped)
  end.

Definition comparePaths (left right : Part) : Z :=
  localeCompare (pathFromUri (URI left)) (pathFromUri (URI right)).

Definition SpecsByContentType (pkg : PackageBase)
  : result (JsMap.t (list Part)) :=
  specs <- Specs pkg ;;
  grouped <- fold_left groupSpec specs (ret []) ;;
  ret (map (fun entry => (fst entry, sortBy comparePaths (snd entry)))
         grouped).

End Grouping.

(** The specs of a content type, in the order [Specs] lists them. *)
Definition specsOfType (contentType : string) (specs : list Part)
  : list Part :=
  filter (fun spec => String.eqb (ContentType spec) contentType) specs.

(** [left] sorts before or with [right]. *)
Definition pathSortsBefore (localeCompare : string -> string -> Z)
  (left right : Part) : Prop :=
  (comparePaths localeCompare left right <= 0)%Z.

(** ** Reading back what was written *)

(** What the reader makes of a relationship the writer has written: none
    when the id, the type or the target is empty; a target mode that is
    empty reads as [Internal]. *)
Definition readBack (rel : Relationship) : list Relationship :=
  if Js.truthy (id rel) && Js.truthy (relType rel) && Js.truthy (target rel)
  then [mkRel (id rel) (relType rel) (target rel)
          (if Js.truthy (targetMode rel) then targetMode rel else "Internal")]
  else [].

(** The entries of a content-type table the reader keeps. *)
Definition keptItems (items : list (string * string)) : list (string * string) :=
  filter (fun item => Js.truthy (fst item) && Js.truthy (snd item)) items.

Module SampleXml.

(** A relationship to an external target, and one without a target. *)
Definition external :=
  mkRel "R1" RelationTypeAasxSupplementary "/aasx/doc.pdf" "External".
Definition untargeted := mkRel "R2" RelationTypeAasxSupplementary "" "Internal".

Definition rels : list Relationship := [external; untargeted].

Definition parseXmlString : string -> result XmlNodeLike :=
  Table.parseXmlString
    [relationshipsDocument rels;
     contentTypesDocument ordinalCompare (parts Sample1.untyped)].

End SampleXml.

(** ** What holds of a package while the reader builds it *)

(** A relationship as the reader stores it. *)
Definition loadedEdge (rel : Relationship) : bool :=
  String.eqb (targetMode rel) "Internal"
  && Js.startsWith (target rel) "/"
  && Js.truthy (id rel) && Js.truthy (relType rel).

Record Loaded (p : string) (rw : bool) (pkg : PackageBase) : Prop := {
  ld_path : path pkg = p;
  ld_readWrite : readWrite pkg = rw;
  ld_parts : wfMap (parts pkg) = true;
  ld_relationships : wfMap (relationships pkg) = true;
  ld_types : forall k part, In (k, part) (parts pkg) ->
    Js.truthy (ContentType part) = true
    /\ normalizePathForMap k = k /\ k <> "";
  ld_edges : forall k rels, In (k, rels) (relationships pkg) ->
    rels <> [] /\ normalizePathForMap k = k
    /\ forall rel, In rel rels -> loadedEdge rel = true
}.

(** The property names an object literal inherits from [Object.prototype]. *)
Definition inheritedName (key : string) : bool :=
  existsb (String.eqb key)
    ["constructor"; "__defineGetter__"; "__defineSetter__"; "hasOwnProperty";
     "__lookupGetter__"; "__lookupSetter__"; "isPrototypeOf";
     "propertyIsEnumerable"; "toString"; "valueOf"; "__proto__";
     "toLocaleString"].

(** ** The spellings of one path *)

(** A segment that names a file or a directory. *)
Definition properSegment (s : string) : Prop :=
  Js.truthy s = true /\ s <> "." /\ s <> "..".

Definition slashFree (segments : list string) : Prop :=
  Forall (fun segment => occurs "/" segment = false) segments.

(** The key [normalizeURI] computes from the path of a URL. *)
Definition keyOfPath (value : string) : string :=
  normalizePathForMap (if Js.startsWith value "/" then value else "/" ++ value).

(** The spellings the canonical path does not tell apart, as the
    specification words them: the case of the letters, the leading slash, a
    [.] segment or an empty segment anywhere, and a segment that the [..]
    after it takes back. *)
Inductive sameCanonicalPath : string -> string -> Prop :=
| same_case p q :
    Js.toLowerCase p = Js.toLowerCase q -> sameCanonicalPath p q
| same_leading_slash p :
    Js.startsWith p "/" = false -> sameCanonicalPath p ("/" ++ p)
| same_dot before after :
    slashFree before -> slashFree after ->
    sameCanonicalPath (pathOf (before ++ "." :: after))
      (pathOf (before ++ after))
| same_empty before after :
    slashFree before -> slashFree after ->
    sameCanonicalPath (pathOf (before ++ "" :: after))
      (pathOf (before ++ after))
| same_dotdot before segment after :
    slashFree before -> slashFree after ->
    occurs "/" segment = false -> properSegment segment ->
    sameCanonicalPath (pathOf (before ++ segment :: ".." :: after))
      (pathOf (before ++ after))
| same_sym p q : sameCanonicalPath p q -> sameCanonicalPath q p
| same_trans p q r :
    sameCanonicalPath p q -> sameCanonicalPath q r -> sameCanonicalPath p r.

(** ** An archive with a space in an entry name

    The platform's [URL] constructor writes a space of the path as [%20]:
    [new URL('https://package.local/aasx/my spec.xml').pathname] is
    ['/aasx/my%20spec.xml']. *)

Module SampleSpace.

Fixpoint encodeSpaces (s : string) : string :=
  match s with
  | EmptyString => EmptyString
  | String c s' =>
      if Ascii.eqb c " " then "%20" ++ encodeSpaces s'
      else String c (encodeSpaces s')
  end.

Definition newURL (s : string) : URL :=
  let p := encodeSpaces (Js.drop (String.length Sample.origin) s) in
  mkURL p (Sample.origin ++ p).

Definition rootRels : list Relationship :=
  [mkRel "R1" RelationTypeAasxOrigin "/aasx/aasx-origin" "Internal"].

Definition originRels : list Relationship :=
  [mkRel "R2" RelationTypeAasxSpec "/aasx/my spec.xml" "Internal"].

Definition specRels : list Relationship :=
  [mkRel "R3" RelationTypeAasxSupplementary "/aasx/doc.pdf" "Internal"].

Definition contentTypes : XmlNodeLike :=
  XmlNode "Types" [("xmlns", OpcContentTypesNamespace)]
    [XmlElement (XmlNode "Default"
       [("Extension", "rels"); ("ContentType", RelsContentType)] []);
     XmlElement (XmlNode "Default"
       [("Extension", "xml"); ("ContentType", "application/xml")] []);
     XmlElement (XmlNode "Default"
       [("Extension", "pdf"); ("ContentType", "application/pdf")] []);
     XmlElement (XmlNode "Override"
       [("PartName", "/aasx/aasx-origin"); ("ContentType", "text/plain")] [])].

Definition documents : list XmlNodeLike :=
  [contentTypes; relationshipsDocument rootRels;
   relationshipsDocument originRels; relationshipsDocument specRels].

Definition document (doc : XmlNodeLike) : list byte :=
  encodeUtf8 (Table.serializeXml doc ++ newline).

(** The entries of the archive: the part [aasx/my spec.xml] is a spec, and
    the relationships stored for the source [/aasx/my%20spec.xml] give it
    the supplementary [aasx/doc.pdf]. *)
Definition entries : JsMap.t (list byte) :=
  [("[Content_Types].xml", document contentTypes);
   ("_rels/.rels", document (relationshipsDocument rootRels));
   ("aasx/aasx-origin", encodeUtf8 "Intentionally empty.");
   ("aasx/_rels/aasx-origin.rels", document (relationshipsDocument originRels));
   ("aasx/my spec.xml", encodeUtf8 "<aas/>");
   ("aasx/_rels/my%20spec.xml.rels", document (relationshipsDocument specRels));
   ("aasx/doc.pdf", encodeUtf8 "123")].

Definition opened : result PackageBase :=
  OpenReadWriteFromBytes newURL (Table.parseXmlString documents)
    (Table.unzipSync entries) [].

(** The same archive with the relationships of the spec stored under the
    name of its entry, [aasx/_rels/my spec.xml.rels]. *)
Definition entriesByName : JsMap.t (list byte) :=
  [("[Content_Types].xml", document contentTypes);
   ("_rels/.rels", document (relationshipsDocument rootRels));
   ("aasx/aasx-origin", encodeUtf8 "Intentionally empty.");
   ("aasx/_rels/aasx-origin.rels", document (relationshipsDocument originRels));
   ("aasx/my spec.xml", encodeUtf8 "<aas/>");
   ("aasx/_rels/my spec.xml.rels", document (relationshipsDocument specRels));
   ("aasx/doc.pdf", encodeUtf8 "123")].

Definition openedByName : result PackageBase :=
  OpenReadWriteFromBytes newURL (Table.parseXmlString documents)
    (Table.unzipSync entriesByName) [].

Definition spec : Part :=
  mkPart (newURL "https://package.local/aasx/my spec.xml") "application/xml"
    (encodeUtf8 "<aas/>").

Definition doc : Part :=
  mkPart (newURL "https://package.local/aasx/doc.pdf") "application/pdf"
    (encodeUtf8 "123").

End SampleSpace.

(** * Properties *)

(** ** The path resolver on sample paths *)

Example normalizePath_dots :
  normalizePath "/a/./b/../C//d/" = "/a/C/d".
Proof. reflexivity. Qed.

Example normalizePathForMap_case :
  normalizePathForMap "AASX/Spec.AAS.xml" = "/aasx/spec.aas.xml".
Proof. reflexivity. Qed.

Example getRelsPath_origin :
  getRelsPath "/aasx/aasx-origin" = "/aasx/_rels/aasx-origin.rels".
Proof. reflexivity. Qed.

Example getSourcePath_origin :
  getSourcePathFromRelsPath "aasx/_rels/aasx-origin.rels" = "/aasx/aasx-origin".
Proof. reflexivity. Qed.

Example getSourcePath_root :
  getSourcePathFromRelsPath "_rels/.rels" = ""
  /\ getSourcePathFromRelsPath "_rels/spec.xml.rels" = "/spec.xml".
Proof. split; reflexivity. Qed.

Example extName_samples :
  extName "/aasx/a.XML" = ".XML" /\ extName "/aasx/.hidden" = ""
  /\ extName "/aasx/origin" = "" /\ extName "/a.b/c" = "".
Proof. repeat split; reflexivity. Qed.

Example toString16_samples :
  Js.toString16 0 = "0" /\ Js.toString16 255 = "ff"
  /\ Js.padStart0 8 (Js.toString16 26) = "0000001a"
  /\ Js.toString16 (2 ^ 32) = "100000000".
Proof. repeat split; reflexivity. Qed.

(** ** Reading hexadecimal ids back *)

Lemma digitValue_hexDigit d : (d < 16)%N -> digitValue (Js.hexDigit d) = d.
Proof.
  intros H.
  assert (E : (N.to_nat d < 16)%nat) by lia.
  rewrite <- (N2Nat.id d).
  revert E. generalize (N.to_nat d) as k. intros k E.
  do 16 (destruct k as [|k]; [reflexivity|]).
  lia.
Qed.

Lemma hexValueFrom_shift s : forall acc,
  hexValueFrom acc s = (acc * 16 ^ N.of_nat (String.length s) + hexValue s)%N.
Proof.
  unfold hexValue.
  induction s as [|c s IH]; intros acc; cbn [hexValueFrom String.length].
  - cbn. lia.
  - rewrite IH. rewrite (IH (16 * 0 + digitValue c)%N).
    rewrite Nat2N.inj_succ, N.pow_succ_r'. lia.
Qed.

Lemma hexValue_cons c s :
  hexValue (String c s)
  = (digitValue c * 16 ^ N.of_nat (String.length s) + hexValue s)%N.
Proof.
  unfold hexValue at 1. simpl. rewrite hexValueFrom_shift. lia.
Qed.

Lemma hexValue_hexDigits fuel : forall n acc,
  (n < 16 ^ N.of_nat fuel)%N ->
  hexValue (Js.hexDigits fuel n acc)
  = (n * 16 ^ N.of_nat (String.length acc) + hexValue acc)%N.
Proof.
  induction fuel as [|f IH]; intros n acc H.
  - simpl in *. assert (n = 0%N) by lia. subst. lia.
  - cbn [Js.hexDigits]. destruct (N.eqb_spec n 0) as [->|Hn]; [lia|].
    rewrite IH.
    + rewrite hexValue_cons. cbn [String.length].
      rewrite Nat2N.inj_succ, N.pow_succ_r'.
      rewrite digitValue_hexDigit by (apply N.mod_lt; lia).
      pose proof (N.div_mod n 16 ltac:(lia)) as D.
      set (q := (n / 16)%N) in *. set (r := (n mod 16)%N) in *.
      set (p := (16 ^ N.of_nat (String.length acc))%N).
      replace (n * p)%N with ((16 * q + r) * p)%N by (rewrite <- D; reflexivity).
      lia.
    + rewrite Nat2N.inj_succ, N.pow_succ_r' in H.
      apply N.Div0.div_lt_upper_bound. lia.
Qed.

Lemma size_bound n : (n < 16 ^ N.size n)%N.
Proof.
  destruct n as [|p]; [reflexivity|].
  pose proof (N.size_gt (N.pos p)) as H.
  eapply N.lt_le_trans; [exact H|].
  apply N.pow_le_mono_l. lia.
Qed.

Lemma hexValue_toString16 n : hexValue (Js.toString16 n) = n.
Proof.
  unfold Js.toString16.
  destruct (N.eqb_spec n 0) as [->|Hn]; [reflexivity|].
  rewrite hexValue_hexDigits.
  - simpl. unfold hexValue. simpl. lia.
  - rewrite N2Nat.id. apply size_bound.
Qed.

Lemma hexValue_zeros k s : hexValue (Js.zeros k ++ s) = hexValue s.
Proof.
  induction k as [|k IH]; [reflexivity|].
  simpl. rewrite hexValue_cons. rewrite IH.
  change (digitValue "0") with 0%N. lia.
Qed.

Lemma relIDValue_relID n : relIDValue (relID n) = n.
Proof.
  unfold relIDValue, relID, Js.padStart0. simpl.
  rewrite hexValue_zeros. apply hexValue_toString16.
Qed.

Lemma relID_injective n m : relID n = relID m -> n = m.
Proof.
  intros H. rewrite <- (relIDValue_relID n), <- (relIDValue_relID m).
  now rewrite H.
Qed.

Lemma string_length_append (s1 s2 : string) :
  String.length (s1 ++ s2) = (String.length s1 + String.length s2)%nat.
Proof. induction s1; simpl; auto. Qed.

Lemma length_zeros k : String.length (Js.zeros k) = k.
Proof. induction k; simpl; auto. Qed.

Lemma length_hexDigits fuel : forall k n acc,
  (n < 16 ^ N.of_nat k)%N ->
  (String.length (Js.hexDigits fuel n acc) <= k + String.length acc)%nat.
Proof.
  induction fuel as [|f IH]; intros k n acc H; cbn [Js.hexDigits]; [lia|].
  destruct (N.eqb_spec n 0) as [->|Hn]; [lia|].
  destruct k as [|k].
  - simpl in H. lia.
  - rewrite Nat2N.inj_succ, N.pow_succ_r' in H.
    specialize (IH k (n / 16)%N (String (Js.hexDigit (n mod 16)) acc)).
    cbn [String.length] in IH.
    assert ((n / 16 < 16 ^ N.of_nat k)%N)
      by (apply N.Div0.div_lt_upper_bound; lia).
    specialize (IH H0). lia.
Qed.

Lemma length_toString16 k n :
  (0 < k)%nat -> (n < 16 ^ N.of_nat k)%N ->
  (String.length (Js.toString16 n) <= k)%nat.
Proof.
  intros Hk H. unfold Js.toString16.
  destruct (N.eqb_spec n 0) as [->|Hn]; [simpl; lia|].
  pose proof (length_hexDigits (N.to_nat (N.size n)) k n EmptyString H).
  simpl in *. lia.
Qed.

Lemma length_relID n : (n < 2 ^ 32)%N -> String.length (relID n) = 9%nat.
Proof.
  intros H. unfold relID, Js.padStart0. cbn [append String.length].
  rewrite string_length_append, length_zeros.
  assert (String.length (Js.toString16 n) <= 8)%nat.
  { apply length_toString16; [lia|]. change (16 ^ N.of_nat 8)%N with (2 ^ 32)%N.
    exact H. }
  lia.
Qed.

(** ** The insertion-ordered map *)

Lemma existsb_eqb_In k ks : existsb (String.eqb k) ks = true <-> In k ks.
Proof.
  rewrite existsb_exists. split.
  - intros [x [Hin Heq]]. apply String.eqb_eq in Heq. now subst.
  - intros Hin. exists k. split; [assumption|apply String.eqb_refl].
Qed.

Lemma uniqueKeys_NoDup ks : uniqueKeys ks = true <-> NoDup ks.
Proof.
  induction ks as [|k ks IH]; simpl.
  - split; [constructor|reflexivity].
  - rewrite andb_true_iff, negb_true_iff, IH. split.
    + intros [Hn Hd]. constructor; [|assumption].
      intros Hin. apply existsb_eqb_In in Hin. congruence.
    + intros Hnd. inversion Hnd as [|? ? Hn Hd]; subst. split; [|assumption].
      destruct (existsb (String.eqb k) ks) eqn:E; [|reflexivity].
      apply existsb_eqb_In in E. contradiction.
Qed.

Section MapFacts.
Context {V : Type}.
Implicit Types (m : JsMap.t V) (k : string) (v : V).

Lemma get_set_same k v m : JsMap.get k (JsMap.set k v m) = Some v.
Proof.
  induction m as [|[k' v'] m IH]; simpl.
  - now rewrite String.eqb_refl.
  - destruct (String.eqb_spec k' k) as [->|Hne]; simpl.
    + now rewrite String.eqb_refl.
    + destruct (String.eqb_spec k' k); [contradiction|assumption].
Qed.

Lemma get_set_other k k' v m :
  k' <> k -> JsMap.get k' (JsMap.set k v m) = JsMap.get k' m.
Proof.
  intros Hne. induction m as [|[k0 v0] m IH]; simpl.
  - destruct (String.eqb_spec k k'); [congruence|reflexivity].
  - destruct (String.eqb_spec k0 k) as [->|Hk]; simpl.
    + destruct (String.eqb_spec k k'); [congruence|reflexivity].
    + destruct (String.eqb_spec k0 k'); [reflexivity|assumption].
Qed.

Lemma get_delete_other k k' m :
  k' <> k -> JsMap.get k' (JsMap.delete k m) = JsMap.get k' m.
Proof.
  intros Hne. induction m as [|[k0 v0] m IH]; simpl; [reflexivity|].
  destruct (String.eqb_spec k0 k) as [->|Hk]; simpl.
  - destruct (String.eqb_spec k k'); [congruence|reflexivity].
  - destruct (String.eqb_spec k0 k'); [reflexivity|assumption].
Qed.

Lemma get_None_keys k m : JsMap.get k m = None <-> ~ In k (JsMap.keys m).
Proof.
  induction m as [|[k0 v0] m IH]; simpl.
  - tauto.
  - destruct (String.eqb_spec k0 k) as [->|Hk].
    + split; [discriminate|]. intros H. exfalso. apply H. now left.
    + rewrite IH. tauto.
Qed.

Lemma get_Some_In k v m : JsMap.get k m = Some v -> In (k, v) m.
Proof.
  induction m as [|[k0 v0] m IH]; simpl; [discriminate|].
  destruct (String.eqb_spec k0 k) as [->|Hk].
  - intros [= ->]. now left.
  - intros H. right. auto.
Qed.

Lemma In_get k v m : wfMap m = true -> In (k, v) m -> JsMap.get k m = Some v.
Proof.
  unfold wfMap. induction m as [|[k0 v0] m IH]; simpl; [tauto|].
  rewrite andb_true_iff, negb_true_iff. intros [Hn Hd] [Heq|Hin].
  - injection Heq as -> ->. now rewrite String.eqb_refl.
  - destruct (String.eqb_spec k0 k) as [->|Hk]; [|auto].
    exfalso. assert (In k (JsMap.keys m)) by (apply (in_map fst _ _ Hin)).
    apply existsb_eqb_In in H. congruence.
Qed.

Lemma get_delete_same k m : wfMap m = true -> JsMap.get k (JsMap.delete k m) = None.
Proof.
  unfold wfMap. induction m as [|[k0 v0] m IH]; simpl; [reflexivity|].
  rewrite andb_true_iff, negb_true_iff. intros [Hn Hd].
  destruct (String.eqb_spec k0 k) as [->|Hk]; simpl.
  - apply get_None_keys. intros Hin. apply existsb_eqb_In in Hin. congruence.
  - destruct (String.eqb_spec k0 k); [contradiction|auto].
Qed.

Lemma keys_set_present k v m :
  JsMap.get k m <> None -> JsMap.keys (JsMap.set k v m) = JsMap.keys m.
Proof.
  induction m as [|[k0 v0] m IH]; simpl; [congruence|].
  destruct (String.eqb_spec k0 k) as [->|Hk]; simpl; [reflexivity|].
  intros H. now rewrite IH.
Qed.

Lemma keys_set_absent k v m :
  JsMap.get k m = None -> JsMap.keys (JsMap.set k v m) = (JsMap.keys m ++ [k])%list.
Proof.
  induction m as [|[k0 v0] m IH]; simpl; [reflexivity|].
  destruct (String.eqb_spec k0 k) as [->|Hk]; simpl; [discriminate|].
  intros H. now rewrite IH.
Qed.

Lemma In_keys_set k k' v m :
  In k' (JsMap.keys (JsMap.set k v m)) <-> k' = k \/ In k' (JsMap.keys m).
Proof.
  induction m as [|[k0 v0] m IH]; simpl.
  - intuition congruence.
  - destruct (String.eqb_spec k0 k) as [->|Hk]; simpl.
    + intuition congruence.
    + rewrite IH. intuition congruence.
Qed.

Lemma In_keys_delete k k' m :
  In k' (JsMap.keys (JsMap.delete k m)) -> In k' (JsMap.keys m).
Proof.
  induction m as [|[k0 v0] m IH]; simpl; [tauto|].
  destruct (String.eqb_spec k0 k) as [->|Hk]; simpl; intuition.
Qed.

Lemma wfMap_set k v m : wfMap m = true -> wfMap (JsMap.set k v m) = true.
Proof.
  unfold wfMap. rewrite !uniqueKeys_NoDup.
  induction m as [|[k0 v0] m IH]; simpl.
  - intros _. constructor; [tauto|constructor].
  - intros Hnd. inversion Hnd as [|? ? Hn Hd]; subst.
    destruct (String.eqb_spec k0 k) as [->|Hk]; simpl.
    + constructor; assumption.
    + constructor; [|auto].
      change (map fst (JsMap.set k v m)) with (JsMap.keys (JsMap.set k v m)).
      rewrite In_keys_set. intuition.
Qed.

Lemma wfMap_delete k m : wfMap m = true -> wfMap (JsMap.delete k m) = true.
Proof.
  unfold wfMap. rewrite !uniqueKeys_NoDup.
  induction m as [|[k0 v0] m IH]; simpl; [auto|].
  intros Hnd. inversion Hnd as [|? ? Hn Hd]; subst.
  destruct (String.eqb_spec k0 k) as [->|Hk]; simpl; [assumption|].
  constructor; [|auto].
  intros Hin. apply Hn. eapply In_keys_delete. exact Hin.
Qed.

Lemma has_true k m : JsMap.has k m = true <-> JsMap.get k m <> None.
Proof. unfold JsMap.has. destruct (JsMap.get k m); split; congruence. Qed.

(** Writing under a key that is not among the keys already passed leaves the
    passed entries in place. *)
Lemma set_app_fresh k v (done rest : JsMap.t V) :
  ~ In k (JsMap.keys done) ->
  JsMap.set k v (done ++ rest)%list = (done ++ JsMap.set k v rest)%list.
Proof.
  induction done as [|[k0 v0] done IH]; simpl; [reflexivity|].
  intros H. destruct (String.eqb_spec k0 k) as [->|Hk]; [tauto|].
  rewrite IH; tauto.
Qed.

Lemma delete_app_fresh k (done rest : JsMap.t V) :
  ~ In k (JsMap.keys done) ->
  JsMap.delete k (done ++ rest)%list = (done ++ JsMap.delete k rest)%list.
Proof.
  induction done as [|[k0 v0] done IH]; simpl; [reflexivity|].
  intros H. destruct (String.eqb_spec k0 k) as [->|Hk]; [tauto|].
  rewrite IH; tauto.
Qed.

End MapFacts.

(** ** The relationship graph *)

Lemma bucket_set pkg k rels k' :
  bucket (setRelationships pkg (JsMap.set k rels (relationships pkg))) k'
  = if String.eqb k' k then rels else bucket pkg k'.
Proof.
  unfold bucket. simpl.
  destruct (String.eqb_spec k' k) as [->|Hne].
  - now rewrite get_set_same.
  - now rewrite get_set_other.
Qed.

Lemma bucket_addRelationshipWithID pkg s t ty rid k :
  bucket (snd (addRelationshipWithID pkg s t ty rid)) k
  = if String.eqb k (normalizePathForMap s)
    then (bucket pkg k ++ [mkRel rid ty t "Internal"])%list
    else bucket pkg k.
Proof.
  unfold addRelationshipWithID. cbn [snd]. rewrite bucket_set.
  destruct (String.eqb_spec k (normalizePathForMap s)) as [->|]; reflexivity.
Qed.

Lemma bucket_setNextRelID pkg n k : bucket (setNextRelID pkg n) k = bucket pkg k.
Proof. reflexivity. Qed.

Lemma bucket_addRelationship pkg s t ty k :
  bucket (snd (addRelationship pkg s t ty)) k
  = if String.eqb k (normalizePathForMap s)
    then (bucket pkg k ++ [mkRel (relID (nextRelID pkg)) ty t "Internal"])%list
    else bucket pkg k.
Proof.
  unfold addRelationship. rewrite bucket_addRelationshipWithID. reflexivity.
Qed.

Lemma nextRelID_addRelationship pkg s t ty :
  nextRelID (snd (addRelationship pkg s t ty)) = Js.incr (nextRelID pkg).
Proof. reflexivity. Qed.

Lemma incr_exact n : (n < 2 ^ 53)%N -> Js.incr n = (n + 1)%N.
Proof.
  intros H. unfold Js.incr, Js.maxSafe.
  destruct (N.ltb_spec n (2 ^ 53)); [reflexivity|lia].
Qed.

Lemma bucket_removeRelationship pkg s t ty k :
  bucket (removeRelationship pkg s t ty) k
  = if String.eqb k (normalizePathForMap s)
    then filter (fun rel =>
           negb (String.eqb (normalizePathForMap (target rel))
                   (normalizePathForMap t)
                 && String.eqb (relType rel) ty)) (bucket pkg k)
    else bucket pkg k.
Proof.
  unfold removeRelationship. rewrite bucket_set.
  destruct (String.eqb_spec k (normalizePathForMap s)) as [->|]; reflexivity.
Qed.

(** The counter after [n] further allocations. *)
Lemma nextRelID_iter_add s t ty pkg n :
  (nextRelID pkg + n <= 2 ^ 53)%N ->
  nextRelID (N.iter n (fun p => snd (addRelationship p s t ty)) pkg)
  = (nextRelID pkg + n)%N.
Proof.
  induction n as [|n IH] using N.peano_ind; intros H.
  - simpl. lia.
  - rewrite N.iter_succ, nextRelID_addRelationship, IH by lia.
    rewrite incr_exact by lia. lia.
Qed.

(** ** Loading never touches the counter *)

Section LoadCounter.
Variable newURL : string -> URL.
Variable parseXmlString : string -> result XmlNodeLike.
Variable unzipSync : list byte -> result (JsMap.t (list byte)).

Lemma nextRelID_loadRelationship s rels : forall pkg,
  nextRelID (fold_left (loadRelationship s) rels pkg) = nextRelID pkg.
Proof.
  induction rels as [|rel rels IH]; intros pkg; simpl; [reflexivity|].
  rewrite IH. unfold loadRelationship.
  destruct (_ && _); reflexivity.
Qed.

Lemma nextRelID_loadRelationships entries names : forall pkg pkg',
  loadRelationships parseXmlString entries names pkg = inr pkg' ->
  nextRelID pkg' = nextRelID pkg.
Proof.
  induction names as [|name names IH]; intros pkg pkg'; simpl.
  - now intros [= <-].
  - destruct (isRelsEntry name); [|apply IH].
    destruct (parseRelationshipsXml _ _) as [e|rels]; simpl; [discriminate|].
    intros H. apply IH in H. now rewrite nextRelID_loadRelationship in H.
Qed.

Lemma nextRelID_loadPart d c entries names : forall pkg,
  nextRelID (fold_left (loadPart newURL d c entries) names pkg) = nextRelID pkg.
Proof.
  induction names as [|name names IH]; intros pkg; simpl; [reflexivity|].
  rewrite IH. unfold loadPart. destruct (_ || _); reflexivity.
Qed.

Lemma nextRelID_openFromBytes bytes p rw pkg :
  openFromBytes newURL parseXmlString unzipSync bytes p rw = inr pkg ->
  nextRelID pkg = 1%N.
Proof.
  unfold openFromBytes, openFromBytesTry.
  destruct (unzipSync bytes) as [e|entries]; simpl.
  { destruct (String.eqb e ErrNoOriginPart); discriminate. }
  destruct (loadContentTypes parseXmlString entries) as [e|[d c]]; simpl.
  { destruct (String.eqb e ErrNoOriginPart); discriminate. }
  destruct (loadRelationships _ _ _ _) as [e|pkg1] eqn:E; simpl.
  { destruct (String.eqb e ErrNoOriginPart); discriminate. }
  destruct (Js.truthy (originURI pkg1)); simpl; [|discriminate].
  intros [= <-]. rewrite nextRelID_loadPart.
  apply nextRelID_loadRelationships in E. exact E.
Qed.

End LoadCounter.

(** C9 (as stated) fails once the counter leaves the 8-digit range: after
    [2^32 - 1] allocations on a new package the next id is [R100000000],
    which has nine hexadecimal digits. *)
Lemma relationship_id_nine_digits :
  let add := fun p =>
    snd (addRelationship p "" "/thumbnail.png" RelationTypeThumbnail) in
  let pkg := N.iter (2 ^ 32 - 1) add (newPackageBase "" true) in
  fst (addRelationship pkg "" "/thumbnail.png" RelationTypeThumbnail)
  = "R100000000"
  /\ ~ (exists digits,
          fst (addRelationship pkg "" "/thumbnail.png" RelationTypeThumbnail)
          = "R" ++ digits /\ String.length digits = 8%nat).
Proof.
  intros add pkg.
  assert (C : nextRelID pkg = (2 ^ 32)%N).
  { unfold pkg, add. rewrite nextRelID_iter_add; [reflexivity|].
    cbn [nextRelID newPackageBase]. lia. }
  assert (E : fst (addRelationship pkg "" "/thumbnail.png" RelationTypeThumbnail)
              = "R100000000").
  { unfold addRelationship, addRelationshipWithID. cbn [fst]. rewrite C.
    reflexivity. }
  split; [exact E|].
  rewrite E. intros [digits [H L]]. injection H as <-. discriminate L.
Qed.

(** C9 (amended): [Add] allocates the id [R] followed by the counter in
    lower-case hexadecimal, zero-padded to at least 8 digits -- exactly 8
    while the counter is below [2^32] -- and, while the counter is below
    [2^53], increments it by one, so the next id is distinct and denotes the
    next number; the edge is appended to the source's bucket.  A new package
    starts at 1; [AddWithId] keeps the given id and the counter; a package
    loaded from an archive has its counter at 1 whatever ids it read. *)
Theorem relationship_id_allocation :
  (forall pkg s t ty,
     let r := addRelationship pkg s t ty in
     fst r = "R" ++ Js.padStart0 8 (Js.toString16 (nextRelID pkg))
     /\ relIDValue (fst r) = nextRelID pkg
     /\ ((nextRelID pkg < 2 ^ 32)%N -> String.length (fst r) = 9%nat)
     /\ bucket (snd r) (normalizePathForMap s)
        = (bucket pkg (normalizePathForMap s)
           ++ [mkRel (fst r) ty t "Internal"])%list
     /\ ((nextRelID pkg < 2 ^ 53)%N ->
         nextRelID (snd r) = (nextRelID pkg + 1)%N
         /\ forall s' t' ty',
              let r' := addRelationship (snd r) s' t' ty' in
              fst r' <> fst r
              /\ relIDValue (fst r') = (relIDValue (fst r) + 1)%N))
  /\ (forall p rw, nextRelID (newPackageBase p rw) = 1%N)
  /\ (forall pkg s t ty rid,
        let r := addRelationshipWithID pkg s t ty rid in
        fst r = rid
        /\ nextRelID (snd r) = nextRelID pkg
        /\ bucket (snd r) (normalizePathForMap s)
           = (bucket pkg (normalizePathForMap s)
              ++ [mkRel rid ty t "Internal"])%list)
  /\ (forall newURL parseXmlString unzipSync bytes p rw pkg,
        openFromBytes newURL parseXmlString unzipSync bytes p rw = inr pkg ->
        nextRelID pkg = 1%N).
Proof.
  split; [|split; [|split]].
  - intros pkg s t ty r.
    assert (F : fst r = relID (nextRelID pkg)) by reflexivity.
    split; [exact F|].
    split; [rewrite F; apply relIDValue_relID|].
    split; [intros H; rewrite F; now apply length_relID|].
    split.
    { unfold r. rewrite bucket_addRelationship, String.eqb_refl. reflexivity. }
    intros H.
    assert (N1 : nextRelID (snd r) = (nextRelID pkg + 1)%N).
    { unfold r. rewrite nextRelID_addRelationship. now apply incr_exact. }
    split; [exact N1|].
    intros s' t' ty' r'.
    assert (F' : fst r' = relID (nextRelID (snd r))) by reflexivity.
    rewrite F', F, N1, !relIDValue_relID. split; [|reflexivity].
    intros E. apply relID_injective in E. lia.
  - reflexivity.
  - intros pkg s t ty rid r. split; [reflexivity|]. split; [reflexivity|].
    unfold r. rewrite bucket_addRelationshipWithID, String.eqb_refl. reflexivity.
  - intros newURL parseXmlString unzipSync bytes p rw pkg.
    apply nextRelID_openFromBytes.
Qed.

Lemma relationship_id_allocation_witness :
  let pkg := newPackageBase "" true in
  let r := addRelationship pkg "" "/thumbnail.png" RelationTypeThumbnail in
  (nextRelID pkg < 2 ^ 32)%N /\ (nextRelID pkg < 2 ^ 53)%N
  /\ fst r = "R00000001" /\ String.length (fst r) = 9%nat
  /\ nextRelID (snd r) = 2%N.
Proof.
  intros pkg r.
  destruct relationship_id_allocation as [H _].
  destruct (H pkg "" "/thumbnail.png" RelationTypeThumbnail)
    as [F [_ [L [_ S]]]].
  assert (B32 : (nextRelID pkg < 2 ^ 32)%N) by reflexivity.
  assert (B53 : (nextRelID pkg < 2 ^ 53)%N) by reflexivity.
  split; [exact B32|]. split; [exact B53|].
  split; [exact F|]. split; [exact (L B32)|].
  exact (proj1 (S B53)).
Defined.

(** ** Idempotence of [MakeSpec] and [RelateSupplementaryToSpec] *)

Lemma hasRelationship_addRelationship_new pkg s t ty :
  hasRelationship (snd (addRelationship pkg s t ty)) s t ty = true.
Proof.
  unfold hasRelationship. rewrite bucket_addRelationship, String.eqb_refl.
  rewrite existsb_app. simpl. rewrite !String.eqb_refl. simpl.
  apply orb_true_r.
Qed.

Lemma hasRelationship_addRelationship_mono pkg s t ty s' t' ty' :
  hasRelationship pkg s' t' ty' = true ->
  hasRelationship (snd (addRelationship pkg s t ty)) s' t' ty' = true.
Proof.
  unfold hasRelationship. rewrite bucket_addRelationship.
  destruct (String.eqb _ _); [|auto].
  rewrite existsb_app. intros ->. reflexivity.
Qed.

Lemma hasRelationship_addRelationship_other pkg s t ty s' t' ty' :
  ty <> ty' ->
  hasRelationship (snd (addRelationship pkg s t ty)) s' t' ty'
  = hasRelationship pkg s' t' ty'.
Proof.
  intros Hne. unfold hasRelationship. rewrite bucket_addRelationship.
  destruct (String.eqb _ _); [|auto].
  rewrite existsb_app. simpl.
  destruct (String.eqb_spec ty ty'); [contradiction|].
  simpl. now rewrite !orb_false_r.
Qed.

Lemma originURI_addRelationship pkg s t ty :
  originURI (snd (addRelationship pkg s t ty)) = originURI pkg.
Proof. reflexivity. Qed.

Lemma MakeSpec_run part pkg :
  MakeSpec part pkg
  = if isSpecOf part pkg then (inr tt, pkg)
    else (inr tt, snd (addRelationship pkg (originURI pkg)
                         (pathFromUri (URI part)) RelationTypeAasxSpec)).
Proof.
  unfold MakeSpec, mbind, gets. destruct (isSpecOf part pkg); reflexivity.
Qed.

Lemma Relate_run debug supplementary spec pkg :
  RelateSupplementaryToSpec debug supplementary spec pkg
  = if debug && negb (isSpecOf spec pkg)
    then (inl ("precondition violation: "
               ++ "The part fulfills the spec property."), pkg)
    else if hasRelationship pkg (pathFromUri (URI spec))
              (pathFromUri (URI supplementary)) RelationTypeAasxSupplementary
         then (inr tt, pkg)
         else (inr tt, snd (addRelationship pkg (pathFromUri (URI spec))
                              (pathFromUri (URI supplementary))
                              RelationTypeAasxSupplementary)).
Proof.
  unfold RelateSupplementaryToSpec, mbind, gets, lift, Require.
  cbn beta iota.
  destruct (debug && negb (isSpecOf spec pkg)); [reflexivity|].
  cbn. destruct (hasRelationship pkg _ _ _); reflexivity.
Qed.

(** C6: [MakeSpec] on a part that is already a spec, and
    [RelateSupplementaryToSpec] on a pair that is already related, leave the
    package state -- the relationship graph and the id counter -- as it was;
    calling either operation twice leaves the state the first call left. *)
Theorem spec_and_supplementary_idempotent :
  (forall part pkg,
     isSpecOf part pkg = true -> MakeSpec part pkg = (inr tt, pkg))
  /\ (forall debug supplementary spec pkg,
        hasRelationship pkg (pathFromUri (URI spec))
          (pathFromUri (URI supplementary)) RelationTypeAasxSupplementary
        = true ->
        exec (RelateSupplementaryToSpec debug supplementary spec) pkg = pkg
        /\ (isSpecOf spec pkg = true ->
            RelateSupplementaryToSpec debug supplementary spec pkg
            = (inr tt, pkg)))
  /\ (forall part pkg,
        MakeSpec part (exec (MakeSpec part) pkg)
        = (inr tt, exec (MakeSpec part) pkg))
  /\ (forall debug supplementary spec pkg,
        exec (RelateSupplementaryToSpec debug supplementary spec)
          (exec (RelateSupplementaryToSpec debug supplementary spec) pkg)
        = exec (RelateSupplementaryToSpec debug supplementary spec) pkg).
Proof.
  split; [|split; [|split]].
  - intros part pkg H. rewrite MakeSpec_run, H. reflexivity.
  - intros debug supplementary spec pkg H. unfold exec.
    rewrite Relate_run, H. split.
    + destruct (debug && _); reflexivity.
    + intros ->. rewrite andb_false_r. reflexivity.
  - intros part pkg. unfold exec. rewrite (MakeSpec_run part pkg).
    destruct (isSpecOf part pkg) eqn:E; cbn [snd].
    + rewrite MakeSpec_run, E. reflexivity.
    + rewrite MakeSpec_run. unfold isSpecOf at 1.
      rewrite originURI_addRelationship, hasRelationship_addRelationship_new.
      reflexivity.
  - intros debug supplementary spec pkg. unfold exec.
    rewrite (Relate_run debug supplementary spec pkg).
    destruct (debug && negb (isSpecOf spec pkg)) eqn:D; cbn [snd].
    { rewrite Relate_run, D. reflexivity. }
    destruct (hasRelationship pkg _ _ _) eqn:R; cbn [snd].
    { rewrite Relate_run, D, R. reflexivity. }
    rewrite Relate_run.
    rewrite hasRelationship_addRelationship_new.
    assert (S : isSpecOf spec
                  (snd (addRelationship pkg (pathFromUri (URI spec))
                          (pathFromUri (URI supplementary))
                          RelationTypeAasxSupplementary))
                = isSpecOf spec pkg).
    { unfold isSpecOf. rewrite originURI_addRelationship.
      apply hasRelationship_addRelationship_other. discriminate. }
    rewrite S, D. reflexivity.
Qed.

Lemma spec_and_supplementary_idempotent_witness :
  let spec := mkPart (mkURL "/aasx/a.xml" "https://package.local/aasx/a.xml")
                "application/xml" [] in
  let pkg := exec (MakeSpec spec)
               (setOriginURI (newPackageBase "" true) "/aasx/aasx-origin") in
  isSpecOf spec pkg = true /\ MakeSpec spec pkg = (inr tt, pkg).
Proof.
  intros spec pkg.
  assert (H : isSpecOf spec pkg = true) by reflexivity.
  split; [exact H|].
  exact (proj1 spec_and_supplementary_idempotent spec pkg H).
Defined.

(** ** At most one thumbnail *)

Lemma removeThumbnails_loop rels : forall pkg,
  let pkg' :=
    fold_left
      (fun p rel => removeRelationship p "" (target rel) RelationTypeThumbnail)
      rels pkg in
  bucket pkg' "" = filter (survivesThumbnailRemoval rels) (bucket pkg "")
  /\ (forall k, k <> "" -> bucket pkg' k = bucket pkg k)
  /\ parts pkg' = parts pkg /\ originURI pkg' = originURI pkg
  /\ nextRelID pkg' = nextRelID pkg.
Proof.
  induction rels as [|rel rels IH]; intros pkg; cbn [fold_left].
  - cbn zeta. split; [|auto].
    unfold survivesThumbnailRemoval. simpl.
    induction (bucket pkg "") as [|r l IHl]; simpl; congruence.
  - specialize (IH (removeRelationship pkg "" (target rel) RelationTypeThumbnail)).
    cbn zeta in *. destruct IH as [B [O [P [U C]]]].
    split; [|split; [|auto]].
    + rewrite B, bucket_removeRelationship.
      change (normalizePathForMap "") with "". rewrite String.eqb_refl.
      induction (bucket pkg "") as [|r l IHl]; [reflexivity|].
      unfold survivesThumbnailRemoval in *. cbn [filter forallb].
      destruct (negb (_ && _)); cbn [filter andb]; [|exact IHl].
      destruct (forallb _ rels); [f_equal|]; exact IHl.
    + intros k Hk. rewrite (O k Hk), bucket_removeRelationship.
      change (normalizePathForMap "") with "".
      destruct (String.eqb_spec k ""); [contradiction|reflexivity].
Qed.

Lemma thumbnails_removed pkg :
  getRelationshipsByType (removeThumbnails pkg) "" RelationTypeThumbnail = [].
Proof.
  unfold removeThumbnails, getRelationshipsByType.
  change (normalizePathForMap "") with "".
  set (rels := filter _ (bucket pkg "")).
  destruct (removeThumbnails_loop rels pkg) as [B _]. cbn zeta in B.
  rewrite B.
  assert (H : forall r, In r (bucket pkg "") ->
            String.eqb (relType r) RelationTypeThumbnail = true ->
            survivesThumbnailRemoval rels r = false).
  { intros r Hin Ht.
    destruct (survivesThumbnailRemoval rels r) eqn:E; [|reflexivity].
    unfold survivesThumbnailRemoval in E. rewrite forallb_forall in E.
    assert (Hr : In r rels) by (apply filter_In; auto).
    specialize (E r Hr). rewrite String.eqb_refl, Ht in E. discriminate. }
  clearbody rels. clear B. revert H.
  generalize (bucket pkg "") as l.
  induction l as [|r l IHl]; intros H; [reflexivity|].
  cbn [filter].
  destruct (survivesThumbnailRemoval rels r) eqn:E; cbn [filter].
  - destruct (String.eqb (relType r) RelationTypeThumbnail) eqn:T.
    + rewrite (H r (or_introl eq_refl) T) in E. discriminate.
    + apply IHl. intros r' Hin. apply H. now right.
  - apply IHl. intros r' Hin. apply H. now right.
Qed.

Lemma other_root_edges_kept pkg :
  filter (fun r => negb (String.eqb (relType r) RelationTypeThumbnail))
    (bucket (removeThumbnails pkg) "")
  = filter (fun r => negb (String.eqb (relType r) RelationTypeThumbnail))
      (bucket pkg "").
Proof.
  unfold removeThumbnails, getRelationshipsByType.
  change (normalizePathForMap "") with "".
  set (rels := filter _ (bucket pkg "")).
  destruct (removeThumbnails_loop rels pkg) as [B _]. cbn zeta in B.
  rewrite B. clearbody rels. clear B.
  induction (bucket pkg "") as [|r l IHl]; [reflexivity|].
  cbn [filter].
  destruct (String.eqb (relType r) RelationTypeThumbnail) eqn:T; cbn [negb].
  - destruct (survivesThumbnailRemoval rels r); cbn [filter]; [rewrite T|];
      exact IHl.
  - assert (S : survivesThumbnailRemoval rels r = true).
    { unfold survivesThumbnailRemoval. apply forallb_forall. intros x _.
      rewrite T, andb_false_r. reflexivity. }
    rewrite S. cbn [filter]. rewrite T. cbn [negb]. f_equal. exact IHl.
Qed.

Lemma SetThumbnail_run part pkg :
  SetThumbnail part pkg
  = (inr tt,
     snd (addRelationship (removeThumbnails pkg) ""
            (pathFromUri (URI part)) RelationTypeThumbnail)).
Proof. reflexivity. Qed.

Lemma thumbnails_after_SetThumbnail part pkg :
  getRelationshipsByType (exec (SetThumbnail part) pkg) ""
    RelationTypeThumbnail
  = [mkRel (relID (nextRelID (removeThumbnails pkg))) RelationTypeThumbnail
       (pathFromUri (URI part)) "Internal"].
Proof.
  unfold exec. rewrite SetThumbnail_run. cbn [snd].
  pose proof (thumbnails_removed pkg) as R.
  unfold getRelationshipsByType in *.
  rewrite bucket_addRelationship, String.eqb_refl, filter_app, R.
  reflexivity.
Qed.

(** C5: [SetThumbnail] never throws; it first removes every thumbnail edge
    of the root and keeps the root's other edges, then adds one; so after
    any non-empty sequence of [SetThumbnail] calls, on any package, exactly
    one thumbnail-typed relationship with root source exists and its target
    is the path of the part given to the most recent call. *)
Theorem SetThumbnail_exactly_one :
  (forall pkg,
     getRelationshipsByType (removeThumbnails pkg) "" RelationTypeThumbnail = []
     /\ filter (fun r => negb (String.eqb (relType r) RelationTypeThumbnail))
          (bucket (removeThumbnails pkg) "")
        = filter (fun r => negb (String.eqb (relType r) RelationTypeThumbnail))
            (bucket pkg ""))
  /\ (forall part pkg,
        SetThumbnail part pkg
        = (inr tt, snd (addRelationship (removeThumbnails pkg) ""
                          (pathFromUri (URI part)) RelationTypeThumbnail)))
  /\ (forall earlier part pkg,
        let pkg' :=
          exec (SetThumbnail part)
            (fold_left (fun p x => exec (SetThumbnail x) p) earlier pkg) in
        exists rid,
          getRelationshipsByType pkg' "" RelationTypeThumbnail
          = [mkRel rid RelationTypeThumbnail (pathFromUri (URI part))
               "Internal"]).
Proof.
  split; [|split].
  - intros pkg. split; [apply thumbnails_removed|apply other_root_edges_kept].
  - intros part pkg. apply SetThumbnail_run.
  - intros earlier part pkg pkg'. unfold pkg'.
    rewrite thumbnails_after_SetThumbnail. eexists. reflexivity.
Qed.

(** ** Strict cleanup on delete *)

Lemma fold_sweep np : forall rest done,
  NoDup (JsMap.keys (done ++ rest)%list) ->
  fold_left (sweepBucket np) rest (done ++ rest)%list
  = (done ++ sweepAll np rest)%list.
Proof.
  induction rest as [|[s rels] rest IH]; intros done Hnd; [reflexivity|].
  cbn [fold_left sweepBucket sweepAll flat_map fst snd].
  fold (sweptBucket np rels).
  assert (Hs : ~ In s (JsMap.keys done)).
  { unfold JsMap.keys in *. rewrite map_app in Hnd.
    apply NoDup_remove_2 in Hnd. intros Hin. apply Hnd.
    apply in_or_app. now left. }
  assert (Hnd' : NoDup (JsMap.keys (done ++ rest)%list)).
  { unfold JsMap.keys in *. rewrite map_app in *.
    now apply NoDup_remove_1 in Hnd. }
  destruct (List.length (sweptBucket np rels) =? 0)%nat.
  - rewrite delete_app_fresh by assumption. cbn [JsMap.delete].
    rewrite String.eqb_refl. now apply IH.
  - rewrite set_app_fresh by assumption. cbn [JsMap.set].
    rewrite String.eqb_refl.
    change (done ++ (s, sweptBucket np rels) :: rest)%list
      with (done ++ [(s, sweptBucket np rels)] ++ rest)%list.
    rewrite app_assoc, IH.
    + rewrite <- app_assoc. reflexivity.
    + rewrite <- app_assoc. unfold JsMap.keys in *.
      rewrite map_app in *. simpl in *.
      apply NoDup_remove_1 in Hnd as Hnd1.
      apply NoDup_remove_2 in Hnd as Hnd2.
      apply NoDup_Add with (a := s) (l := (map fst done ++ map fst rest)%list);
        [|split; assumption].
      apply Add_app.
Qed.

Lemma relationships_removeAll pkg uriPath :
  wfMap (relationships pkg) = true ->
  relationships (removeAllRelationshipsWithSourceOrTarget pkg uriPath)
  = sweepAll (normalizePathForMap uriPath)
      (JsMap.delete (normalizePathForMap uriPath) (relationships pkg)).
Proof.
  intros W. unfold removeAllRelationshipsWithSourceOrTarget. cbn.
  apply (wfMap_delete (normalizePathForMap uriPath)) in W.
  apply uniqueKeys_NoDup in W.
  apply (fold_sweep _ _ []). exact W.
Qed.

Lemma In_sweepAll np m k rels :
  In (k, rels) (sweepAll np m) ->
  exists rels0, In (k, rels0) m /\ rels = sweptBucket np rels0 /\ rels <> [].
Proof.
  unfold sweepAll. rewrite in_flat_map. intros [[k0 rels0] [Hin H]].
  cbn [fst snd] in H.
  destruct (List.length (sweptBucket np rels0) =? 0)%nat eqn:E; [destruct H|].
  destruct H as [[= <- <-]|[]]. exists rels0. repeat split; auto.
  intros Z. rewrite Z in E. discriminate.
Qed.

Lemma keys_sweepAll np m k :
  In k (JsMap.keys (sweepAll np m)) -> In k (JsMap.keys m).
Proof.
  unfold JsMap.keys. rewrite !in_map_iff.
  intros [[k' rels] [<- Hin]]. apply In_sweepAll in Hin.
  destruct Hin as [rels0 [Hin _]]. exists (k', rels0). auto.
Qed.

Lemma wfMap_sweepAll np m : wfMap m = true -> wfMap (sweepAll np m) = true.
Proof.
  unfold wfMap. rewrite !uniqueKeys_NoDup.
  induction m as [|[k rels] m IH]; simpl; [auto|].
  intros Hnd. inversion Hnd as [|? ? Hn Hd]; subst.
  destruct (List.length (sweptBucket np rels) =? 0)%nat; simpl; [auto|].
  constructor; [|auto].
  intros Hin. apply Hn. apply (keys_sweepAll np m k). exact Hin.
Qed.

Lemma get_sweepAll np m k :
  wfMap m = true ->
  JsMap.get k (sweepAll np m)
  = match JsMap.get k m with
    | Some rels =>
        if (List.length (sweptBucket np rels) =? 0)%nat then None
        else Some (sweptBucket np rels)
    | None => None
    end.
Proof.
  unfold wfMap. induction m as [|[k0 rels0] m IH]; simpl; [reflexivity|].
  rewrite andb_true_iff, negb_true_iff. intros [Hn Hd].
  destruct (String.eqb_spec k0 k) as [->|Hk].
  - destruct (List.length (sweptBucket np rels0) =? 0)%nat eqn:E; simpl.
    + apply get_None_keys. intros Hin. apply keys_sweepAll in Hin.
      apply existsb_eqb_In in Hin. congruence.
    + now rewrite String.eqb_refl.
  - destruct (List.length (sweptBucket np rels0) =? 0)%nat; simpl; [auto|].
    destruct (String.eqb_spec k0 k); [contradiction|auto].
Qed.

Lemma sweptBucket_nil_length np rels :
  (List.length (sweptBucket np rels) =? 0)%nat = true -> sweptBucket np rels = [].
Proof. destruct (sweptBucket np rels); [reflexivity|discriminate]. Qed.

(** The bucket a query finds after the cleanup. *)
Lemma bucket_removeAll pkg uriPath k :
  wfMap (relationships pkg) = true ->
  bucket (removeAllRelationshipsWithSourceOrTarget pkg uriPath) k
  = if String.eqb k (normalizePathForMap uriPath) then []
    else sweptBucket (normalizePathForMap uriPath) (bucket pkg k).
Proof.
  intros W. unfold bucket at 1. rewrite relationships_removeAll by assumption.
  rewrite get_sweepAll by (now apply wfMap_delete).
  destruct (String.eqb_spec k (normalizePathForMap uriPath)) as [->|Hne].
  - now rewrite get_delete_same.
  - rewrite get_delete_other by assumption. unfold bucket.
    destruct (JsMap.get k (relationships pkg)) as [rels|]; [|reflexivity].
    destruct (List.length _ =? 0)%nat eqn:E; [|reflexivity].
    symmetry. now apply sweptBucket_nil_length.
Qed.

Lemma sweptBucket_targets np rels rel :
  In rel (sweptBucket np rels) -> normalizePathForMap (target rel) <> np.
Proof.
  unfold sweptBucket. rewrite filter_In. intros [_ H].
  apply negb_true_iff in H. now apply String.eqb_neq.
Qed.

(** No relationship keeps the deleted path as its source or its target. *)
Lemma removeAll_no_mention pkg uriPath k rels :
  wfMap (relationships pkg) = true ->
  In (k, rels) (relationships
                  (removeAllRelationshipsWithSourceOrTarget pkg uriPath)) ->
  k <> normalizePathForMap uriPath
  /\ forall rel, In rel rels ->
       normalizePathForMap (target rel) <> normalizePathForMap uriPath.
Proof.
  intros W. rewrite relationships_removeAll by assumption.
  intros Hin. apply In_sweepAll in Hin. destruct Hin as [rels0 [Hin [-> _]]].
  split.
  - intros ->. apply (in_map fst) in Hin. cbn [fst] in Hin.
    pose proof (get_delete_same (normalizePathForMap uriPath) _ W) as G.
    apply get_None_keys in G. contradiction.
  - intros rel. apply sweptBucket_targets.
Qed.

Lemma normalizeURI_pathFromUri u :
  Js.truthy (pathFromUri u) = true ->
  normalizeURI (Some u) = normalizePathForMap (pathFromUri u).
Proof.
  unfold normalizeURI. generalize (pathFromUri u) as p. intros p Hp.
  unfold normalizePathForMap at 2. rewrite Hp. cbn [negb].
  unfold normalizePathForMap.
  destruct (Js.startsWith p "/") eqn:S.
  - rewrite Hp, S. reflexivity.
  - cbn. destruct p; reflexivity.
Qed.

Lemma DeletePart_run debug part pkg :
  DeletePart debug part pkg
  = let pkg2 :=
      removeAllRelationshipsWithSourceOrTarget
        (setParts pkg (JsMap.delete (canonical part) (parts pkg)))
        (pathFromUri (URI part)) in
    (Ensure debug (negb (JsMap.has (canonical part) (parts pkg2)))
       "The part should not exist in the package anymore.", pkg2).
Proof.
  unfold DeletePart, mbind, modify, gets, lift. cbn. reflexivity.
Qed.

Lemma parts_DeletePart debug part pkg :
  parts (exec (DeletePart debug part) pkg)
  = JsMap.delete (canonical part) (parts pkg).
Proof. unfold exec. rewrite DeletePart_run. reflexivity. Qed.

Lemma delete_absent {V} k (m : JsMap.t V) :
  JsMap.get k m = None -> JsMap.delete k m = m.
Proof.
  induction m as [|[k0 v0] m IH]; simpl; [reflexivity|].
  destruct (String.eqb_spec k0 k); [discriminate|].
  intros H. now rewrite IH.
Qed.

Lemma bucket_DeletePart debug part pkg k :
  wfMap (relationships pkg) = true ->
  bucket (exec (DeletePart debug part) pkg) k
  = if String.eqb k (normalizePathForMap (pathFromUri (URI part))) then []
    else sweptBucket (normalizePathForMap (pathFromUri (URI part)))
           (bucket pkg k).
Proof.
  intros W. unfold exec. rewrite DeletePart_run. cbn [snd].
  rewrite bucket_removeAll by exact W. reflexivity.
Qed.

Lemma Ensure_true debug message : Ensure debug true message = inr tt.
Proof. unfold Ensure. now rewrite andb_false_r. Qed.

Lemma outcome_DeletePart debug part pkg :
  wfMap (parts pkg) = true -> outcome (DeletePart debug part) pkg = inr tt.
Proof.
  intros W. unfold outcome. rewrite DeletePart_run. cbn [fst].
  replace (JsMap.has _ _) with false; [apply Ensure_true|].
  unfold removeAllRelationshipsWithSourceOrTarget. cbn [parts setRelationships setParts].
  unfold JsMap.has. now rewrite get_delete_same.
Qed.

(** C10: [DeletePart] never throws, whether or not a part is registered
    under the canonical path; the registry loses at most that entry, and is
    unchanged when there was none; in both cases the bucket of the path is
    dropped and every edge targeting the path is removed from the others,
    and nothing else changes. *)
Theorem DeletePart_never_raises debug part pkg :
  wfMap (parts pkg) = true ->
  wfMap (relationships pkg) = true ->
  let np := normalizePathForMap (pathFromUri (URI part)) in
  let pkg' := exec (DeletePart debug part) pkg in
  outcome (DeletePart debug part) pkg = inr tt
  /\ parts pkg' = JsMap.delete (canonical part) (parts pkg)
  /\ (JsMap.get (canonical part) (parts pkg) = None -> parts pkg' = parts pkg)
  /\ (Js.truthy (pathFromUri (URI part)) = true -> canonical part = np)
  /\ (forall k,
        bucket pkg' k
        = if String.eqb k np then [] else sweptBucket np (bucket pkg k))
  /\ (forall k rels, In (k, rels) (relationships pkg') ->
        k <> np
        /\ forall rel, In rel rels -> normalizePathForMap (target rel) <> np)
  /\ originURI pkg' = originURI pkg /\ nextRelID pkg' = nextRelID pkg.
Proof.
  intros Wp Wr np pkg'.
  split; [now apply outcome_DeletePart|].
  split; [apply parts_DeletePart|].
  split.
  { intros H. unfold pkg'. rewrite parts_DeletePart. now apply delete_absent. }
  split; [apply normalizeURI_pathFromUri|].
  split; [intros k; now apply bucket_DeletePart|].
  split; [|split; reflexivity].
  intros k rels Hin. unfold pkg', exec in Hin. rewrite DeletePart_run in Hin.
  cbn [snd] in Hin. apply removeAll_no_mention in Hin; assumption.
Qed.

(** ** What the facade reads come from *)

Lemma In_collectSpecs registry rels q :
  In q (collectSpecs registry rels) ->
  exists rel, In rel rels
    /\ JsMap.get (normalizePathForMap (target rel)) registry = Some q.
Proof.
  induction rels as [|rel rels IH]; simpl; [tauto|].
  destruct (JsMap.get _ registry) as [part|] eqn:G.
  - intros [<-|Hin].
    + exists rel. auto.
    + destruct (IH Hin) as [rel' [H1 H2]]. exists rel'. auto.
  - intros Hin. destruct (IH Hin) as [rel' [H1 H2]]. exists rel'. auto.
Qed.

Lemma In_collectSupplementaries registry rels : forall l q,
  collectSupplementaries registry rels = inr l -> In q l ->
  exists rel, In rel rels
    /\ JsMap.get (normalizePathForMap (target rel)) registry = Some q.
Proof.
  induction rels as [|rel rels IH]; simpl; intros l q.
  - intros [= <-] [].
  - destruct (JsMap.get _ registry) as [part|] eqn:G; [|discriminate].
    destruct (collectSupplementaries registry rels) as [e|more]; simpl;
      [discriminate|].
    intros [= <-] [<-|Hin].
    + exists rel. auto.
    + destruct (IH more q eq_refl Hin) as [rel' [H1 H2]]. exists rel'. auto.
Qed.

Lemma In_pairSupplementaries pkg specs : forall pairs pair,
  pairSupplementaries pkg specs = inr pairs -> In pair pairs ->
  In (Spec pair) specs
  /\ exists l, SupplementariesFor pkg (Spec pair) = inr l
               /\ In (Supplementary pair) l.
Proof.
  induction specs as [|spec specs IH]; simpl; intros pairs pair.
  - intros [= <-] [].
  - destruct (SupplementariesFor pkg spec) as [e|l] eqn:S; simpl;
      [discriminate|].
    destruct (pairSupplementaries pkg specs) as [e|more]; simpl;
      [discriminate|].
    intros [= <-] Hin. apply in_app_or in Hin. destruct Hin as [Hin|Hin].
    + apply in_map_iff in Hin. destruct Hin as [s [<- Hs]]. simpl.
      split; [now left|]. exists l. auto.
    + destruct (IH more pair eq_refl Hin) as [H1 H2]. split; [now right|auto].
Qed.

Lemma registryKeyed_get registry k q :
  registryKeyed registry = true -> JsMap.get k registry = Some q ->
  k = canonical q.
Proof.
  unfold registryKeyed. rewrite forallb_forall. intros H G.
  apply get_Some_In in G. apply H in G. now apply String.eqb_eq in G.
Qed.

Lemma get_delete_Some {V} k k' (m : JsMap.t V) v :
  JsMap.get k' (JsMap.delete k m) = Some v -> In (k', v) m.
Proof.
  induction m as [|[k0 v0] m IH]; simpl; [discriminate|].
  destruct (String.eqb_spec k0 k) as [->|Hk]; simpl.
  - intros G. right. now apply get_Some_In.
  - destruct (String.eqb_spec k0 k') as [->|Hk'].
    + intros [= ->]. now left.
    + intros G. right. auto.
Qed.

(** A part found in the registry after [DeletePart p] is not [p]. *)
Lemma found_after_delete debug p pkg k q :
  wfMap (parts pkg) = true -> registryKeyed (parts pkg) = true ->
  JsMap.get k (parts (exec (DeletePart debug p) pkg)) = Some q ->
  canonical q <> canonical p /\ JsMap.get k (parts pkg) = Some q.
Proof.
  intros W K G. rewrite parts_DeletePart in G.
  assert (Hk : k <> canonical p).
  { intros ->. rewrite get_delete_same in G; [discriminate|assumption]. }
  rewrite get_delete_other in G by assumption.
  rewrite <- (registryKeyed_get _ _ _ K G). auto.
Qed.

Lemma sweptBucket_In np rels rel :
  In rel (sweptBucket np rels) -> In rel rels.
Proof. unfold sweptBucket. rewrite filter_In. tauto. Qed.

Lemma getRelationshipsByType_DeletePart debug p pkg s ty rel :
  wfMap (relationships pkg) = true ->
  In rel (getRelationshipsByType (exec (DeletePart debug p) pkg) s ty) ->
  In rel (getRelationshipsByType pkg s ty)
  /\ normalizePathForMap (target rel)
     <> normalizePathForMap (pathFromUri (URI p)).
Proof.
  intros W. unfold getRelationshipsByType.
  rewrite bucket_DeletePart by assumption. rewrite !filter_In.
  destruct (String.eqb _ _); [intros [[] _]|].
  intros [Hin Ht]. split; [split; [eapply sweptBucket_In; eauto|auto]|].
  eapply sweptBucket_targets; eauto.
Qed.

(** Supplementaries that resolved before the deletion of a path still
    resolve after it. *)
Lemma collectSupplementaries_after_delete registry np rels : forall l,
  collectSupplementaries registry rels = inr l ->
  exists l',
    collectSupplementaries (JsMap.delete np registry) (sweptBucket np rels)
    = inr l'.
Proof.
  induction rels as [|rel rels IH]; intros l; cbn [collectSupplementaries].
  - intros _. exists []. reflexivity.
  - destruct (JsMap.get _ registry) as [part|] eqn:G; [|discriminate].
    destruct (collectSupplementaries registry rels) as [e|more];
      cbn [bind ret]; [discriminate|].
    intros _. destruct (IH more eq_refl) as [l' Hl'].
    unfold sweptBucket in *. cbn [filter].
    destruct (String.eqb_spec (normalizePathForMap (target rel)) np) as [E|E];
      cbn [negb]; [exists l'; exact Hl'|].
    cbn [collectSupplementaries].
    rewrite get_delete_other by congruence.
    rewrite G, Hl'. cbn [bind ret]. eexists. reflexivity.
Qed.

Lemma filter_sweptBucket np f rels :
  filter f (sweptBucket np rels) = sweptBucket np (filter f rels).
Proof.
  unfold sweptBucket. induction rels as [|r rels IH]; simpl; [reflexivity|].
  destruct (f r) eqn:F; destruct (negb _) eqn:N; simpl;
    rewrite ?F, ?N, IH; reflexivity.
Qed.

Lemma SupplementariesFor_after_delete debug p pkg spec l :
  wfMap (parts pkg) = true -> wfMap (relationships pkg) = true ->
  Js.truthy (pathFromUri (URI p)) = true ->
  SupplementariesFor pkg spec = inr l ->
  exists l', SupplementariesFor (exec (DeletePart debug p) pkg) spec = inr l'.
Proof.
  intros Wp Wr T. unfold SupplementariesFor, getRelationshipsByType.
  rewrite bucket_DeletePart by assumption.
  destruct (String.eqb _ _).
  - intros _. exists []. reflexivity.
  - rewrite filter_sweptBucket, parts_DeletePart. intros H.
    unfold canonical. rewrite normalizeURI_pathFromUri by assumption.
    eapply collectSupplementaries_after_delete; eauto.
Qed.

Lemma pairSupplementaries_total pkg specs :
  (forall spec, In spec specs -> exists l, SupplementariesFor pkg spec = inr l) ->
  exists pairs, pairSupplementaries pkg specs = inr pairs.
Proof.
  induction specs as [|spec specs IH]; intros H; simpl.
  - eexists. reflexivity.
  - destruct (H spec (or_introl eq_refl)) as [l ->]. simpl.
    destruct IH as [more ->]; [intros s Hs; apply H; now right|].
    simpl. eexists. reflexivity.
Qed.

Lemma pairSupplementaries_each pkg specs : forall pairs,
  pairSupplementaries pkg specs = inr pairs ->
  forall spec, In spec specs -> exists l, SupplementariesFor pkg spec = inr l.
Proof.
  induction specs as [|spec specs IH]; simpl; intros pairs H s [].
  - subst. destruct (SupplementariesFor pkg s); [discriminate|eauto].
  - destruct (SupplementariesFor pkg spec); [discriminate|]. simpl in H.
    destruct (pairSupplementaries pkg specs) eqn:E; [discriminate|].
    eapply IH; eauto.
Qed.

Lemma Specs_after_delete debug p pkg q :
  wfMap (parts pkg) = true -> wfMap (relationships pkg) = true ->
  registryKeyed (parts pkg) = true ->
  In q (collectSpecs (parts (exec (DeletePart debug p) pkg))
          (getRelationshipsByType (exec (DeletePart debug p) pkg)
             (originURI pkg) RelationTypeAasxSpec)) ->
  canonical q <> canonical p
  /\ In q (collectSpecs (parts pkg)
             (getRelationshipsByType pkg (originURI pkg) RelationTypeAasxSpec)).
Proof.
  intros Wp Wr K Hin. apply In_collectSpecs in Hin.
  destruct Hin as [rel [Hrel G]].
  apply getRelationshipsByType_DeletePart in Hrel; [|assumption].
  destruct Hrel as [Hrel _].
  apply found_after_delete in G; [|assumption|assumption].
  destruct G as [Hc G]. split; [assumption|].
  clear - Hrel G. induction (getRelationshipsByType pkg _ _) as [|r rs IH];
    [destruct Hrel|].
  cbn [collectSpecs]. destruct Hrel as [->|Hrel].
  - rewrite G. now left.
  - destruct (JsMap.get (normalizePathForMap (target r)) (parts pkg));
      [apply in_cons|]; auto.
Qed.

(** Strict cleanup in a registry whose keys are the canonical paths of the
    parts' URLs, as [PutPart] keeps it: after [DeletePart p] the graph holds
    no relationship whose source or target is the canonical path of [p]; [p]
    is no longer a spec, [Specs] holds no part with that path, [p] has no
    supplementaries, and [SupplementaryRelationships] holds no pair
    mentioning that path -- it returns pairs whenever it did before the
    deletion. *)
Theorem DeletePart_strict_cleanup debug p pkg :
  wfMap (parts pkg) = true ->
  wfMap (relationships pkg) = true ->
  registryKeyed (parts pkg) = true ->
  Js.truthy (pathFromUri (URI p)) = true ->
  let pkg' := exec (DeletePart debug p) pkg in
  (forall k rels, In (k, rels) (relationships pkg') ->
     k <> canonical p
     /\ forall rel, In rel rels ->
          normalizePathForMap (target rel) <> canonical p)
  /\ JsMap.get (canonical p) (parts pkg') = None
  /\ IsSpec pkg' p = inr false
  /\ (exists specs, Specs pkg' = inr specs
        /\ forall q, In q specs -> canonical q <> canonical p)
  /\ SupplementariesFor pkg' p = inr []
  /\ (forall pairs, SupplementaryRelationships pkg' = inr pairs ->
        forall pair, In pair pairs ->
          canonical (Spec pair) <> canonical p
          /\ canonical (Supplementary pair) <> canonical p)
  /\ (forall before, SupplementaryRelationships pkg = inr before ->
        exists pairs, SupplementaryRelationships pkg' = inr pairs).
Proof.
  intros Wp Wr K T pkg'.
  pose proof (normalizeURI_pathFromUri (URI p) T) as C.
  fold (canonical p) in C.
  assert (B : forall k, bucket pkg' k
                = if String.eqb k (canonical p) then []
                  else sweptBucket (canonical p) (bucket pkg k)).
  { intros k. unfold pkg'. rewrite bucket_DeletePart, C by assumption.
    reflexivity. }
  assert (SpecsOK : forall q,
            In q (collectSpecs (parts pkg')
                    (getRelationshipsByType pkg' (originURI pkg')
                       RelationTypeAasxSpec)) ->
            canonical q <> canonical p).
  { intros q Hin. change (originURI pkg') with (originURI pkg) in Hin.
    unfold pkg' in Hin.
    exact (proj1 (Specs_after_delete debug p pkg q Wp Wr K Hin)). }
  split.
  { intros k rels Hin. unfold pkg', exec in Hin.
    rewrite DeletePart_run in Hin. cbn [snd] in Hin.
    apply removeAll_no_mention in Hin; [|assumption].
    rewrite C. exact Hin. }
  split.
  { unfold pkg'. rewrite parts_DeletePart. now apply get_delete_same. }
  split.
  { unfold IsSpec, hasRelationship, ret. f_equal. rewrite B.
    destruct (String.eqb _ (canonical p)); [reflexivity|].
    rewrite <- C. apply not_true_is_false. intros E.
    apply existsb_exists in E. destruct E as [rel [Hin E]].
    apply andb_true_iff in E. destruct E as [_ E]. apply String.eqb_eq in E.
    apply sweptBucket_targets in Hin. congruence. }
  split.
  { eexists. split; [reflexivity|]. exact SpecsOK. }
  split.
  { unfold SupplementariesFor, getRelationshipsByType. rewrite B, <- C.
    rewrite String.eqb_refl. reflexivity. }
  split.
  { intros pairs H pair Hin. unfold SupplementaryRelationships, Specs in H.
    cbn [bind ret] in H.
    destruct (In_pairSupplementaries _ _ _ _ H Hin) as [Hs [l [Hl Hq]]].
    split; [now apply SpecsOK|].
    unfold SupplementariesFor in Hl.
    destruct (In_collectSupplementaries _ _ _ _ Hl Hq) as [rel [_ G]].
    exact (proj1 (found_after_delete debug p pkg _ _ Wp K G)). }
  intros before H. unfold SupplementaryRelationships, Specs in *.
  cbn [bind ret] in *.
  apply pairSupplementaries_total. intros spec Hin.
  change (originURI pkg') with (originURI pkg) in Hin. unfold pkg' in Hin.
  apply Specs_after_delete in Hin; [|assumption..].
  destruct Hin as [_ Hin].
  destruct (pairSupplementaries_each _ _ _ H spec Hin) as [l Hl].
  exact (SupplementariesFor_after_delete debug p pkg spec l Wp Wr T Hl).
Qed.

(** The sample package, read through the facade. *)
Example sample_full_reads :
  Specs Sample.full = inr [Sample.spec]
  /\ SupplementaryRelationships Sample.full
     = inr [mkSupplementaryRelationship Sample.spec Sample.doc]
  /\ Thumbnail Sample.full = inr (Some Sample.thumb)
  /\ Specs Sample.empty = inr [] /\ Thumbnail Sample.empty = inr None.
Proof. repeat split; vm_compute; reflexivity. Qed.

Lemma DeletePart_never_raises_witness :
  let pkg := Sample.empty in
  let pkg' := exec (DeletePart true Sample.ghost) pkg in
  JsMap.get (canonical Sample.ghost) (parts pkg) = None
  /\ outcome (DeletePart true Sample.ghost) pkg = inr tt
  /\ parts pkg' = parts pkg.
Proof.
  intros pkg pkg'.
  assert (Wp : wfMap (parts pkg) = true) by (vm_compute; reflexivity).
  assert (Wr : wfMap (relationships pkg) = true) by (vm_compute; reflexivity).
  assert (A : JsMap.get (canonical Sample.ghost) (parts pkg) = None)
    by (vm_compute; reflexivity).
  destruct (DeletePart_never_raises true Sample.ghost pkg Wp Wr)
    as [O [_ [U _]]].
  split; [exact A|]. split; [exact O|]. exact (U A).
Defined.

Lemma DeletePart_strict_cleanup_witness :
  let pkg := Sample.full in
  let pkg' := exec (DeletePart true Sample.spec) pkg in
  IsSpec pkg Sample.spec = inr true
  /\ SupplementariesFor pkg Sample.spec = inr [Sample.doc]
  /\ IsSpec pkg' Sample.spec = inr false
  /\ SupplementariesFor pkg' Sample.spec = inr []
  /\ (forall k rels, In (k, rels) (relationships pkg') ->
        k <> canonical Sample.spec).
Proof.
  intros pkg pkg'.
  assert (Wp : wfMap (parts pkg) = true) by (vm_compute; reflexivity).
  assert (Wr : wfMap (relationships pkg) = true) by (vm_compute; reflexivity).
  assert (K : registryKeyed (parts pkg) = true) by (vm_compute; reflexivity).
  assert (T : Js.truthy (pathFromUri (URI Sample.spec)) = true)
    by (vm_compute; reflexivity).
  destruct (DeletePart_strict_cleanup true Sample.spec pkg Wp Wr K T)
    as [E [_ [S [_ [F _]]]]].
  split; [vm_compute; reflexivity|]. split; [vm_compute; reflexivity|].
  split; [exact S|]. split; [exact F|].
  intros k rels Hin. exact (proj1 (E k rels Hin)).
Defined.

(** ** Integrity on traversal *)

(** C3 (as stated) fails for [Specs]: the sample package [dangling] has a
    spec edge from the origin whose target is not registered, and [Specs]
    returns the empty list instead of throwing. *)
Lemma Specs_skips_dangling_edge :
  let pkg := Sample.dangling in
  (exists rel,
     In rel (getRelationshipsByType pkg (originURI pkg) RelationTypeAasxSpec)
     /\ JsMap.get (normalizePathForMap (target rel)) (parts pkg) = None)
  /\ Specs pkg = inr []
  /\ ~ (exists message, Specs pkg = inl message).
Proof.
  intros pkg. split; [|split].
  - exists (mkRel "R00000002" RelationTypeAasxSpec "/aasx/ghost.xml" "Internal").
    split; vm_compute; [left|]; reflexivity.
  - vm_compute. reflexivity.
  - intros [message H]. vm_compute in H. discriminate H.
Qed.

Lemma collectSupplementaries_error registry rels :
  (exists rel, In rel rels
     /\ JsMap.get (normalizePathForMap (target rel)) registry = None) ->
  exists rel,
    In rel rels
    /\ JsMap.get (normalizePathForMap (target rel)) registry = None
    /\ collectSupplementaries registry rels
       = inl ("supplementary part " ++ target rel ++ " not found").
Proof.
  induction rels as [|r rels IH]; intros [rel [Hin G]]; [destruct Hin|].
  cbn [collectSupplementaries].
  destruct (JsMap.get (normalizePathForMap (target r)) registry) as [part|] eqn:E.
  - destruct Hin as [->|Hin]; [congruence|].
    destruct IH as [rel' [H1 [H2 H3]]]; [exists rel; auto|].
    exists rel'. rewrite H3. cbn. auto using in_cons.
  - exists r. repeat split; auto using in_eq.
Qed.

Lemma collectSupplementaries_ok registry rels :
  (forall rel, In rel rels ->
     JsMap.get (normalizePathForMap (target rel)) registry <> None) ->
  exists l, collectSupplementaries registry rels = inr l.
Proof.
  induction rels as [|r rels IH]; intros H; cbn [collectSupplementaries].
  - eexists. reflexivity.
  - destruct (JsMap.get (normalizePathForMap (target r)) registry) eqn:E.
    + destruct IH as [l ->]; [intros; apply H; now right|].
      cbn. eexists. reflexivity.
    + exfalso. apply (H r (or_introl eq_refl)). exact E.
Qed.

Lemma pairSupplementaries_error pkg specs spec message :
  In spec specs -> SupplementariesFor pkg spec = inl message ->
  exists message', pairSupplementaries pkg specs = inl message'.
Proof.
  induction specs as [|s specs IH]; intros Hin E; [destruct Hin|].
  cbn [pairSupplementaries]. destruct Hin as [->|Hin].
  - rewrite E. cbn. eexists. reflexivity.
  - destruct (SupplementariesFor pkg s); cbn; [eexists; reflexivity|].
    destruct (IH Hin E) as [m' ->]. cbn. eexists. reflexivity.
Qed.

(** C3 (amended): [SupplementariesFor] throws exactly when one of the
    supplementary edges it traverses has a target that is not registered,
    naming the first such target, and [SupplementaryRelationships] throws
    when that happens for one of the specs; [Thumbnail] throws when the
    first thumbnail edge of the root has a target that is not registered;
    [Specs] never throws: it returns the parts the spec edges resolve to and
    skips the edges whose target is not registered. *)
Theorem integrity_on_traversal pkg :
  (forall spec,
     let rels := getRelationshipsByType pkg (pathFromUri (URI spec))
                   RelationTypeAasxSupplementary in
     ((exists rel, In rel rels
         /\ JsMap.get (normalizePathForMap (target rel)) (parts pkg) = None) ->
      exists rel, In rel rels
        /\ JsMap.get (normalizePathForMap (target rel)) (parts pkg) = None
        /\ SupplementariesFor pkg spec
           = inl ("supplementary part " ++ target rel ++ " not found"))
     /\ ((forall rel, In rel rels ->
            JsMap.get (normalizePathForMap (target rel)) (parts pkg) <> None) ->
         exists l, SupplementariesFor pkg spec = inr l))
  /\ (forall specs spec message,
        Specs pkg = inr specs -> In spec specs ->
        SupplementariesFor pkg spec = inl message ->
        exists message', SupplementaryRelationships pkg = inl message')
  /\ (forall rel0 rest,
        getRelationshipsByType pkg "" RelationTypeThumbnail = rel0 :: rest ->
        JsMap.get (normalizePathForMap (target rel0)) (parts pkg) = None ->
        Thumbnail pkg
        = inl ("thumbnail relationship exists but part not found: "
               ++ target rel0))
  /\ (exists specs, Specs pkg = inr specs
        /\ forall q, In q specs <->
             exists rel,
               In rel (getRelationshipsByType pkg (originURI pkg)
                         RelationTypeAasxSpec)
               /\ JsMap.get (normalizePathForMap (target rel)) (parts pkg)
                  = Some q).
Proof.
  split; [|split; [|split]].
  - intros spec rels. split.
    + apply collectSupplementaries_error.
    + apply collectSupplementaries_ok.
  - intros specs spec message S Hin E. unfold SupplementaryRelationships.
    rewrite S. cbn [bind]. eapply pairSupplementaries_error; eauto.
  - intros rel0 rest R G. unfold Thumbnail. rewrite R, G. reflexivity.
  - eexists. split; [reflexivity|]. intros q. split.
    + apply In_collectSpecs.
    + intros [rel [Hin G]].
      induction (getRelationshipsByType pkg _ _) as [|r rs IH];
        [destruct Hin|].
      cbn [collectSpecs]. destruct Hin as [->|Hin].
      * rewrite G. now left.
      * destruct (JsMap.get (normalizePathForMap (target r)) (parts pkg));
          [apply in_cons|]; auto.
Qed.

Lemma integrity_on_traversal_witness :
  Thumbnail Sample.dangling
  = inl ("thumbnail relationship exists but part not found: "
         ++ "/aasx/ghost.xml").
Proof.
  destruct (integrity_on_traversal Sample.dangling) as [_ [_ [T _]]].
  apply (T (mkRel "R00000003" RelationTypeThumbnail "/aasx/ghost.xml"
              "Internal") []);
    vm_compute; reflexivity.
Defined.

(** ** Canonical paths ignore case *)

Lemma lowerChar_slash c : Ascii.eqb (Js.lowerChar c) "/" = Ascii.eqb c "/".
Proof. destruct c as [[] [] [] [] [] [] [] []]; reflexivity. Qed.

Lemma lowerChar_dot c : Ascii.eqb (Js.lowerChar c) "." = Ascii.eqb c ".".
Proof. destruct c as [[] [] [] [] [] [] [] []]; reflexivity. Qed.

Lemma lowerChar_idempotent c : Js.lowerChar (Js.lowerChar c) = Js.lowerChar c.
Proof. destruct c as [[] [] [] [] [] [] [] []]; reflexivity. Qed.

Lemma toLowerCase_idempotent s :
  Js.toLowerCase (Js.toLowerCase s) = Js.toLowerCase s.
Proof.
  induction s as [|c s IH]; simpl; [reflexivity|].
  now rewrite lowerChar_idempotent, IH.
Qed.

Lemma toLowerCase_append s t :
  Js.toLowerCase (s ++ t) = Js.toLowerCase s ++ Js.toLowerCase t.
Proof. induction s as [|c s IH]; simpl; [reflexivity|]. now rewrite IH. Qed.

Lemma truthy_toLowerCase s : Js.truthy (Js.toLowerCase s) = Js.truthy s.
Proof. destruct s; reflexivity. Qed.

Lemma eqb_toLowerCase_dot s :
  String.eqb (Js.toLowerCase s) "." = String.eqb s ".".
Proof.
  destruct s as [|c [|d s]]; simpl; try reflexivity.
  - now rewrite lowerChar_dot.
  - destruct (Ascii.eqb _ _), (Ascii.eqb c "."); reflexivity.
Qed.

Lemma eqb_toLowerCase_dotdot s :
  String.eqb (Js.toLowerCase s) ".." = String.eqb s "..".
Proof.
  destruct s as [|c [|d [|e s]]]; simpl; try reflexivity.
  - destruct (Ascii.eqb _ _), (Ascii.eqb c "."); reflexivity.
  - now rewrite !lowerChar_dot.
  - rewrite !lowerChar_dot.
    destruct (Ascii.eqb c "."), (Ascii.eqb d "."); reflexivity.
Qed.

Lemma split_toLowerCase s :
  Js.split "/" (Js.toLowerCase s) = map Js.toLowerCase (Js.split "/" s).
Proof.
  induction s as [|c s IH]; simpl; [reflexivity|].
  rewrite lowerChar_slash, IH.
  destruct (Ascii.eqb c "/"); [reflexivity|].
  destruct (Js.split "/" s); reflexivity.
Qed.

Lemma normalizeSegments_toLowerCase segments : forall stack,
  normalizeSegments (map Js.toLowerCase segments) (map Js.toLowerCase stack)
  = map Js.toLowerCase (normalizeSegments segments stack).
Proof.
  induction segments as [|seg segments IH]; intros stack; simpl.
  - now rewrite map_rev.
  - rewrite truthy_toLowerCase, eqb_toLowerCase_dot, eqb_toLowerCase_dotdot.
    destruct (negb (Js.truthy seg) || String.eqb seg "."); [apply IH|].
    destruct (String.eqb seg "..").
    + rewrite <- IH. destruct stack; reflexivity.
    + apply (IH (seg :: stack)).
Qed.

Lemma join_toLowerCase segments :
  Js.toLowerCase (Js.join "/" segments)
  = Js.join "/" (map Js.toLowerCase segments).
Proof.
  unfold Js.join. induction segments as [|seg segments IH]; [reflexivity|].
  destruct segments as [|seg' segments]; [reflexivity|].
  cbn [String.concat map] in *.
  rewrite !toLowerCase_append, IH. reflexivity.
Qed.

Lemma normalizePath_toLowerCase s :
  Js.toLowerCase (normalizePath s) = normalizePath (Js.toLowerCase s).
Proof.
  unfold normalizePath. rewrite toLowerCase_append, join_toLowerCase.
  rewrite split_toLowerCase.
  rewrite <- (normalizeSegments_toLowerCase _ []). reflexivity.
Qed.

Lemma prefix_empty s : String.prefix "" s = true.
Proof. destruct s; reflexivity. Qed.

Lemma startsWith_cons c s d :
  Js.startsWith (String c s) (String d "") = Ascii.eqb c d.
Proof.
  unfold Js.startsWith. cbn [String.prefix].
  destruct (Ascii.ascii_dec d c) as [->|E].
  - now rewrite prefix_empty, Ascii.eqb_refl.
  - symmetry. apply Ascii.eqb_neq. congruence.
Qed.

Lemma startsWith_slash_toLowerCase s :
  Js.startsWith (Js.toLowerCase s) "/" = Js.startsWith s "/".
Proof.
  destruct s as [|c s]; [reflexivity|].
  cbn [Js.toLowerCase]. rewrite !startsWith_cons. apply lowerChar_slash.
Qed.

(** The lookup key depends on the lower-cased path only. *)
Lemma normalizePathForMap_toLowerCase s :
  normalizePathForMap s
  = if negb (Js.truthy s) then ""
    else normalizePath
           (if Js.startsWith (Js.toLowerCase s) "/" then Js.toLowerCase s
            else "/" ++ Js.toLowerCase s).
Proof.
  unfold normalizePathForMap. destruct (negb (Js.truthy s)); [reflexivity|].
  rewrite normalizePath_toLowerCase, startsWith_slash_toLowerCase.
  destruct (Js.startsWith s "/"); [reflexivity|].
  now rewrite toLowerCase_append.
Qed.

Lemma normalizePathForMap_ignores_case s t :
  Js.toLowerCase s = Js.toLowerCase t ->
  normalizePathForMap s = normalizePathForMap t.
Proof.
  intros E. rewrite !normalizePathForMap_toLowerCase, E.
  rewrite <- (truthy_toLowerCase s), <- (truthy_toLowerCase t), E.
  reflexivity.
Qed.

Lemma normalizeURI_case u1 u2 :
  Js.toLowerCase (pathFromUri u1) = Js.toLowerCase (pathFromUri u2) ->
  normalizeURI (Some u1) = normalizeURI (Some u2).
Proof.
  intros E. unfold normalizeURI. apply normalizePathForMap_ignores_case.
  rewrite <- (startsWith_slash_toLowerCase (pathFromUri u1)).
  rewrite <- (startsWith_slash_toLowerCase (pathFromUri u2)), E.
  destruct (Js.startsWith _ "/"); [exact E|].
  now rewrite !toLowerCase_append, E.
Qed.

(** ** PutPart *)

Lemma PutPart_run debug uri contentType bytes pkg :
  PutPart debug uri contentType bytes pkg
  = let part :=
      match JsMap.get (normalizeURI (Some uri)) (parts pkg) with
      | Some found => mkPart (URI found) contentType bytes
      | None => mkPart uri contentType bytes
      end in
    (inr part,
     setParts pkg (JsMap.set (normalizeURI (Some uri)) part (parts pkg))).
Proof.
  unfold PutPart, mbind, gets, modify, lift. cbn.
  unfold JsMap.has. rewrite get_set_same, Ensure_true. reflexivity.
Qed.

(** ** The content-type tables *)

(** C8 (as stated) fails when the first part seen with an extension has the
    empty content type: the later part with a different content type
    replaces the default and is not made an override. *)
Lemma first_default_altered :
  find (hasExtension "txt") (JsMap.values Sample8.registry)
  = Some Sample8.plain
  /\ ContentType Sample8.typed <> ContentType Sample8.plain
  /\ contentTypeTables Sample8.registry = ([("txt", "text/plain")], [])
  /\ JsMap.get "txt" (fst (contentTypeTables Sample8.registry))
     <> firstDefault (JsMap.values Sample8.registry) "txt"
  /\ JsMap.get (partPath Sample8.typed)
       (snd (contentTypeTables Sample8.registry)) = None.
Proof.
  repeat split; try (vm_compute; reflexivity); vm_compute; discriminate.
Qed.

Lemma fold_left_snoc {A B} (f : A -> B -> A) l x a :
  fold_left f (l ++ [x])%list a = f (fold_left f l a) x.
Proof. now rewrite fold_left_app. Qed.

Lemma find_snoc {A} (f : A -> bool) l x :
  find f (l ++ [x])%list
  = match find f l with
    | Some y => Some y
    | None => if f x then Some x else None
    end.
Proof.
  induction l as [|y l IH]; simpl; [reflexivity|].
  destruct (f y); [reflexivity|exact IH].
Qed.

Lemma extensionsSeen_snoc seen part :
  extensionsSeen (seen ++ [part])%list
  = let e := extensionOf part in
    if Js.truthy e && negb (existsb (String.eqb e) (extensionsSeen seen))
    then (extensionsSeen seen ++ [e])%list else extensionsSeen seen.
Proof. unfold extensionsSeen. now rewrite fold_left_snoc. Qed.

Lemma specOverrides_snoc seen part :
  specOverrides (seen ++ [part])%list
  = if isOverride seen part
    then (specOverrides seen ++ [(partPath part, ContentType part)])%list
    else specOverrides seen.
Proof.
  unfold specOverrides. rewrite fold_left_snoc. unfold overrideStep at 1.
  cbn [snd].
  assert (F : forall l st, fst (fold_left overrideStep l st) = (fst st ++ l)%list).
  { induction l as [|x l IH]; intros st; simpl.
    - now rewrite app_nil_r.
    - rewrite IH. simpl. now rewrite <- app_assoc. }
  rewrite F. reflexivity.
Qed.

Lemma In_extensionsSeen seen e :
  In e (extensionsSeen seen)
  <-> Js.truthy e = true /\ existsb (hasExtension e) seen = true.
Proof.
  induction seen as [|part seen IH] using rev_ind.
  - simpl. split; [tauto|intros [_ H]; discriminate].
  - rewrite extensionsSeen_snoc, existsb_app. cbn zeta. cbn [existsb].
    rewrite orb_false_r, orb_true_iff. unfold hasExtension at 2.
    destruct (Js.truthy (extensionOf part)
              && negb (existsb (String.eqb (extensionOf part))
                         (extensionsSeen seen))) eqn:C.
    + apply andb_true_iff in C. destruct C as [T _].
      rewrite in_app_iff, IH. simpl. rewrite String.eqb_eq.
      split.
      * intros [[H1 H2]|[<-|[]]]; auto.
      * intros [H1 [H2|<-]]; auto.
    + rewrite IH. split; [tauto|].
      intros [H1 [H2|H2]]; [auto|].
      apply String.eqb_eq in H2. subst e. rewrite H1 in C. cbn in C.
      apply negb_false_iff, existsb_eqb_In, IH in C. exact C.
Qed.

Lemma NoDup_extensionsSeen seen : NoDup (extensionsSeen seen).
Proof.
  induction seen as [|part seen IH] using rev_ind; [constructor|].
  rewrite extensionsSeen_snoc. cbn zeta.
  destruct (Js.truthy _ && negb _) eqn:C; [|exact IH].
  apply andb_true_iff in C. destruct C as [_ C].
  apply negb_true_iff in C.
  apply NoDup_Add with (a := extensionOf part) (l := extensionsSeen seen).
  - rewrite <- (app_nil_r (extensionsSeen seen)) at 1.
    apply Add_app.
  - split; [exact IH|]. intros Hin. apply existsb_eqb_In in Hin. congruence.
Qed.

Lemma get_map_keyed (f : string -> string) l e :
  JsMap.get e (map (fun x => (x, f x)) l)
  = if existsb (String.eqb e) l then Some (f e) else None.
Proof.
  induction l as [|x l IH]; simpl; [reflexivity|].
  rewrite (String.eqb_sym e x).
  destruct (String.eqb_spec x e) as [->|]; [reflexivity|exact IH].
Qed.

Lemma set_map_update (f g : string -> string) l e :
  NoDup l -> In e l ->
  (forall x, In x l -> x <> e -> g x = f x) ->
  JsMap.set e (g e) (map (fun x => (x, f x)) l) = map (fun x => (x, g x)) l.
Proof.
  induction l as [|x l IH]; intros Hnd Hin Hg; [destruct Hin|].
  inversion Hnd as [|? ? Hx Hl]; subst. simpl.
  destruct (String.eqb_spec x e) as [->|Hne].
  - f_equal. apply map_ext_in. intros y Hy. f_equal. symmetry.
    apply Hg; [now right|]. intros ->. contradiction.
  - rewrite (Hg x) by (auto using in_eq). f_equal.
    destruct Hin as [->|Hin]; [contradiction|].
    apply IH; auto. intros y Hy. apply Hg. now right.
Qed.

Lemma set_map_append (f g : string -> string) l e :
  ~ In e l ->
  (forall x, In x l -> g x = f x) ->
  JsMap.set e (g e) (map (fun x => (x, f x)) l)
  = map (fun x => (x, g x)) (l ++ [e])%list.
Proof.
  induction l as [|x l IH]; intros Hn Hg; simpl; [reflexivity|].
  destruct (String.eqb_spec x e) as [->|Hne]; [exfalso; apply Hn; now left|].
  rewrite (Hg x) by (now left). f_equal. apply IH.
  - intros Hin. apply Hn. now right.
  - intros y Hy. apply Hg. now right.
Qed.

Lemma typedDefault_snoc seen part e :
  typedDefault (seen ++ [part])%list e
  = match typedDefault seen e with
    | Some d => if Js.truthy d then Some d
                else if hasExtension e part then Some (ContentType part)
                else Some d
    | None => if hasExtension e part then Some (ContentType part) else None
    end.
Proof.
  unfold typedDefault. rewrite find_snoc, existsb_app. cbn [existsb].
  rewrite orb_false_r.
  destruct (find _ seen) as [q|] eqn:F.
  - apply find_some in F. destruct F as [_ F].
    apply andb_true_iff in F. destruct F as [_ ->]. reflexivity.
  - destruct (hasExtension e part) eqn:H; cbn [andb].
    + destruct (Js.truthy (ContentType part)) eqn:T.
      * destruct (existsb _ seen); reflexivity.
      * rewrite orb_true_r.
        destruct (ContentType part); [|discriminate].
        destruct (existsb _ seen); reflexivity.
    + rewrite orb_false_r. destruct (existsb _ seen); reflexivity.
Qed.

Lemma get_specDefaults seen e :
  JsMap.get e (specDefaults seen)
  = if Js.truthy e then typedDefault seen e else None.
Proof.
  unfold specDefaults. rewrite get_map_keyed.
  destruct (existsb (String.eqb e) (extensionsSeen seen)) eqn:X.
  - apply existsb_eqb_In, In_extensionsSeen in X. destruct X as [-> X].
    unfold typedDefault. rewrite X. destruct (find _ seen); reflexivity.
  - destruct (Js.truthy e) eqn:T; [|reflexivity].
    assert (H : existsb (hasExtension e) seen = false).
    { destruct (existsb (hasExtension e) seen) eqn:Y; [|reflexivity].
      assert (In e (extensionsSeen seen)) by (apply In_extensionsSeen; auto).
      apply existsb_eqb_In in H. congruence. }
    unfold typedDefault. rewrite H.
    destruct (find _ seen) as [q|] eqn:F; [|reflexivity].
    apply find_some in F. destruct F as [Hin F].
    apply andb_true_iff in F. destruct F as [F _].
    assert (existsb (hasExtension e) seen = true)
      by (apply existsb_exists; eauto).
    congruence.
Qed.

Lemma typedDefault_snoc_other seen part e :
  hasExtension e part = false ->
  typedDefault (seen ++ [part])%list e = typedDefault seen e.
Proof.
  intros H. rewrite typedDefault_snoc, H.
  destruct (typedDefault seen e) as [d|]; [|reflexivity].
  destruct (Js.truthy d); reflexivity.
Qed.

Lemma typedDefault_None seen e :
  typedDefault seen e = None <-> existsb (hasExtension e) seen = false.
Proof.
  unfold typedDefault. destruct (find _ seen) as [q|] eqn:F.
  - split; [discriminate|]. intros H. exfalso.
    apply find_some in F. destruct F as [Hin F].
    apply andb_true_iff in F. destruct F as [F _].
    assert (existsb (hasExtension e) seen = true)
      by (apply existsb_exists; eauto).
    congruence.
  - destruct (existsb _ seen); split; congruence.
Qed.

Lemma specDefaults_unchanged seen part :
  (Js.truthy (extensionOf part) = true ->
   exists d, typedDefault seen (extensionOf part) = Some d
             /\ Js.truthy d = true) ->
  specDefaults (seen ++ [part])%list = specDefaults seen.
Proof.
  intros H. unfold specDefaults. rewrite extensionsSeen_snoc. cbn zeta.
  assert (X : Js.truthy (extensionOf part)
              && negb (existsb (String.eqb (extensionOf part))
                         (extensionsSeen seen)) = false).
  { destruct (Js.truthy (extensionOf part)) eqn:T; [|reflexivity].
    destruct (H eq_refl) as [d [D _]]. cbn. apply negb_false_iff.
    apply existsb_eqb_In, In_extensionsSeen. split; [assumption|].
    destruct (existsb _ seen) eqn:E; [reflexivity|].
    apply typedDefault_None in E. congruence. }
  rewrite X. apply map_ext_in. intros x Hx. f_equal. f_equal.
  rewrite typedDefault_snoc. unfold hasExtension.
  destruct (String.eqb_spec (extensionOf part) x) as [<-|Hne].
  - apply In_extensionsSeen in Hx. destruct Hx as [T _].
    destruct (H T) as [d [-> ->]]. reflexivity.
  - destruct (typedDefault seen x) as [d|]; [|reflexivity].
    destruct (Js.truthy d); reflexivity.
Qed.

Lemma specDefaults_set seen part :
  Js.truthy (extensionOf part) = true ->
  truthyOpt (typedDefault seen (extensionOf part)) = false ->
  JsMap.set (extensionOf part) (ContentType part) (specDefaults seen)
  = specDefaults (seen ++ [part])%list.
Proof.
  intros T E. unfold specDefaults.
  set (e := extensionOf part) in *.
  set (f := fun x => orElse (typedDefault seen x) "").
  set (g := fun x => orElse (typedDefault (seen ++ [part])%list x) "").
  assert (Ge : g e = ContentType part).
  { unfold g. rewrite typedDefault_snoc. unfold hasExtension. fold e.
    rewrite String.eqb_refl.
    destruct (typedDefault seen e) as [d|]; [|reflexivity].
    cbn in E. rewrite E. reflexivity. }
  assert (Go : forall x, x <> e -> g x = f x).
  { intros x Hx. unfold g, f. rewrite typedDefault_snoc_other; [reflexivity|].
    unfold hasExtension. fold e. apply String.eqb_neq. congruence. }
  rewrite <- Ge. rewrite extensionsSeen_snoc. cbn zeta. fold e. rewrite T.
  cbn [andb].
  destruct (existsb (String.eqb e) (extensionsSeen seen)) eqn:X; cbn [negb].
  - apply set_map_update.
    + apply NoDup_extensionsSeen.
    + now apply existsb_eqb_In.
    + intros x _ Hx. now apply Go.
  - apply set_map_append.
    + intros Hin. apply existsb_eqb_In in Hin. congruence.
    + intros x Hx. apply Go. intros ->.
      apply existsb_eqb_In in Hx. congruence.
Qed.

Lemma keys_specOverrides seen k :
  In k (JsMap.keys (specOverrides seen)) -> In k (map partPath seen).
Proof.
  induction seen as [|part seen IH] using rev_ind; [intros []|].
  rewrite specOverrides_snoc, map_app, in_app_iff. simpl.
  destruct (isOverride seen part).
  - unfold JsMap.keys. rewrite map_app, in_app_iff. simpl.
    intros [H|[<-|[]]]; auto.
  - auto.
Qed.

Lemma set_fresh {V} k (v : V) m :
  ~ In k (JsMap.keys m) -> JsMap.set k v m = (m ++ [(k, v)])%list.
Proof.
  induction m as [|[k0 v0] m IH]; simpl; [reflexivity|].
  intros H. destruct (String.eqb_spec k0 k) as [->|]; [tauto|].
  rewrite IH; tauto.
Qed.

(** One turn of the loop, on the tables the parts [seen] produced. *)
Lemma contentTypeStep_spec seen part :
  ~ In (partPath part) (map partPath seen) ->
  contentTypeStep (specDefaults seen, specOverrides seen) part
  = (specDefaults (seen ++ [part])%list, specOverrides (seen ++ [part])%list).
Proof.
  intros Fresh.
  assert (SetOv : JsMap.set (partPath part) (ContentType part)
                    (specOverrides seen)
                  = (specOverrides seen
                     ++ [(partPath part, ContentType part)])%list).
  { apply set_fresh. intros Hin. apply Fresh. now apply keys_specOverrides. }
  unfold contentTypeStep. fold (partPath part). fold (extensionOf part).
  rewrite specOverrides_snoc. unfold isOverride.
  rewrite get_specDefaults.
  destruct (Js.truthy (extensionOf part)) eqn:T; cbn [negb orb].
  - destruct (typedDefault seen (extensionOf part)) as [d|] eqn:D;
      cbn [truthyOpt orElse].
    + destruct (Js.truthy d) eqn:Td; cbn [andb negb].
      * destruct (String.eqb d (ContentType part)); cbn [negb];
          rewrite ?SetOv; f_equal; symmetry;
          apply specDefaults_unchanged; intros _; eauto.
      * f_equal. apply specDefaults_set; [assumption|].
        rewrite D. exact Td.
    + cbn [andb negb]. f_equal. apply specDefaults_set; [assumption|].
      now rewrite D.
  - rewrite SetOv. f_equal. symmetry. apply specDefaults_unchanged.
    congruence.
Qed.

Lemma contentTypeTables_fold rest : forall seen,
  NoDup (map partPath (seen ++ rest)%list) ->
  fold_left contentTypeStep rest (specDefaults seen, specOverrides seen)
  = (specDefaults (seen ++ rest)%list, specOverrides (seen ++ rest)%list).
Proof.
  induction rest as [|part rest IH]; intros seen Hnd.
  - now rewrite app_nil_r.
  - cbn [fold_left]. rewrite contentTypeStep_spec.
    + change (part :: rest) with ([part] ++ rest)%list.
      rewrite app_assoc. apply IH. now rewrite <- app_assoc.
    + rewrite map_app in Hnd. apply NoDup_remove_2 in Hnd.
      intros Hin. apply Hnd. apply in_or_app. now left.
Qed.

(** The tables of [buildContentTypesXml] are the tables of the
    specification. *)
Lemma contentTypeTables_spec registry :
  NoDup (map partPath (JsMap.values registry)) ->
  contentTypeTables registry
  = (specDefaults (JsMap.values registry),
     specOverrides (JsMap.values registry)).
Proof. intros Hnd. exact (contentTypeTables_fold _ [] Hnd). Qed.

(** *** The sort *)

Section Sorting.
Variable compare : string -> string -> Z.
Hypothesis compare_total :
  forall a b, (compare a b <= 0)%Z \/ (compare b a <= 0)%Z.

Let cmp (l r : string * string) : Z := compare (fst l) (fst r).

Lemma insertSorted_perm x l : Permutation (x :: l) (insertSorted cmp x l).
Proof.
  induction l as [|y l IH]; simpl; [apply Permutation_refl|].
  destruct (cmp x y <=? 0)%Z; [apply Permutation_refl|].
  eapply perm_trans; [apply perm_swap|]. now apply perm_skip.
Qed.

Lemma sortBy_perm l : Permutation l (sortBy cmp l).
Proof.
  induction l as [|x l IH]; simpl; [constructor|].
  eapply perm_trans; [|apply insertSorted_perm]. now apply perm_skip.
Qed.

Lemma insertSorted_sorted x l :
  Sorted (sortsBefore compare) l ->
  Sorted (sortsBefore compare) (insertSorted cmp x l).
Proof.
  induction l as [|y l IH]; intros S; simpl.
  - repeat constructor.
  - destruct (Z.leb_spec (cmp x y) 0) as [L|G].
    + constructor; [assumption|]. constructor. exact L.
    + inversion S as [|? ? S' H]; subst.
      constructor; [now apply IH|].
      assert (Y : sortsBefore compare y x).
      { unfold sortsBefore. unfold cmp in G.
        destruct (compare_total (fst x) (fst y)); [lia|assumption]. }
      destruct l as [|z l]; simpl.
      * constructor. exact Y.
      * destruct (cmp x z <=? 0)%Z; constructor; [exact Y|].
        now inversion H.
Qed.

Lemma sortBy_sorted l : Sorted (sortsBefore compare) (sortBy cmp l).
Proof.
  induction l as [|x l IH]; simpl; [constructor|].
  now apply insertSorted_sorted.
Qed.

End Sorting.

Lemma In_specDefaults seen e d :
  In (e, d) (specDefaults seen)
  <-> Js.truthy e = true /\ typedDefault seen e = Some d.
Proof.
  unfold specDefaults. rewrite in_map_iff. split.
  - intros [x [[= -> <-] Hin]]. apply In_extensionsSeen in Hin.
    destruct Hin as [T X]. split; [assumption|].
    destruct (typedDefault seen e) eqn:D; [reflexivity|].
    apply typedDefault_None in D. congruence.
  - intros [T D]. exists e. rewrite D. split; [reflexivity|].
    apply In_extensionsSeen. split; [assumption|].
    destruct (existsb _ seen) eqn:X; [reflexivity|].
    apply typedDefault_None in X. congruence.
Qed.

Lemma In_specOverrides rest : forall seen part,
  NoDup (map partPath (seen ++ part :: rest)%list) ->
  In (partPath part, ContentType part)
    (specOverrides (seen ++ part :: rest)%list)
  <-> isOverride seen part = true.
Proof.
  induction rest as [|q rest IH] using rev_ind; intros seen part Hnd.
  - rewrite specOverrides_snoc.
    assert (F : ~ In (partPath part, ContentType part) (specOverrides seen)).
    { intros Hin. apply (in_map fst), keys_specOverrides in Hin.
      rewrite map_app in Hnd. apply NoDup_remove_2 in Hnd.
      apply Hnd. rewrite app_nil_r. exact Hin. }
    destruct (isOverride seen part).
    + rewrite in_app_iff. simpl. tauto.
    + split; [tauto|discriminate].
  - change (seen ++ part :: rest ++ [q])%list
      with (seen ++ (part :: rest) ++ [q])%list.
    rewrite app_assoc, specOverrides_snoc.
    assert (Hnd' : NoDup (map partPath (seen ++ part :: rest)%list)).
    { change (seen ++ part :: rest ++ [q])%list
        with (seen ++ (part :: rest) ++ [q])%list in Hnd.
      rewrite app_assoc, map_app in Hnd. simpl in Hnd.
      apply NoDup_remove_1 in Hnd. now rewrite app_nil_r in Hnd. }
    assert (Q : partPath q <> partPath part).
    { change (seen ++ part :: rest ++ [q])%list
        with (seen ++ (part :: rest) ++ [q])%list in Hnd.
      rewrite app_assoc, map_app in Hnd. simpl in Hnd.
      apply NoDup_remove_2 in Hnd. rewrite app_nil_r in Hnd.
      intros E. apply Hnd. rewrite E. apply in_map.
      apply in_or_app. right. now left. }
    destruct (isOverride (seen ++ part :: rest)%list q); [|now apply IH].
    rewrite in_app_iff, IH by assumption. simpl. split; [|tauto].
    intros [H|[[= E _]|[]]]; [assumption|contradiction].
Qed.

Lemma typedDefault_firstDefault seen e :
  forallb (fun p => Js.truthy (ContentType p)) seen = true ->
  typedDefault seen e = firstDefault seen e.
Proof.
  unfold typedDefault, firstDefault.
  induction seen as [|p seen IH]; [reflexivity|].
  cbn [forallb find existsb]. intros H. apply andb_true_iff in H.
  destruct H as [-> H]. rewrite andb_true_r.
  destruct (hasExtension e p); [reflexivity|]. cbn [orb]. now apply IH.
Qed.

Lemma ordinalCompare_total a b :
  (ordinalCompare a b <= 0)%Z \/ (ordinalCompare b a <= 0)%Z.
Proof.
  unfold ordinalCompare. rewrite (String.compare_antisym a b).
  destruct (String.compare b a); simpl; lia.
Qed.

(** C8 (amended): on write the parts are grouped by lower-cased,
    dot-stripped extension.  The default of an extension is the content type
    of the first part seen with that extension and a non-empty content type
    -- the first part seen with the extension whenever no content type is
    empty; a later part with the same extension and a different content type
    becomes an override under its path and leaves the default as it is;
    parts with no extension are always overrides.  The document lists the
    fixed [rels] default first, then the collected defaults sorted by
    extension, then the overrides sorted by part path. *)
Theorem contentTypes_document localeCompare registry :
  uniqueKeys (map partPath (JsMap.values registry)) = true ->
  (forall a b, (localeCompare a b <= 0)%Z \/ (localeCompare b a <= 0)%Z) ->
  let all := JsMap.values registry in
  let defaults := sortBy (compareFst localeCompare) (specDefaults all) in
  let overrides := sortBy (compareFst localeCompare) (specOverrides all) in
  contentTypeTables registry = (specDefaults all, specOverrides all)
  /\ contentTypesDocument localeCompare registry
     = XmlNode "Types" [("xmlns", OpcContentTypesNamespace)]
         (defaultElement ("rels", RelsContentType)
          :: map defaultElement defaults ++ map overrideElement overrides)%list
  /\ Permutation (specDefaults all) defaults
  /\ Sorted (sortsBefore localeCompare) defaults
  /\ Permutation (specOverrides all) overrides
  /\ Sorted (sortsBefore localeCompare) overrides
  /\ (forall e d, In (e, d) (specDefaults all)
        <-> Js.truthy e = true /\ typedDefault all e = Some d)
  /\ (forall seen part rest, all = (seen ++ part :: rest)%list ->
        (In (partPath part, ContentType part) (specOverrides all)
         <-> isOverride seen part = true)
        /\ (Js.truthy (extensionOf part) = false ->
            isOverride seen part = true)
        /\ (forall d, typedDefault seen (extensionOf part) = Some d ->
              Js.truthy d = true ->
              typedDefault all (extensionOf part) = Some d
              /\ (d <> ContentType part -> isOverride seen part = true)))
  /\ (forall seen e,
        forallb (fun p => Js.truthy (ContentType p)) seen = true ->
        typedDefault seen e = firstDefault seen e).
Proof.
  intros U Total all defaults overrides.
  apply uniqueKeys_NoDup in U.
  pose proof (contentTypeTables_spec registry U) as Tables.
  split; [exact Tables|].
  split.
  { unfold contentTypesDocument, contentTypeDefaults, contentTypeOverrides.
    rewrite Tables. reflexivity. }
  split; [apply sortBy_perm|].
  split; [apply sortBy_sorted; exact Total|].
  split; [apply sortBy_perm|].
  split; [apply sortBy_sorted; exact Total|].
  split; [apply In_specDefaults|].
  split; [|intros seen e; apply typedDefault_firstDefault].
  intros seen part rest E. split; [|split].
  - rewrite E. apply In_specOverrides. fold all in U. now rewrite E in U.
  - intros T. unfold isOverride. now rewrite T.
  - intros d D Td. split.
    + rewrite E. clear - D Td.
      change (part :: rest) with ([part] ++ rest)%list.
      rewrite app_assoc.
      assert (P : typedDefault (seen ++ [part])%list (extensionOf part)
                  = Some d).
      { rewrite typedDefault_snoc, D, Td. reflexivity. }
      revert P. generalize (seen ++ [part])%list as l. intros l P.
      induction rest as [|q rest IH] using rev_ind.
      * now rewrite app_nil_r.
      * rewrite app_assoc, typedDefault_snoc, IH, Td. reflexivity.
    + intros Hne. unfold isOverride. rewrite D, Td.
      destruct (String.eqb_spec d (ContentType part)); [contradiction|].
      apply orb_true_r.
Qed.

Lemma contentTypes_document_witness :
  let registry := parts Sample.full in
  contentTypeTables registry
  = ([("xml", "application/xml"); ("pdf", "application/pdf");
      ("png", "image/png")],
     [("/aasx/aasx-origin", "text/plain")])
  /\ xmlChildren (contentTypesDocument ordinalCompare registry)
     = [defaultElement ("rels", RelsContentType);
        defaultElement ("pdf", "application/pdf");
        defaultElement ("png", "image/png");
        defaultElement ("xml", "application/xml");
        overrideElement ("/aasx/aasx-origin", "text/plain")].
Proof.
  intros registry.
  assert (U : uniqueKeys (map partPath (JsMap.values registry)) = true)
    by (vm_compute; reflexivity).
  destruct (contentTypes_document ordinalCompare registry U
              ordinalCompare_total) as [T [D _]].
  split.
  - rewrite T. vm_compute. reflexivity.
  - rewrite D. vm_compute. reflexivity.
Defined.

(** ** Format rejection *)

Section Rejection.
Variable newURL : string -> URL.
Variable parseXmlString : string -> result XmlNodeLike.
Variable unzipSync : list byte -> result (JsMap.t (list byte)).

Lemma originURI_loadRelationship s rels : forall pkg,
  noRootOrigin s rels = true ->
  originURI (fold_left (loadRelationship s) rels pkg) = originURI pkg.
Proof.
  unfold noRootOrigin.
  induction rels as [|rel rels IH]; intros pkg H; [reflexivity|].
  cbn [fold_left]. rewrite IH.
  - unfold loadRelationship.
    destruct (String.eqb (relType rel) RelationTypeAasxOrigin) eqn:O;
      [|reflexivity].
    destruct (String.eqb s "") eqn:S; [|reflexivity].
    cbn in H. rewrite O in H. discriminate.
  - destruct (negb (String.eqb s "")); [reflexivity|].
    cbn in H. apply andb_true_iff in H. apply H.
Qed.

Lemma originURI_loadRelationships entries names : forall pkg,
  (forall name, In name names -> isRelsEntry name = true ->
     exists rels,
       parseRelationshipsXml parseXmlString
         (decodeUtf8 (match JsMap.get name entries with
                      | Some b => b | None => [] end)) = inr rels
       /\ noRootOrigin (getSourcePathFromRelsPath name) rels = true) ->
  exists pkg',
    loadRelationships parseXmlString entries names pkg = inr pkg'
    /\ originURI pkg' = originURI pkg.
Proof.
  induction names as [|name names IH]; intros pkg H.
  - exists pkg. split; reflexivity.
  - cbn [loadRelationships].
    destruct (isRelsEntry name) eqn:R.
    + destruct (H name (or_introl eq_refl) R) as [rels [P N]].
      rewrite P. cbn [bind].
      destruct (IH (fold_left (loadRelationship
                                 (getSourcePathFromRelsPath name)) rels pkg))
        as [pkg' [L O]]; [intros n Hn; apply H; now right|].
      exists pkg'. split; [exact L|].
      rewrite O. now apply originURI_loadRelationship.
    + apply IH. intros n Hn. apply H. now right.
Qed.

Lemma open_unzip_failure bytes p rw e :
  unzipSync bytes = inl e -> e <> ErrNoOriginPart ->
  openFromBytes newURL parseXmlString unzipSync bytes p rw
  = inl (ErrInvalidFormat ++ ": " ++ e).
Proof.
  intros U N. unfold openFromBytes, openFromBytesTry. rewrite U. cbn [bind].
  destruct (String.eqb_spec e ErrNoOriginPart); [contradiction|reflexivity].
Qed.

Lemma open_missing_origin bytes p rw entries tables :
  unzipSync bytes = inr entries ->
  loadContentTypes parseXmlString entries = inr tables ->
  (forall name, In name (JsMap.keys entries) -> isRelsEntry name = true ->
     exists rels,
       parseRelationshipsXml parseXmlString
         (decodeUtf8 (match JsMap.get name entries with
                      | Some b => b | None => [] end)) = inr rels
       /\ noRootOrigin (getSourcePathFromRelsPath name) rels = true) ->
  openFromBytes newURL parseXmlString unzipSync bytes p rw
  = inl ErrNoOriginPart.
Proof.
  intros U T H. unfold openFromBytes, openFromBytesTry.
  rewrite U. cbn [bind]. rewrite T. cbn [bind]. destruct tables as [d c].
  destruct (originURI_loadRelationships entries (JsMap.keys entries)
              (newPackageBase p rw) H) as [pkg' [L O]].
  rewrite L. cbn [bind]. rewrite O. reflexivity.
Qed.

End Rejection.

(** C4: opening bytes the zip library rejects fails with the invalid-format
    error (the library's message wrapped; no message of the zip library is
    the missing-origin message); opening an archive that unzips, whose
    content-types and relationship documents parse, and that holds no
    origin relationship of the package root -- the empty archive for one --
    fails with the missing-origin error; the two messages differ, and only
    the first starts with the invalid-format text. *)
Theorem open_failures_distinct newURL parseXmlString unzipSync bytes p rw :
  (forall e, unzipSync bytes = inl e -> e <> ErrNoOriginPart ->
     openFromBytes newURL parseXmlString unzipSync bytes p rw
     = inl (ErrInvalidFormat ++ ": " ++ e))
  /\ (forall entries tables,
        unzipSync bytes = inr entries ->
        loadContentTypes parseXmlString entries = inr tables ->
        (forall name, In name (JsMap.keys entries) -> isRelsEntry name = true ->
           exists rels,
             parseRelationshipsXml parseXmlString
               (decodeUtf8 (match JsMap.get name entries with
                            | Some b => b | None => [] end)) = inr rels
             /\ noRootOrigin (getSourcePathFromRelsPath name) rels = true) ->
        openFromBytes newURL parseXmlString unzipSync bytes p rw
        = inl ErrNoOriginPart)
  /\ (unzipSync bytes = inr [] ->
      openFromBytes newURL parseXmlString unzipSync bytes p rw
      = inl ErrNoOriginPart)
  /\ (forall e,
        ErrInvalidFormat ++ ": " ++ e <> ErrNoOriginPart
        /\ Js.startsWith (ErrInvalidFormat ++ ": " ++ e) ErrInvalidFormat = true
        /\ Js.startsWith ErrNoOriginPart ErrInvalidFormat = false).
Proof.
  split; [|split; [|split]].
  - intros e. apply open_unzip_failure.
  - intros entries tables. apply open_missing_origin.
  - intros U. apply (open_missing_origin _ _ _ _ _ _ [] ([], []) U).
    + reflexivity.
    + intros name [].
  - intros e. split; [discriminate|]. split; [|reflexivity].
    unfold Js.startsWith, ErrInvalidFormat. cbn. reflexivity.
Qed.

Lemma open_failures_distinct_witness :
  openFromBytes Sample.plainURL SampleCodec.parseXmlString
    SampleCodec.unzipSync (encodeUtf8 "not a zip") "" false
  = inl "invalid package format: invalid zip data"
  /\ openFromBytes Sample.plainURL SampleCodec.parseXmlString
       SampleCodec.unzipSync [] "" false
     = inl "no origin part found".
Proof.
  split.
  - destruct (open_failures_distinct Sample.plainURL
                SampleCodec.parseXmlString SampleCodec.unzipSync
                (encodeUtf8 "not a zip") "" false) as [H _].
    apply (H "invalid zip data"); [reflexivity|discriminate].
  - destruct (open_failures_distinct Sample.plainURL
                SampleCodec.parseXmlString SampleCodec.unzipSync
                [] "" false) as [_ [_ [H _]]].
    apply H. reflexivity.
Defined.

(** ** Round trip *)

(** *** Strings *)

Lemma append_assoc (a b c : string) : (a ++ b) ++ c = a ++ (b ++ c).
Proof. induction a as [|x a IH]; simpl; [reflexivity|]. now rewrite IH. Qed.

Lemma append_empty_r (a : string) : a ++ "" = a.
Proof. induction a as [|x a IH]; simpl; [reflexivity|]. now rewrite IH. Qed.

Lemma drop_append (a b : string) : Js.drop (String.length a) (a ++ b) = b.
Proof. induction a as [|x a IH]; simpl; [reflexivity|exact IH]. Qed.

Lemma take_append (a b : string) : Js.take (String.length a) (a ++ b) = a.
Proof.
  induction a as [|x a IH]; simpl.
  - destruct b; reflexivity.
  - now rewrite IH.
Qed.

Lemma take_all (a : string) : Js.take (String.length a) a = a.
Proof. rewrite <- (append_empty_r a) at 2. apply take_append. Qed.

Lemma take_beyond (a : string) n :
  (String.length a <= n)%nat -> Js.take n a = a.
Proof.
  revert n. induction a as [|x a IH]; intros n H.
  - destruct n; reflexivity.
  - destruct n as [|n]; simpl in *; [lia|]. rewrite IH; [reflexivity|lia].
Qed.

Lemma occurs_append c (a b : string) :
  occurs c (a ++ b) = occurs c a || occurs c b.
Proof.
  induction a as [|x a IH]; simpl; [reflexivity|].
  rewrite IH. now rewrite orb_assoc.
Qed.

Lemma lastIndexOf_from_absent c s : forall i acc,
  occurs c s = false -> Js.lastIndexOf_from c s i acc = acc.
Proof.
  induction s as [|x s IH]; intros i acc H; simpl in *; [reflexivity|].
  apply orb_false_iff in H. destruct H as [H1 H2].
  rewrite H1. now apply IH.
Qed.

Lemma lastIndexOf_from_last c a s : forall i acc,
  occurs c s = false ->
  Js.lastIndexOf_from c (a ++ String c s) i acc
  = (i + Z.of_nat (String.length a))%Z.
Proof.
  induction a as [|x a IH]; intros i acc H; simpl.
  - rewrite Ascii.eqb_refl, lastIndexOf_from_absent by assumption. lia.
  - rewrite IH by assumption. lia.
Qed.

Lemma lastIndexOf_last c a s :
  occurs c s = false ->
  Js.lastIndexOf (a ++ String c s) c = Z.of_nat (String.length a).
Proof.
  intros H. unfold Js.lastIndexOf. now rewrite lastIndexOf_from_last.
Qed.

Lemma lastIndexOf_absent c s :
  occurs c s = false -> Js.lastIndexOf s c = (-1)%Z.
Proof. intros H. unfold Js.lastIndexOf. now apply lastIndexOf_from_absent. Qed.

Lemma slice_prefix (a b : string) :
  Js.slice (a ++ b) 0 (Some (Z.of_nat (String.length a))) = a.
Proof.
  unfold Js.slice. rewrite string_length_append.
  destruct (Z.ltb_spec (Z.of_nat (String.length a)) 0); [lia|].
  cbn [Z.ltb Z.compare]. rewrite Z.min_l by lia.
  rewrite Z.min_l by lia.
  replace (Z.to_nat (Z.of_nat (String.length a) - 0)) with (String.length a)
    by lia.
  cbn [Z.to_nat Js.drop]. apply take_append.
Qed.

Lemma slice_suffix (a b : string) :
  Js.slice (a ++ b) (Z.of_nat (String.length a)) None = b.
Proof.
  unfold Js.slice. rewrite string_length_append.
  destruct (Z.ltb_spec (Z.of_nat (String.length a)) 0); [lia|].
  rewrite Z.min_l by lia. rewrite Nat2Z.id, drop_append.
  apply take_beyond. lia.
Qed.

(** A non-empty string ends in a character. *)
Lemma string_snoc (s : string) :
  Js.truthy s = true -> exists s' c, s = s' ++ String c "".
Proof.
  induction s as [|x s IH]; [discriminate|]. intros _.
  destruct s as [|y s].
  - exists "", x. reflexivity.
  - destruct (IH eq_refl) as [s' [c E]]. exists (String x s'), c.
    simpl. now rewrite <- E.
Qed.

Lemma snoc_injective (a b : string) c d :
  a ++ String c "" = b ++ String d "" -> a = b /\ c = d.
Proof.
  revert b. induction a as [|x a IH]; intros b H.
  - destruct b as [|y b]; simpl in H.
    + injection H as ->. auto.
    + injection H as -> H. destruct b; discriminate.
  - destruct b as [|y b]; simpl in H.
    + injection H as -> H. destruct a; discriminate.
    + injection H as -> H. apply IH in H. destruct H as [-> ->]. auto.
Qed.

Lemma endsWith_append (a p : string) : Js.endsWith (a ++ p) p = true.
Proof.
  unfold Js.endsWith. rewrite string_length_append.
  apply andb_true_iff. split; [apply Nat.leb_le; lia|].
  replace (String.length a + String.length p - String.length p)%nat
    with (String.length a) by lia.
  rewrite drop_append. apply String.eqb_refl.
Qed.

Lemma take_drop (s : string) n : Js.take n s ++ Js.drop n s = s.
Proof.
  revert n. induction s as [|x s IH]; intros [|n]; simpl; try reflexivity.
  now rewrite IH.
Qed.

Lemma endsWith_inv (s p : string) :
  Js.endsWith s p = true -> exists a, s = a ++ p.
Proof.
  unfold Js.endsWith. intros H. apply andb_true_iff in H.
  destruct H as [_ H]. apply String.eqb_eq in H.
  exists (Js.take (String.length s - String.length p) s).
  rewrite <- H at 2. symmetry. apply take_drop.
Qed.

(** A string that ends in a character other than [c] does not end in [c]. *)
Lemma endsWith_char_false (a s : string) c :
  Js.truthy s = true -> occurs c s = false ->
  Js.endsWith (a ++ s) (String c "") = false.
Proof.
  intros T O. destruct (Js.endsWith (a ++ s) (String c "")) eqn:E;
    [|reflexivity].
  apply endsWith_inv in E. destruct E as [y E].
  destruct (string_snoc s T) as [s' [d ->]].
  rewrite <- append_assoc in E. apply snoc_injective in E.
  destruct E as [_ ->].
  rewrite occurs_append in O. simpl in O. rewrite Ascii.eqb_refl in O.
  rewrite orb_true_r in O. discriminate.
Qed.

Lemma stripSuffix_append (a p : string) : Js.stripSuffix p (a ++ p) = a.
Proof.
  unfold Js.stripSuffix. rewrite endsWith_append, string_length_append.
  replace (String.length a + String.length p - String.length p)%nat
    with (String.length a) by lia.
  apply take_append.
Qed.

Lemma prefix_append (p s : string) : String.prefix p (p ++ s) = true.
Proof.
  induction p as [|x p IH]; simpl; [apply prefix_empty|].
  destruct (Ascii.ascii_dec x x); [exact IH|contradiction].
Qed.

Lemma includes_prefix (s p : string) :
  String.prefix p s = true -> Js.includes s p = true.
Proof. intros H. destruct s; cbn [Js.includes]; rewrite H; reflexivity. Qed.

Lemma includes_append (a p b : string) : Js.includes (a ++ p ++ b) p = true.
Proof.
  induction a as [|x a IH]; cbn [append Js.includes].
  - apply includes_prefix, prefix_append.
  - rewrite IH. apply orb_true_r.
Qed.

Lemma includes_cons c (s p : string) :
  Js.includes s p = true -> Js.includes (String c s) p = true.
Proof. intros H. cbn [Js.includes]. rewrite H. apply orb_true_r. Qed.

Lemma prefix_toLowerCase (p s : string) :
  String.prefix p s = true ->
  String.prefix (Js.toLowerCase p) (Js.toLowerCase s) = true.
Proof.
  revert s. induction p as [|x p IH]; intros s H; simpl.
  - apply prefix_empty.
  - destruct s as [|y s]; [discriminate|]. simpl in *.
    destruct (Ascii.ascii_dec x y) as [->|]; [|discriminate].
    destruct (Ascii.ascii_dec (Js.lowerChar y) (Js.lowerChar y));
      [auto|contradiction].
Qed.

Lemma includes_toLowerCase (s p : string) :
  Js.includes s p = true ->
  Js.includes (Js.toLowerCase s) (Js.toLowerCase p) = true.
Proof.
  induction s as [|x s IH]; cbn [Js.includes Js.toLowerCase]; intros H.
  - rewrite orb_false_r in *. now apply (prefix_toLowerCase p "").
  - apply orb_true_iff in H. destruct H as [H|H].
    + apply (prefix_toLowerCase p (String x s)) in H.
      cbn [Js.toLowerCase] in H. rewrite H. reflexivity.
    + rewrite (IH H). apply orb_true_r.
Qed.

(** *** Paths in normal form *)

Lemma split_slash_free c s :
  Forall (fun seg => occurs c seg = false) (Js.split c s).
Proof.
  induction s as [|x s IH]; simpl.
  - repeat constructor.
  - destruct (Ascii.eqb x c) eqn:E.
    + constructor; [reflexivity|exact IH].
    + destruct (Js.split c s) as [|h t]; inversion IH; subst;
        constructor; simpl; rewrite ?E; auto.
Qed.

Lemma normalizeSegments_good segments : forall stack,
  Forall (fun seg => occurs "/" seg = false) segments ->
  Forall goodSegment stack ->
  Forall goodSegment (normalizeSegments segments stack).
Proof.
  induction segments as [|seg segments IH]; intros stack Hs Hk; simpl.
  - now apply Forall_rev.
  - inversion Hs as [|? ? H1 H2]; subst.
    destruct (Js.truthy seg) eqn:T; cbn [negb orb]; [|now apply IH].
    destruct (String.eqb_spec seg "."); [now apply IH|].
    destruct (String.eqb_spec seg "..").
    + apply IH; [assumption|]. destruct stack; [constructor|].
      now inversion Hk.
    + apply IH; [assumption|]. constructor; [|assumption].
      repeat split; assumption.
Qed.

Lemma normal_form p :
  normalizePath p = p ->
  exists segments, p = pathOf segments /\ Forall goodSegment segments.
Proof.
  intros H. exists (normalizeSegments (Js.split "/" p) []). split.
  - symmetry. exact H.
  - apply normalizeSegments_good; [apply split_slash_free|constructor].
Qed.

Lemma join_snoc init s :
  init <> [] -> Js.join "/" (init ++ [s]) = Js.join "/" init ++ "/" ++ s.
Proof.
  unfold Js.join. induction init as [|x init IH]; intros H; [contradiction|].
  destruct init as [|y init]; [reflexivity|].
  specialize (IH ltac:(discriminate)).
  change (String.concat "/" ((x :: y :: init) ++ [s]))
    with (x ++ "/" ++ String.concat "/" ((y :: init) ++ [s])).
  rewrite IH.
  change (String.concat "/" (x :: y :: init))
    with (x ++ "/" ++ String.concat "/" (y :: init)).
  now rewrite !append_assoc.
Qed.

(** A path in normal form other than the root is a directory part, a
    separator and a last segment. *)
Lemma pathOf_snoc init s : pathOf (init ++ [s]) = dirOf init ++ "/" ++ s.
Proof.
  unfold pathOf, dirOf. destruct init as [|x init]; [reflexivity|].
  rewrite join_snoc by discriminate. unfold pathOf.
  change ("/" ++ Js.join "/" (x :: init) ++ "/" ++ s)
    with (String "/" (Js.join "/" (x :: init) ++ "/" ++ s)).
  change (("/" ++ Js.join "/" (x :: init)) ++ "/" ++ s)
    with (String "/" (Js.join "/" (x :: init) ++ "/" ++ s)).
  reflexivity.
Qed.

Lemma truthy_append_l (a b : string) :
  Js.truthy a = true -> Js.truthy (a ++ b) = true.
Proof. destruct a; [discriminate|reflexivity]. Qed.

Lemma join_good_truthy segments :
  segments <> [] -> Forall goodSegment segments ->
  Js.truthy (Js.join "/" segments) = true.
Proof.
  intros H G. destruct segments as [|x segments]; [contradiction|].
  inversion G as [|? ? [T _] _]; subst.
  unfold Js.join. destruct segments; [exact T|].
  cbn [String.concat]. now apply truthy_append_l.
Qed.

Lemma startsWith_slash_segment s b :
  Js.truthy s = true -> occurs "/" s = false ->
  Js.startsWith (s ++ b) "/" = false.
Proof.
  intros T O. destruct s as [|c s]; [discriminate|].
  cbn [append]. rewrite startsWith_cons.
  simpl in O. now apply orb_false_iff in O.
Qed.

Lemma join_good_no_leading_slash segments b :
  segments <> [] -> Forall goodSegment segments ->
  Js.startsWith (Js.join "/" segments ++ b) "/" = false.
Proof.
  intros H G. destruct segments as [|x segments]; [contradiction|].
  inversion G as [|? ? [T [O _]] _]; subst.
  unfold Js.join. destruct segments.
  - cbn [String.concat]. now apply startsWith_slash_segment.
  - cbn [String.concat]. rewrite append_assoc.
    now apply startsWith_slash_segment.
Qed.

Lemma trimTrailingSlash_segment a s :
  Js.truthy s = true -> occurs "/" s = false ->
  trimTrailingSlash (a ++ s) = a ++ s.
Proof.
  intros T O. unfold trimTrailingSlash.
  rewrite endsWith_char_false by assumption.
  now rewrite andb_false_r.
Qed.

Lemma baseName_split a s :
  Js.truthy s = true -> occurs "/" s = false ->
  baseName (a ++ "/" ++ s) = s.
Proof.
  intros T O. unfold baseName.
  replace (a ++ "/" ++ s) with ((a ++ "/") ++ s) by apply append_assoc.
  rewrite trimTrailingSlash_segment by assumption.
  rewrite append_assoc. change ("/" ++ s) with (String "/" s).
  rewrite lastIndexOf_last by assumption.
  destruct (Z.ltb_spec (Z.of_nat (String.length a)) 0); [lia|].
  replace (a ++ String "/" s) with ((a ++ "/") ++ s)
    by (rewrite append_assoc; reflexivity).
  replace (Z.of_nat (String.length a) + 1)%Z
    with (Z.of_nat (String.length (a ++ "/")))
    by (rewrite string_length_append; simpl; lia).
  apply slice_suffix.
Qed.

Lemma dirName_split a s :
  Js.truthy s = true -> occurs "/" s = false ->
  dirName (a ++ "/" ++ s) = if Js.truthy a then a else "/".
Proof.
  intros T O. unfold dirName.
  replace (a ++ "/" ++ s) with ((a ++ "/") ++ s) by apply append_assoc.
  rewrite trimTrailingSlash_segment by assumption.
  rewrite append_assoc. change ("/" ++ s) with (String "/" s).
  rewrite lastIndexOf_last by assumption.
  destruct a as [|x a]; [reflexivity|].
  destruct (Z.leb_spec (Z.of_nat (String.length (String x a))) 0);
    [simpl in *; lia|].
  apply slice_prefix.
Qed.

Lemma baseName_segment s :
  Js.truthy s = true -> occurs "/" s = false -> baseName s = s.
Proof.
  intros T O. unfold baseName.
  pose proof (trimTrailingSlash_segment "" s T O) as E. cbn [append] in E.
  rewrite E, lastIndexOf_absent by assumption. reflexivity.
Qed.

Lemma plain_decompose p :
  normalizePath p = p -> p <> "/" ->
  exists init s,
    p = dirOf init ++ "/" ++ s /\ Forall goodSegment init /\ goodSegment s.
Proof.
  intros N R. destruct (normal_form p N) as [segments [E G]].
  destruct segments as [|x segments] using rev_ind.
  - exfalso. apply R. subst. reflexivity.
  - clear IHsegments. apply Forall_app in G. destruct G as [G1 G2].
    inversion G2; subst. exists segments, x.
    split; [apply pathOf_snoc|]. auto.
Qed.

Lemma slice_tail c s : Js.slice (String c s) 1 None = s.
Proof.
  unfold Js.slice. cbn [String.length Z.ltb Z.compare].
  rewrite Z.min_l by lia. cbn [Z.to_nat Pos.to_nat Pos.iter_op Nat.add Js.drop].
  apply take_beyond. lia.
Qed.

Lemma trimLeadingSlash_slash s : trimLeadingSlash (String "/" s) = s.
Proof.
  unfold trimLeadingSlash. rewrite startsWith_cons.
  cbn [Ascii.eqb Bool.eqb]. apply slice_tail.
Qed.

Lemma trimLeadingSlash_none s :
  Js.startsWith s "/" = false -> trimLeadingSlash s = s.
Proof. intros H. unfold trimLeadingSlash. now rewrite H. Qed.

Lemma ensureLeadingSlash_none s :
  Js.startsWith s "/" = false -> ensureLeadingSlash s = "/" ++ s.
Proof. intros H. unfold ensureLeadingSlash. now rewrite H. Qed.

Lemma dirOf_cases init :
  Forall goodSegment init ->
  (init = [] /\ dirOf init = "")
  \/ (init <> []
      /\ dirOf init = String "/" (Js.join "/" init)
      /\ Js.truthy (Js.join "/" init) = true
      /\ forall b, Js.startsWith (Js.join "/" init ++ b) "/" = false).
Proof.
  intros G. destruct init as [|x init]; [left; auto|right].
  assert (H : x :: init <> []) by discriminate.
  split; [exact H|]. split; [reflexivity|].
  split; [now apply join_good_truthy|].
  intros b. now apply join_good_no_leading_slash.
Qed.

Lemma truthy_length s : Js.truthy s = true -> (1 <= String.length s)%nat.
Proof. destruct s; [discriminate|simpl; lia]. Qed.

Lemma join_good_not_dot init :
  Forall goodSegment init -> Js.join "/" init <> ".".
Proof.
  intros G E. destruct init as [|x init]; [discriminate|].
  inversion G as [|? ? [_ [_ [D _]]] _]; subst.
  unfold Js.join in E. destruct init as [|y init].
  - cbn in E. contradiction.
  - change (String.concat "/" (x :: y :: init))
      with (x ++ "/" ++ String.concat "/" (y :: init)) in E.
    apply (f_equal (occurs "/")) in E. rewrite occurs_append in E.
    cbn in E. rewrite orb_true_r in E. discriminate.
Qed.

Lemma normalizePathForMap_normal k :
  normalizePath k = k -> Js.toLowerCase k = k -> normalizePathForMap k = k.
Proof.
  intros N L. unfold normalizePathForMap.
  assert (S : Js.startsWith k "/" = true).
  { rewrite <- N. unfold normalizePath. cbn [append].
    now rewrite startsWith_cons. }
  assert (T : Js.truthy k = true) by (rewrite <- N; reflexivity).
  now rewrite T, S, N, L.
Qed.

Section SourceKey.
Variable k : string.
Hypothesis plain : sourceKey k = true.

Lemma sourceKey_normal : normalizePath k = k.
Proof.
  unfold sourceKey in plain. repeat (apply andb_true_iff in plain as [plain ?]).
  now apply String.eqb_eq.
Qed.

Lemma sourceKey_lower : Js.toLowerCase k = k.
Proof.
  unfold sourceKey in plain. repeat (apply andb_true_iff in plain as [plain ?]).
  now apply String.eqb_eq.
Qed.

Lemma sourceKey_not_root : k <> "/".
Proof.
  unfold sourceKey in plain. repeat (apply andb_true_iff in plain as [plain ?]).
  apply String.eqb_neq. now apply negb_true_iff.
Qed.

Lemma sourceKey_not_rels_dir : dirName k <> "/_rels".
Proof.
  unfold sourceKey in plain. repeat (apply andb_true_iff in plain as [plain ?]).
  apply String.eqb_neq. now apply negb_true_iff.
Qed.

Lemma sourceKey_canonical : normalizePathForMap k = k.
Proof.
  apply normalizePathForMap_normal; [apply sourceKey_normal|apply sourceKey_lower].
Qed.

Lemma sourceKey_truthy : Js.truthy k = true.
Proof. rewrite <- sourceKey_normal. reflexivity. Qed.

Lemma sourceKey_decompose :
  exists init s,
    k = dirOf init ++ "/" ++ s /\ Forall goodSegment init /\ goodSegment s.
Proof. apply plain_decompose; [apply sourceKey_normal|apply sourceKey_not_root]. Qed.

End SourceKey.

Lemma getRelsPath_plain init s :
  Forall goodSegment init -> goodSegment s ->
  sourceKey (dirOf init ++ "/" ++ s) = true ->
  getRelsPath (dirOf init ++ "/" ++ s)
  = dirOf init ++ "/_rels/" ++ s ++ ".rels".
Proof.
  intros Gi [T [O _]] P. unfold getRelsPath.
  rewrite (sourceKey_canonical _ P), (sourceKey_truthy _ P). cbn [negb].
  rewrite dirName_split, baseName_split by assumption.
  destruct (dirOf_cases init Gi) as [[-> ->]|[Hne [E [Tj _]]]].
  - reflexivity.
  - rewrite E. cbn [Js.truthy negb orb].
    destruct (String.eqb_spec (String "/" (Js.join "/" init)) "/") as [Z|_];
      [|reflexivity].
    injection Z as Z. rewrite Z in Tj. discriminate.
Qed.

(** The entry name of a bucket: the directory without its leading
    separator, then [_rels/], the last segment and [.rels]. *)
Lemma relsName_plain init s :
  Forall goodSegment init -> goodSegment s ->
  sourceKey (dirOf init ++ "/" ++ s) = true ->
  relsName (dirOf init ++ "/" ++ s)
  = match init with
    | [] => "_rels/" ++ s ++ ".rels"
    | _ => Js.join "/" init ++ "/_rels/" ++ s ++ ".rels"
    end.
Proof.
  intros Gi Gs P. unfold relsName. rewrite getRelsPath_plain by assumption.
  destruct init as [|x init].
  - cbn [dirOf append]. apply trimLeadingSlash_slash.
  - cbn [dirOf]. unfold pathOf. cbn [append]. apply trimLeadingSlash_slash.
Qed.

Lemma isRelsEntry_relsName k :
  sourceKey k = true -> isRelsEntry (relsName k) = true.
Proof.
  intros P. destruct (sourceKey_decompose k P) as [init [s [E [Gi Gs]]]].
  subst k. rewrite relsName_plain by assumption. unfold isRelsEntry.
  apply andb_true_iff. split.
  - destruct init as [|x init].
    + apply (includes_append "" "_rels/" (s ++ ".rels")).
    + replace (Js.join "/" (x :: init) ++ "/_rels/" ++ s ++ ".rels")
        with ((Js.join "/" (x :: init) ++ "/") ++ "_rels/" ++ s ++ ".rels")
        by (rewrite append_assoc; reflexivity).
      apply includes_append.
  - destruct init as [|x init].
    + replace ("_rels/" ++ s ++ ".rels") with (("_rels/" ++ s) ++ ".rels")
        by (rewrite append_assoc; reflexivity).
      apply endsWith_append.
    + replace (Js.join "/" (x :: init) ++ "/_rels/" ++ s ++ ".rels")
        with ((Js.join "/" (x :: init) ++ "/_rels/" ++ s) ++ ".rels")
        by (rewrite !append_assoc; reflexivity).
      apply endsWith_append.
Qed.

Lemma good_rels_file s :
  goodSegment s ->
  Js.truthy (s ++ ".rels") = true /\ occurs "/" (s ++ ".rels") = false.
Proof.
  intros [T [O _]]. split; [now apply truthy_append_l|].
  rewrite occurs_append, O. reflexivity.
Qed.

(** Reading the entry name back gives the bucket's key. *)
Lemma getSourcePath_relsName k :
  sourceKey k = true -> getSourcePathFromRelsPath (relsName k) = k.
Proof.
  intros P. destruct (sourceKey_decompose k P) as [init [s [E [Gi Gs]]]].
  subst k. rewrite relsName_plain by assumption.
  pose proof (good_rels_file s Gs) as [Tr Or].
  destruct Gs as [T [O Gs]].
  unfold getSourcePathFromRelsPath.
  destruct (dirOf_cases init Gi) as [[-> D]|[Hne [D [Tj Sj]]]].
  - rewrite trimLeadingSlash_none by reflexivity.
    destruct (String.eqb_spec ("_rels/" ++ s ++ ".rels") "_rels/.rels")
      as [Z|_].
    { exfalso. injection Z as Z. apply (f_equal String.length) in Z.
      rewrite string_length_append in Z. apply truthy_length in T.
      simpl in Z. lia. }
    change ("_rels/" ++ s ++ ".rels") with ("_rels" ++ "/" ++ (s ++ ".rels")).
    rewrite dirName_split, baseName_split by assumption.
    replace (Js.stripSuffix ".rels" (s ++ ".rels")) with s
      by (symmetry; apply stripSuffix_append).
    cbn. apply ensureLeadingSlash_none.
    rewrite <- (append_empty_r s). now apply startsWith_slash_segment.
  - destruct init as [|x init]; [contradiction|].
    set (J := Js.join "/" (x :: init)) in *.
    rewrite trimLeadingSlash_none by apply Sj.
    destruct (String.eqb_spec (J ++ "/_rels/" ++ s ++ ".rels") "_rels/.rels")
      as [Z|_].
    { exfalso. apply (f_equal String.length) in Z.
      rewrite !string_length_append in Z.
      apply truthy_length in T. apply truthy_length in Tj.
      simpl in Z. lia. }
    replace (J ++ "/_rels/" ++ s ++ ".rels")
      with ((J ++ "/_rels") ++ "/" ++ (s ++ ".rels"))
      by (rewrite !append_assoc; reflexivity).
    rewrite dirName_split, baseName_split by assumption.
    rewrite (truthy_append_l J "/_rels" Tj).
    rewrite !stripSuffix_append.
    assert (NJ : J <> "_rels").
    { intros Z. apply (sourceKey_not_rels_dir _ P).
      rewrite dirName_split, D, Z by assumption. reflexivity. }
    unfold Js.stripWhole.
    destruct (String.eqb_spec J "_rels"); [contradiction|].
    rewrite Tj. cbn [negb orb].
    destruct (String.eqb_spec J ".") as [Z|_].
    { exfalso. revert Z. now apply join_good_not_dot. }
    rewrite ensureLeadingSlash_none by apply Sj.
    rewrite D. reflexivity.
Qed.

Lemma relsName_not_slash k :
  sourceKey k = true -> getSourcePathFromRelsPath (relsName k) <> "".
Proof.
  intros P. rewrite getSourcePath_relsName by assumption.
  intros Z. pose proof (sourceKey_truthy k P) as T. rewrite Z in T.
  discriminate.
Qed.

Lemma includes_char_occurs c s :
  Js.includes s (String c "") = occurs c s.
Proof.
  induction s as [|x s IH]; [reflexivity|].
  cbn [Js.includes occurs]. rewrite IH.
  change (String.prefix (String c "") (String x s))
    with (Js.startsWith (String x s) (String c "")).
  now rewrite startsWith_cons.
Qed.

Lemma replaceAll_absent c d s :
  occurs c s = false -> Js.replaceAll c d s = s.
Proof.
  induction s as [|x s IH]; simpl; [reflexivity|].
  intros H. apply orb_false_iff in H. destruct H as [-> H]. now rewrite IH.
Qed.

Lemma last_separator c s :
  occurs c s = false
  \/ exists a b, s = a ++ String c b /\ occurs c b = false.
Proof.
  induction s as [|x s IH]; [now left|].
  destruct IH as [O|[a [b [E O]]]].
  - cbn [occurs]. destruct (Ascii.eqb_spec x c) as [->|N].
    + right. exists "", s. auto.
    + left. now rewrite O.
  - right. exists (String x a), b. split; [|exact O].
    cbn [append]. now rewrite E.
Qed.

Lemma startsWith_slash_inv p :
  Js.startsWith p "/" = true -> exists n, p = String "/" n.
Proof.
  destruct p as [|c n]; [discriminate|]. rewrite startsWith_cons.
  intros E. apply Ascii.eqb_eq in E. subst c. eauto.
Qed.

Lemma startsWith_same c s p :
  Js.startsWith (String c s) (String c p) = Js.startsWith s p.
Proof.
  unfold Js.startsWith. cbn [String.prefix].
  destruct (Ascii.ascii_dec c c); [reflexivity|contradiction].
Qed.

(** The base name of an entry name is the base name of the path. *)
Lemma baseName_name n :
  Js.endsWith n "/" = false -> baseName (String "/" n) = baseName n.
Proof.
  intros E. destruct (last_separator "/" n) as [O|[a [s [-> O]]]].
  - destruct n as [|c n]; [reflexivity|].
    change (String "/" (String c n)) with ("" ++ "/" ++ String c n).
    rewrite (baseName_split "" (String c n)) by (reflexivity || assumption).
    symmetry. now apply baseName_segment.
  - assert (T : Js.truthy s = true).
    { destruct s; [|reflexivity].
      change (a ++ "/") with (a ++ "/")%string in E.
      rewrite (endsWith_append a "/") in E. discriminate. }
    change (String "/" (a ++ String "/" s))
      with (String "/" a ++ "/" ++ s).
    change (a ++ String "/" s) with (a ++ "/" ++ s).
    now rewrite !baseName_split.
Qed.

Section PlainPath.
Variable p : string.
Hypothesis plain : plainPath p = true.

Lemma plainPath_absolute : Js.startsWith p "/" = true.
Proof.
  unfold plainPath in plain. repeat (apply andb_true_iff in plain as [plain ?]).
  exact plain.
Qed.

Lemma plainPath_single : Js.startsWith p "//" = false.
Proof.
  unfold plainPath in plain. repeat (apply andb_true_iff in plain as [plain ?]).
  now apply negb_true_iff.
Qed.

Lemma plainPath_end : p = "/" \/ Js.endsWith p "/" = false.
Proof.
  unfold plainPath in plain. repeat (apply andb_true_iff in plain as [plain ?]).
  apply orb_true_iff in H2. destruct H2 as [E|E].
  - left. now apply String.eqb_eq.
  - right. now apply negb_true_iff.
Qed.

Lemma plainPath_no_rels : Js.includes p "_rels/" = false.
Proof.
  unfold plainPath in plain. repeat (apply andb_true_iff in plain as [plain ?]).
  now apply negb_true_iff.
Qed.

Lemma plainPath_not_contentTypes : p <> "/[Content_Types].xml".
Proof.
  unfold plainPath in plain. repeat (apply andb_true_iff in plain as [plain ?]).
  apply String.eqb_neq. now apply negb_true_iff.
Qed.

Lemma plainPath_not_proto : p <> "/__proto__".
Proof.
  unfold plainPath in plain. repeat (apply andb_true_iff in plain as [plain ?]).
  apply String.eqb_neq. now apply negb_true_iff.
Qed.

Lemma plainPath_truthy : Js.truthy p = true.
Proof.
  destruct (startsWith_slash_inv p plainPath_absolute) as [n ->]. reflexivity.
Qed.

(** The entry name of a part, and how it is read back. *)
Lemma plainPath_name : p = String "/" (trimLeadingSlash p).
Proof.
  destruct (startsWith_slash_inv p plainPath_absolute) as [n E].
  rewrite E at 2. now rewrite trimLeadingSlash_slash.
Qed.

Lemma plainPath_name_relative : Js.startsWith (trimLeadingSlash p) "/" = false.
Proof.
  pose proof plainPath_single as S. rewrite plainPath_name in S.
  now rewrite startsWith_same in S.
Qed.

Lemma plainPath_name_back : ensureLeadingSlash (trimLeadingSlash p) = p.
Proof.
  rewrite ensureLeadingSlash_none by apply plainPath_name_relative.
  symmetry. apply plainPath_name.
Qed.

Lemma plainPath_name_no_rels : Js.includes (trimLeadingSlash p) "_rels/" = false.
Proof.
  destruct (Js.includes (trimLeadingSlash p) "_rels/") eqn:I; [|reflexivity].
  apply (includes_cons "/") in I. rewrite <- plainPath_name in I.
  rewrite plainPath_no_rels in I. discriminate.
Qed.

Lemma plainPath_name_no_slash_end : Js.endsWith (trimLeadingSlash p) "/" = false.
Proof.
  destruct plainPath_end as [E|E].
  - rewrite E. reflexivity.
  - destruct (Js.endsWith (trimLeadingSlash p) "/") eqn:F; [|reflexivity].
    apply endsWith_inv in F. destruct F as [a F].
    rewrite plainPath_name, F in E.
    change (String "/" (a ++ "/")) with (String "/" a ++ "/") in E.
    rewrite endsWith_append in E. discriminate.
Qed.

Lemma plainPath_name_not_contentTypes :
  trimLeadingSlash p <> "[Content_Types].xml".
Proof.
  intros Z. apply plainPath_not_contentTypes. rewrite plainPath_name, Z.
  reflexivity.
Qed.

Lemma plainPath_name_not_proto : trimLeadingSlash p <> "__proto__".
Proof.
  intros Z. apply plainPath_not_proto. rewrite plainPath_name, Z.
  reflexivity.
Qed.

Lemma plainPath_name_baseName : baseName (trimLeadingSlash p) = baseName p.
Proof.
  rewrite plainPath_name at 2. symmetry. apply baseName_name.
  apply plainPath_name_no_slash_end.
Qed.

Lemma plainPath_name_extKey : extKey (trimLeadingSlash p) = extKey p.
Proof. unfold extKey, extName. now rewrite plainPath_name_baseName. Qed.

Lemma plainPath_name_not_rels : isRelsEntry (trimLeadingSlash p) = false.
Proof. unfold isRelsEntry. now rewrite plainPath_name_no_rels. Qed.

End PlainPath.

(** *** The files of the archive *)

Lemma fold_set_fresh {V} (items : list (string * V)) : forall acc,
  NoDup (JsMap.keys acc ++ map fst items)%list ->
  fold_left (fun m i => JsMap.set (fst i) (snd i) m) items acc
  = (acc ++ items)%list.
Proof.
  induction items as [|[k v] items IH]; intros acc H; cbn [fold_left fst snd].
  - now rewrite app_nil_r.
  - cbn [map fst] in H.
    rewrite set_fresh.
    + rewrite IH; [now rewrite <- app_assoc|].
      unfold JsMap.keys. rewrite map_app, <- app_assoc. exact H.
    + apply NoDup_remove_2 in H. intros Hin. apply H.
      apply in_or_app. now left.
Qed.

Lemma fold_writeRelationships ser m : forall acc,
  fold_left (writeRelationships ser) m acc
  = fold_left (fun files i => JsObject.set (fst i) (snd i) files)
      (map (relsFile ser) (nonEmptyBuckets m)) acc.
Proof.
  induction m as [|[k rels] m IH]; intros acc; [reflexivity|].
  cbn [fold_left writeRelationships nonEmptyBuckets filter snd].
  destruct (List.length rels =? 0)%nat; cbn [negb].
  - apply IH.
  - cbn [map fold_left]. rewrite IH. reflexivity.
Qed.

Lemma fold_writePart l : forall acc,
  fold_left writePart l acc
  = fold_left (fun files i => JsObject.set (fst i) (snd i) files)
      (map partFile l) acc.
Proof.
  induction l as [|part l IH]; intros acc; [reflexivity|].
  cbn [fold_left map]. now rewrite IH.
Qed.

(** While no name is [__proto__] the record is a dictionary. *)
Lemma fold_set_plain (items : list (string * list byte)) : forall own,
  ~ In "__proto__" (map fst items) ->
  fold_left (fun files i => JsObject.set (fst i) (snd i) files) items
    (JsObject.Plain own)
  = JsObject.Plain
      (fold_left (fun files i => JsMap.set (fst i) (snd i) files) items own).
Proof.
  induction items as [|[name bytes] items IH]; intros own N; [reflexivity|].
  cbn [fold_left fst snd JsObject.set]. cbn [map fst In] in N.
  destruct (String.eqb_spec name "__proto__") as [E|_]; [tauto|].
  apply IH. tauto.
Qed.

(** Once the prototype is replaced the own properties stay as they are. *)
Lemma fold_set_replaced (items : list (string * list byte)) :
  forall own prototype later,
  fold_left (fun files i => JsObject.set (fst i) (snd i) files) items
    (JsObject.Replaced own prototype later)
  = JsObject.Replaced own prototype (later ++ items)%list.
Proof.
  induction items as [|item items IH]; intros own prototype later.
  - now rewrite app_nil_r.
  - cbn [fold_left JsObject.set]. rewrite IH, <- app_assoc.
    destruct item. reflexivity.
Qed.

Lemma NoDup_map_by {A B} (f : A -> B) (g : B -> string) (key : A -> string) l :
  (forall x, In x l -> g (f x) = key x) ->
  NoDup (map key l) -> NoDup (map f l).
Proof.
  intros H N. induction l as [|x l IH]; cbn [map] in *; [constructor|].
  inversion N as [|? ? Hx Hl]; subst. constructor.
  - intros Hin. apply in_map_iff in Hin. destruct Hin as [y [E Hy]].
    apply Hx. apply in_map_iff. exists y. split; [|assumption].
    rewrite <- (H y) by (now right). rewrite E. apply H. now left.
  - apply IH; [|assumption]. intros y Hy. apply H. now right.
Qed.

Lemma NoDup_keys_filter {V} (f : string * V -> bool) (m : JsMap.t V) :
  NoDup (JsMap.keys m) -> NoDup (JsMap.keys (filter f m)).
Proof.
  unfold JsMap.keys. induction m as [|x m IH]; intros N; [constructor|].
  inversion N as [|? ? Hx Hl]; subst. cbn [filter].
  destruct (f x); [|auto]. cbn [map]. constructor; [|auto].
  intros Hin. apply Hx. apply in_map_iff in Hin.
  destruct Hin as [y [E Hy]]. apply filter_In in Hy.
  apply in_map_iff. exists y. tauto.
Qed.

Lemma relsName_root : relsName "" = "_rels/.rels".
Proof. reflexivity. Qed.

Lemma getSourcePath_bucket k :
  k = "" \/ sourceKey k = true ->
  normalizePathForMap (getSourcePathFromRelsPath (relsName k)) = k
  /\ isRelsEntry (relsName k) = true
  /\ String.eqb (getSourcePathFromRelsPath (relsName k)) "" = String.eqb k "".
Proof.
  intros [->|P]; [repeat split|].
  rewrite getSourcePath_relsName by assumption.
  split; [now apply sourceKey_canonical|].
  split; [now apply isRelsEntry_relsName|reflexivity].
Qed.

Section Files.
Variable lc : string -> string -> Z.
Variable ser : XmlNodeLike -> string.
Variable pkg : PackageBase.
Hypothesis RT : RoundTrippable pkg.

Lemma part_of_value part :
  In part (JsMap.values (parts pkg)) ->
  exists k, In (k, part) (parts pkg).
Proof.
  unfold JsMap.values. rewrite in_map_iff. intros [[k v] [E H]].
  cbn in E. subst. eauto.
Qed.

Lemma part_plain part :
  In part (JsMap.values (parts pkg)) ->
  plainPath (partPath part) = true /\ Js.truthy (ContentType part) = true.
Proof.
  intros H. destruct (part_of_value part H) as [k Hk].
  destruct (rt_parts pkg RT k part Hk) as [P [T _]]. auto.
Qed.

Lemma relsNames_NoDup :
  NoDup (map fst (map (relsFile ser) (nonEmptyBuckets (relationships pkg)))).
Proof.
  rewrite map_map. cbn [relsFile fst].
  apply (NoDup_map_by (fun e : string * list Relationship => relsName (fst e))
           (fun n => normalizePathForMap (getSourcePathFromRelsPath n)) fst).
  - intros [k rels] Hin. cbn [fst]. apply getSourcePath_bucket.
    apply filter_In in Hin. destruct Hin as [Hin _].
    exact (rt_keys pkg RT k rels Hin).
  - apply NoDup_keys_filter. apply uniqueKeys_NoDup. exact (rt_rels_wf pkg RT).
Qed.

Lemma partNames_NoDup :
  NoDup (map fst (map partFile (JsMap.values (parts pkg)))).
Proof.
  unfold JsMap.values. rewrite !map_map. cbn [partFile fst].
  apply (NoDup_map_by (fun e : string * Part => partName (snd e))
           (fun n => normalizePathForMap (String "/" n)) fst).
  - intros [k part] Hin. cbn [fst snd].
    destruct (rt_parts pkg RT k part Hin) as [P [_ ->]].
    unfold partName. now rewrite <- (plainPath_name _ P).
  - apply uniqueKeys_NoDup. exact (rt_parts_wf pkg RT).
Qed.

Lemma relsFile_is_rels n :
  In n (map fst (map (relsFile ser) (nonEmptyBuckets (relationships pkg)))) ->
  isRelsEntry n = true.
Proof.
  rewrite map_map, in_map_iff. intros [[k rels] [<- Hin]]. cbn [relsFile fst].
  apply getSourcePath_bucket. apply filter_In in Hin.
  destruct Hin as [Hin _]. exact (rt_keys pkg RT k rels Hin).
Qed.

Lemma partFile_is_part n :
  In n (map fst (map partFile (JsMap.values (parts pkg)))) ->
  isRelsEntry n = false /\ n <> contentTypePath
  /\ Js.includes n "_rels/" = false /\ Js.endsWith n "/" = false
  /\ n <> "__proto__".
Proof.
  rewrite map_map, in_map_iff. intros [part [<- Hin]]. cbn [partFile fst].
  destruct (part_plain part Hin) as [P _]. unfold partName.
  split; [now apply plainPath_name_not_rels|].
  split; [now apply plainPath_name_not_contentTypes|].
  split; [now apply plainPath_name_no_rels|].
  split; [now apply plainPath_name_no_slash_end|].
  now apply plainPath_name_not_proto.
Qed.

(** The record stays a dictionary and holds these files, each under a name
    of its own. *)
Lemma packageFiles_list :
  packageFiles lc ser pkg = JsObject.Plain (archiveFiles lc ser pkg)
  /\ NoDup (JsMap.keys (archiveFiles lc ser pkg)).
Proof.
  assert (N : NoDup
    (contentTypePath
     :: map fst (map (relsFile ser) (nonEmptyBuckets (relationships pkg)))
     ++ map fst (map partFile (JsMap.values (parts pkg))))%list).
  { constructor.
    - intros Hin. apply in_app_or in Hin. destruct Hin as [Hin|Hin].
      + apply relsFile_is_rels in Hin. discriminate.
      + apply partFile_is_part in Hin. now destruct Hin as [_ [Hin _]].
    - apply NoDup_app; [apply relsNames_NoDup|apply partNames_NoDup|].
      intros n H1 H2. apply relsFile_is_rels in H1.
      apply partFile_is_part in H2. destruct H2 as [H2 _]. congruence. }
  split.
  - unfold packageFiles, JsObject.empty. cbn [JsObject.set].
    change (String.eqb contentTypePath "__proto__") with false.
    cbn match. cbn [JsMap.set].
    rewrite fold_writeRelationships, fold_writePart.
    rewrite fold_set_plain.
    2:{ intros Hin. apply relsFile_is_rels in Hin. discriminate. }
    rewrite fold_set_plain.
    2:{ intros Hin. apply partFile_is_part in Hin. now destruct Hin as [_ [_ [_ [_ Hin]]]]. }
    f_equal. rewrite (fold_set_fresh (map (relsFile ser) _)).
    + rewrite fold_set_fresh; [reflexivity|].
      unfold JsMap.keys. cbn [map app fst]. exact N.
    + cbn [JsMap.keys map fst app]. inversion N as [|? ? Hx Hl]; subst.
      constructor.
      * intros Hin. apply Hx. apply in_or_app. now left.
      * now apply NoDup_app_remove_r in Hl.
  - unfold archiveFiles, JsMap.keys. cbn [map fst].
    rewrite map_app. exact N.
Qed.

End Files.

(** *** Reading the documents back *)

Lemma decode_encode s : decodeUtf8 (encodeUtf8 s) = s.
Proof. apply string_of_list_byte_of_string. Qed.

Lemma flat_map_by_elements {X} (f : XmlChild -> list X) :
  (forall t, f (XmlText t) = []) ->
  (forall n, f (XmlElement n)
             = f (XmlElement (XmlNode (xmlName n) (xmlAttributes n) []))) ->
  forall cs,
    flat_map f cs
    = flat_map (fun e => f (XmlElement (XmlNode (fst e) (snd e) [])))
        (elementsOf cs).
Proof.
  intros Ht He cs. unfold elementsOf.
  induction cs as [|c cs IH]; [reflexivity|].
  cbn [flat_map]. rewrite IH. destruct c as [t|n].
  - now rewrite Ht.
  - cbn [app flat_map fst snd]. rewrite (He n). reflexivity.
Qed.

Lemma flat_map_same_elements {X} (f : XmlChild -> list X) cs cs' :
  (forall t, f (XmlText t) = []) ->
  (forall n, f (XmlElement n)
             = f (XmlElement (XmlNode (xmlName n) (xmlAttributes n) []))) ->
  elementsOf cs' = elementsOf cs -> flat_map f cs' = flat_map f cs.
Proof.
  intros Ht He E.
  rewrite (flat_map_by_elements f Ht He cs'), (flat_map_by_elements f Ht He cs).
  now rewrite E.
Qed.

Lemma parseRelationship_same cs cs' :
  elementsOf cs' = elementsOf cs ->
  flat_map parseRelationship cs' = flat_map parseRelationship cs.
Proof.
  apply flat_map_same_elements; [reflexivity|]. intros [n a c]. reflexivity.
Qed.

Lemma parseDefault_same cs cs' :
  elementsOf cs' = elementsOf cs ->
  flat_map parseDefault cs' = flat_map parseDefault cs.
Proof.
  apply flat_map_same_elements; [reflexivity|]. intros [n a c]. reflexivity.
Qed.

Lemma parseOverride_same cs cs' :
  elementsOf cs' = elementsOf cs ->
  flat_map parseOverride cs' = flat_map parseOverride cs.
Proof.
  apply flat_map_same_elements; [reflexivity|]. intros [n a c]. reflexivity.
Qed.

Lemma parseRelationship_element rel :
  plainRelationship rel = true ->
  parseRelationship (relationshipElement rel) = [rel].
Proof.
  unfold plainRelationship. intros H.
  repeat (apply andb_true_iff in H as [H ?]).
  destruct rel as [i ty t m]. cbn [id relType target targetMode] in *.
  apply String.eqb_eq in H0. subst m.
  assert (Tt : Js.truthy t = true) by (destruct t; [discriminate|reflexivity]).
  unfold parseRelationship, relationshipElement.
  cbn [id relType target targetMode xmlName xmlAttributes].
  cbn. rewrite H, H3, Tt. reflexivity.
Qed.

Lemma parseRelationship_elements rels :
  Forall (fun rel => plainRelationship rel = true) rels ->
  flat_map parseRelationship (map relationshipElement rels) = rels.
Proof.
  induction 1 as [|rel rels H _ IH]; [reflexivity|].
  cbn [map flat_map]. rewrite parseRelationship_element by assumption.
  cbn [app]. now rewrite IH.
Qed.

Lemma parse_content_elements ds os :
  Forall bothTruthy ds -> Forall bothTruthy os ->
  flat_map parseDefault (map defaultElement ds ++ map overrideElement os) = ds
  /\ flat_map parseOverride (map defaultElement ds ++ map overrideElement os)
     = os.
Proof.
  intros Hd Ho. rewrite !flat_map_app. split.
  - replace (flat_map parseDefault (map overrideElement os)) with
      (@nil (string * string)).
    + rewrite app_nil_r. induction Hd as [|[e d] ds [T1 T2] _ IH];
        [reflexivity|].
      cbn [map flat_map]. rewrite IH. cbn in *. rewrite T1, T2. reflexivity.
    + clear. induction os as [|o os IH]; [reflexivity|].
      cbn [map flat_map]. now rewrite <- IH.
  - replace (flat_map parseOverride (map defaultElement ds)) with
      (@nil (string * string)).
    + cbn [app]. induction Ho as [|[k c] os [T1 T2] _ IH]; [reflexivity|].
      cbn [map flat_map]. rewrite IH. cbn in *. rewrite T1, T2. reflexivity.
    + clear. induction ds as [|d ds IH]; [reflexivity|].
      cbn [map flat_map]. now rewrite <- IH.
Qed.

Lemma get_fold_set_notin (f : string -> string) (l : list (string * string)) :
  forall m0 x,
    (forall i, In i l -> f (fst i) <> x) ->
    JsMap.get x
      (fold_left (fun m i => JsMap.set (f (fst i)) (snd i) m) l m0)
    = JsMap.get x m0.
Proof.
  induction l as [|i l IH]; intros m0 x H; [reflexivity|].
  cbn [fold_left]. rewrite IH by (intros j Hj; apply H; now right).
  apply get_set_other. intros E. apply (H i (or_introl eq_refl)). now symmetry.
Qed.

Lemma get_fold_set_In (f : string -> string) (l : list (string * string)) :
  forall m0 a v,
    NoDup (map (fun i => f (fst i)) l) -> In (a, v) l ->
    JsMap.get (f a)
      (fold_left (fun m i => JsMap.set (f (fst i)) (snd i) m) l m0)
    = Some v.
Proof.
  induction l as [|i l IH]; intros m0 a v N Hin; [destruct Hin|].
  cbn [fold_left]. cbn [map] in N. inversion N as [|? ? Hx Hl]; subst.
  destruct Hin as [->|Hin].
  - cbn [fst snd] in *. rewrite get_fold_set_notin.
    + apply get_set_same.
    + intros j Hj E. apply Hx. apply in_map_iff. exists j. auto.
  - now apply IH.
Qed.

Lemma typedDefault_stable seen e d rest :
  typedDefault seen e = Some d -> Js.truthy d = true ->
  typedDefault (seen ++ rest)%list e = Some d.
Proof.
  intros D T. induction rest as [|q rest IH] using rev_ind.
  - now rewrite app_nil_r.
  - rewrite app_assoc, typedDefault_snoc, IH, T. reflexivity.
Qed.

Lemma In_specOverrides_part seen i :
  In i (specOverrides seen) -> exists q, In q seen /\ i = partView q.
Proof.
  induction seen as [|part seen IH] using rev_ind; [intros []|].
  rewrite specOverrides_snoc. intros H.
  assert (G : In i (specOverrides seen)
              \/ i = (partPath part, ContentType part)).
  { destruct (isOverride seen part); [|now left].
    apply in_app_or in H. destruct H as [H | [<- | []]]; auto. }
  destruct G as [G | ->].
  - destruct (IH G) as [q [Hq E]]. exists q. split; [|exact E].
    apply in_or_app. now left.
  - exists part. split; [|reflexivity]. apply in_or_app. right. now left.
Qed.

Lemma NoDup_map_injective {A B} (g : A -> B) l x y :
  NoDup (map g l) -> In x l -> In y l -> g x = g y -> x = y.
Proof.
  induction l as [|z l IH]; intros N Hx Hy E; [destruct Hx|].
  cbn [map] in N. inversion N as [|? ? Hz Hl]; subst.
  destruct Hx as [->|Hx], Hy as [->|Hy]; auto.
  - exfalso. apply Hz. rewrite E. now apply in_map.
  - exfalso. apply Hz. rewrite <- E. now apply in_map.
Qed.

Lemma extensionOf_lower part :
  Js.toLowerCase (extensionOf part) = extensionOf part.
Proof. unfold extensionOf, extKey. apply toLowerCase_idempotent. Qed.

Lemma extensionsSeen_lower seen e :
  In e (extensionsSeen seen) -> Js.toLowerCase e = e.
Proof.
  intros H. apply In_extensionsSeen in H. destruct H as [_ H].
  apply existsb_exists in H. destruct H as [part [_ H]].
  apply String.eqb_eq in H. subst e. apply extensionOf_lower.
Qed.

Section ContentTypesBack.
Variable lc : string -> string -> Z.
Variable pkg : PackageBase.
Hypothesis RT : RoundTrippable pkg.

Let all := JsMap.values (parts pkg).
Let ds := sortBy (compareFst lc) (specDefaults all).
Let os := sortBy (compareFst lc) (specOverrides all).

(** The tables the reader builds from the document of [pkg]. *)
Let defaultTypes :=
  fold_left (fun m item => JsMap.set (Js.toLowerCase (fst item)) (snd item) m)
    (("rels", RelsContentType) :: ds) [].
Let contentTypesMap :=
  fold_left
    (fun m item => JsMap.set (normalizePathForMap (fst item)) (snd item) m)
    os [].

Lemma all_keys : map (fun q => normalizePathForMap (partPath q)) all = JsMap.keys (parts pkg).
Proof.
  unfold all, JsMap.values, JsMap.keys. rewrite map_map.
  apply map_ext_in. intros [k part] Hin. cbn [fst snd].
  destruct (rt_parts pkg RT k part Hin) as [_ [_ ->]]. reflexivity.
Qed.

Lemma all_keys_NoDup : NoDup (map (fun q => normalizePathForMap (partPath q)) all).
Proof. rewrite all_keys. apply uniqueKeys_NoDup. exact (rt_parts_wf pkg RT). Qed.

Lemma all_paths_NoDup : NoDup (map partPath all).
Proof.
  pose proof all_keys_NoDup as N.
  rewrite <- (map_map partPath normalizePathForMap) in N.
  now apply NoDup_map_inv in N.
Qed.

Lemma all_truthy :
  forallb (fun q => Js.truthy (ContentType q)) all = true.
Proof.
  apply forallb_forall. intros q Hq.
  now destruct (part_plain pkg RT q Hq).
Qed.

Lemma prefix_truthy seen rest :
  all = (seen ++ rest)%list ->
  forallb (fun q => Js.truthy (ContentType q)) seen = true.
Proof.
  intros E. pose proof all_truthy as T. rewrite E, forallb_app in T.
  now apply andb_true_iff in T.
Qed.

Lemma tables_back :
  contentTypeTables (parts pkg) = (specDefaults all, specOverrides all).
Proof. apply contentTypeTables_spec. apply all_paths_NoDup. Qed.

Lemma document_back :
  contentTypesDocument lc (parts pkg)
  = XmlNode "Types" [("xmlns", OpcContentTypesNamespace)]
      (map defaultElement (("rels", RelsContentType) :: ds)
       ++ map overrideElement os)%list.
Proof.
  unfold contentTypesDocument, contentTypeDefaults, contentTypeOverrides.
  rewrite tables_back. reflexivity.
Qed.

Lemma specDefaults_truthy i : In i (specDefaults all) -> bothTruthy i.
Proof.
  destruct i as [e d]. intros H. apply In_specDefaults in H.
  destruct H as [T D]. split; [exact T|]. cbn [snd].
  rewrite typedDefault_firstDefault in D by apply all_truthy.
  unfold firstDefault in D. destruct (find _ all) as [q|] eqn:F;
    [|discriminate].
  injection D as <-. apply find_some in F. destruct F as [Hq _].
  now destruct (part_plain pkg RT q Hq).
Qed.

Lemma specOverrides_truthy i : In i (specOverrides all) -> bothTruthy i.
Proof.
  intros H. apply In_specOverrides_part in H. destruct H as [q [Hq ->]].
  destruct (part_plain pkg RT q Hq) as [P T].
  split; [|exact T]. cbn [partView fst]. now apply plainPath_truthy.
Qed.

Lemma ds_truthy : Forall bothTruthy (("rels", RelsContentType) :: ds).
Proof.
  constructor; [split; reflexivity|]. apply Forall_forall. intros i H.
  apply specDefaults_truthy.
  eapply Permutation_in; [apply Permutation_sym, sortBy_perm|exact H].
Qed.

Lemma os_truthy : Forall bothTruthy os.
Proof.
  apply Forall_forall. intros i H. apply specOverrides_truthy.
  eapply Permutation_in; [apply Permutation_sym, sortBy_perm|exact H].
Qed.

Lemma ds_keys_NoDup : NoDup (map (fun i => Js.toLowerCase (fst i)) ds).
Proof.
  eapply Permutation_NoDup.
  - apply Permutation_map. apply sortBy_perm.
  - unfold specDefaults. rewrite map_map. cbn [fst].
    rewrite (map_ext_in _ (fun e => e)).
    + rewrite map_id. apply NoDup_extensionsSeen.
    + intros e. apply extensionsSeen_lower.
Qed.

Lemma os_keys_NoDup : NoDup (map (fun i => normalizePathForMap (fst i)) os).
Proof.
  eapply Permutation_NoDup.
  - apply Permutation_map. apply sortBy_perm.
  - assert (G : forall seen, NoDup (map (fun q => normalizePathForMap (partPath q)) seen) ->
                NoDup (map (fun i => normalizePathForMap (fst i))
                         (specOverrides seen))).
    { induction seen as [|part seen IH] using rev_ind; [constructor|].
      intros N. rewrite map_app in N. rewrite specOverrides_snoc.
      pose proof (NoDup_app_remove_r _ _ N) as N1.
      destruct (isOverride seen part); [|auto].
      rewrite map_app. apply NoDup_app; [auto|repeat constructor; intros []|].
      intros x Hx [<-|[]]. cbn [fst] in Hx.
      apply in_map_iff in Hx. destruct Hx as [i [E Hi]].
      apply In_specOverrides_part in Hi. destruct Hi as [q [Hq ->]].
      cbn [partView fst] in E.
      cbn [map] in N. apply NoDup_remove_2 in N. apply N.
      rewrite app_nil_r. rewrite <- E. apply in_map_iff. eauto. }
    apply G. apply all_keys_NoDup.
Qed.

(** The content type the reader resolves for a part is the part's own. *)
Lemma contentType_back part :
  In part all ->
  (let contentType :=
     orElse (JsMap.get (normalizePathForMap (partPath part)) contentTypesMap) "" in
   if negb (Js.truthy contentType)
   then orElse (JsMap.get (extKey (partName part)) defaultTypes)
          "application/octet-stream"
   else contentType)
  = ContentType part.
Proof.
  intros Hin. destruct (part_plain pkg RT part Hin) as [P T].
  destruct (in_split _ _ Hin) as [seen [rest E]].
  pose proof all_paths_NoDup as N. rewrite E in N.
  destruct (isOverride seen part) eqn:O.
  - assert (I : In (partPath part, ContentType part) os).
    { eapply Permutation_in; [apply sortBy_perm|].
      rewrite E. now apply In_specOverrides. }
    unfold contentTypesMap.
    rewrite (get_fold_set_In normalizePathForMap os [] _ _ os_keys_NoDup I).
    cbn [orElse]. now rewrite T.
  - assert (G : JsMap.get (normalizePathForMap (partPath part)) contentTypesMap
                = None).
    { unfold contentTypesMap. rewrite get_fold_set_notin; [reflexivity|].
      intros i Hi Ek.
      assert (Hi' : In i (specOverrides all))
        by (eapply Permutation_in; [apply Permutation_sym, sortBy_perm|exact Hi]).
      destruct (In_specOverrides_part _ _ Hi') as [q [Hq ->]].
      cbn [partView fst] in Ek.
      assert (q = part)
        by (apply (NoDup_map_injective _ _ _ _ all_keys_NoDup Hq Hin Ek)).
      subst q. rewrite E in Hi'. apply In_specOverrides in Hi'; [|assumption].
      congruence. }
    rewrite G. cbn [orElse Js.truthy negb].
    unfold isOverride in O. apply orb_false_iff in O. destruct O as [Te O].
    apply negb_false_iff in Te.
    assert (D : typedDefault all (extensionOf part) = Some (ContentType part)).
    { rewrite E. change (part :: rest) with ([part] ++ rest)%list.
      rewrite app_assoc. apply typedDefault_stable; [|exact T].
      rewrite typedDefault_snoc. unfold hasExtension.
      rewrite String.eqb_refl.
      destruct (typedDefault seen (extensionOf part)) as [d|] eqn:Ds;
        [|reflexivity].
      rewrite typedDefault_firstDefault in Ds
        by (apply (prefix_truthy seen (part :: rest) E)).
      assert (Td : Js.truthy d = true).
      { unfold firstDefault in Ds.
        destruct (find _ seen) as [q|] eqn:F; [|discriminate].
        injection Ds as <-. apply find_some in F. destruct F as [Hq _].
        apply (part_plain pkg RT q). fold all. rewrite E.
        apply in_or_app. now left. }
      rewrite Td in *. cbn [andb] in O. apply negb_false_iff in O.
      apply String.eqb_eq in O. now subst d. }
    assert (I : In (extensionOf part, ContentType part) ds).
    { eapply Permutation_in; [apply sortBy_perm|].
      apply In_specDefaults. auto. }
    unfold partName. rewrite (plainPath_name_extKey _ P).
    fold (extensionOf part). rewrite <- (extensionOf_lower part) at 1.
    unfold defaultTypes. cbn [fold_left].
    rewrite (get_fold_set_In Js.toLowerCase ds _ _ _ ds_keys_NoDup I).
    reflexivity.
Qed.

Lemma contentType_resolved part :
  In part (JsMap.values (parts pkg)) ->
  (let contentType :=
     orElse (JsMap.get (normalizePathForMap (partPath part))
               (readContentTypesMap lc (parts pkg))) "" in
   if negb (Js.truthy contentType)
   then orElse (JsMap.get (extKey (partName part))
                  (readDefaultTypes lc (parts pkg)))
          "application/octet-stream"
   else contentType)
  = ContentType part.
Proof.
  intros H. unfold readContentTypesMap, readDefaultTypes,
    contentTypeDefaults, contentTypeOverrides.
  rewrite tables_back. cbn [fst snd]. now apply contentType_back.
Qed.

Lemma contentTypes_parsed doc' :
  sameDocument (contentTypesDocument lc (parts pkg)) doc' ->
  (if negb (String.eqb (xmlName doc') "Types")
   then ret ([], [])
   else ret (flat_map parseDefault (xmlChildren doc'),
             flat_map parseOverride (xmlChildren doc')))
  = (inr (contentTypeDefaults lc (parts pkg),
          contentTypeOverrides lc (parts pkg))
     : result (list (string * string) * list (string * string))).
Proof.
  intros [Hn He].
  rewrite document_back in Hn, He. cbn [xmlName xmlChildren] in Hn, He.
  rewrite Hn. cbn [String.eqb Ascii.eqb Bool.eqb negb andb].
  rewrite (parseDefault_same _ _ He), (parseOverride_same _ _ He).
  destruct (parse_content_elements _ _ ds_truthy os_truthy) as [-> ->].
  unfold contentTypeDefaults, contentTypeOverrides. rewrite tables_back.
  reflexivity.
Qed.

End ContentTypesBack.

(** *** Loading the relationships *)

Lemma set_set {V} k (v v' : V) m :
  JsMap.set k v (JsMap.set k v' m) = JsMap.set k v m.
Proof.
  induction m as [|[k0 v0] m IH]; simpl.
  - now rewrite String.eqb_refl.
  - destruct (String.eqb_spec k0 k) as [->|Hne]; simpl.
    + now rewrite String.eqb_refl.
    + destruct (String.eqb_spec k0 k); [contradiction|]. now rewrite IH.
Qed.

Lemma plainRelationship_resolve s rel :
  plainRelationship rel = true ->
  resolveRelativeURI s (target rel) = target rel
  /\ mkRel (id rel) (relType rel) (target rel) "Internal" = rel.
Proof.
  unfold plainRelationship. intros H.
  repeat (apply andb_true_iff in H as [H ?]).
  apply String.eqb_eq in H0. apply negb_true_iff in H1.
  rewrite includes_char_occurs in H1. split.
  - unfold resolveRelativeURI. rewrite replaceAll_absent by assumption.
    now rewrite H2.
  - destruct rel; cbn in *. now subst.
Qed.

Lemma relationships_loadRelationship s st rel :
  plainRelationship rel = true ->
  relationships (loadRelationship s st rel)
  = JsMap.set (normalizePathForMap s)
      (bucket st (normalizePathForMap s) ++ [rel])%list (relationships st).
Proof.
  intros P. destruct (plainRelationship_resolve s rel P) as [R E].
  unfold loadRelationship. rewrite R.
  unfold addRelationshipWithID. cbn [snd]. rewrite E.
  destruct (_ && _); reflexivity.
Qed.

Lemma fields_loadRelationship s st rel :
  parts (loadRelationship s st rel) = parts st
  /\ nextRelID (loadRelationship s st rel) = nextRelID st
  /\ path (loadRelationship s st rel) = path st
  /\ readWrite (loadRelationship s st rel) = readWrite st.
Proof. unfold loadRelationship. destruct (_ && _); repeat split. Qed.

Lemma fields_loadBucket s rels : forall st,
  parts (fold_left (loadRelationship s) rels st) = parts st
  /\ nextRelID (fold_left (loadRelationship s) rels st) = nextRelID st
  /\ path (fold_left (loadRelationship s) rels st) = path st
  /\ readWrite (fold_left (loadRelationship s) rels st) = readWrite st.
Proof.
  induction rels as [|rel rels IH]; intros st; [repeat split|].
  cbn [fold_left]. destruct (IH (loadRelationship s st rel)) as [A [B [C D]]].
  destruct (fields_loadRelationship s st rel) as [A' [B' [C' D']]].
  rewrite A, B, C, D. auto.
Qed.

Lemma relationships_loadBucket s rels : forall st,
  Forall (fun rel => plainRelationship rel = true) rels ->
  relationships (fold_left (loadRelationship s) rels st)
  = match rels with
    | [] => relationships st
    | _ => JsMap.set (normalizePathForMap s)
             (bucket st (normalizePathForMap s) ++ rels)%list
             (relationships st)
    end.
Proof.
  induction rels as [|rel rels IH]; intros st F; [reflexivity|].
  inversion F as [|? ? P F']; subst. cbn [fold_left].
  rewrite IH by assumption.
  rewrite relationships_loadRelationship by assumption.
  destruct rels as [|rel' rels]; [reflexivity|].
  unfold bucket at 1. rewrite relationships_loadRelationship by assumption.
  rewrite get_set_same, set_set, <- app_assoc. reflexivity.
Qed.

(** Every origin edge of the root gives the same origin; the last one read
    sets it. *)
Lemma originURI_loadRoot o rels : forall st,
  (forall rel, In rel rels -> isOrigin rel = true ->
     normalizePathForMap (resolveRelativeURI "" (target rel)) = o) ->
  originURI (fold_left (loadRelationship "") rels st)
  = if existsb isOrigin rels then o else originURI st.
Proof.
  induction rels as [|rel rels IH] using rev_ind; intros st H; [reflexivity|].
  rewrite fold_left_snoc, existsb_app. cbn [existsb].
  rewrite orb_false_r. unfold loadRelationship at 1. fold (isOrigin rel).
  cbn [String.eqb andb]. rewrite andb_true_r.
  destruct (isOrigin rel) eqn:O.
  - rewrite orb_true_r. cbn [originURI setOriginURI].
    apply H; [apply in_or_app; right; now left|assumption].
  - rewrite orb_false_r. cbn [snd addRelationshipWithID].
    unfold addRelationshipWithID. cbn [snd originURI setRelationships].
    apply IH. intros r Hr. apply H. apply in_or_app. now left.
Qed.

Section Loading.
Variable parse : string -> result XmlNodeLike.
Variable entries : JsMap.t (list byte).

Lemma loadRelationships_app l1 : forall l2 st,
  loadRelationships parse entries (l1 ++ l2) st
  = bind (loadRelationships parse entries l1 st)
      (loadRelationships parse entries l2).
Proof.
  induction l1 as [|n l1 IH]; intros l2 st; [reflexivity|].
  cbn [app loadRelationships].
  destruct (isRelsEntry n); [|apply IH].
  destruct (parseRelationshipsXml parse _) as [e|rels]; [reflexivity|].
  cbn [bind]. apply IH.
Qed.

Lemma loadRelationships_skip l : forall st,
  (forall n, In n l -> isRelsEntry n = false) ->
  loadRelationships parse entries l st = inr st.
Proof.
  induction l as [|n l IH]; intros st H; [reflexivity|].
  cbn [loadRelationships]. rewrite (H n (or_introl eq_refl)).
  apply IH. intros m Hm. apply H. now right.
Qed.

End Loading.

(** *** Reopening the archive of a package *)

Lemma get_map_values {V W} (f : V -> W) (m : JsMap.t V) k :
  JsMap.get k (map (fun e => (fst e, f (snd e))) m)
  = option_map f (JsMap.get k m).
Proof.
  induction m as [|[k0 v0] m IH]; [reflexivity|].
  cbn [map JsMap.get fst snd]. destruct (String.eqb k0 k); [reflexivity|].
  exact IH.
Qed.

Lemma relsName_injective k k' :
  k = "" \/ sourceKey k = true -> k' = "" \/ sourceKey k' = true ->
  relsName k = relsName k' -> k = k'.
Proof.
  intros K K' E.
  rewrite <- (proj1 (getSourcePath_bucket k K)).
  rewrite <- (proj1 (getSourcePath_bucket k' K')). now rewrite E.
Qed.

Lemma loadPart_skipped newURL d c entries st n :
  String.eqb n contentTypePath || Js.includes n "_rels/"
  || Js.endsWith n "/" = true ->
  loadPart newURL d c entries st n = st.
Proof. intros H. unfold loadPart. now rewrite H. Qed.

Lemma fields_loadParts newURL d c entries names : forall st,
  relationships (fold_left (loadPart newURL d c entries) names st)
  = relationships st
  /\ originURI (fold_left (loadPart newURL d c entries) names st)
     = originURI st.
Proof.
  induction names as [|n names IH]; intros st; [split; reflexivity|].
  cbn [fold_left]. destruct (IH (loadPart newURL d c entries st n)) as [R O].
  rewrite R, O. unfold loadPart. destruct (_ || _); split; reflexivity.
Qed.

Lemma NoDup_middle {A} (done : list A) n names :
  NoDup (done ++ n :: names) ->
  ~ In n done /\ NoDup ((done ++ [n]) ++ names).
Proof.
  intros N. split.
  - apply NoDup_remove_2 in N. intros H. apply N. apply in_or_app. now left.
  - now rewrite <- app_assoc.
Qed.

Lemma existsb_eqb_fresh k done :
  ~ In k done -> existsb (String.eqb k) done = false.
Proof.
  intros H. destruct (existsb (String.eqb k) done) eqn:X; [|reflexivity].
  apply existsb_eqb_In in X. contradiction.
Qed.

Lemma existsb_eqb_snoc k done n :
  existsb (String.eqb k) (done ++ [n])
  = existsb (String.eqb k) done || String.eqb k n.
Proof. rewrite existsb_app. cbn [existsb]. now rewrite orb_false_r. Qed.

(** *** Reopening the archive of a package

    The zip library hands the files back in an order of its own: [entries]
    is any list without repeated names that holds the files of the archive
    under their names. *)

Section Reopen.
Variable lc : string -> string -> Z.
Variable ser : XmlNodeLike -> string.
Variable parse : string -> result XmlNodeLike.
Variable newURL : string -> URL.
Variable pkg : PackageBase.
Hypothesis RT : RoundTrippable pkg.
Hypothesis parse_written : forall doc,
  In doc (writtenDocuments lc pkg) ->
  exists doc', parse (ser doc ++ newline) = inr doc' /\ sameDocument doc doc'.
Variable entries : JsMap.t (list byte).
Hypothesis entries_wf : wfMap entries = true.
Hypothesis entries_same : forall name,
  JsMap.get name entries = JsMap.get name (archiveFiles lc ser pkg).

Let files := archiveFiles lc ser pkg.
Let all := JsMap.values (parts pkg).
Let buckets := nonEmptyBuckets (relationships pkg).

Lemma files_wf : wfMap files = true.
Proof. apply uniqueKeys_NoDup. now apply packageFiles_list. Qed.

Lemma entries_get_bucket k rels :
  In (k, rels) buckets ->
  JsMap.get (relsName k) entries
  = Some (encodeUtf8 (buildRelationshipsXml ser rels)).
Proof.
  intros H. rewrite entries_same. apply In_get; [apply files_wf|].
  right. apply in_or_app. left.
  apply (in_map (relsFile ser) _ _ H).
Qed.

Lemma entries_get_part part :
  In part all -> JsMap.get (partName part) entries = Some (content part).
Proof.
  intros H. rewrite entries_same. apply In_get; [apply files_wf|].
  right. apply in_or_app. right. apply (in_map partFile _ _ H).
Qed.

Lemma entries_listed n :
  JsMap.get n entries <> None -> In n (JsMap.keys entries).
Proof.
  intros H. destruct (JsMap.get n entries) as [bytes|] eqn:G; [|contradiction].
  apply get_Some_In in G. apply (in_map fst _ _ G).
Qed.

(** Every entry is the content-types document, the document of a bucket or
    a part. *)
Lemma entries_name n :
  In n (JsMap.keys entries) ->
  n = contentTypePath
  \/ (exists k rels, In (k, rels) buckets /\ n = relsName k)
  \/ (exists part, In part all /\ n = partName part).
Proof.
  intros H.
  assert (F : In n (JsMap.keys files)).
  { destruct (JsMap.get n files) as [bytes|] eqn:G.
    - apply get_Some_In in G. apply (in_map fst _ _ G).
    - unfold files in G. rewrite <- entries_same in G.
      apply get_None_keys in G. contradiction. }
  unfold files, archiveFiles, JsMap.keys in F. cbn [map fst] in F.
  destruct F as [<-|F]; [now left|]. right.
  rewrite map_app, !map_map in F. apply in_app_or in F.
  destruct F as [F|F]; apply in_map_iff in F.
  - left. destruct F as [[k rels] [<- F]]. exists k, rels. auto.
  - right. destruct F as [part [<- F]]. exists part. auto.
Qed.

Lemma bucket_plain k rels :
  In (k, rels) buckets ->
  In (k, rels) (relationships pkg)
  /\ rels <> []
  /\ Forall (fun rel => plainRelationship rel = true) rels
  /\ (k = "" \/ sourceKey k = true).
Proof.
  intros H. apply filter_In in H. destruct H as [H N]. cbn [snd] in N.
  split; [exact H|]. split.
  - intros ->. discriminate.
  - split; [|exact (rt_keys pkg RT k rels H)].
    apply Forall_forall. intros rel Hr. exact (rt_rels pkg RT k rels rel H Hr).
Qed.

Lemma buckets_wf : wfMap buckets = true.
Proof.
  apply uniqueKeys_NoDup, NoDup_keys_filter, uniqueKeys_NoDup.
  exact (rt_rels_wf pkg RT).
Qed.

Lemma parse_bucket k rels :
  In (k, rels) buckets ->
  parseRelationshipsXml parse
    (decodeUtf8 (encodeUtf8 (buildRelationshipsXml ser rels)))
  = inr rels.
Proof.
  intros H. destruct (bucket_plain k rels H) as [_ [_ [F _]]].
  rewrite decode_encode. unfold parseRelationshipsXml, buildRelationshipsXml.
  destruct (parse_written (relationshipsDocument rels)) as [doc' [-> [Hn He]]].
  { right. apply in_map_iff. exists (k, rels). auto. }
  cbn [bind]. rewrite Hn. cbn [relationshipsDocument xmlName xmlChildren] in *.
  cbn [String.eqb Ascii.eqb Bool.eqb negb andb]. unfold ret. f_equal.
  rewrite (parseRelationship_same _ _ He).
  now apply parseRelationship_elements.
Qed.

Lemma root_bucket :
  exists rels, In ("", rels) buckets
    /\ bucket pkg "" = rels /\ existsb isOrigin rels = true.
Proof.
  destruct (rt_root pkg RT) as [rel [Hin O]].
  unfold bucket in *. destruct (JsMap.get "" (relationships pkg)) as [rels|] eqn:G;
    [|destruct Hin].
  exists rels. split; [|split; [reflexivity|]].
  - apply filter_In. split; [now apply get_Some_In|].
    cbn [snd]. destruct rels; [destruct Hin|reflexivity].
  - apply existsb_exists. exists rel. split; [assumption|].
    unfold isOrigin. rewrite O. apply String.eqb_refl.
Qed.

(** What the reader holds once it has gone through the names [done]: the
    buckets whose documents are among them. *)
Let loadedBuckets (done : list string) (st : PackageBase) : Prop :=
  (forall k,
     JsMap.get k (relationships st)
     = match JsMap.get k buckets with
       | Some rels =>
           if existsb (String.eqb (relsName k)) done then Some rels else None
       | None => None
       end)
  /\ originURI st
     = (if existsb (String.eqb (relsName "")) done then originURI pkg
        else "")
  /\ parts st = [] /\ nextRelID st = 1%N.

Lemma load_other n done st :
  isRelsEntry n = false ->
  loadedBuckets done st -> loadedBuckets (done ++ [n]) st.
Proof.
  intros I [R [O F]]. split; [|split; [|exact F]].
  - intros k. rewrite (R k).
    destruct (JsMap.get k buckets) as [rels|] eqn:G; [|reflexivity].
    rewrite existsb_eqb_snoc.
    replace (String.eqb (relsName k) n) with false;
      [now rewrite orb_false_r|].
    symmetry. apply String.eqb_neq. intros E. subst n.
    apply get_Some_In in G. apply bucket_plain in G.
    destruct G as [_ [_ [_ K]]].
    destruct (getSourcePath_bucket k K) as [_ [X _]]. congruence.
  - rewrite O, existsb_eqb_snoc.
    replace (String.eqb (relsName "") n) with false;
      [now rewrite orb_false_r|].
    symmetry. apply String.eqb_neq. intros E. subst n. discriminate.
Qed.

Lemma load_bucket k0 rels0 done st :
  In (k0, rels0) buckets ->
  ~ In (relsName k0) done ->
  loadedBuckets done st ->
  loadedBuckets (done ++ [relsName k0])
    (fold_left (loadRelationship (getSourcePathFromRelsPath (relsName k0)))
       rels0 st).
Proof.
  intros Hb Fresh [R [O F]].
  destruct (bucket_plain k0 rels0 Hb) as [Hr [Ne [Fr K]]].
  destruct (getSourcePath_bucket k0 K) as [Sk [_ Ek]].
  pose proof (In_get _ _ _ buckets_wf Hb) as G0.
  assert (B0 : bucket st k0 = []).
  { unfold bucket. rewrite (R k0), G0.
    now rewrite existsb_eqb_fresh. }
  split; [|split].
  - intros k. rewrite relationships_loadBucket by assumption.
    destruct rels0 as [|r rels0']; [contradiction|].
    rewrite Sk, B0. cbn [app]. rewrite existsb_eqb_snoc.
    destruct (String.eqb_spec k k0) as [->|Hk].
    + now rewrite get_set_same, G0, String.eqb_refl, orb_true_r.
    + rewrite get_set_other by exact Hk. rewrite (R k).
      destruct (JsMap.get k buckets) as [rels|] eqn:G; [|reflexivity].
      replace (String.eqb (relsName k) (relsName k0)) with false;
        [now rewrite orb_false_r|].
      symmetry. apply String.eqb_neq. intros E. apply Hk.
      apply get_Some_In in G. apply bucket_plain in G.
      destruct G as [_ [_ [_ K']]]. now apply relsName_injective.
  - rewrite existsb_eqb_snoc.
    destruct (String.eqb_spec k0 "") as [Z|Z].
    + subst k0. rewrite String.eqb_refl, orb_true_r.
      change (getSourcePathFromRelsPath (relsName "")) with "".
      destruct root_bucket as [rels1 [H1 [B1 X1]]].
      pose proof (In_get _ _ _ buckets_wf H1) as G1.
      assert (Er : rels1 = rels0) by congruence.
      rewrite Er in B1, X1.
      rewrite (originURI_loadRoot (originURI pkg)), X1; [reflexivity|].
      intros rel Hrel Orel.
      destruct (plainRelationship_resolve "" rel) as [-> _].
      { rewrite Forall_forall in Fr. now apply Fr. }
      apply (rt_root_origin pkg RT); [now rewrite B1|].
      now apply String.eqb_eq.
    + replace (String.eqb (relsName "") (relsName k0)) with false.
      * rewrite orb_false_r, <- O. apply originURI_loadRelationship.
        unfold noRootOrigin. rewrite Ek.
        destruct (String.eqb_spec k0 ""); [contradiction|reflexivity].
      * symmetry. apply String.eqb_neq. intros E. apply Z. symmetry.
        apply relsName_injective; [now left|exact K|exact E].
  - destruct (fields_loadBucket (getSourcePathFromRelsPath (relsName k0))
                rels0 st) as [P1 [N1 _]].
    destruct F as [Fp Fn]. rewrite P1, N1. auto.
Qed.

Lemma load_names names : forall done st,
  NoDup (done ++ names) ->
  (forall n, In n names -> In n (JsMap.keys entries)) ->
  loadedBuckets done st ->
  exists st',
    loadRelationships parse entries names st = inr st'
    /\ loadedBuckets (done ++ names) st'
    /\ path st' = path st /\ readWrite st' = readWrite st.
Proof.
  induction names as [|n names IH]; intros done st N Hn Inv.
  - exists st. rewrite app_nil_r. auto.
  - destruct (NoDup_middle done n names N) as [Fresh N'].
    assert (Hn' : forall m, In m names -> In m (JsMap.keys entries))
      by (intros m Hm; apply Hn; now right).
    cbn [loadRelationships]. destruct (isRelsEntry n) eqn:I.
    + destruct (entries_name n (Hn n (or_introl eq_refl)))
        as [->|[[k0 [rels0 [Hb ->]]]|[part [Hp ->]]]].
      * discriminate I.
      * rewrite (entries_get_bucket k0 rels0 Hb), (parse_bucket k0 rels0 Hb).
        cbn [bind].
        destruct (IH _ _ N' Hn' (load_bucket k0 rels0 done st Hb Fresh Inv))
          as [st' [L [Inv' [Pa Rw]]]].
        exists st'. split; [exact L|]. rewrite <- app_assoc in Inv'.
        split; [exact Inv'|].
        destruct (fields_loadBucket
                    (getSourcePathFromRelsPath (relsName k0)) rels0 st)
          as [_ [_ [Pa1 Rw1]]].
        split; congruence.
      * exfalso.
        assert (X : isRelsEntry (partName part) = false).
        { apply (partFile_is_part pkg RT). rewrite map_map.
          apply in_map_iff. exists part. auto. }
        congruence.
    + destruct (IH _ _ N' Hn' (load_other n done st I Inv))
        as [st' [L [Inv' [Pa Rw]]]].
      exists st'. split; [exact L|]. rewrite <- app_assoc in Inv'. auto.
Qed.

(** What the reader has registered once it has gone through the names
    [done]: the parts whose entries are among them. *)
Let loadedParts (done : list string) (st : PackageBase) : Prop :=
  forall k,
    JsMap.get k (parts st)
    = match JsMap.get k (parts pkg) with
      | Some q =>
          if existsb (String.eqb (partName q)) done
          then Some (loaded newURL q) else None
      | None => None
      end.

Lemma registered_key part :
  In part all ->
  JsMap.get (normalizePathForMap (partPath part)) (parts pkg) = Some part.
Proof.
  intros H. destruct (part_of_value pkg part H) as [k Hk].
  destruct (rt_parts pkg RT k part Hk) as [_ [_ E]]. subst k.
  apply In_get; [exact (rt_parts_wf pkg RT)|exact Hk].
Qed.

Lemma registered_part k q :
  JsMap.get k (parts pkg) = Some q ->
  In q all /\ k = normalizePathForMap (partPath q)
  /\ plainPath (partPath q) = true.
Proof.
  intros G. apply get_Some_In in G.
  destruct (rt_parts pkg RT k q G) as [P [_ E]].
  split; [|auto]. unfold all, JsMap.values. apply in_map_iff.
  exists (k, q). auto.
Qed.

Lemma partName_skipped part :
  In part all ->
  String.eqb (partName part) contentTypePath
  || Js.includes (partName part) "_rels/"
  || Js.endsWith (partName part) "/" = false.
Proof.
  intros H.
  destruct (partFile_is_part pkg RT (partName part)) as [_ [C [I [E _]]]].
  { rewrite map_map. apply in_map_iff. exists part. auto. }
  rewrite I, E.
  destruct (String.eqb_spec (partName part) contentTypePath);
    [contradiction|reflexivity].
Qed.

Lemma loadPart_part st part :
  In part all ->
  loadPart newURL (readDefaultTypes lc (parts pkg))
    (readContentTypesMap lc (parts pkg)) entries st (partName part)
  = setParts st
      (JsMap.set (normalizePathForMap (partPath part)) (loaded newURL part)
         (parts st)).
Proof.
  intros H. destruct (part_plain pkg RT part H) as [P T].
  unfold loadPart. rewrite (partName_skipped part H).
  unfold partName. rewrite (plainPath_name_back _ P).
  pose proof (contentType_resolved lc pkg RT part H) as C.
  cbv zeta in C. unfold partName in C. rewrite C.
  pose proof (entries_get_part part H) as G. unfold partName in G.
  rewrite G. reflexivity.
Qed.

Lemma load_part_names names : forall done st,
  NoDup (done ++ names) ->
  (forall n, In n names -> In n (JsMap.keys entries)) ->
  loadedParts done st ->
  loadedParts (done ++ names)
    (fold_left
       (loadPart newURL (readDefaultTypes lc (parts pkg))
          (readContentTypesMap lc (parts pkg)) entries)
       names st).
Proof.
  induction names as [|n names IH]; intros done st N Hn Inv.
  - rewrite app_nil_r. exact Inv.
  - destruct (NoDup_middle done n names N) as [Fresh N'].
    assert (Hn' : forall m, In m names -> In m (JsMap.keys entries))
      by (intros m Hm; apply Hn; now right).
    cbn [fold_left]. rewrite (app_assoc done [n] names : (done ++ n :: names = (done ++ [n]) ++ names)%list).
    apply IH; [exact N'|exact Hn'|].
    destruct (String.eqb n contentTypePath || Js.includes n "_rels/"
              || Js.endsWith n "/") eqn:Skip.
    + rewrite loadPart_skipped by exact Skip.
      intros k. rewrite (Inv k).
      destruct (JsMap.get k (parts pkg)) as [q|] eqn:G; [|reflexivity].
      rewrite existsb_eqb_snoc.
      replace (String.eqb (partName q) n) with false;
        [now rewrite orb_false_r|].
      symmetry. apply String.eqb_neq. intros E. subst n.
      rewrite partName_skipped in Skip; [discriminate|].
      now apply (registered_part k q).
    + destruct (entries_name n (Hn n (or_introl eq_refl)))
        as [->|[[k0 [rels0 [Hb ->]]]|[part [Hp ->]]]].
      * discriminate Skip.
      * exfalso. destruct (bucket_plain k0 rels0 Hb) as [_ [_ [_ K]]].
        destruct (getSourcePath_bucket k0 K) as [_ [I _]].
        unfold isRelsEntry in I. apply andb_true_iff in I.
        destruct I as [I _]. rewrite I, orb_true_r in Skip. discriminate.
      * rewrite (loadPart_part st part Hp). intros k.
        cbn [parts setParts].
        destruct (String.eqb_spec k (normalizePathForMap (partPath part)))
          as [->|Hk].
        -- rewrite get_set_same, (registered_key part Hp), existsb_eqb_snoc.
           now rewrite String.eqb_refl, orb_true_r.
        -- rewrite get_set_other by exact Hk. rewrite (Inv k).
           destruct (JsMap.get k (parts pkg)) as [q|] eqn:G; [|reflexivity].
           rewrite existsb_eqb_snoc.
           replace (String.eqb (partName q) (partName part)) with false;
             [now rewrite orb_false_r|].
           symmetry. apply String.eqb_neq. intros E. apply Hk.
           destruct (registered_part k q G) as [_ [-> Pq]].
           destruct (part_plain pkg RT part Hp) as [Pp _].
           unfold partName in E.
           now rewrite (plainPath_name _ Pq), (plainPath_name _ Pp), E.
Qed.

(** The reader rebuilds the buckets, the origin and the registry. *)
Lemma openFromBytesTry_archive unzip bytes p rw :
  unzip bytes = inr entries ->
  exists pkg',
    openFromBytesTry newURL parse unzip bytes p rw = inr pkg'
    /\ sameLookups (reopenedPackage newURL pkg p rw) pkg'.
Proof.
  intros U. unfold openFromBytesTry. rewrite U. cbn [bind].
  assert (CT : loadContentTypes parse entries
               = inr (readDefaultTypes lc (parts pkg),
                      readContentTypesMap lc (parts pkg))).
  { unfold loadContentTypes. rewrite entries_same.
    unfold archiveFiles at 1. cbn [JsMap.get].
    rewrite String.eqb_refl, decode_encode.
    unfold parseContentTypesXml, buildContentTypesXml.
    destruct (parse_written (contentTypesDocument lc (parts pkg)))
      as [doc' [-> S]]; [now left|].
    cbn [bind]. rewrite (contentTypes_parsed lc pkg RT doc' S).
    reflexivity. }
  rewrite CT. cbn [bind].
  assert (N : NoDup ([] ++ JsMap.keys entries))
    by (apply uniqueKeys_NoDup; exact entries_wf).
  destruct (load_names (JsMap.keys entries) [] (newPackageBase p rw) N
              (fun n H => H))
    as [st1 [L [[R1 [O1 [P1 _]]] _]]].
  { split; [|split; [reflexivity|split; reflexivity]].
    intros k. cbn. now destruct (JsMap.get k buckets). }
  rewrite L. cbn [bind app] in *.
  assert (O : originURI st1 = originURI pkg).
  { rewrite O1. destruct root_bucket as [rels [Hin _]].
    replace (existsb _ (JsMap.keys entries)) with true; [reflexivity|].
    symmetry. apply existsb_eqb_In, entries_listed.
    now rewrite (entries_get_bucket "" rels Hin). }
  rewrite O, (sourceKey_truthy _ (rt_origin pkg RT)). cbn [negb].
  eexists. split; [reflexivity|].
  set (D := readDefaultTypes lc (parts pkg)).
  set (C := readContentTypesMap lc (parts pkg)).
  destruct (fields_loadParts newURL D C entries (JsMap.keys entries) st1)
    as [R2 O2].
  split; [|split].
  - intros k.
    rewrite (load_part_names (JsMap.keys entries) [] st1 N (fun n H => H)).
    + cbn [app reopenedPackage parts]. rewrite get_map_values.
      destruct (JsMap.get k (parts pkg)) as [q|] eqn:G; [|reflexivity].
      destruct (registered_part k q G) as [Hq _].
      replace (existsb _ (JsMap.keys entries)) with true; [reflexivity|].
      symmetry. apply existsb_eqb_In, entries_listed.
      now rewrite (entries_get_part q Hq).
    + intros k'. rewrite P1. cbn. now destruct (JsMap.get k' (parts pkg)).
  - intros k. rewrite R2, (R1 k). cbn [reopenedPackage relationships].
    fold buckets.
    destruct (JsMap.get k buckets) as [rels|] eqn:G; [|reflexivity].
    replace (existsb _ (JsMap.keys entries)) with true; [reflexivity|].
    symmetry. apply existsb_eqb_In, entries_listed.
    apply get_Some_In in G. now rewrite (entries_get_bucket k rels G).
  - rewrite O2, O. reflexivity.
Qed.

End Reopen.

(** *** The facade on the reopened package *)

Lemma bucket_nonEmpty (m : JsMap.t (list Relationship)) k :
  wfMap m = true ->
  match JsMap.get k (nonEmptyBuckets m) with Some rels => rels | None => [] end
  = match JsMap.get k m with Some rels => rels | None => [] end.
Proof.
  unfold wfMap. induction m as [|[k0 rels0] m IH]; [reflexivity|].
  cbn [JsMap.keys map fst uniqueKeys]. intros W.
  apply andb_true_iff in W. destruct W as [Hn W]. apply negb_true_iff in Hn.
  cbn [nonEmptyBuckets filter snd JsMap.get].
  destruct (List.length rels0 =? 0)%nat eqn:L; cbn [negb JsMap.get].
  - destruct (String.eqb_spec k0 k) as [->|]; [|now apply IH].
    destruct rels0; [|discriminate].
    assert (G : JsMap.get k (nonEmptyBuckets m) = None).
    { apply get_None_keys. intros Hin.
      assert (In k (JsMap.keys m)).
      { unfold JsMap.keys in *. apply in_map_iff in Hin.
        destruct Hin as [e [<- He]]. apply filter_In in He.
        apply in_map. tauto. }
      apply existsb_eqb_In in H. unfold JsMap.keys in H. congruence. }
    unfold nonEmptyBuckets in G. now rewrite G.
  - destruct (String.eqb k0 k); [reflexivity|now apply IH].
Qed.

Section Views.
Variable newURL : string -> URL.
Variable pkg : PackageBase.
Variables (p : string) (rw : bool).
Hypothesis RT : RoundTrippable pkg.
Hypothesis url_keeps_paths : forall part,
  In part (JsMap.values (parts pkg)) ->
  pathname (newURL ("https://package.local" ++ partPath part)) = partPath part.

Let pkg' := reopenedPackage newURL pkg p rw.

Lemma registered_value k part :
  JsMap.get k (parts pkg) = Some part -> In part (JsMap.values (parts pkg)).
Proof.
  intros G. apply get_Some_In in G. unfold JsMap.values.
  apply in_map_iff. exists (k, part). auto.
Qed.

Lemma partPath_loaded part :
  In part (JsMap.values (parts pkg)) ->
  partPath (loaded newURL part) = partPath part.
Proof.
  intros H. destruct (part_plain pkg RT part H) as [P _].
  unfold loaded, partPath at 1, pathFromUri, asPackageUrl.
  cbn [URI].
  assert (E : ensureLeadingSlash (partPath part) = partPath part).
  { unfold ensureLeadingSlash. now rewrite (plainPath_absolute _ P). }
  rewrite E, (url_keeps_paths part H), (plainPath_truthy _ P). reflexivity.
Qed.

Lemma partView_loaded part :
  In part (JsMap.values (parts pkg)) ->
  partView (loaded newURL part) = partView part.
Proof.
  intros H. unfold partView. now rewrite partPath_loaded.
Qed.

Lemma bucket_reopened k : bucket pkg' k = bucket pkg k.
Proof.
  unfold bucket, pkg', reopenedPackage. cbn [relationships].
  apply bucket_nonEmpty. exact (rt_rels_wf pkg RT).
Qed.

Lemma get_reopened k :
  JsMap.get k (parts pkg') = option_map (loaded newURL) (JsMap.get k (parts pkg)).
Proof. apply get_map_values. Qed.

Lemma collectSpecs_reopened rels :
  collectSpecs (parts pkg') rels
  = map (loaded newURL) (collectSpecs (parts pkg) rels).
Proof.
  induction rels as [|rel rels IH]; [reflexivity|].
  cbn [collectSpecs]. rewrite get_reopened.
  destruct (JsMap.get _ (parts pkg)); cbn [option_map map]; now rewrite IH.
Qed.

Lemma collectSpecs_registered rels q :
  In q (collectSpecs (parts pkg) rels) -> In q (JsMap.values (parts pkg)).
Proof.
  intros H. apply In_collectSpecs in H. destruct H as [rel [_ G]].
  eapply registered_value; eauto.
Qed.

Lemma map_partView_loaded l :
  (forall q, In q l -> In q (JsMap.values (parts pkg))) ->
  map partView (map (loaded newURL) l) = map partView l.
Proof.
  intros H. rewrite map_map. apply map_ext_in. intros q Hq.
  apply partView_loaded. now apply H.
Qed.

Lemma specsView_reopened : specsView pkg' = specsView pkg.
Proof.
  unfold specsView, Specs, ret, mapResult, getRelationshipsByType.
  rewrite bucket_reopened. cbn [originURI pkg' reopenedPackage].
  rewrite collectSpecs_reopened. f_equal.
  apply map_partView_loaded. intros q. apply collectSpecs_registered.
Qed.

Lemma collectSupplementaries_reopened rels :
  collectSupplementaries (parts pkg') rels
  = mapResult (map (loaded newURL))
      (collectSupplementaries (parts pkg) rels).
Proof.
  induction rels as [|rel rels IH]; [reflexivity|].
  cbn [collectSupplementaries]. rewrite get_reopened.
  destruct (JsMap.get _ (parts pkg)); cbn [option_map]; [|reflexivity].
  rewrite IH. destruct (collectSupplementaries (parts pkg) rels); reflexivity.
Qed.

Lemma SupplementariesFor_reopened spec :
  In spec (JsMap.values (parts pkg)) ->
  SupplementariesFor pkg' (loaded newURL spec)
  = mapResult (map (loaded newURL)) (SupplementariesFor pkg spec).
Proof.
  intros H. unfold SupplementariesFor, getRelationshipsByType.
  fold (partPath (loaded newURL spec)). fold (partPath spec).
  rewrite partPath_loaded by assumption. rewrite bucket_reopened.
  apply collectSupplementaries_reopened.
Qed.

Lemma pairSupplementaries_reopened specs :
  (forall q, In q specs -> In q (JsMap.values (parts pkg))) ->
  pairSupplementaries pkg' (map (loaded newURL) specs)
  = mapResult (map (loadedPair newURL)) (pairSupplementaries pkg specs).
Proof.
  induction specs as [|spec specs IH]; intros H; [reflexivity|].
  cbn [map pairSupplementaries].
  rewrite SupplementariesFor_reopened by (apply H; now left).
  destruct (SupplementariesFor pkg spec) as [e|l]; cbn [mapResult bind];
    [reflexivity|].
  rewrite IH by (intros q Hq; apply H; now right).
  destruct (pairSupplementaries pkg specs) as [e|more]; cbn [mapResult bind];
    [reflexivity|].
  unfold ret, mapResult. f_equal. rewrite map_app, !map_map. reflexivity.
Qed.

Lemma supplementaryView_reopened :
  supplementaryView pkg' = supplementaryView pkg.
Proof.
  unfold supplementaryView, SupplementaryRelationships, Specs, ret.
  cbn [bind]. unfold getRelationshipsByType.
  rewrite bucket_reopened. cbn [originURI pkg' reopenedPackage].
  rewrite collectSpecs_reopened.
  set (specs := collectSpecs (parts pkg) _).
  assert (S : forall q, In q specs -> In q (JsMap.values (parts pkg)))
    by (intros q; apply collectSpecs_registered).
  rewrite pairSupplementaries_reopened by exact S.
  destruct (pairSupplementaries pkg specs) as [e|pairs] eqn:E;
    cbn [mapResult]; [reflexivity|].
  f_equal. rewrite map_map. apply map_ext_in. intros r Hr.
  destruct (In_pairSupplementaries _ _ _ _ E Hr) as [Hs [l [Hl Hq]]].
  unfold loadedPair. cbn [Spec Supplementary].
  rewrite partView_loaded by (now apply S).
  rewrite partView_loaded; [reflexivity|].
  unfold SupplementariesFor in Hl.
  destruct (In_collectSupplementaries _ _ _ _ Hl Hq) as [rel [_ G]].
  eapply registered_value; eauto.
Qed.

Lemma thumbnailView_reopened : thumbnailView pkg' = thumbnailView pkg.
Proof.
  unfold thumbnailView, Thumbnail, getRelationshipsByType.
  rewrite bucket_reopened.
  destruct (filter _ (bucket pkg _)) as [|rel0 rest]; [reflexivity|].
  rewrite get_reopened.
  destruct (JsMap.get _ (parts pkg)) as [part|] eqn:G; cbn [option_map];
    [|reflexivity].
  unfold ret, mapResult, option_map. do 2 f_equal.
  apply partView_loaded. eapply registered_value; eauto.
Qed.

End Views.

(** The facade reads a package through its lookups only. *)
Section SameLookups.
Variables pkg pkg' : PackageBase.
Hypothesis same : sameLookups pkg pkg'.

Lemma bucket_same k : bucket pkg' k = bucket pkg k.
Proof. unfold bucket. now rewrite (proj1 (proj2 same) k). Qed.

Lemma collectSpecs_same rels :
  collectSpecs (parts pkg') rels = collectSpecs (parts pkg) rels.
Proof.
  induction rels as [|rel rels IH]; [reflexivity|].
  cbn [collectSpecs]. now rewrite (proj1 same), IH.
Qed.

Lemma collectSupplementaries_same rels :
  collectSupplementaries (parts pkg') rels
  = collectSupplementaries (parts pkg) rels.
Proof.
  induction rels as [|rel rels IH]; [reflexivity|].
  cbn [collectSupplementaries]. now rewrite (proj1 same), IH.
Qed.

Lemma Specs_same : Specs pkg' = Specs pkg.
Proof.
  unfold Specs, getRelationshipsByType.
  now rewrite (proj2 (proj2 same)), bucket_same, collectSpecs_same.
Qed.

Lemma SupplementariesFor_same spec :
  SupplementariesFor pkg' spec = SupplementariesFor pkg spec.
Proof.
  unfold SupplementariesFor, getRelationshipsByType.
  now rewrite bucket_same, collectSupplementaries_same.
Qed.

Lemma pairSupplementaries_same specs :
  pairSupplementaries pkg' specs = pairSupplementaries pkg specs.
Proof.
  induction specs as [|spec specs IH]; [reflexivity|].
  cbn [pairSupplementaries]. now rewrite SupplementariesFor_same, IH.
Qed.

Lemma views_same :
  specsView pkg' = specsView pkg
  /\ supplementaryView pkg' = supplementaryView pkg
  /\ thumbnailView pkg' = thumbnailView pkg.
Proof.
  split; [|split].
  - unfold specsView. now rewrite Specs_same.
  - unfold supplementaryView, SupplementaryRelationships.
    rewrite Specs_same. destruct (Specs pkg) as [e|specs]; [reflexivity|].
    cbn [bind]. now rewrite pairSupplementaries_same.
  - unfold thumbnailView, Thumbnail, getRelationshipsByType.
    rewrite bucket_same. destruct (filter _ _) as [|rel0 rest]; [reflexivity|].
    now rewrite (proj1 same).
Qed.

End SameLookups.

(** *** The operations keep a package round-trippable *)

Lemma In_set {V} k0 (v0 : V) m k v :
  In (k, v) (JsMap.set k0 v0 m) -> (k = k0 /\ v = v0) \/ In (k, v) m.
Proof.
  induction m as [|[k1 v1] m IH]; cbn [JsMap.set].
  - intros [[= <- <-]|[]]. now left.
  - destruct (String.eqb_spec k1 k0) as [->|Hne].
    + intros [[= <- <-]|H]; [now left|right; now right].
    + intros [E|H]; [right; now left|].
      destruct (IH H) as [?|?]; [now left|right; now right].
Qed.

Lemma bucket_In pkg k rel :
  In rel (bucket pkg k) ->
  exists rels, In (k, rels) (relationships pkg) /\ In rel rels.
Proof.
  unfold bucket. destruct (JsMap.get k (relationships pkg)) as [rels|] eqn:G;
    [|intros []].
  intros H. exists rels. split; [now apply get_Some_In|assumption].
Qed.

Lemma RoundTrippable_fields pkg pkg' :
  parts pkg' = parts pkg -> relationships pkg' = relationships pkg ->
  originURI pkg' = originURI pkg ->
  RoundTrippable pkg -> RoundTrippable pkg'.
Proof.
  intros P R O [A B C D E F G H].
  constructor; unfold bucket in *; rewrite ?P, ?R, ?O; assumption.
Qed.

(** Replacing the content of a bucket. *)
Lemma RoundTrippable_bucket pkg key rels' :
  RoundTrippable pkg ->
  key = "" \/ sourceKey key = true ->
  (forall rel, In rel rels' -> plainRelationship rel = true) ->
  (key = "" ->
     (exists rel, In rel rels' /\ relType rel = RelationTypeAasxOrigin)
     /\ forall rel, In rel rels' -> relType rel = RelationTypeAasxOrigin ->
          normalizePathForMap (target rel) = originURI pkg) ->
  RoundTrippable
    (setRelationships pkg (JsMap.set key rels' (relationships pkg))).
Proof.
  intros [A B C D E F G H] K Pl Root. constructor.
  - exact A.
  - cbn [relationships setRelationships]. now apply wfMap_set.
  - exact C.
  - intros k rels Hin. cbn [relationships setRelationships] in Hin.
    apply In_set in Hin. destruct Hin as [[-> _]|Hin]; [exact K|eauto].
  - intros k rels rel Hin Hrel. cbn [relationships setRelationships] in Hin.
    apply In_set in Hin. destruct Hin as [[-> ->]|Hin]; [auto|eauto].
  - exact F.
  - rewrite bucket_set. destruct (String.eqb_spec "" key) as [<-|_];
      [now apply Root|exact G].
  - intros rel. rewrite bucket_set. destruct (String.eqb_spec "" key) as [<-|_].
    + cbn [originURI setRelationships]. now apply Root.
    + apply H.
Qed.

Lemma bucket_plainRelationship pkg k rel :
  RoundTrippable pkg -> In rel (bucket pkg k) -> plainRelationship rel = true.
Proof.
  intros RT H. destruct (bucket_In pkg k rel H) as [rels [H1 H2]].
  exact (rt_rels pkg RT k rels rel H1 H2).
Qed.

Lemma truthy_relID n : Js.truthy (relID n) = true.
Proof. reflexivity. Qed.

Lemma plainTarget_relationship rid ty t :
  Js.truthy rid = true -> Js.truthy ty = true -> plainTarget t = true ->
  plainRelationship (mkRel rid ty t "Internal") = true.
Proof.
  intros Ti Tt P. unfold plainTarget in P. apply andb_true_iff in P.
  destruct P as [P1 P2]. unfold plainRelationship.
  cbn [id relType target targetMode]. now rewrite Ti, Tt, P1, P2.
Qed.

Lemma RoundTrippable_addRelationship pkg s t ty :
  RoundTrippable pkg ->
  normalizePathForMap s = "" \/ sourceKey (normalizePathForMap s) = true ->
  plainTarget t = true -> Js.truthy ty = true ->
  ty <> RelationTypeAasxOrigin ->
  RoundTrippable (snd (addRelationship pkg s t ty)).
Proof.
  intros RT K P T O.
  apply (RoundTrippable_fields
           (setRelationships pkg
              (JsMap.set (normalizePathForMap s)
                 (bucket pkg (normalizePathForMap s)
                  ++ [mkRel (relID (nextRelID pkg)) ty t "Internal"])%list
                 (relationships pkg)))); try reflexivity.
  apply RoundTrippable_bucket; [exact RT|exact K| |].
  - intros rel Hin. apply in_app_or in Hin. destruct Hin as [Hin|[<-|[]]].
    + eapply bucket_plainRelationship; eauto.
    + apply plainTarget_relationship; auto.
  - intros Z. rewrite Z. split.
    + destruct (rt_root pkg RT) as [rel [Hin Ho]]. exists rel.
      split; [apply in_or_app; now left|exact Ho].
    + intros rel Hin Ho. apply in_app_or in Hin.
      destruct Hin as [Hin|[<-|[]]].
      * now apply (rt_root_origin pkg RT).
      * cbn [relType] in Ho. contradiction.
Qed.

Lemma RoundTrippable_removeThumbnail pkg t :
  RoundTrippable pkg ->
  RoundTrippable (removeRelationship pkg "" t RelationTypeThumbnail).
Proof.
  intros RT. unfold removeRelationship.
  change (normalizePathForMap "") with "".
  apply RoundTrippable_bucket; [exact RT|now left| |].
  - intros rel Hin. apply filter_In in Hin. destruct Hin as [Hin _].
    eapply bucket_plainRelationship; eauto.
  - intros _. split.
    + destruct (rt_root pkg RT) as [rel [Hin Ho]]. exists rel.
      split; [|exact Ho]. apply filter_In. split; [exact Hin|].
      rewrite Ho. cbn. now rewrite andb_false_r.
    + intros rel Hin Ho. apply filter_In in Hin. destruct Hin as [Hin _].
      now apply (rt_root_origin pkg RT).
Qed.

Lemma RoundTrippable_removeThumbnails pkg :
  RoundTrippable pkg -> RoundTrippable (removeThumbnails pkg).
Proof.
  unfold removeThumbnails.
  generalize (getRelationshipsByType pkg "" RelationTypeThumbnail) as rels.
  intros rels. revert pkg.
  induction rels as [|rel rels IH]; intros pkg RT; [exact RT|].
  cbn [fold_left]. apply IH. now apply RoundTrippable_removeThumbnail.
Qed.

Lemma split_cons_slash s : Js.split "/" (String "/" s) = "" :: Js.split "/" s.
Proof. reflexivity. Qed.

Lemma split_no_separator c s : occurs c s = false -> Js.split c s = [s].
Proof.
  induction s as [|x s IH]; intros O; [reflexivity|].
  cbn [occurs] in O. apply orb_false_iff in O. destruct O as [E O].
  cbn [Js.split]. rewrite E, (IH O). reflexivity.
Qed.

Lemma split_append_separator c a b :
  occurs c a = false ->
  Js.split c (a ++ String c b) = a :: Js.split c b.
Proof.
  induction a as [|x a IH]; intros O.
  - cbn [append Js.split]. now rewrite Ascii.eqb_refl.
  - cbn [occurs] in O. apply orb_false_iff in O. destruct O as [E O].
    cbn [append Js.split]. rewrite E, (IH O). reflexivity.
Qed.

Lemma split_join_good segments :
  segments <> [] -> Forall goodSegment segments ->
  Js.split "/" (Js.join "/" segments) = segments.
Proof.
  induction segments as [|x segments IH]; intros N G; [contradiction|].
  inversion G as [|? ? [_ [O _]] G']; subst.
  destruct segments as [|y segments].
  - cbn. now apply split_no_separator.
  - change (Js.join "/" (x :: y :: segments))
      with (x ++ String "/" (Js.join "/" (y :: segments))).
    rewrite split_append_separator by exact O.
    now rewrite IH by (discriminate || assumption).
Qed.

Lemma normalizeSegments_goods segments : forall stack,
  Forall goodSegment segments ->
  normalizeSegments segments stack = (rev stack ++ segments)%list.
Proof.
  induction segments as [|seg segments IH]; intros stack G.
  - cbn. now rewrite app_nil_r.
  - inversion G as [|? ? [T [_ [D DD]]] G']; subst.
    cbn [normalizeSegments]. rewrite T. cbn [negb orb].
    destruct (String.eqb_spec seg "."); [contradiction|].
    destruct (String.eqb_spec seg ".."); [contradiction|].
    rewrite (IH _ G'). cbn [rev]. now rewrite <- app_assoc.
Qed.

Lemma normalizePath_pathOf segments :
  Forall goodSegment segments -> normalizePath (pathOf segments) = pathOf segments.
Proof.
  intros G. unfold normalizePath, pathOf. f_equal. f_equal.
  destruct segments as [|x segments]; [reflexivity|].
  change ("/" ++ Js.join "/" (x :: segments))
    with (String "/" (Js.join "/" (x :: segments))).
  rewrite split_cons_slash, split_join_good by (discriminate || assumption).
  change (normalizeSegments ("" :: x :: segments) [])
    with (normalizeSegments (x :: segments) []).
  now rewrite normalizeSegments_goods.
Qed.

Lemma normalizePath_segments p :
  exists segments,
    normalizePath p = pathOf segments /\ Forall goodSegment segments.
Proof.
  exists (normalizeSegments (Js.split "/" p) []). split; [reflexivity|].
  apply normalizeSegments_good; [apply split_slash_free|constructor].
Qed.

Lemma normalizePathForMap_normal_form p :
  p <> "" -> normalizePath (normalizePathForMap p) = normalizePathForMap p.
Proof.
  intros N. unfold normalizePathForMap.
  destruct p as [|c p]; [contradiction|]. cbn [Js.truthy negb].
  set (w := if Js.startsWith (String c p) "/" then String c p
            else "/" ++ String c p).
  rewrite <- normalizePath_toLowerCase.
  destruct (normalizePath_segments w) as [segments [E G]].
  rewrite E, normalizePath_pathOf by exact G. reflexivity.
Qed.

Lemma normalizePathForMap_lower p :
  Js.toLowerCase (normalizePathForMap p) = normalizePathForMap p.
Proof.
  unfold normalizePathForMap. destruct (Js.truthy p); cbn [negb];
    [apply toLowerCase_idempotent|reflexivity].
Qed.

(** The key of a plain source is the root's or a source key. *)
Lemma plainSource_key s :
  plainSource s = true ->
  normalizePathForMap s = "" \/ sourceKey (normalizePathForMap s) = true.
Proof.
  intros P. destruct (string_dec s "") as [->|N]; [now left|right].
  unfold plainSource in P. apply andb_true_iff in P. destruct P as [R D].
  unfold sourceKey.
  rewrite (normalizePathForMap_normal_form _ N), String.eqb_refl.
  rewrite (normalizePathForMap_lower s), String.eqb_refl, R, D.
  reflexivity.
Qed.

Lemma RoundTrippable_PutPart debug uri contentType bytes pkg :
  RoundTrippable pkg -> plainPath (pathFromUri uri) = true ->
  Js.truthy contentType = true ->
  RoundTrippable (exec (PutPart debug uri contentType bytes) pkg).
Proof.
  intros RT P T. unfold exec. rewrite PutPart_run. cbn zeta. cbn [snd].
  assert (K : normalizeURI (Some uri) = normalizePathForMap (pathFromUri uri))
    by (apply normalizeURI_pathFromUri; now apply plainPath_truthy).
  destruct RT as [A B C D F G H I]. constructor; try assumption.
  - cbn [parts setParts]. now apply wfMap_set.
  - intros k part Hin. cbn [parts setParts] in Hin. apply In_set in Hin.
    destruct Hin as [[-> ->]|Hin]; [|eauto].
    destruct (JsMap.get (normalizeURI (Some uri)) (parts pkg)) as [old|] eqn:Gt.
    + apply get_Some_In in Gt. destruct (C _ _ Gt) as [Po [_ Ko]].
      unfold partPath in *. cbn [URI ContentType]. auto.
    + unfold partPath. cbn [URI ContentType]. auto.
Qed.

Lemma RoundTrippable_perform debug op pkg :
  RoundTrippable pkg -> plainOperation op = true ->
  RoundTrippable (exec (perform debug op) pkg).
Proof.
  intros RT P. destruct op as [uri ct bytes|part|supplementary spec|part];
    cbn [plainOperation perform] in *.
  - apply andb_true_iff in P. destruct P as [P T].
    pose proof (RoundTrippable_PutPart debug uri ct bytes pkg RT P T) as R.
    unfold exec in *. unfold mbind.
    destruct (PutPart debug uri ct bytes pkg) as [[e|part] pkg']; exact R.
  - unfold exec. rewrite MakeSpec_run.
    destruct (isSpecOf part pkg); cbn [snd]; [exact RT|].
    apply RoundTrippable_addRelationship; auto; try discriminate.
    right. rewrite (sourceKey_canonical _ (rt_origin pkg RT)).
    exact (rt_origin pkg RT).
  - apply andb_true_iff in P. destruct P as [Ps Pc].
    unfold exec. rewrite Relate_run.
    destruct (debug && _); cbn [snd]; [exact RT|].
    destruct (hasRelationship pkg _ _ _); cbn [snd]; [exact RT|].
    apply RoundTrippable_addRelationship; auto; try discriminate.
    now apply plainSource_key.
  - unfold exec. rewrite SetThumbnail_run. cbn [snd].
    apply RoundTrippable_addRelationship; auto; try discriminate.
    now apply RoundTrippable_removeThumbnails.
Qed.

Lemma RoundTrippable_performAll debug ops : forall pkg,
  RoundTrippable pkg -> forallb plainOperation ops = true ->
  RoundTrippable (performAll debug ops pkg).
Proof.
  induction ops as [|op ops IH]; intros pkg RT P; [exact RT|].
  cbn [forallb] in P. apply andb_true_iff in P. destruct P as [P1 P2].
  cbn [performAll fold_left]. apply IH; [|exact P2].
  now apply RoundTrippable_perform.
Qed.

Lemma RoundTrippable_new newURL :
  pathname (newURL "https://package.local/aasx/aasx-origin")
  = "/aasx/aasx-origin" ->
  RoundTrippable (CreateInStream newURL).
Proof.
  intros H. unfold CreateInStream, initializeNewPackage, asPackageUrl.
  change ("https://package.local" ++ ensureLeadingSlash "/aasx/aasx-origin")
    with "https://package.local/aasx/aasx-origin".
  destruct (newURL "https://package.local/aasx/aasx-origin") as [pn hr].
  cbn [pathname] in H. subst pn.
  constructor; try reflexivity.
  - intros k part [[= <- <-]|[]]. repeat split.
  - intros k rels [[= <- <-]|[]]. now left.
  - intros k rels rel [[= <- <-]|[]] [<-|[]]. reflexivity.
  - eexists. split; [now left|reflexivity].
  - intros rel [<-|[]] _. reflexivity.
Qed.

(** *** The round trip *)

(** Two parts that do not survive the round trip: a part whose path holds
    [_rels/] is written and not read back, and a part stored as
    [/__proto__] is not written at all -- the assignment replaces the
    prototype of the writer's record. *)
Example unread_and_unwritten_parts :
  (specsView Sample1.pkg = inr [("/my_rels/a.xml", "application/xml")]
   /\ exists pkg', Sample1.reopened = inr pkg' /\ specsView pkg' = inr [])
  /\ specsView Sample1.proto = inr [("/__proto__", "application/xml")]
  /\ exists files prototype,
       packageFiles ordinalCompare Table.serializeXml Sample1.proto
       = JsObject.Replaced files prototype []
       /\ prototype = encodeUtf8 "<aas/>"
       /\ JsMap.keys files
          = ["[Content_Types].xml"; "_rels/.rels";
             "aasx/_rels/aasx-origin.rels"; "aasx/aasx-origin"].
Proof.
  split; [split; [vm_compute; reflexivity|]|split; [vm_compute; reflexivity|]].
  - eexists. split; vm_compute; reflexivity.
  - eexists. eexists. split; [vm_compute; reflexivity|].
    split; reflexivity.
Qed.



Lemma get_Permutation {V} (m m' : JsMap.t V) :
  Permutation m m' -> NoDup (JsMap.keys m) ->
  forall k, JsMap.get k m' = JsMap.get k m.
Proof.
  induction 1 as [|[k0 v0] m m' _ IH|[k0 v0] [k1 v1] m|m m' m'' P1 IH1 P2 IH2];
    intros N k.
  - reflexivity.
  - cbn [JsMap.get]. cbn [JsMap.keys map fst] in N.
    inversion N; subst. destruct (String.eqb k0 k); [reflexivity|].
    now apply IH.
  - cbn [JsMap.get]. cbn [JsMap.keys map fst] in N.
    inversion N as [|? ? H1 _]; subst.
    destruct (String.eqb_spec k0 k) as [->|], (String.eqb_spec k1 k) as [->|];
      try reflexivity.
    exfalso. apply H1. now left.
  - rewrite IH2, IH1; [reflexivity|exact N|].
    eapply Permutation_NoDup; [|exact N].
    unfold JsMap.keys. now apply Permutation_map.
Qed.


(** * Further properties of the code *)

(** ** PathResolver *)

(** X1.  [normalizePath] yields a path in normal form whatever it is given:
    the result starts with a slash, is a slash-separated list of non-empty
    segments none of which is [.] or [..], and normalizing it again changes
    nothing. *)
Theorem normalizePath_idempotent p :
  normalizePath (normalizePath p) = normalizePath p
  /\ Js.startsWith (normalizePath p) "/" = true
  /\ exists segments,
       normalizePath p = "/" ++ Js.join "/" segments
       /\ Forall (fun s => Js.truthy s = true /\ Js.includes s "/" = false
                           /\ s <> "." /\ s <> "..") segments.
Proof.
  destruct (normalizePath_segments p) as [segments [E G]]. split; [|split].
  - rewrite E. now apply normalizePath_pathOf.
  - unfold normalizePath. cbn [append]. now rewrite startsWith_cons.
  - exists segments. split; [exact E|].
    eapply Forall_impl; [|exact G]. intros s [T [O [D DD]]].
    rewrite includes_char_occurs. auto.
Qed.

Lemma normalizePathForMap_fixed p :
  normalizePathForMap (normalizePathForMap p) = normalizePathForMap p.
Proof.
  destruct p as [|c p]; [reflexivity|].
  apply normalizePathForMap_normal.
  - apply normalizePathForMap_normal_form. discriminate.
  - apply normalizePathForMap_lower.
Qed.

(** X2.  [normalizePathForMap] computes a canonical key: applying it twice
    is applying it once, the key is in lower case and in normal form, and
    the empty path -- the package root -- is the only path with the empty
    key. *)
Theorem normalizePathForMap_canonical_key p :
  normalizePathForMap (normalizePathForMap p) = normalizePathForMap p
  /\ Js.toLowerCase (normalizePathForMap p) = normalizePathForMap p
  /\ (normalizePathForMap p = "" <-> p = "")
  /\ (p <> "" ->
      normalizePath (normalizePathForMap p) = normalizePathForMap p).
Proof.
  split; [apply normalizePathForMap_fixed|].
  split; [apply normalizePathForMap_lower|].
  split; [|apply normalizePathForMap_normal_form].
  split.
  - destruct p as [|c p]; [reflexivity|].
    unfold normalizePathForMap. cbn [Js.truthy negb].
    unfold normalizePath. cbn [append Js.toLowerCase]. discriminate.
  - intros ->. reflexivity.
Qed.

Lemma normalizePathForMap_canonical_key_witness :
  normalizePath (normalizePathForMap "AASX/./Data.XML")
  = normalizePathForMap "AASX/./Data.XML".
Proof.
  apply (normalizePathForMap_canonical_key "AASX/./Data.XML"). discriminate.
Defined.

Lemma getRelsPath_normalized s :
  getRelsPath (normalizePathForMap s) = getRelsPath s.
Proof. unfold getRelsPath. now rewrite normalizePathForMap_fixed. Qed.

(** A key without [_rels/] does not lie in the directory [/_rels]. *)
Lemma no_rels_sourceKey k :
  normalizePath k = k -> Js.toLowerCase k = k -> k <> "/" ->
  Js.includes k "_rels/" = false -> sourceKey k = true.
Proof.
  intros N L R I. unfold sourceKey. rewrite N, L, !String.eqb_refl.
  destruct (String.eqb_spec k "/"); [contradiction|]. cbn [negb andb].
  apply negb_true_iff, String.eqb_neq. intros D.
  destruct (plain_decompose k N R) as [init [s [E [Gi [T [O _]]]]]].
  rewrite E in D. rewrite dirName_split in D by assumption.
  destruct (dirOf_cases init Gi) as [[_ Dz]|[_ [Dd [Tj _]]]].
  - rewrite Dz in D. discriminate.
  - rewrite Dd in D. cbn [Js.truthy] in D. rewrite <- Dd in D.
    rewrite E, D in I.
    pose proof (includes_append "/" "_rels/" s) as I'.
    cbn [append] in I, I'. congruence.
Qed.

(** X3.  The name under which the writer stores the relationships of a
    source and the source the reader derives from that name agree on the
    canonical key of the source: for the root, and for every source whose
    key is not [/] and does not contain [_rels/].  The name is one the
    reader takes for a relationship document. *)
Theorem relsPath_roundtrip sourcePath :
  normalizePathForMap sourcePath = ""
  \/ (normalizePathForMap sourcePath <> "/"
      /\ Js.includes (normalizePathForMap sourcePath) "_rels/" = false) ->
  getSourcePathFromRelsPath (trimLeadingSlash (getRelsPath sourcePath))
  = normalizePathForMap sourcePath
  /\ isRelsEntry (trimLeadingSlash (getRelsPath sourcePath)) = true.
Proof.
  intros H. rewrite <- getRelsPath_normalized.
  set (k := normalizePathForMap sourcePath) in *.
  change (trimLeadingSlash (getRelsPath k)) with (relsName k).
  assert (K : k = "" \/ sourceKey k = true).
  { destruct H as [H|[R I]]; [now left|].
    destruct (string_dec sourcePath "") as [->|N]; [now left|right].
    subst k. apply no_rels_sourceKey; try assumption.
    - now apply normalizePathForMap_normal_form.
    - apply normalizePathForMap_lower. }
  destruct (getSourcePath_bucket k K) as [_ [I E]]. split; [|exact I].
  destruct K as [->|K]; [reflexivity|now apply getSourcePath_relsName].
Qed.

Lemma relsPath_roundtrip_witness :
  getSourcePathFromRelsPath (trimLeadingSlash (getRelsPath "/AASX/Data.XML"))
  = normalizePathForMap "/AASX/Data.XML"
  /\ isRelsEntry (trimLeadingSlash (getRelsPath "/AASX/Data.XML")) = true.
Proof.
  apply (relsPath_roundtrip "/AASX/Data.XML").
  right. split; [discriminate|reflexivity].
Defined.

(** The relationships of the source [/] go to the root's document. *)
Example getRelsPath_slash :
  getRelsPath "/" = getRelsPath ""
  /\ getSourcePathFromRelsPath (trimLeadingSlash (getRelsPath "/")) = "".
Proof. split; reflexivity. Qed.

Lemma join_app (a b : list string) :
  a <> [] -> b <> [] ->
  Js.join "/" (a ++ b) = Js.join "/" a ++ "/" ++ Js.join "/" b.
Proof.
  unfold Js.join. induction a as [|x a IH]; intros A B; [contradiction|].
  destruct a as [|y a].
  - destruct b as [|z b]; [contradiction|]. reflexivity.
  - change (String.concat "/" ((x :: y :: a) ++ b))
      with (x ++ "/" ++ String.concat "/" ((y :: a) ++ b)).
    rewrite IH by (discriminate || assumption).
    change (String.concat "/" (x :: y :: a))
      with (x ++ "/" ++ String.concat "/" (y :: a)).
    now rewrite !append_assoc.
Qed.

(** X4.  [resolveRelativeURI] always answers with an absolute path.  A
    target that is absolute once its backslashes are turned into slashes is
    returned in that form, whatever the source is -- unchanged when it has
    no backslash; every other target yields a path in normal form. *)
Theorem resolveRelativeURI_absolute sourcePath target :
  Js.startsWith (resolveRelativeURI sourcePath target) "/" = true
  /\ (Js.startsWith (Js.replaceAll "\" "/" target) "/" = true ->
      resolveRelativeURI sourcePath target = Js.replaceAll "\" "/" target)
  /\ (Js.startsWith target "/" = true -> Js.includes target "\" = false ->
      resolveRelativeURI sourcePath target = target)
  /\ (Js.startsWith (Js.replaceAll "\" "/" target) "/" = false ->
      normalizePath (resolveRelativeURI sourcePath target)
      = resolveRelativeURI sourcePath target).
Proof.
  unfold resolveRelativeURI.
  destruct (Js.startsWith (Js.replaceAll "\" "/" target) "/") eqn:S.
  - split; [exact S|]. split; [reflexivity|]. split; [|discriminate].
    intros _ B. rewrite includes_char_occurs in B.
    now rewrite replaceAll_absent.
  - split; [|split; [discriminate|split]].
    + unfold normalizePath. cbn [append]. now rewrite startsWith_cons.
    + intros A B. rewrite includes_char_occurs in B.
      rewrite replaceAll_absent in S by exact B. congruence.
    + intros _.
      match goal with |- normalizePath (normalizePath ?w) = _ =>
        destruct (normalizePath_segments w) as [segments [E G]] end.
      rewrite E. now apply normalizePath_pathOf.
Qed.

Lemma resolveRelativeURI_absolute_witness :
  resolveRelativeURI "/aasx/data.xml" "\aasx\doc.pdf" = "/aasx/doc.pdf"
  /\ resolveRelativeURI "/aasx/data.xml" "/aasx/doc.pdf" = "/aasx/doc.pdf"
  /\ normalizePath (resolveRelativeURI "/aasx/data.xml" "../doc.pdf")
     = resolveRelativeURI "/aasx/data.xml" "../doc.pdf".
Proof.
  split; [|split].
  - exact (proj1 (proj2
      (resolveRelativeURI_absolute "/aasx/data.xml" "\aasx\doc.pdf"))
      eq_refl).
  - exact (proj1 (proj2 (proj2
      (resolveRelativeURI_absolute "/aasx/data.xml" "/aasx/doc.pdf")))
      eq_refl eq_refl).
  - exact (proj2 (proj2 (proj2
      (resolveRelativeURI_absolute "/aasx/data.xml" "../doc.pdf")))
      eq_refl).
Defined.

(** X5.  A relative target without backslash, made of proper segments, is
    resolved against the directory of the source: for the source
    [/d1/../dn/s] in normal form and the target [t1/../tm] the answer is
    [/d1/../dn/t1/../tm]; a source directly under the root resolves it
    against the root. *)
Theorem resolveRelativeURI_sibling init s segments :
  Forall goodSegment init -> goodSegment s ->
  Forall goodSegment segments -> segments <> [] ->
  Js.includes (Js.join "/" segments) "\" = false ->
  resolveRelativeURI (pathOf (init ++ [s])) (Js.join "/" segments)
  = pathOf (init ++ segments).
Proof.
  intros Gi [Ts [Os _]] Gs N B. rewrite includes_char_occurs in B.
  unfold resolveRelativeURI. rewrite replaceAll_absent by exact B.
  pose proof (join_good_no_leading_slash segments "" N Gs) as L.
  rewrite append_empty_r in L. rewrite L.
  rewrite pathOf_snoc, dirName_split by assumption.
  assert (T : Js.truthy (dirOf init ++ "/" ++ s) = true).
  { destruct init; reflexivity. }
  rewrite T. cbn [negb].
  destruct init as [|x init].
  - cbn [dirOf Js.truthy app].
    change ("/" ++ "/" ++ Js.join "/" segments)
      with (String "/" (String "/" (Js.join "/" segments))).
    unfold normalizePath, pathOf. f_equal. f_equal.
    rewrite !split_cons_slash, split_join_good by assumption.
    change (normalizeSegments ("" :: "" :: segments) [])
      with (normalizeSegments segments []).
    now rewrite normalizeSegments_goods.
  - assert (D : Js.truthy (dirOf (x :: init)) = true) by reflexivity.
    rewrite D, D.
    replace (dirOf (x :: init) ++ "/" ++ Js.join "/" segments)
      with (pathOf ((x :: init) ++ segments)).
    + apply normalizePath_pathOf. apply Forall_app. split; assumption.
    + unfold dirOf, pathOf. rewrite join_app by (discriminate || assumption).
      now rewrite !append_assoc.
Qed.

Lemma resolveRelativeURI_sibling_witness :
  resolveRelativeURI (pathOf (["aasx"] ++ ["data.xml"]))
    (Js.join "/" ["suppl"; "doc.pdf"])
  = pathOf (["aasx"] ++ ["suppl"; "doc.pdf"]).
Proof.
  apply resolveRelativeURI_sibling.
  - repeat constructor; discriminate.
  - repeat constructor; discriminate.
  - repeat constructor; discriminate.
  - discriminate.
  - reflexivity.
Defined.

Lemma slice_after (a b : string) c :
  Js.slice (a ++ String c b) (Z.of_nat (String.length a) + 1) None = b.
Proof.
  replace (a ++ String c b) with ((a ++ String c "") ++ b)
    by (rewrite append_assoc; reflexivity).
  replace (Z.of_nat (String.length a) + 1)%Z
    with (Z.of_nat (String.length (a ++ String c "")))
    by (rewrite string_length_append; simpl; lia).
  apply slice_suffix.
Qed.

(** X6.  [baseName] never contains a slash and [dirName] is never empty;
    together they take the path, less one trailing slash, apart at its
    last slash: the directory is what stands before that slash -- [/] when
    nothing does or when there is no slash -- and the base name is what
    follows it. *)
Theorem dirName_baseName path :
  Js.includes (baseName path) "/" = false
  /\ Js.truthy (dirName path) = true
  /\ (trimTrailingSlash path = dirName path ++ "/" ++ baseName path
      \/ (dirName path = "/"
          /\ (trimTrailingSlash path = "/" ++ baseName path
              \/ trimTrailingSlash path = baseName path))).
Proof.
  unfold dirName, baseName. set (q := trimTrailingSlash path).
  rewrite includes_char_occurs.
  destruct (last_separator "/" q) as [O|[a [b [E O]]]].
  - rewrite lastIndexOf_absent by exact O. cbn [Z.leb Z.ltb Z.compare].
    split; [exact O|]. split; [reflexivity|]. right. auto.
  - rewrite E, lastIndexOf_last by exact O.
    destruct (Z.ltb_spec (Z.of_nat (String.length a)) 0); [lia|].
    rewrite slice_after. split; [exact O|].
    destruct a as [|x a].
    + cbn [String.length Z.of_nat Z.leb Z.compare]. split; [reflexivity|].
      right. split; [reflexivity|]. now left.
    + destruct (Z.leb_spec (Z.of_nat (String.length (String x a))) 0);
        [simpl in *; lia|].
      rewrite slice_prefix. split; [reflexivity|]. now left.
Qed.

(** X7.  [extName] is the part of the base name from its last dot on,
    provided something stands before that dot; a base name without a dot,
    or whose only dot is its first character, has no extension. *)
Theorem extName_last_dot path :
  (forall stem e,
     baseName path = stem ++ "." ++ e -> stem <> "" ->
     Js.includes e "." = false ->
     extName path = "." ++ e)
  /\ (Js.includes (Js.drop 1 (baseName path)) "." = false ->
      extName path = "").
Proof.
  unfold extName. set (base := baseName path). split.
  - intros stem e E N O. rewrite includes_char_occurs in O. rewrite E.
    change ("." ++ e) with (String "." e).
    rewrite lastIndexOf_last by exact O.
    destruct stem as [|x stem]; [contradiction|].
    destruct (Z.leb_spec (Z.of_nat (String.length (String x stem))) 0);
      [simpl in *; lia|].
    apply slice_suffix.
  - intros O. rewrite includes_char_occurs in O.
    destruct base as [|x r]; [reflexivity|]. cbn [Js.drop] in O.
    destruct (Ascii.eqb_spec x ".") as [->|N].
    + pose proof (lastIndexOf_last "." "" r O) as L. cbn [append] in L.
      rewrite L. reflexivity.
    + rewrite lastIndexOf_absent; [reflexivity|].
      cbn [occurs]. rewrite O.
      destruct (Ascii.eqb_spec x "."); [contradiction|reflexivity].
Qed.

Lemma extName_last_dot_witness :
  extName "/aasx/data.aas.xml" = ".xml" /\ extName "/aasx/.hidden" = "".
Proof.
  split.
  - apply (proj1 (extName_last_dot "/aasx/data.aas.xml") "data.aas" "xml");
      [reflexivity|discriminate|reflexivity].
  - apply (proj2 (extName_last_dot "/aasx/.hidden")). reflexivity.
Defined.

(** ** Relationship graph *)

Lemma existsb_filter_none {A} (f g : A -> bool) l :
  (forall x, f x = true -> g x = false) -> existsb f (filter g l) = false.
Proof.
  intros H. induction l as [|x l IH]; [reflexivity|]. cbn [filter].
  destruct (g x) eqn:G; [|exact IH]. cbn [existsb]. rewrite IH.
  destruct (f x) eqn:F; [|reflexivity]. rewrite (H x F) in G. discriminate.
Qed.

Lemma existsb_filter_all {A} (f g : A -> bool) l :
  (forall x, f x = true -> g x = true) ->
  existsb f (filter g l) = existsb f l.
Proof.
  intros H. induction l as [|x l IH]; [reflexivity|]. cbn [filter existsb].
  destruct (g x) eqn:G.
  - cbn [existsb]. now rewrite IH.
  - rewrite IH. destruct (f x) eqn:F; [|reflexivity].
    rewrite (H x F) in G. discriminate.
Qed.

Lemma filter_filter_all {A} (f g : A -> bool) l :
  (forall x, f x = true -> g x = true) ->
  filter f (filter g l) = filter f l.
Proof.
  intros H. induction l as [|x l IH]; [reflexivity|]. cbn [filter].
  destruct (g x) eqn:G.
  - cbn [filter]. now rewrite IH.
  - rewrite IH. destruct (f x) eqn:F; [|reflexivity].
    rewrite (H x F) in G. discriminate.
Qed.

Lemma hasRelationship_removeRelationship_same pkg s t ty :
  hasRelationship (removeRelationship pkg s t ty) s t ty = false.
Proof.
  unfold hasRelationship. rewrite bucket_removeRelationship, String.eqb_refl.
  apply existsb_filter_none. intros rel H.
  apply andb_true_iff in H. destruct H as [-> ->]. reflexivity.
Qed.

Lemma hasRelationship_removeRelationship_other pkg s t ty s' t' ty' :
  normalizePathForMap s' <> normalizePathForMap s
  \/ normalizePathForMap t' <> normalizePathForMap t \/ ty' <> ty ->
  hasRelationship (removeRelationship pkg s t ty) s' t' ty'
  = hasRelationship pkg s' t' ty'.
Proof.
  intros H. unfold hasRelationship. rewrite bucket_removeRelationship.
  destruct (String.eqb_spec (normalizePathForMap s') (normalizePathForMap s))
    as [E|N]; [|reflexivity].
  destruct H as [H|H]; [contradiction|].
  apply existsb_filter_all. intros rel F.
  apply andb_true_iff in F. destruct F as [F1 F2].
  apply String.eqb_eq in F1, F2. apply negb_true_iff, andb_false_iff.
  destruct H as [H|H].
  - left. apply String.eqb_neq. congruence.
  - right. apply String.eqb_neq. congruence.
Qed.

Lemma getRelationshipsByType_removeRelationship pkg s t ty s' ty' :
  ty' <> ty ->
  getRelationshipsByType (removeRelationship pkg s t ty) s' ty'
  = getRelationshipsByType pkg s' ty'.
Proof.
  intros H. unfold getRelationshipsByType. rewrite bucket_removeRelationship.
  destruct (String.eqb (normalizePathForMap s') (normalizePathForMap s));
    [|reflexivity].
  apply filter_filter_all. intros rel F. apply String.eqb_eq in F.
  apply negb_true_iff, andb_false_iff. right. apply String.eqb_neq.
  congruence.
Qed.

(** X8.  After [removeRelationship] the relationship is gone, in every
    spelling of its source and target; a relationship that differs from it
    in the canonical source, the canonical target or the type stays, and
    the lists of relationships of the other types are what they were. *)
Theorem removeRelationship_removes pkg s t ty :
  hasRelationship (removeRelationship pkg s t ty) s t ty = false
  /\ (forall s' t' ty',
        normalizePathForMap s' <> normalizePathForMap s
        \/ normalizePathForMap t' <> normalizePathForMap t \/ ty' <> ty ->
        hasRelationship (removeRelationship pkg s t ty) s' t' ty'
        = hasRelationship pkg s' t' ty')
  /\ (forall s' ty', ty' <> ty ->
        getRelationshipsByType (removeRelationship pkg s t ty) s' ty'
        = getRelationshipsByType pkg s' ty')
  /\ parts (removeRelationship pkg s t ty) = parts pkg
  /\ nextRelID (removeRelationship pkg s t ty) = nextRelID pkg.
Proof.
  split; [apply hasRelationship_removeRelationship_same|].
  split; [intros; now apply hasRelationship_removeRelationship_other|].
  split; [intros; now apply getRelationshipsByType_removeRelationship|].
  split; reflexivity.
Qed.

Lemma removeRelationship_removes_witness :
  hasRelationship
    (removeRelationship Sample.full "/aasx/spec.aas.xml" "/aasx/doc.pdf"
       RelationTypeAasxSupplementary)
    "/aasx/aasx-origin" "/aasx/spec.aas.xml" RelationTypeAasxSpec
  = hasRelationship Sample.full
      "/aasx/aasx-origin" "/aasx/spec.aas.xml" RelationTypeAasxSpec.
Proof.
  apply (removeRelationship_removes Sample.full "/aasx/spec.aas.xml"
           "/aasx/doc.pdf" RelationTypeAasxSupplementary).
  right. right. discriminate.
Defined.

(** X9.  Sources and targets are addressed up to letter case and up to a
    missing leading slash: two spellings with the same canonical key name
    the same bucket and the same target in every query and removal, and a
    relationship added under one spelling of the source is found under the
    other.  The relationship type is compared as it is. *)
Theorem relationships_by_canonical_key pkg s s' t t' ty :
  normalizePathForMap s = normalizePathForMap s' ->
  normalizePathForMap t = normalizePathForMap t' ->
  hasRelationship pkg s t ty = hasRelationship pkg s' t' ty
  /\ getRelationshipsByType pkg s ty = getRelationshipsByType pkg s' ty
  /\ removeRelationship pkg s t ty = removeRelationship pkg s' t' ty
  /\ addRelationship pkg s t ty = addRelationship pkg s' t ty
  /\ hasRelationship (snd (addRelationship pkg s t ty)) s' t' ty = true.
Proof.
  intros S T. split; [|split; [|split; [|split]]].
  - unfold hasRelationship. now rewrite S, T.
  - unfold getRelationshipsByType. now rewrite S.
  - unfold removeRelationship. now rewrite S, T.
  - unfold addRelationship, addRelationshipWithID. now rewrite S.
  - rewrite <- (hasRelationship_addRelationship_new pkg s t ty).
    unfold hasRelationship. now rewrite S, T.
Qed.

Lemma relationships_by_canonical_key_witness :
  hasRelationship Sample.full "/aasx/aasx-origin" "/aasx/spec.aas.xml"
    RelationTypeAasxSpec
  = hasRelationship Sample.full "AASX/aasx-origin" "/aasx/./Spec.AAS.xml"
      RelationTypeAasxSpec.
Proof.
  apply (relationships_by_canonical_key Sample.full
           "/aasx/aasx-origin" "AASX/aasx-origin"
           "/aasx/spec.aas.xml" "/aasx/./Spec.AAS.xml" RelationTypeAasxSpec);
    reflexivity.
Defined.

(** ** Facade: specs, supplementaries, thumbnail *)

Lemma collectSpecs_app registry a b :
  collectSpecs registry (a ++ b)
  = (collectSpecs registry a ++ collectSpecs registry b)%list.
Proof.
  induction a as [|rel a IH]; [reflexivity|]. cbn [app collectSpecs].
  destruct (JsMap.get _ registry); [|exact IH]. cbn [app]. now rewrite IH.
Qed.

Lemma parts_addRelationship pkg s t ty :
  parts (snd (addRelationship pkg s t ty)) = parts pkg.
Proof. reflexivity. Qed.

Lemma getRelationshipsByType_addRelationship pkg s t ty s' ty' :
  getRelationshipsByType (snd (addRelationship pkg s t ty)) s' ty'
  = if String.eqb (normalizePathForMap s') (normalizePathForMap s)
       && String.eqb ty ty'
    then (getRelationshipsByType pkg s' ty'
          ++ [mkRel (relID (nextRelID pkg)) ty t "Internal"])%list
    else getRelationshipsByType pkg s' ty'.
Proof.
  unfold getRelationshipsByType. rewrite bucket_addRelationship.
  destruct (String.eqb (normalizePathForMap s') (normalizePathForMap s));
    cbn [andb]; [|reflexivity].
  rewrite filter_app. cbn [filter relType].
  destruct (String.eqb ty ty'); [reflexivity|apply app_nil_r].
Qed.

(** X10.  [MakeSpec] never fails and makes the part a spec.  When the part
    was not a spec yet, [Specs] afterwards lists the specs it listed before,
    followed by the part registered under the given part's canonical path
    -- or just the former specs when no part is registered there. *)
Theorem MakeSpec_adds_spec part pkg :
  let pkg' := exec (MakeSpec part) pkg in
  outcome (MakeSpec part) pkg = inr tt
  /\ IsSpec pkg' part = inr true
  /\ parts pkg' = parts pkg
  /\ (isSpecOf part pkg = false ->
      exists specs,
        Specs pkg = inr specs
        /\ Specs pkg'
           = inr (specs
                  ++ match JsMap.get
                             (normalizePathForMap (pathFromUri (URI part)))
                             (parts pkg) with
                     | Some registered => [registered]
                     | None => []
                     end)%list).
Proof.
  cbv zeta. unfold exec, outcome. rewrite MakeSpec_run.
  destruct (isSpecOf part pkg) eqn:I; cbn [fst snd].
  - split; [reflexivity|]. split; [|split; [reflexivity|discriminate]].
    unfold IsSpec, ret. f_equal. exact I.
  - split; [reflexivity|]. split; [|split; [reflexivity|]].
    + unfold IsSpec, ret. f_equal. rewrite originURI_addRelationship.
      apply hasRelationship_addRelationship_new.
    + intros _. eexists. split; [reflexivity|].
      unfold Specs, ret. f_equal.
      rewrite originURI_addRelationship, parts_addRelationship,
        getRelationshipsByType_addRelationship, !String.eqb_refl.
      cbn [andb]. rewrite collectSpecs_app. cbn [collectSpecs target].
      now destruct (JsMap.get _ (parts pkg)).
Qed.

Lemma MakeSpec_adds_spec_witness :
  exists specs,
    Specs (exec (PutPart true Sample.specUri "application/xml" []) Sample.empty)
    = inr specs
    /\ Specs (exec (MakeSpec Sample.spec)
                (exec (PutPart true Sample.specUri "application/xml" [])
                   Sample.empty))
       = inr (specs
              ++ match JsMap.get
                         (normalizePathForMap (pathFromUri (URI Sample.spec)))
                         (parts (exec (PutPart true Sample.specUri
                                         "application/xml" [])
                                   Sample.empty)) with
                 | Some registered => [registered]
                 | None => []
                 end)%list.
Proof.
  apply (MakeSpec_adds_spec Sample.spec
           (exec (PutPart true Sample.specUri "application/xml" [])
              Sample.empty)).
  reflexivity.
Defined.

Lemma UnmakeSpec_run debug part pkg :
  UnmakeSpec debug part pkg
  = if debug && negb (isSpecOf part pkg)
    then (inl ("precondition violation: "
               ++ "The part fulfills the spec property."), pkg)
    else
      let pkg1 :=
        removeRelationship pkg (originURI pkg) (pathFromUri (URI part))
          RelationTypeAasxSpec in
      (inr tt,
       setRelationships pkg1
         (JsMap.delete (canonical part) (relationships pkg1))).
Proof.
  unfold UnmakeSpec, mbind, gets, lift, modify, Require.
  destruct (debug && negb (isSpecOf part pkg)); reflexivity.
Qed.

Lemma bucket_delete pkg k k' :
  wfMap (relationships pkg) = true ->
  bucket (setRelationships pkg (JsMap.delete k (relationships pkg))) k'
  = if String.eqb k' k then [] else bucket pkg k'.
Proof.
  intros W. unfold bucket. cbn [relationships setRelationships].
  destruct (String.eqb_spec k' k) as [->|N].
  - now rewrite get_delete_same.
  - now rewrite get_delete_other.
Qed.

Lemma wfMap_removeRelationship pkg s t ty :
  wfMap (relationships pkg) = true ->
  wfMap (relationships (removeRelationship pkg s t ty)) = true.
Proof. intros W. unfold removeRelationship. now apply wfMap_set. Qed.

(** X11.  [UnmakeSpec] on a spec succeeds, with the contract checks on or
    off: afterwards the part is no spec, its bucket of supplementary
    relationships is gone -- [SupplementariesFor] reports none -- and the
    registry is untouched.  Unless the part sits at the origin's own path,
    every other part keeps its spec status. *)
Theorem UnmakeSpec_clears debug part pkg :
  isSpecOf part pkg = true ->
  wfMap (relationships pkg) = true ->
  Js.truthy (pathFromUri (URI part)) = true ->
  let pkg' := exec (UnmakeSpec debug part) pkg in
  outcome (UnmakeSpec debug part) pkg = inr tt
  /\ IsSpec pkg' part = inr false
  /\ SupplementariesFor pkg' part = inr []
  /\ parts pkg' = parts pkg
  /\ (canonical part <> normalizePathForMap (originURI pkg) ->
      forall other,
        normalizePathForMap (pathFromUri (URI other)) <> canonical part ->
        IsSpec pkg' other = IsSpec pkg other).
Proof.
  intros I W T. cbv zeta. unfold exec, outcome.
  rewrite UnmakeSpec_run, I, andb_false_r. cbv zeta. cbn [fst snd].
  set (pkg1 := removeRelationship pkg (originURI pkg) (pathFromUri (URI part))
                 RelationTypeAasxSpec).
  assert (W1 : wfMap (relationships pkg1) = true)
    by now apply wfMap_removeRelationship.
  assert (C : canonical part = normalizePathForMap (pathFromUri (URI part)))
    by now apply normalizeURI_pathFromUri.
  split; [reflexivity|]. split; [|split; [|split; [reflexivity|]]].
  - unfold IsSpec, ret. f_equal. unfold hasRelationship.
    cbn [originURI setRelationships]. rewrite bucket_delete by exact W1.
    destruct (String.eqb _ (canonical part)); [reflexivity|].
    apply (hasRelationship_removeRelationship_same pkg (originURI pkg)).
  - unfold SupplementariesFor, getRelationshipsByType.
    rewrite bucket_delete by exact W1.
    rewrite <- C, String.eqb_refl. reflexivity.
  - intros O other N. unfold IsSpec, ret. f_equal. unfold hasRelationship.
    cbn [originURI setRelationships]. rewrite bucket_delete by exact W1.
    change (originURI pkg1) with (originURI pkg).
    destruct (String.eqb_spec (normalizePathForMap (originURI pkg))
                (canonical part)) as [E|_]; [congruence|].
    apply (hasRelationship_removeRelationship_other pkg (originURI pkg)
             (pathFromUri (URI part)) RelationTypeAasxSpec (originURI pkg)
             (pathFromUri (URI other)) RelationTypeAasxSpec).
    right. left. congruence.
Qed.

Lemma UnmakeSpec_clears_witness :
  outcome (UnmakeSpec true Sample.spec) Sample.full = inr tt
  /\ IsSpec (exec (UnmakeSpec true Sample.spec) Sample.full) Sample.spec
     = inr false
  /\ SupplementariesFor (exec (UnmakeSpec true Sample.spec) Sample.full)
       Sample.spec = inr []
  /\ parts (exec (UnmakeSpec true Sample.spec) Sample.full)
     = parts Sample.full
  /\ (canonical Sample.spec <> normalizePathForMap (originURI Sample.full) ->
      forall other,
        normalizePathForMap (pathFromUri (URI other))
        <> canonical Sample.spec ->
        IsSpec (exec (UnmakeSpec true Sample.spec) Sample.full) other
        = IsSpec Sample.full other).
Proof.
  apply (UnmakeSpec_clears true Sample.spec Sample.full); reflexivity.
Defined.

Lemma Unrelate_run debug supplementary spec pkg :
  UnrelateSupplementaryFromSpec debug supplementary spec pkg
  = if debug && negb (isSpecOf spec pkg)
    then (inl ("precondition violation: "
               ++ "The part fulfills the spec property."), pkg)
    else (inr tt,
          removeRelationship pkg (pathFromUri (URI spec))
            (pathFromUri (URI supplementary)) RelationTypeAasxSupplementary).
Proof.
  unfold UnrelateSupplementaryFromSpec, mbind, gets, lift, modify, Require.
  destruct (debug && negb (isSpecOf spec pkg)); reflexivity.
Qed.

(** X12.  [UnrelateSupplementaryFromSpec] on a spec succeeds and removes the
    supplementary relationship to that path: afterwards the spec is not
    related to the supplementary, it is related to exactly the other
    supplementaries it was related to, and [Specs] answers as before. *)
Theorem Unrelate_removes_supplementary debug supplementary spec pkg :
  isSpecOf spec pkg = true ->
  let pkg' := exec (UnrelateSupplementaryFromSpec debug supplementary spec) pkg in
  outcome (UnrelateSupplementaryFromSpec debug supplementary spec) pkg = inr tt
  /\ hasRelationship pkg' (pathFromUri (URI spec))
       (pathFromUri (URI supplementary)) RelationTypeAasxSupplementary = false
  /\ (forall other,
        normalizePathForMap (pathFromUri (URI other))
        <> normalizePathForMap (pathFromUri (URI supplementary)) ->
        hasRelationship pkg' (pathFromUri (URI spec))
          (pathFromUri (URI other)) RelationTypeAasxSupplementary
        = hasRelationship pkg (pathFromUri (URI spec))
            (pathFromUri (URI other)) RelationTypeAasxSupplementary)
  /\ Specs pkg' = Specs pkg
  /\ parts pkg' = parts pkg.
Proof.
  intros I. cbv zeta. unfold exec, outcome.
  rewrite Unrelate_run, I, andb_false_r. cbn [fst snd].
  split; [reflexivity|].
  split; [apply hasRelationship_removeRelationship_same|].
  split; [|split; [|reflexivity]].
  - intros other N. apply hasRelationship_removeRelationship_other. auto.
  - unfold Specs.
    change (originURI (removeRelationship _ _ _ _)) with (originURI pkg).
    change (parts (removeRelationship _ _ _ _)) with (parts pkg).
    rewrite getRelationshipsByType_removeRelationship by discriminate.
    reflexivity.
Qed.

Lemma Unrelate_removes_supplementary_witness :
  hasRelationship
    (exec (UnrelateSupplementaryFromSpec true Sample.doc Sample.spec)
       Sample.full)
    (pathFromUri (URI Sample.spec)) (pathFromUri (URI Sample.doc))
    RelationTypeAasxSupplementary = false.
Proof.
  apply (Unrelate_removes_supplementary true Sample.doc Sample.spec
           Sample.full).
  reflexivity.
Defined.

Lemma parts_removeThumbnails pkg : parts (removeThumbnails pkg) = parts pkg.
Proof. apply (removeThumbnails_loop _ pkg). Qed.

Lemma originURI_removeThumbnails pkg :
  originURI (removeThumbnails pkg) = originURI pkg.
Proof. apply (removeThumbnails_loop _ pkg). Qed.

Lemma getRelationshipsByType_removeThumbnails pkg s ty :
  ty <> RelationTypeThumbnail ->
  getRelationshipsByType (removeThumbnails pkg) s ty
  = getRelationshipsByType pkg s ty.
Proof.
  intros N. unfold getRelationshipsByType.
  destruct (String.eqb_spec (normalizePathForMap s) "") as [->|K].
  - rewrite <- (filter_filter_all _
                  (fun r => negb (String.eqb (relType r) RelationTypeThumbnail))
                  (bucket (removeThumbnails pkg) "")).
    + rewrite other_root_edges_kept. apply filter_filter_all.
      intros rel F. apply String.eqb_eq in F. apply negb_true_iff.
      apply String.eqb_neq. congruence.
    + intros rel F. apply String.eqb_eq in F. apply negb_true_iff.
      apply String.eqb_neq. congruence.
  - f_equal. now apply (removeThumbnails_loop _ pkg).
Qed.

(** X13.  [UnsetThumbnail] never fails; afterwards the package has no
    thumbnail, and its registry, its specs and its relationships of every
    other type are what they were. *)
Theorem UnsetThumbnail_clears pkg :
  let pkg' := exec UnsetThumbnail pkg in
  outcome UnsetThumbnail pkg = inr tt
  /\ Thumbnail pkg' = inr None
  /\ parts pkg' = parts pkg
  /\ Specs pkg' = Specs pkg
  /\ (forall s ty, ty <> RelationTypeThumbnail ->
        getRelationshipsByType pkg' s ty = getRelationshipsByType pkg s ty).
Proof.
  cbv zeta. unfold exec, outcome, UnsetThumbnail, modify. cbn [fst snd].
  split; [reflexivity|]. split; [|split; [|split]].
  - unfold Thumbnail. now rewrite thumbnails_removed.
  - apply parts_removeThumbnails.
  - unfold Specs.
    rewrite originURI_removeThumbnails, parts_removeThumbnails,
      getRelationshipsByType_removeThumbnails by discriminate.
    reflexivity.
  - intros s ty N. now apply getRelationshipsByType_removeThumbnails.
Qed.

Lemma UnsetThumbnail_clears_witness :
  getRelationshipsByType (exec UnsetThumbnail Sample.full)
    "/aasx/spec.aas.xml" RelationTypeAasxSupplementary
  = getRelationshipsByType Sample.full
      "/aasx/spec.aas.xml" RelationTypeAasxSupplementary.
Proof.
  apply (UnsetThumbnail_clears Sample.full). discriminate.
Defined.

(** X14.  After [SetThumbnail], [Thumbnail] answers with the part registered
    under the canonical path of the part given -- whatever thumbnails were
    set before -- and raises the integrity error naming that path when no
    part is registered there. *)
Theorem Thumbnail_after_SetThumbnail part pkg :
  Thumbnail (exec (SetThumbnail part) pkg)
  = match JsMap.get (normalizePathForMap (pathFromUri (URI part)))
            (parts pkg) with
    | Some registered => inr (Some registered)
    | None =>
        inl ("thumbnail relationship exists but part not found: "
             ++ pathFromUri (URI part))
    end.
Proof.
  unfold Thumbnail. rewrite thumbnails_after_SetThumbnail.
  unfold exec. rewrite SetThumbnail_run. cbn [snd target].
  rewrite parts_addRelationship, parts_removeThumbnails. reflexivity.
Qed.

(** ** Facade: the registry *)

Lemma delete_set_fresh {V} k (v : V) m :
  JsMap.get k m = None -> JsMap.delete k (JsMap.set k v m) = m.
Proof.
  induction m as [|[k1 v1] m IH]; cbn [JsMap.get JsMap.set JsMap.delete].
  - intros _. now rewrite String.eqb_refl.
  - destruct (String.eqb k1 k) eqn:E; [discriminate|]. intros G.
    cbn [JsMap.delete]. rewrite E. now rewrite IH.
Qed.

(** X15.  [MustPart] answers with the part [FindPart] finds and raises
    [part not found] followed by the path when there is none: it finds the
    part that [PutPart] has just stored, under every spelling of its path
    that differs in letter case only, and raises after [DeletePart] has
    removed it. *)
Theorem MustPart_found_or_raises debug uri contentType bytes pkg :
  wfMap (parts pkg) = true ->
  (forall part,
     FindPart pkg uri = inr (Some part) -> MustPart pkg uri = inr part)
  /\ (FindPart pkg uri = inr None ->
      MustPart pkg uri = inl (ErrPartNotFound ++ ": " ++ pathFromUri uri))
  /\ (forall uri',
        Js.toLowerCase (pathFromUri uri') = Js.toLowerCase (pathFromUri uri) ->
        MustPart (exec (PutPart debug uri contentType bytes) pkg) uri'
        = outcome (PutPart debug uri contentType bytes) pkg)
  /\ (forall part,
        URI part = uri ->
        MustPart (exec (DeletePart debug part) pkg) uri
        = inl (ErrPartNotFound ++ ": " ++ pathFromUri uri)).
Proof.
  intros W. split; [|split; [|split]].
  - intros part F. unfold MustPart. rewrite F. reflexivity.
  - intros F. unfold MustPart. rewrite F. reflexivity.
  - intros uri' E. unfold exec, outcome. rewrite PutPart_run.
    cbv zeta. cbn [fst snd]. unfold MustPart, FindPart.
    cbn [parts setParts bind ret].
    rewrite (normalizeURI_case uri' uri E), get_set_same. reflexivity.
  - intros part <-. unfold MustPart, FindPart.
    rewrite parts_DeletePart. cbn [bind ret]. fold (canonical part).
    rewrite get_delete_same by exact W. reflexivity.
Qed.

Lemma MustPart_found_or_raises_witness :
  MustPart (exec (DeletePart true Sample.doc) Sample.full) Sample.docUri
  = inl (ErrPartNotFound ++ ": " ++ pathFromUri Sample.docUri).
Proof.
  apply (MustPart_found_or_raises true Sample.docUri "" [] Sample.full);
    reflexivity.
Defined.

(** X16.  Storing a part under a path that is free and deleting the part
    again restores the registry, keys in their order included. *)
Theorem PutPart_then_DeletePart debug uri contentType bytes pkg part :
  JsMap.get (normalizeURI (Some uri)) (parts pkg) = None ->
  outcome (PutPart debug uri contentType bytes) pkg = inr part ->
  parts (exec (DeletePart debug part)
           (exec (PutPart debug uri contentType bytes) pkg))
  = parts pkg.
Proof.
  intros G. unfold exec, outcome. rewrite PutPart_run. cbv zeta.
  cbn [fst snd]. rewrite G. intros [= <-].
  fold (exec (DeletePart debug (mkPart uri contentType bytes))
          (setParts pkg
             (JsMap.set (normalizeURI (Some uri))
                (mkPart uri contentType bytes) (parts pkg)))).
  rewrite parts_DeletePart. unfold canonical. cbn [URI parts setParts].
  now apply delete_set_fresh.
Qed.

Lemma PutPart_then_DeletePart_witness :
  parts (exec (DeletePart true Sample.ghost)
           (exec (PutPart true (URI Sample.ghost) "application/xml" [])
              Sample.full))
  = parts Sample.full.
Proof.
  apply (PutPart_then_DeletePart true (URI Sample.ghost) "application/xml" []
           Sample.full Sample.ghost); reflexivity.
Defined.

(** ** Creation *)

Lemma bucket_new newURL p rw k :
  bucket (initializeNewPackage newURL (newPackageBase p rw)) k
  = if String.eqb k ""
    then [mkRel "R00000001" RelationTypeAasxOrigin
            (pathFromUri (asPackageUrl newURL "/aasx/aasx-origin")) "Internal"]
    else [].
Proof.
  unfold initializeNewPackage. rewrite bucket_addRelationship.
  change (normalizePathForMap "") with "".
  destruct (String.eqb k ""); reflexivity.
Qed.

(** X17.  [Create] always succeeds, whatever URL the origin's address
    resolves to: the new package is writable, keeps the path given, has the
    origin part registered as its only part -- plain text reading
    [Intentionally empty.] -- and the origin relationship [R00000001] from
    the root as its only relationship; it has no specs, no supplementary
    relationships and no thumbnail, and the next relationship id is 2.
    [CreateInStream] gives the same package with the empty path. *)
Theorem Create_new_package debug newURL p :
  let originUri := asPackageUrl newURL "/aasx/aasx-origin" in
  let origin :=
    mkPart originUri "text/plain" (encodeUtf8 "Intentionally empty.") in
  exists pkg,
    Create debug newURL p = inr pkg
    /\ path pkg = p /\ readWrite pkg = true
    /\ parts pkg = [(normalizeURI (Some originUri), origin)]
    /\ FindPart pkg originUri = inr (Some origin)
    /\ originURI pkg = normalizeURI (Some originUri)
    /\ relationships pkg
       = [("", [mkRel "R00000001" RelationTypeAasxOrigin
                  (pathFromUri originUri) "Internal"])]
    /\ nextRelID pkg = 2%N
    /\ Specs pkg = inr []
    /\ SupplementaryRelationships pkg = inr []
    /\ Thumbnail pkg = inr None
    /\ (p = "" -> CreateInStream newURL = pkg).
Proof.
  cbv zeta.
  assert (S : Specs (initializeNewPackage newURL (newPackageBase p true))
              = inr []).
  { unfold Specs, getRelationshipsByType. rewrite bucket_new.
    destruct (String.eqb _ ""); reflexivity. }
  exists (initializeNewPackage newURL (newPackageBase p true)).
  split.
  { unfold Create. cbv zeta. rewrite S. cbn [bind List.length Nat.eqb].
    rewrite Ensure_true. reflexivity. }
  repeat (split; [reflexivity|]).
  split.
  { unfold FindPart, initializeNewPackage. cbn [parts setParts JsMap.set].
    cbn. now rewrite String.eqb_refl. }
  repeat (split; [reflexivity|]).
  split; [exact S|]. split.
  { unfold SupplementaryRelationships. rewrite S. reflexivity. }
  split.
  { unfold Thumbnail, getRelationshipsByType. rewrite bucket_new.
    reflexivity. }
  intros ->. reflexivity.
Qed.

Lemma Create_new_package_witness :
  exists pkg,
    Create true Sample.plainURL "" = inr pkg
    /\ CreateInStream Sample.plainURL = pkg.
Proof.
  destruct (Create_new_package true Sample.plainURL "") as [pkg H].
  exists pkg. split; [apply H|]. apply H. reflexivity.
Defined.

(** ** [PutPartFromStream] *)

Lemma readChunks_from answers : forall chunks,
  fold_left
    (fun chunks value =>
       match value with
       | Some chunk => (chunks ++ [chunk])%list
       | None => chunks
       end)
    answers chunks
  = (chunks
     ++ flat_map (fun value : option (list byte) =>
                    match value with Some chunk => [chunk] | None => [] end)
          answers)%list.
Proof.
  induction answers as [|[chunk|] answers IH]; intros chunks;
    cbn [fold_left flat_map].
  - now rewrite app_nil_r.
  - rewrite IH, <- app_assoc. reflexivity.
  - apply IH.
Qed.

Lemma totalLength_from (chunks : list (list byte)) : forall sum,
  fold_left (fun sum chunk => sum + List.length chunk)%nat chunks sum
  = (sum + List.length (List.concat chunks))%nat.
Proof.
  induction chunks as [|chunk chunks IH]; intros sum; cbn [fold_left List.concat].
  - cbn [List.length]. lia.
  - rewrite IH, length_app. lia.
Qed.

Lemma merge_loop (rest : list (list byte)) : forall pre extra,
  fold_left mergeStep rest
    (ret ((pre ++ repeat x00 (List.length (List.concat rest) + extra))%list,
          List.length pre))
  = ret ((pre ++ List.concat rest ++ repeat x00 extra)%list,
         (List.length pre + List.length (List.concat rest))%nat).
Proof.
  induction rest as [|chunk rest IH]; intros pre extra.
  - cbn [fold_left List.concat List.length Nat.add app]. unfold ret.
    now rewrite Nat.add_0_r.
  - cbn [fold_left List.concat]. unfold mergeStep at 2.
    cbn [bind ret fst snd]. unfold typedArraySet.
    rewrite (length_app chunk).
    replace (repeat x00
               (List.length chunk + List.length (List.concat rest) + extra))
      with (repeat x00 (List.length chunk)
            ++ repeat x00 (List.length (List.concat rest) + extra))%list
      by (rewrite <- repeat_app; f_equal; lia).
    set (zc := repeat x00 (List.length chunk)).
    set (zr := repeat x00 (List.length (List.concat rest) + extra)).
    assert (Zc : List.length zc = List.length chunk) by apply repeat_length.
    assert (F : firstn (List.length pre) (pre ++ zc ++ zr) = pre).
    { rewrite firstn_app, firstn_all, Nat.sub_diag, firstn_O.
      apply app_nil_r. }
    assert (K : skipn (List.length pre + List.length chunk)
                  (pre ++ zc ++ zr) = zr).
    { rewrite app_assoc, skipn_app, skipn_all2
        by (rewrite length_app; lia).
      rewrite length_app, Zc, Nat.sub_diag. reflexivity. }
    rewrite F, K.
    match goal with |- context [(?a <=? ?b)%nat] =>
      destruct (Nat.leb_spec a b) as [L|L] end.
    2:{ rewrite !length_app, Zc in L. lia. }
    cbn [bind ret].
    specialize (IH (pre ++ chunk)%list extra).
    rewrite length_app, <- app_assoc in IH. unfold ret in IH |- *.
    fold zr in IH. rewrite IH. rewrite <- !app_assoc. f_equal. f_equal. lia.
Qed.

Lemma mergeChunks_concat chunks : mergeChunks chunks = inr (List.concat chunks).
Proof.
  unfold mergeChunks, totalLength. rewrite totalLength_from.
  pose proof (merge_loop chunks [] 0) as H.
  cbn [app List.length Nat.add] in H.
  rewrite Nat.add_0_r in H. cbn [Nat.add]. rewrite H.
  cbn [bind ret fst repeat]. now rewrite app_nil_r.
Qed.

(** X18.  [PutPartFromStream] stores the chunks the stream delivers, joined
    in the order of their arrival; reads without a value are skipped.
    Copying the chunks into the buffer never runs out of its bounds, so
    the call ends exactly as [PutPart] with the joined content does. *)
Theorem PutPartFromStream_concat debug uri contentType answers pkg :
  let chunks :=
    flat_map (fun value : option (list byte) =>
                match value with Some chunk => [chunk] | None => [] end)
      answers in
  readChunks answers = chunks
  /\ mergeChunks chunks = inr (List.concat chunks)
  /\ totalLength chunks = List.length (List.concat chunks)
  /\ PutPartFromStream debug uri contentType answers pkg
     = PutPart debug uri contentType (List.concat chunks) pkg.
Proof.
  cbv zeta.
  assert (R : readChunks answers
              = flat_map (fun value : option (list byte) =>
                            match value with
                            | Some chunk => [chunk]
                            | None => []
                            end) answers).
  { unfold readChunks. now rewrite readChunks_from. }
  split; [exact R|]. split; [apply mergeChunks_concat|]. split.
  - unfold totalLength. now rewrite totalLength_from.
  - unfold PutPartFromStream, mbind, lift.
    rewrite R, mergeChunks_concat. reflexivity.
Qed.

(** ** [SpecsByContentType] *)

Section SortingParts.
Variable A : Type.
Variable compare : A -> A -> Z.

Lemma insertSorted_permutation x l :
  Permutation (x :: l) (insertSorted compare x l).
Proof.
  induction l as [|y l IH]; simpl; [apply Permutation_refl|].
  destruct (compare x y <=? 0)%Z; [apply Permutation_refl|].
  eapply perm_trans; [apply perm_swap|]. now apply perm_skip.
Qed.

Lemma sortBy_permutation l : Permutation l (sortBy compare l).
Proof.
  induction l as [|x l IH]; simpl; [constructor|].
  eapply perm_trans; [|apply insertSorted_permutation]. now apply perm_skip.
Qed.

Hypothesis compare_total :
  forall a b, (compare a b <= 0)%Z \/ (compare b a <= 0)%Z.

Lemma insertSorted_ordered x l :
  Sorted (fun a b => (compare a b <= 0)%Z) l ->
  Sorted (fun a b => (compare a b <= 0)%Z) (insertSorted compare x l).
Proof.
  induction l as [|y l IH]; intros S; simpl.
  - repeat constructor.
  - destruct (Z.leb_spec (compare x y) 0) as [L|G].
    + constructor; [assumption|]. constructor. exact L.
    + inversion S as [|? ? S' H]; subst.
      constructor; [now apply IH|].
      assert (Y : (compare y x <= 0)%Z).
      { destruct (compare_total x y); [lia|assumption]. }
      destruct l as [|z l]; simpl.
      * constructor. exact Y.
      * destruct (compare x z <=? 0)%Z; constructor; [exact Y|].
        now inversion H.
Qed.

Lemma sortBy_ordered l :
  Sorted (fun a b => (compare a b <= 0)%Z) (sortBy compare l).
Proof.
  induction l as [|x l IH]; simpl; [constructor|].
  now apply insertSorted_ordered.
Qed.

End SortingParts.

Section GroupingFacts.
Variable localeCompare : string -> string -> Z.
Variable inherited : string -> bool.

Lemma specsOfType_snoc contentType specs spec :
  specsOfType contentType (specs ++ [spec])
  = if String.eqb (ContentType spec) contentType
    then (specsOfType contentType specs ++ [spec])%list
    else specsOfType contentType specs.
Proof.
  unfold specsOfType. rewrite filter_app. cbn [filter].
  destruct (String.eqb (ContentType spec) contentType);
    [reflexivity|apply app_nil_r].
Qed.

(** The groups after the first loop. *)
Lemma groups_collected specs :
  (forall spec, In spec specs -> inherited (ContentType spec) = false) ->
  exists grouped,
    fold_left (groupSpec inherited) specs (ret []) = inr grouped
    /\ wfMap grouped = true
    /\ forall contentType,
         JsMap.get contentType grouped
         = match specsOfType contentType specs with
           | [] => None
           | group => Some group
           end.
Proof.
  induction specs as [|spec specs IH] using rev_ind; intros H.
  - exists []. repeat split.
  - destruct IH as [grouped [F [W G]]].
    { intros s Hs. apply H. apply in_or_app. now left. }
    rewrite fold_left_app, F. cbn [fold_left]. unfold groupSpec.
    cbn [bind ret].
    assert (I : inherited (ContentType spec) = false).
    { apply H. apply in_or_app. right. now left. }
    set (key := ContentType spec).
    set (group := match JsMap.get key grouped with
                  | Some g => (g ++ [spec])%list
                  | None => [spec]
                  end).
    exists (JsMap.set key group grouped). split; [|split].
    + subst group key. destruct (JsMap.get _ grouped); [reflexivity|].
      now rewrite I.
    + now apply wfMap_set.
    + intros contentType. rewrite specsOfType_snoc. fold key.
      destruct (String.eqb_spec key contentType) as [<-|N].
      * rewrite get_set_same. subst group. rewrite (G key).
        destruct (specsOfType key specs) as [|x l]; [reflexivity|].
        reflexivity.
      * rewrite get_set_other by congruence. apply G.
Qed.

Lemma groups_refused specs :
  (exists spec, In spec specs /\ inherited (ContentType spec) = true) ->
  exists message,
    fold_left (groupSpec inherited) specs (ret []) = inl message.
Proof.
  intros [bad [Hin Hbad]].
  apply in_split in Hin. destruct Hin as [before [after ->]].
  assert (T : forall l message,
            fold_left (groupSpec inherited) l (inl message) = inl message).
  { induction l as [|x l IHl]; intros message; [reflexivity|apply IHl]. }
  assert (S : forall l state,
            (exists s, In s l /\ inherited (ContentType s) = true) ->
            (forall k group, JsMap.get k state = Some group ->
               inherited k = false) ->
            exists message,
              fold_left (groupSpec inherited) l (inr state) = inl message).
  { induction l as [|x l IHl]; intros state [s [Hs Bs]] O.
    - destruct Hs.
    - cbn [fold_left]. unfold groupSpec at 2. cbn [bind].
      destruct (JsMap.get (ContentType x) state) as [group|] eqn:G.
      + pose proof (O _ _ G) as Ix.
        destruct Hs as [->|Hs]; [congruence|].
        apply IHl; [eauto|].
        intros k g. destruct (String.eqb_spec k (ContentType x)) as [->|N].
        * intros _. exact Ix.
        * rewrite get_set_other by exact N. apply O.
      + destruct (inherited (ContentType x)) eqn:Ix.
        * exists "grouped[spec.ContentType].push is not a function".
          apply T.
        * destruct Hs as [->|Hs]; [congruence|].
          apply IHl; [eauto|].
          intros k g. destruct (String.eqb_spec k (ContentType x)) as [->|N].
          -- intros _. exact Ix.
          -- rewrite get_set_other by exact N. apply O.
  }
  apply S.
  - exists bad. split; [|exact Hbad]. apply in_or_app. right. now left.
  - intros k group. discriminate.
Qed.

End GroupingFacts.

(** X19.  [SpecsByContentType] files every spec under its content type.
    When no content type among the specs names a property an object
    inherits, the call succeeds: a content type no spec has is no key of
    the answer, and the group of any other is made of exactly the specs of
    that type, arranged by the stable sort on their paths -- a permutation
    of them, ascending when the comparison is total.  When a spec has such
    a content type, the call fails. *)
Theorem SpecsByContentType_groups localeCompare inherited pkg :
  exists specs,
    Specs pkg = inr specs
    /\ ((forall spec, In spec specs -> inherited (ContentType spec) = false) ->
        exists grouped,
          SpecsByContentType localeCompare inherited pkg = inr grouped
          /\ wfMap grouped = true
          /\ forall contentType,
               JsMap.get contentType grouped
               = match specsOfType contentType specs with
                 | [] => None
                 | group => Some (sortBy (comparePaths localeCompare) group)
                 end)
    /\ ((exists spec, In spec specs /\ inherited (ContentType spec) = true) ->
        exists message,
          SpecsByContentType localeCompare inherited pkg = inl message)
    /\ (forall contentType,
          Permutation (specsOfType contentType specs)
            (sortBy (comparePaths localeCompare)
               (specsOfType contentType specs)))
    /\ ((forall a b, (localeCompare a b <= 0)%Z \/ (localeCompare b a <= 0)%Z) ->
        forall contentType,
          Sorted (pathSortsBefore localeCompare)
            (sortBy (comparePaths localeCompare)
               (specsOfType contentType specs))).
Proof.
  eexists. split; [reflexivity|].
  set (specs := collectSpecs _ _).
  split; [|split; [|split]].
  - intros H.
    destruct (groups_collected inherited specs H) as [grouped [F [W G]]].
    exists (map (fun entry =>
                   (fst entry, sortBy (comparePaths localeCompare) (snd entry)))
              grouped).
    split; [|split].
    + unfold SpecsByContentType, Specs. cbn [bind ret]. fold specs.
      rewrite F. reflexivity.
    + unfold wfMap, JsMap.keys in *. rewrite map_map. cbn [fst]. exact W.
    + intros contentType. rewrite get_map_values, (G contentType).
      destruct (specsOfType contentType specs); reflexivity.
  - intros H. destruct (groups_refused inherited specs H) as [message F].
    exists message. unfold SpecsByContentType, Specs. cbn [bind ret].
    fold specs. rewrite F. reflexivity.
  - intros contentType. apply sortBy_permutation.
  - intros T contentType. apply sortBy_ordered.
    intros a b. apply T.
Qed.

Lemma SpecsByContentType_groups_witness :
  exists specs,
    Specs Sample.full = inr specs
    /\ exists grouped,
         SpecsByContentType ordinalCompare inheritedName Sample.full
         = inr grouped
         /\ JsMap.get "application/xml" grouped
            = Some (sortBy (comparePaths ordinalCompare)
                      (specsOfType "application/xml" specs))
         /\ Sorted (pathSortsBefore ordinalCompare)
              (sortBy (comparePaths ordinalCompare)
                 (specsOfType "application/xml" specs)).
Proof.
  destruct (SpecsByContentType_groups ordinalCompare inheritedName
              Sample.full) as [specs [S [G [_ [_ O]]]]].
  exists specs. split; [exact S|].
  destruct (G) as [grouped [E [_ L]]].
  { intros spec H. vm_compute in S. injection S as <-.
    destruct H as [<-|[]]. reflexivity. }
  exists grouped. split; [exact E|]. split.
  - rewrite (L "application/xml").
    vm_compute in S. injection S as <-. reflexivity.
  - apply O. apply ordinalCompare_total.
Defined.

(** ** Reading back what was written *)

Lemma parseRelationship_readBack rel :
  parseRelationship (relationshipElement rel) = readBack rel.
Proof.
  destruct rel as [i ty t m]. unfold parseRelationship, relationshipElement,
    readBack. cbn [id relType target targetMode xmlName xmlAttributes].
  cbn [String.eqb Ascii.eqb Bool.eqb negb andb].
  destruct (Js.truthy m && negb (String.eqb m "Internal")) eqn:M;
    cbn [app JsMap.get String.eqb Ascii.eqb Bool.eqb truthyOpt orElse];
    destruct (Js.truthy i), (Js.truthy ty), (Js.truthy t);
    cbn [negb orb andb]; try reflexivity.
  - apply andb_true_iff in M. destruct M as [-> _]. reflexivity.
  - apply andb_false_iff in M. destruct M as [M|M].
    + rewrite M. reflexivity.
    + apply negb_false_iff, String.eqb_eq in M. subst m. reflexivity.
Qed.

Lemma flat_map_readBack rels :
  flat_map parseRelationship (map relationshipElement rels)
  = flat_map readBack rels.
Proof.
  induction rels as [|rel rels IH]; [reflexivity|].
  cbn [map flat_map]. now rewrite parseRelationship_readBack, IH.
Qed.

Lemma flat_map_readBack_all rels :
  (forall rel, In rel rels ->
     Js.truthy (id rel) = true /\ Js.truthy (relType rel) = true
     /\ Js.truthy (target rel) = true /\ Js.truthy (targetMode rel) = true) ->
  flat_map readBack rels = rels.
Proof.
  induction rels as [|rel rels IH]; intros H; [reflexivity|].
  cbn [flat_map]. rewrite IH by (intros r Hr; apply H; now right).
  destruct (H rel (or_introl eq_refl)) as [Ti [Tt [Tg Tm]]].
  unfold readBack. rewrite Ti, Tt, Tg, Tm. destruct rel; reflexivity.
Qed.

(** X20.  A relationship document that the XML library reads as it was
    written -- the same root and the same elements, whatever text stands
    between them -- gives back every relationship that has an id, a type
    and a target, in order, and drops the others; an empty target mode
    reads as [Internal].  So relationships with all four fields non-empty
    come back unchanged.  A document with another root yields no
    relationship, and a document the library rejects is an error. *)
Theorem relationships_xml_roundtrip serializeXml parseXmlString rels :
  (forall doc',
     parseXmlString (serializeXml (relationshipsDocument rels) ++ newline)
     = inr doc' ->
     sameDocument (relationshipsDocument rels) doc' ->
     parseRelationshipsXml parseXmlString
       (buildRelationshipsXml serializeXml rels)
     = inr (flat_map readBack rels)
     /\ ((forall rel, In rel rels ->
            Js.truthy (id rel) = true /\ Js.truthy (relType rel) = true
            /\ Js.truthy (target rel) = true
            /\ Js.truthy (targetMode rel) = true) ->
         parseRelationshipsXml parseXmlString
           (buildRelationshipsXml serializeXml rels)
         = inr rels))
  /\ (forall xml root,
        parseXmlString xml = inr root -> xmlName root <> "Relationships" ->
        parseRelationshipsXml parseXmlString xml = inr [])
  /\ (forall xml message,
        parseXmlString xml = inl message ->
        parseRelationshipsXml parseXmlString xml = inl message).
Proof.
  split; [|split].
  - intros doc' P [Hn He].
    assert (R : parseRelationshipsXml parseXmlString
                  (buildRelationshipsXml serializeXml rels)
                = inr (flat_map readBack rels)).
    { unfold parseRelationshipsXml, buildRelationshipsXml. rewrite P.
      cbn [bind]. rewrite Hn.
      cbn [relationshipsDocument xmlName xmlChildren] in *.
      cbn [String.eqb Ascii.eqb Bool.eqb negb andb]. unfold ret. f_equal.
      rewrite (parseRelationship_same _ _ He). apply flat_map_readBack. }
    split; [exact R|]. intros H. rewrite R.
    now rewrite flat_map_readBack_all.
  - intros xml root P N. unfold parseRelationshipsXml. rewrite P.
    cbn [bind]. destruct (String.eqb_spec (xmlName root) "Relationships");
      [contradiction|reflexivity].
  - intros xml message P. unfold parseRelationshipsXml. now rewrite P.
Qed.

Lemma relationships_xml_roundtrip_witness :
  parseRelationshipsXml SampleXml.parseXmlString
    (buildRelationshipsXml Table.serializeXml SampleXml.rels)
  = inr [SampleXml.external].
Proof.
  apply (proj1 (relationships_xml_roundtrip Table.serializeXml
                  SampleXml.parseXmlString SampleXml.rels)
           (relationshipsDocument SampleXml.rels)).
  - reflexivity.
  - split; reflexivity.
Defined.

Lemma parse_content_kept ds os :
  flat_map parseDefault (map defaultElement ds ++ map overrideElement os)
  = keptItems ds
  /\ flat_map parseOverride (map defaultElement ds ++ map overrideElement os)
     = keptItems os.
Proof.
  rewrite !flat_map_app. split.
  - replace (flat_map parseDefault (map overrideElement os)) with
      (@nil (string * string)).
    + rewrite app_nil_r. induction ds as [|[e d] ds IH]; [reflexivity|].
      cbn [map flat_map]. rewrite IH. unfold keptItems. cbn [filter fst snd].
      cbn. destruct (Js.truthy e), (Js.truthy d); reflexivity.
    + induction os as [|o os IH]; [reflexivity|].
      cbn [map flat_map]. now rewrite <- IH.
  - replace (flat_map parseOverride (map defaultElement ds)) with
      (@nil (string * string)).
    + cbn [app]. induction os as [|[k c] os IH]; [reflexivity|].
      cbn [map flat_map]. rewrite IH. unfold keptItems. cbn [filter fst snd].
      cbn. destruct (Js.truthy k), (Js.truthy c); reflexivity.
    + induction ds as [|d ds IH]; [reflexivity|].
      cbn [map flat_map]. now rewrite <- IH.
Qed.

(** X21.  A content-types document that the XML library reads as it was
    written gives back the defaults and the overrides of the writer, in
    their order, less the entries whose extension, part name or content
    type is empty.  A document with another root yields empty tables, and
    a document the library rejects is an error. *)
Theorem contentTypes_xml_roundtrip localeCompare serializeXml parseXmlString
  registry :
  (forall doc',
     parseXmlString
       (serializeXml (contentTypesDocument localeCompare registry) ++ newline)
     = inr doc' ->
     sameDocument (contentTypesDocument localeCompare registry) doc' ->
     parseContentTypesXml parseXmlString
       (buildContentTypesXml localeCompare serializeXml registry)
     = inr (keptItems (contentTypeDefaults localeCompare registry),
            keptItems (contentTypeOverrides localeCompare registry)))
  /\ (forall xml root,
        parseXmlString xml = inr root -> xmlName root <> "Types" ->
        parseContentTypesXml parseXmlString xml = inr ([], []))
  /\ (forall xml message,
        parseXmlString xml = inl message ->
        parseContentTypesXml parseXmlString xml = inl message).
Proof.
  split; [|split].
  - intros doc' P [Hn He].
    unfold parseContentTypesXml, buildContentTypesXml. rewrite P.
    cbn [bind]. rewrite Hn.
    cbn [contentTypesDocument xmlName xmlChildren] in *.
    cbn [String.eqb Ascii.eqb Bool.eqb negb andb]. unfold ret. f_equal.
    rewrite (parseDefault_same _ _ He), (parseOverride_same _ _ He).
    destruct (parse_content_kept (contentTypeDefaults localeCompare registry)
                (contentTypeOverrides localeCompare registry)) as [-> ->].
    reflexivity.
  - intros xml root P N. unfold parseContentTypesXml. rewrite P.
    cbn [bind]. destruct (String.eqb_spec (xmlName root) "Types");
      [contradiction|reflexivity].
  - intros xml message P. unfold parseContentTypesXml. now rewrite P.
Qed.

Lemma contentTypes_xml_roundtrip_witness :
  parseContentTypesXml SampleXml.parseXmlString
    (buildContentTypesXml ordinalCompare Table.serializeXml
       (parts Sample1.untyped))
  = inr ([("rels", RelsContentType)], [("/aasx/aasx-origin", "text/plain")]).
Proof.
  apply (proj1 (contentTypes_xml_roundtrip ordinalCompare Table.serializeXml
                  SampleXml.parseXmlString (parts Sample1.untyped))
           (contentTypesDocument ordinalCompare (parts Sample1.untyped))).
  - reflexivity.
  - split; reflexivity.
Defined.

(** ** What the reader builds *)

Lemma resolveRelativeURI_slash s t :
  Js.startsWith (resolveRelativeURI s t) "/" = true.
Proof.
  unfold resolveRelativeURI.
  destruct (Js.startsWith (Js.replaceAll "\" "/" t) "/") eqn:S; [exact S|].
  unfold normalizePath. cbn [append]. now rewrite startsWith_cons.
Qed.

Lemma parseRelationship_truthy child rel :
  In rel (parseRelationship child) ->
  Js.truthy (id rel) = true /\ Js.truthy (relType rel) = true.
Proof.
  destruct child as [text|node]; [intros []|]. cbn [parseRelationship].
  destruct (negb (String.eqb (xmlName node) "Relationship")); [intros []|].
  destruct (JsMap.get "Id" (xmlAttributes node)) as [i|];
    cbn [truthyOpt negb orb]; [|intros []].
  destruct (Js.truthy i) eqn:Ti; cbn [negb orb]; [|intros []].
  destruct (JsMap.get "Type" (xmlAttributes node)) as [ty|];
    cbn [truthyOpt negb orb]; [|intros []].
  destruct (Js.truthy ty) eqn:Tt; cbn [negb orb]; [|intros []].
  destruct (negb _); [intros []|]. intros [<-|[]]. auto.
Qed.

Lemma parseRelationshipsXml_truthy parse xml rels rel :
  parseRelationshipsXml parse xml = inr rels -> In rel rels ->
  Js.truthy (id rel) = true /\ Js.truthy (relType rel) = true.
Proof.
  unfold parseRelationshipsXml. destruct (parse xml) as [e|root];
    cbn [bind]; [discriminate|].
  destruct (negb _); intros [= <-]; [intros []|]. intros H.
  apply in_flat_map in H. destruct H as [child [_ H]].
  now apply (parseRelationship_truthy child).
Qed.

Lemma Loaded_loadRelationship p rw s pkg rel :
  Loaded p rw pkg ->
  Js.truthy (id rel) = true -> Js.truthy (relType rel) = true ->
  Loaded p rw (loadRelationship s pkg rel).
Proof.
  intros [A B C D E F] Ti Tt.
  set (new := mkRel (id rel) (relType rel) (resolveRelativeURI s (target rel))
                "Internal").
  assert (L : Loaded p rw
                (setRelationships pkg
                   (JsMap.set (normalizePathForMap s)
                      (bucket pkg (normalizePathForMap s) ++ [new])%list
                      (relationships pkg)))).
  { constructor; try assumption.
    - cbn [relationships setRelationships]. now apply wfMap_set.
    - intros k rels Hin. cbn [relationships setRelationships] in Hin.
      apply In_set in Hin. destruct Hin as [[-> ->]|Hin]; [|now apply F].
      split; [now destruct (bucket pkg (normalizePathForMap s))|].
      split; [apply normalizePathForMap_fixed|].
      intros r Hr. apply in_app_or in Hr. destruct Hr as [Hr|[<-|[]]].
      + destruct (bucket_In _ _ _ Hr) as [rels [H1 H2]].
        now apply (F _ _ H1).
      + unfold loadedEdge, new. cbn [id relType target targetMode].
        now rewrite resolveRelativeURI_slash, Ti, Tt. }
  unfold loadRelationship.
  destruct (_ && _); [|exact L].
  destruct L as [A' B' C' D' E' F']. constructor; assumption.
Qed.

Lemma Loaded_loadBucket p rw s rels : forall pkg,
  Loaded p rw pkg ->
  (forall rel, In rel rels ->
     Js.truthy (id rel) = true /\ Js.truthy (relType rel) = true) ->
  Loaded p rw (fold_left (loadRelationship s) rels pkg).
Proof.
  induction rels as [|rel rels IH]; intros pkg L H; [exact L|].
  cbn [fold_left]. apply IH; [|intros r Hr; apply H; now right].
  destruct (H rel (or_introl eq_refl)). now apply Loaded_loadRelationship.
Qed.

Lemma Loaded_loadRelationships p rw parse entries names : forall pkg pkg',
  Loaded p rw pkg ->
  loadRelationships parse entries names pkg = inr pkg' ->
  Loaded p rw pkg'.
Proof.
  induction names as [|name names IH]; intros pkg pkg' L.
  - cbn. now intros [= <-].
  - cbn [loadRelationships]. destruct (isRelsEntry name); [|now apply IH].
    destruct (parseRelationshipsXml _ _) as [e|rels] eqn:P; cbn [bind];
      [discriminate|].
    apply IH. apply Loaded_loadBucket; [exact L|].
    intros rel Hr. exact (parseRelationshipsXml_truthy _ _ _ _ P Hr).
Qed.

Lemma fold_set_values (f : string -> string) (items : list (string * string)) :
  forall m k v,
  JsMap.get k
    (fold_left (fun m item => JsMap.set (f (fst item)) (snd item) m) items m)
  = Some v ->
  JsMap.get k m = Some v \/ In v (map snd items).
Proof.
  induction items as [|item items IH]; intros m k v H; [now left|].
  cbn [fold_left] in H. apply IH in H. destruct H as [H|H].
  - destruct (String.eqb_spec k (f (fst item))) as [->|N].
    + rewrite get_set_same in H. injection H as <-. right. now left.
    + rewrite get_set_other in H by exact N. now left.
  - right. now right.
Qed.

Lemma parseDefault_truthy child item :
  In item (parseDefault child) -> Js.truthy (snd item) = true.
Proof.
  destruct child as [text|node]; [intros []|]. cbn [parseDefault].
  destruct (String.eqb (xmlName node) "Default"); [|intros []].
  destruct (JsMap.get "Extension" (xmlAttributes node)) as [e|];
    cbn [truthyOpt andb]; [|intros []].
  destruct (Js.truthy e); cbn [andb]; [|intros []].
  destruct (JsMap.get "ContentType" (xmlAttributes node)) as [c|];
    cbn [truthyOpt]; [|intros []].
  destruct (Js.truthy c) eqn:T; [|intros []]. intros [<-|[]]. exact T.
Qed.

Lemma loadContentTypes_defaults parse entries defaultTypes contentTypesMap :
  loadContentTypes parse entries = inr (defaultTypes, contentTypesMap) ->
  forall k v, JsMap.get k defaultTypes = Some v -> Js.truthy v = true.
Proof.
  unfold loadContentTypes.
  destruct (JsMap.get contentTypePath entries) as [doc|].
  2:{ intros [= <- <-] k v. discriminate. }
  unfold parseContentTypesXml.
  destruct (parse (decodeUtf8 doc)) as [e|root]; cbn [bind];
    [discriminate|].
  destruct (negb _); cbn [bind ret fst snd fold_left].
  { intros [= <- <-] k v. discriminate. }
  intros [= <- <-] k v H. apply fold_set_values in H.
  destruct H as [H|H]; [discriminate|].
  apply in_map_iff in H. destruct H as [item [<- H]].
  apply in_flat_map in H. destruct H as [child [_ H]].
  now apply (parseDefault_truthy child).
Qed.

Lemma Loaded_loadPart p rw newURL d c entries pkg name :
  (forall k v, JsMap.get k d = Some v -> Js.truthy v = true) ->
  Loaded p rw pkg -> Loaded p rw (loadPart newURL d c entries pkg name).
Proof.
  intros Hd L. unfold loadPart. destruct (_ || _); [exact L|].
  destruct L as [A B C D E F]. constructor; try assumption.
  - cbn [parts setParts]. now apply wfMap_set.
  - intros k part Hin. cbn [parts setParts] in Hin. apply In_set in Hin.
    destruct Hin as [[-> ->]|Hin]; [|now apply E].
    cbn [ContentType]. split; [|split].
    + destruct (Js.truthy (orElse (JsMap.get _ c) "")) eqn:T;
        cbn [negb]; [exact T|].
      destruct (JsMap.get (extKey name) d) as [v|] eqn:G; cbn [orElse];
        [now apply (Hd _ _ G)|reflexivity].
    + apply normalizePathForMap_fixed.
    + unfold ensureLeadingSlash.
      destruct (Js.startsWith name "/") eqn:S.
      * destruct name as [|x name]; [discriminate|].
        unfold normalizePathForMap, normalizePath.
        cbn [Js.truthy negb append Js.toLowerCase]. destruct (Js.startsWith _ _);
          discriminate.
      * unfold normalizePathForMap, normalizePath.
        cbn [append Js.truthy negb Js.toLowerCase].
        destruct (Js.startsWith _ _); discriminate.
Qed.

Lemma Loaded_loadParts p rw newURL d c entries names : forall pkg,
  (forall k v, JsMap.get k d = Some v -> Js.truthy v = true) ->
  Loaded p rw pkg ->
  Loaded p rw (fold_left (loadPart newURL d c entries) names pkg).
Proof.
  induction names as [|name names IH]; intros pkg Hd L; [exact L|].
  cbn [fold_left]. apply IH; [exact Hd|]. now apply Loaded_loadPart.
Qed.

Lemma originURI_loadParts newURL d c entries names : forall pkg,
  originURI (fold_left (loadPart newURL d c entries) names pkg) = originURI pkg.
Proof.
  induction names as [|name names IH]; intros pkg; [reflexivity|].
  cbn [fold_left]. rewrite IH. unfold loadPart.
  destruct (_ || _); reflexivity.
Qed.

(** X22.  A package that [openFromBytes] returns is well formed, whatever
    the archive held: it carries the path and the mode asked for, its
    origin is set, no key occurs twice in its registry or among its
    buckets, every part has a non-empty content type and stands under a
    non-empty canonical key, and every bucket stands under a canonical key,
    is non-empty and holds relationships that have an id and a type, an
    absolute target and the target mode [Internal] -- the mode written in
    the archive is not kept. *)
Theorem opened_package_well_formed newURL parseXmlString unzipSync bytes p rw
  pkg :
  openFromBytes newURL parseXmlString unzipSync bytes p rw = inr pkg ->
  path pkg = p /\ readWrite pkg = rw
  /\ Js.truthy (originURI pkg) = true
  /\ wfMap (parts pkg) = true /\ wfMap (relationships pkg) = true
  /\ (forall k part, In (k, part) (parts pkg) ->
        Js.truthy (ContentType part) = true
        /\ normalizePathForMap k = k /\ k <> "")
  /\ (forall k rels, In (k, rels) (relationships pkg) ->
        rels <> [] /\ normalizePathForMap k = k
        /\ forall rel, In rel rels ->
             targetMode rel = "Internal"
             /\ Js.startsWith (target rel) "/" = true
             /\ Js.truthy (id rel) = true /\ Js.truthy (relType rel) = true).
Proof.
  unfold openFromBytes, openFromBytesTry.
  destruct (unzipSync bytes) as [e|entries]; cbn [bind].
  { destruct (String.eqb e ErrNoOriginPart); discriminate. }
  destruct (loadContentTypes parseXmlString entries) as [e|[d c]] eqn:CT;
    cbn [bind].
  { destruct (String.eqb e ErrNoOriginPart); discriminate. }
  destruct (loadRelationships _ _ _ _) as [e|pkg1] eqn:E; cbn [bind].
  { destruct (String.eqb e ErrNoOriginPart); discriminate. }
  destruct (Js.truthy (originURI pkg1)) eqn:O; cbn [negb]; [|discriminate].
  unfold ret. intros [= <-].
  assert (L0 : Loaded p rw (newPackageBase p rw)).
  { constructor; try reflexivity; intros k x []. }
  pose proof (Loaded_loadRelationships _ _ _ _ _ _ _ L0 E) as L1.
  pose proof (Loaded_loadParts p rw newURL d c entries (JsMap.keys entries)
                pkg1 (loadContentTypes_defaults _ _ _ _ CT) L1) as L2.
  destruct L2 as [A B C D T F].
  split; [exact A|]. split; [exact B|].
  split; [now rewrite originURI_loadParts|].
  split; [exact C|]. split; [exact D|]. split; [exact T|].
  intros k rels Hin. destruct (F k rels Hin) as [N [K R]].
  split; [exact N|]. split; [exact K|]. intros rel Hr.
  specialize (R rel Hr). unfold loadedEdge in R.
  repeat (apply andb_true_iff in R as [R ?]).
  apply String.eqb_eq in R. auto.
Qed.

Lemma opened_package_well_formed_witness :
  exists pkg,
    Sample1.untypedReopened = inr pkg
    /\ Js.truthy (originURI pkg) = true
    /\ forall k part, In (k, part) (parts pkg) ->
         Js.truthy (ContentType part) = true
         /\ normalizePathForMap k = k /\ k <> "".
Proof.
  assert (E : exists pkg, Sample1.untypedReopened = inr pkg)
    by (eexists; vm_compute; reflexivity).
  destruct E as [pkg E]. exists pkg. split; [exact E|].
  pose proof (opened_package_well_formed Sample.plainURL
                (Table.parseXmlString
                   (writtenDocuments ordinalCompare Sample1.untyped))
                (Table.unzipSync Sample1.untypedFiles)
                (Table.zipSync Sample1.untypedFiles) "" false pkg E) as H.
  split; apply H.
Defined.

(** ** What the writer stores *)

Lemma fold_set_keys (items : list (string * list byte)) : forall acc,
  (wfMap acc = true ->
   wfMap (fold_left (fun files i => JsMap.set (fst i) (snd i) files)
            items acc) = true)
  /\ forall name,
       In name (JsMap.keys
                  (fold_left (fun files i => JsMap.set (fst i) (snd i) files)
                     items acc))
       <-> In name (JsMap.keys acc) \/ In name (map fst items).
Proof.
  induction items as [|item items IH]; intros acc.
  - split; [auto|]. intros name. cbn. tauto.
  - cbn [fold_left map]. destruct (IH (JsMap.set (fst item) (snd item) acc))
      as [W K].
    split.
    + intros Wa. apply W. now apply wfMap_set.
    + intros name. rewrite K, In_keys_set. cbn [In]. intuition congruence.
Qed.

Lemma nonEmptyBuckets_idempotent m :
  nonEmptyBuckets (nonEmptyBuckets m) = nonEmptyBuckets m.
Proof.
  unfold nonEmptyBuckets. induction m as [|[k rels] m IH]; [reflexivity|].
  cbn [filter snd]. destruct (negb (List.length rels =? 0)%nat) eqn:E;
    [|exact IH].
  cbn [filter snd]. now rewrite E, IH.
Qed.

Lemma trimLeadingSlash_endsWith s p :
  Js.truthy s = true -> Js.endsWith (trimLeadingSlash (s ++ p)) p = true.
Proof.
  intros T. unfold trimLeadingSlash.
  destruct (Js.startsWith (s ++ p) "/") eqn:S; [|apply endsWith_append].
  destruct s as [|c s]; [discriminate|]. cbn [append] in *.
  rewrite slice_tail. apply endsWith_append.
Qed.

(** The name of a relationship document ends with [.rels]. *)
Lemma relsName_endsWith k : Js.endsWith (relsName k) ".rels" = true.
Proof.
  unfold relsName, getRelsPath.
  destruct (negb (Js.truthy (normalizePathForMap k))); [reflexivity|].
  destruct (_ || _).
  - change ("/_rels/" ++ baseName (normalizePathForMap k) ++ ".rels")
      with (("/_rels/" ++ baseName (normalizePathForMap k)) ++ ".rels").
    now apply trimLeadingSlash_endsWith.
  - replace (dirName (normalizePathForMap k) ++ "/_rels/"
             ++ baseName (normalizePathForMap k) ++ ".rels")
      with ((dirName (normalizePathForMap k) ++ "/_rels/"
             ++ baseName (normalizePathForMap k)) ++ ".rels")
      by (now rewrite append_assoc).
    apply trimLeadingSlash_endsWith.
    now destruct (dirName (normalizePathForMap k)).
Qed.

Lemma relsName_not_proto k : relsName k <> "__proto__".
Proof.
  intros E. pose proof (relsName_endsWith k) as H. rewrite E in H.
  discriminate.
Qed.

Lemma first_named {V} (items : list (string * V)) name :
  In name (map fst items) ->
  exists before item after,
    items = (before ++ item :: after)%list /\ fst item = name
    /\ ~ In name (map fst before).
Proof.
  induction items as [|item items IH]; [intros []|].
  cbn [map In]. intros H.
  destruct (string_dec (fst item) name) as [E|N].
  - exists [], item, items. repeat split; auto.
  - destruct IH as [before [item' [after [-> [E B]]]]]; [tauto|].
    exists (item :: before), item', after. repeat split; auto.
    cbn [map In]. tauto.
Qed.

Lemma relsFiles_not_proto ser m :
  ~ In "__proto__" (map fst (map (relsFile ser) m)).
Proof.
  rewrite map_map. intros H. apply in_map_iff in H.
  destruct H as [[k rels] [E _]]. cbn [relsFile fst] in E.
  now apply relsName_not_proto in E.
Qed.

(** X23.  The files the writer hands to the zip library.  The writer
    collects them in a record whose prototype is [Object.prototype], and
    the assignment of the name [__proto__] replaces that prototype instead
    of storing a file.  When no part has the name [__proto__], the record
    stays a dictionary; its names, none of them twice, are exactly
    [[Content_Types].xml], the name of the relationship document of every
    bucket that is not empty -- an empty bucket is skipped -- and the name
    of every registered part, which is its path without the leading slash.
    When a part has the name [__proto__], the prototype of the record is
    replaced and the record holds no file of that name.  A package leaves
    the same record with its empty buckets removed. *)
Theorem packageFiles_entries localeCompare serializeXml pkg :
  ((forall part, In part (JsMap.values (parts pkg)) ->
      trimLeadingSlash (pathFromUri (URI part)) <> "__proto__") ->
   exists files,
     packageFiles localeCompare serializeXml pkg = JsObject.Plain files
     /\ wfMap files = true
     /\ forall name,
          In name (JsMap.keys files)
          <-> name = "[Content_Types].xml"
              \/ (exists source rels,
                    In (source, rels) (relationships pkg) /\ rels <> []
                    /\ name = trimLeadingSlash (getRelsPath source))
              \/ (exists part,
                    In part (JsMap.values (parts pkg))
                    /\ name = trimLeadingSlash (pathFromUri (URI part))))
  /\ ((exists part, In part (JsMap.values (parts pkg))
         /\ trimLeadingSlash (pathFromUri (URI part)) = "__proto__") ->
      exists files prototype later,
        packageFiles localeCompare serializeXml pkg
        = JsObject.Replaced files prototype later
        /\ ~ In "__proto__" (JsMap.keys files))
  /\ packageFiles localeCompare serializeXml
       (setRelationships pkg (nonEmptyBuckets (relationships pkg)))
     = packageFiles localeCompare serializeXml pkg.
Proof.
  unfold packageFiles, JsObject.empty. cbv zeta. cbn [JsObject.set].
  change (String.eqb contentTypePath "__proto__") with false. cbn match.
  cbn [JsMap.set].
  rewrite fold_writePart, !fold_writeRelationships.
  rewrite !fold_set_plain by apply relsFiles_not_proto.
  split; [|split].
  - intros P. rewrite fold_set_plain.
    2:{ rewrite map_map. intros H. apply in_map_iff in H.
        destruct H as [part [E H]]. exact (P part H E). }
    eexists. split; [reflexivity|]. split.
    + apply fold_set_keys. apply fold_set_keys. reflexivity.
    + intros name.
      rewrite (proj2 (fold_set_keys _ _)), (proj2 (fold_set_keys _ _)).
      cbn [JsMap.keys map fst In]. rewrite !map_map.
      split.
      * intros [[[<-|[]]|H]|H].
        -- now left.
        -- right. left. apply in_map_iff in H.
           destruct H as [[source rels] [<- H]].
           apply filter_In in H. destruct H as [H N]. cbn [snd] in N.
           exists source, rels. split; [exact H|]. split; [|reflexivity].
           destruct rels; [discriminate|discriminate].
        -- right. right. apply in_map_iff in H. destruct H as [part [<- H]].
           exists part. split; [exact H|reflexivity].
      * intros [->|[[source [rels [H [N ->]]]]|[part [H ->]]]].
        -- left. left. now left.
        -- left. right. apply in_map_iff. exists (source, rels).
           split; [reflexivity|]. apply filter_In. split; [exact H|].
           cbn [snd]. destruct rels; [contradiction|reflexivity].
        -- right. apply in_map_iff. exists part. split; [reflexivity|exact H].
  - intros [part [H E]].
    destruct (first_named (map partFile (JsMap.values (parts pkg)))
                "__proto__") as [before [item [after [S [N B]]]]].
    { rewrite map_map. apply in_map_iff. exists part. auto. }
    rewrite S, fold_left_app, fold_set_plain by exact B.
    cbn [fold_left JsObject.set]. rewrite N, String.eqb_refl.
    rewrite fold_set_replaced. do 3 eexists. split; [reflexivity|].
    rewrite (proj2 (fold_set_keys _ _)), (proj2 (fold_set_keys _ _)).
    cbn [JsMap.keys map fst In].
    intros [[[X|[]]|X]|X]; [discriminate X| |contradiction].
    now apply relsFiles_not_proto in X.
  - cbn [parts relationships setRelationships].
    rewrite ?fold_writePart, ?fold_writeRelationships.
    rewrite nonEmptyBuckets_idempotent.
    now rewrite !fold_set_plain by apply relsFiles_not_proto.
Qed.

Lemma packageFiles_entries_witness :
  (exists files,
     packageFiles ordinalCompare Table.serializeXml Sample.full
     = JsObject.Plain files
     /\ In "aasx/spec.aas.xml" (JsMap.keys files)
     /\ In "aasx/_rels/spec.aas.xml.rels" (JsMap.keys files))
  /\ exists files prototype later,
       packageFiles ordinalCompare Table.serializeXml Sample1.proto
       = JsObject.Replaced files prototype later
       /\ ~ In "__proto__" (JsMap.keys files).
Proof.
  destruct (packageFiles_entries ordinalCompare Table.serializeXml Sample.full)
    as [P _].
  destruct (packageFiles_entries ordinalCompare Table.serializeXml
              Sample1.proto) as [_ [R _]].
  split.
  - destruct P as [files [E [_ K]]].
    { intros part H. vm_compute in H.
      repeat (destruct H as [<-|H]; [vm_compute; discriminate|]). destruct H. }
    exists files. split; [exact E|]. split; apply K.
    + right. right. exists Sample.spec. split; [|reflexivity].
      vm_compute. tauto.
    + right. left.
      exists "/aasx/spec.aas.xml", (bucket Sample.full "/aasx/spec.aas.xml").
      split; [vm_compute; tauto|]. split; [vm_compute; discriminate|].
      reflexivity.
  - apply R. exists Sample1.protoPart. split; [|reflexivity].
    vm_compute. tauto.
Defined.

(** ** Deleting the thumbnail part *)

Lemma wfMap_removeThumbnails pkg :
  wfMap (relationships pkg) = true ->
  wfMap (relationships (removeThumbnails pkg)) = true.
Proof.
  unfold removeThumbnails.
  generalize (getRelationshipsByType pkg "" RelationTypeThumbnail) as rels.
  intros rels. revert pkg.
  induction rels as [|rel rels IH]; intros pkg W; [exact W|].
  cbn [fold_left]. apply IH. now apply wfMap_removeRelationship.
Qed.

Lemma wfMap_addRelationship pkg s t ty :
  wfMap (relationships pkg) = true ->
  wfMap (relationships (snd (addRelationship pkg s t ty))) = true.
Proof.
  intros W. unfold addRelationship, addRelationshipWithID.
  cbn [snd relationships setRelationships setNextRelID].
  now apply wfMap_set.
Qed.

Lemma filter_comm {A} (f g : A -> bool) l :
  filter f (filter g l) = filter g (filter f l).
Proof.
  induction l as [|x l IH]; [reflexivity|]. cbn [filter].
  destruct (f x) eqn:F, (g x) eqn:G; cbn [filter]; rewrite ?F, ?G, IH;
    reflexivity.
Qed.

(** X24.  Deleting the part that was set as the thumbnail leaves the
    package without a thumbnail: [Thumbnail] answers with none instead of
    raising the integrity error for a dangling relationship. *)
Theorem DeletePart_unsets_thumbnail debug part pkg :
  wfMap (relationships pkg) = true ->
  Thumbnail (exec (DeletePart debug part) (exec (SetThumbnail part) pkg))
  = inr None.
Proof.
  intros W.
  assert (W' : wfMap (relationships (exec (SetThumbnail part) pkg)) = true).
  { unfold exec. rewrite SetThumbnail_run. cbn [snd].
    now apply wfMap_addRelationship, wfMap_removeThumbnails. }
  unfold Thumbnail, getRelationshipsByType.
  change (normalizePathForMap "") with "".
  rewrite bucket_DeletePart by exact W'.
  destruct (String.eqb "" (normalizePathForMap (pathFromUri (URI part))));
    [reflexivity|].
  unfold sweptBucket. rewrite filter_comm.
  pose proof (thumbnails_after_SetThumbnail part pkg) as T.
  unfold getRelationshipsByType in T.
  change (normalizePathForMap "") with "" in T. rewrite T.
  cbn [filter target]. now rewrite String.eqb_refl.
Qed.

Lemma DeletePart_unsets_thumbnail_witness :
  Thumbnail (exec (DeletePart true Sample.thumb)
               (exec (SetThumbnail Sample.thumb) Sample.full))
  = inr None.
Proof.
  apply (DeletePart_unsets_thumbnail true Sample.thumb Sample.full).
  reflexivity.
Defined.

(** ** Supplementaries and specs *)

Lemma collectSupplementaries_snoc registry before rel parts_before :
  collectSupplementaries registry before = inr parts_before ->
  collectSupplementaries registry (before ++ [rel])
  = match JsMap.get (normalizePathForMap (target rel)) registry with
    | Some registered => inr (parts_before ++ [registered])%list
    | None => inl ("supplementary part " ++ target rel ++ " not found")
    end.
Proof.
  revert parts_before.
  induction before as [|r before IH]; intros parts_before H.
  - cbn in H. injection H as <-. cbn [app collectSupplementaries].
    destruct (JsMap.get _ registry); reflexivity.
  - cbn [app collectSupplementaries] in *.
    destruct (JsMap.get (normalizePathForMap (target r)) registry) as [q|];
      [|discriminate].
    destruct (collectSupplementaries registry before) as [e|l] eqn:C;
      cbn [bind ret] in H; [discriminate|].
    injection H as <-. rewrite (IH l eq_refl).
    destruct (JsMap.get (normalizePathForMap (target rel)) registry);
      reflexivity.
Qed.

(** X25.  [RelateSupplementaryToSpec] on a spec that is not yet related to
    the supplementary succeeds, and [SupplementariesFor] the spec then
    lists what it listed before followed by the part registered under the
    supplementary's canonical path; when no part is registered there the
    relationship is stored all the same and [SupplementariesFor] raises
    the integrity error that names the path. *)
Theorem Relate_adds_supplementary debug supplementary spec pkg before :
  isSpecOf spec pkg = true ->
  hasRelationship pkg (pathFromUri (URI spec))
    (pathFromUri (URI supplementary)) RelationTypeAasxSupplementary = false ->
  SupplementariesFor pkg spec = inr before ->
  let pkg' := exec (RelateSupplementaryToSpec debug supplementary spec) pkg in
  outcome (RelateSupplementaryToSpec debug supplementary spec) pkg = inr tt
  /\ hasRelationship pkg' (pathFromUri (URI spec))
       (pathFromUri (URI supplementary)) RelationTypeAasxSupplementary = true
  /\ parts pkg' = parts pkg
  /\ SupplementariesFor pkg' spec
     = match JsMap.get
               (normalizePathForMap (pathFromUri (URI supplementary)))
               (parts pkg) with
       | Some registered => inr (before ++ [registered])%list
       | None =>
           inl ("supplementary part " ++ pathFromUri (URI supplementary)
                ++ " not found")
       end.
Proof.
  intros I H B. cbv zeta. unfold exec, outcome.
  rewrite Relate_run, I, andb_false_r, H. cbn [fst snd].
  split; [reflexivity|].
  split; [apply hasRelationship_addRelationship_new|].
  split; [reflexivity|].
  unfold SupplementariesFor in *.
  rewrite parts_addRelationship, getRelationshipsByType_addRelationship,
    !String.eqb_refl.
  cbn [andb]. rewrite (collectSupplementaries_snoc _ _ _ _ B).
  reflexivity.
Qed.

Lemma Relate_adds_supplementary_witness :
  SupplementariesFor
    (exec (RelateSupplementaryToSpec true Sample.thumb Sample.spec)
       Sample.full) Sample.spec
  = inr [Sample.doc; Sample.thumb].
Proof.
  apply (Relate_adds_supplementary true Sample.thumb Sample.spec Sample.full
           [Sample.doc]); reflexivity.
Defined.

Lemma collectSpecs_In registry rels rel q :
  In rel rels ->
  JsMap.get (normalizePathForMap (target rel)) registry = Some q ->
  In q (collectSpecs registry rels).
Proof.
  induction rels as [|r rels IH]; intros Hin G; [destruct Hin|].
  cbn [collectSpecs]. destruct Hin as [->|Hin].
  - rewrite G. now left.
  - destruct (JsMap.get (normalizePathForMap (target r)) registry);
      [right|]; now apply IH.
Qed.

(** X26.  For a part registered under its own canonical path, in a registry
    whose keys are the canonical paths of its parts, [IsSpec] and [Specs]
    agree: the part is a spec exactly when [Specs] lists it. *)
Theorem IsSpec_iff_listed pkg part :
  registryKeyed (parts pkg) = true ->
  Js.truthy (pathFromUri (URI part)) = true ->
  JsMap.get (canonical part) (parts pkg) = Some part ->
  exists specs,
    Specs pkg = inr specs
    /\ (IsSpec pkg part = inr true <-> In part specs).
Proof.
  intros K T G. eexists. split; [reflexivity|].
  assert (C : canonical part = normalizePathForMap (pathFromUri (URI part)))
    by now apply normalizeURI_pathFromUri.
  unfold IsSpec, ret, hasRelationship. split.
  - intros [= H]. apply existsb_exists in H. destruct H as [rel [Hin H]].
    apply andb_true_iff in H. destruct H as [Ht Hp].
    apply String.eqb_eq in Hp.
    apply (collectSpecs_In _ _ rel).
    + unfold getRelationshipsByType. apply filter_In. auto.
    + rewrite Hp, <- C. exact G.
  - intros H. apply In_collectSpecs in H. destruct H as [rel [Hin Hg]].
    unfold getRelationshipsByType in Hin. apply filter_In in Hin.
    destruct Hin as [Hin Ht]. f_equal. apply existsb_exists.
    exists rel. split; [exact Hin|]. rewrite Ht. cbn [andb].
    apply String.eqb_eq. rewrite <- C.
    now apply (registryKeyed_get (parts pkg)).
Qed.

Lemma IsSpec_iff_listed_witness :
  exists specs,
    Specs Sample.full = inr specs
    /\ (IsSpec Sample.full Sample.spec = inr true <-> In Sample.spec specs).
Proof.
  apply (IsSpec_iff_listed Sample.full Sample.spec); reflexivity.
Defined.

(** ** Keys of the registry *)

(** X27.  [normalizeURI] answers with the empty key for no URL only: the
    key of a URL is never empty, starts with a slash, is in lower case and
    in normal form, is a fixed point of [normalizePathForMap], and depends
    on the path up to letter case only. *)
Theorem normalizeURI_key uri :
  normalizeURI None = ""
  /\ normalizeURI (Some uri) <> ""
  /\ Js.startsWith (normalizeURI (Some uri)) "/" = true
  /\ Js.toLowerCase (normalizeURI (Some uri)) = normalizeURI (Some uri)
  /\ normalizePath (normalizeURI (Some uri)) = normalizeURI (Some uri)
  /\ normalizePathForMap (normalizeURI (Some uri)) = normalizeURI (Some uri)
  /\ (forall uri',
        Js.toLowerCase (pathFromUri uri') = Js.toLowerCase (pathFromUri uri) ->
        normalizeURI (Some uri') = normalizeURI (Some uri)).
Proof.
  split; [reflexivity|].
  cbn [normalizeURI].
  set (w := if Js.startsWith (pathFromUri uri) "/" then pathFromUri uri
            else "/" ++ pathFromUri uri).
  assert (N : w <> "").
  { subst w. destruct (Js.startsWith (pathFromUri uri) "/") eqn:S.
    - intros E. rewrite E in S. discriminate.
    - discriminate. }
  assert (A : Js.startsWith (normalizePathForMap w) "/" = true).
  { unfold normalizePathForMap. destruct w as [|c w]; [contradiction|].
    cbn [Js.truthy negb]. unfold normalizePath.
    cbn [append Js.toLowerCase]. now rewrite startsWith_cons. }
  split.
  { intros E. rewrite E in A. discriminate. }
  split; [exact A|].
  split; [apply normalizePathForMap_lower|].
  split; [now apply normalizePathForMap_normal_form|].
  split; [apply normalizePathForMap_fixed|].
  intros uri' E. now apply normalizeURI_case.
Qed.

Lemma normalizeURI_key_witness :
  normalizeURI (Some (Sample.url "/AASX/Data.XML"))
  = normalizeURI (Some (Sample.url "/aasx/data.xml")).
Proof.
  apply (normalizeURI_key (Sample.url "/aasx/data.xml")). reflexivity.
Defined.

(** X28.  [ensureLeadingSlash] always answers with a path that starts with
    a slash and leaves such a path alone; [trimLeadingSlash] takes one
    leading slash away, so it undoes [ensureLeadingSlash] on a path that
    had none, and [ensureLeadingSlash] restores what [trimLeadingSlash]
    took from a path with a single leading slash.  [trimTrailingSlash] takes one trailing slash away, except from
    the root. *)
Theorem leading_slash_roundtrip path :
  Js.startsWith (ensureLeadingSlash path) "/" = true
  /\ ensureLeadingSlash (ensureLeadingSlash path) = ensureLeadingSlash path
  /\ (Js.startsWith path "/" = false ->
      trimLeadingSlash (ensureLeadingSlash path) = path)
  /\ (Js.startsWith path "/" = true -> Js.startsWith path "//" = false ->
      ensureLeadingSlash (trimLeadingSlash path) = path)
  /\ trimTrailingSlash "/" = "/"
  /\ (path <> "" -> trimTrailingSlash (path ++ "/") = path).
Proof.
  assert (Hs : Js.startsWith (ensureLeadingSlash path) "/" = true).
  { unfold ensureLeadingSlash. destruct (Js.startsWith path "/") eqn:E;
      [exact E|]. cbn [append]. now rewrite startsWith_cons. }
  split; [exact Hs|]. split; [|split; [|split; [|split]]].
  - unfold ensureLeadingSlash at 1. now rewrite Hs.
  - intros E. unfold ensureLeadingSlash. rewrite E. cbn [append].
    apply trimLeadingSlash_slash.
  - intros E E2. destruct path as [|c path]; [discriminate|].
    rewrite startsWith_cons in E. apply Ascii.eqb_eq in E. subst c.
    rewrite trimLeadingSlash_slash. unfold ensureLeadingSlash.
    destruct path as [|d path]; [reflexivity|].
    rewrite startsWith_cons.
    destruct (Ascii.eqb_spec d "/") as [->|_]; [|reflexivity].
    change (String "/" (String "/" path)) with ("//" ++ path) in E2.
    unfold Js.startsWith in E2. rewrite prefix_append in E2. discriminate E2.
  - reflexivity.
  - intros N. unfold trimTrailingSlash. rewrite endsWith_append.
    rewrite string_length_append. cbn [String.length].
    destruct path as [|c path]; [contradiction|].
    destruct (Nat.ltb_spec 1 (String.length (String c path) + 1));
      [|cbn [String.length] in *; lia].
    cbn [andb]. unfold Js.slice.
    rewrite string_length_append. cbn [String.length].
    set (n := String.length path).
    change (-1 <? 0)%Z with true. change (0 <? 0)%Z with false. cbv iota.
    replace (Z.max (Z.of_nat (S n + 1) + -1) 0) with (Z.of_nat (S n)) by lia.
    rewrite Z.min_l by lia. rewrite Z.sub_0_r, Nat2Z.id.
    change (Z.to_nat 0) with 0%nat. cbn [Js.drop].
    replace (S n) with (String.length (String c path)) by reflexivity.
    apply take_append.
Qed.

Lemma leading_slash_roundtrip_witness :
  trimLeadingSlash (ensureLeadingSlash "aasx/data.xml") = "aasx/data.xml"
  /\ ensureLeadingSlash (trimLeadingSlash "/aasx/data.xml") = "/aasx/data.xml"
  /\ trimTrailingSlash ("/aasx" ++ "/") = "/aasx".
Proof.
  split; [|split].
  - exact (proj1 (proj2 (proj2 (leading_slash_roundtrip "aasx/data.xml")))
             eq_refl).
  - exact (proj1 (proj2 (proj2 (proj2
             (leading_slash_roundtrip "/aasx/data.xml")))) eq_refl eq_refl).
  - apply (leading_slash_roundtrip "/aasx"). discriminate.
Defined.

(** ** Sweeping the relationships of a path *)

Lemma sweptBucket_fixed np rels :
  (forall rel, In rel rels -> normalizePathForMap (target rel) <> np) ->
  sweptBucket np rels = rels.
Proof.
  intros H. unfold sweptBucket. induction rels as [|rel rels IH];
    [reflexivity|].
  cbn [filter].
  destruct (String.eqb_spec (normalizePathForMap (target rel)) np) as [E|_].
  - exfalso. apply (H rel); [now left|exact E].
  - cbn [negb]. rewrite IH; [reflexivity|]. intros r Hr. apply H. now right.
Qed.

Lemma sweepAll_fixed np m :
  (forall k rels, In (k, rels) m ->
     rels <> []
     /\ forall rel, In rel rels -> normalizePathForMap (target rel) <> np) ->
  sweepAll np m = m.
Proof.
  intros H. unfold sweepAll. induction m as [|[k rels] m IH]; [reflexivity|].
  cbn [flat_map fst snd].
  destruct (H k rels (or_introl eq_refl)) as [N T].
  rewrite (sweptBucket_fixed np rels T).
  destruct rels as [|rel rels]; [contradiction|].
  cbn [List.length Nat.eqb app]. rewrite IH; [reflexivity|].
  intros k' rels' Hin. apply (H k' rels'). now right.
Qed.

(** X29.  [removeAllRelationshipsWithSourceOrTarget] on a graph whose keys
    are distinct leaves no empty bucket behind -- buckets that were empty
    before go as well -- keeps the keys distinct, touches nothing but the
    relationships, and is idempotent: a second sweep of the same path
    changes nothing. *)
Theorem removeAll_idempotent pkg uriPath :
  wfMap (relationships pkg) = true ->
  let pkg' := removeAllRelationshipsWithSourceOrTarget pkg uriPath in
  (forall k rels, In (k, rels) (relationships pkg') -> rels <> [])
  /\ wfMap (relationships pkg') = true
  /\ parts pkg' = parts pkg /\ originURI pkg' = originURI pkg
  /\ nextRelID pkg' = nextRelID pkg
  /\ removeAllRelationshipsWithSourceOrTarget pkg' uriPath = pkg'.
Proof.
  intros W. cbv zeta.
  set (np := normalizePathForMap uriPath).
  assert (R : relationships
                (removeAllRelationshipsWithSourceOrTarget pkg uriPath)
              = sweepAll np (JsMap.delete np (relationships pkg)))
    by now apply relationships_removeAll.
  assert (W' : wfMap (relationships
                        (removeAllRelationshipsWithSourceOrTarget pkg uriPath))
               = true).
  { rewrite R. now apply wfMap_sweepAll, wfMap_delete. }
  split; [|split; [exact W'|split; [reflexivity|split; [reflexivity|split;
    [reflexivity|]]]]].
  - intros k rels Hin. rewrite R in Hin. apply In_sweepAll in Hin.
    destruct Hin as [rels0 [_ [_ N]]]. exact N.
  - set (pkg' := removeAllRelationshipsWithSourceOrTarget pkg uriPath) in *.
    assert (R' : relationships
                   (removeAllRelationshipsWithSourceOrTarget pkg' uriPath)
                 = relationships pkg').
    { rewrite relationships_removeAll by exact W'. fold np.
      assert (A : JsMap.get np (relationships pkg') = None).
      { destruct (JsMap.get np (relationships pkg')) as [rels|] eqn:G;
          [|reflexivity].
        apply get_Some_In in G.
        destruct (removeAll_no_mention pkg uriPath np rels W G) as [N _].
        contradiction. }
      rewrite (delete_absent _ _ A). apply sweepAll_fixed.
      intros k rels Hin. split.
      - rewrite R in Hin. apply In_sweepAll in Hin.
        destruct Hin as [rels0 [_ [_ N]]]. exact N.
      - apply (removeAll_no_mention pkg uriPath k rels W Hin). }
    destruct pkg' as [pp rr oo nn pa rw] eqn:E.
    unfold removeAllRelationshipsWithSourceOrTarget, setRelationships in *.
    cbn [parts relationships originURI nextRelID path readWrite] in *.
    f_equal. exact R'.
Qed.

Lemma removeAll_idempotent_witness :
  removeAllRelationshipsWithSourceOrTarget
    (removeAllRelationshipsWithSourceOrTarget Sample.full "/aasx/doc.pdf")
    "/aasx/doc.pdf"
  = removeAllRelationshipsWithSourceOrTarget Sample.full "/aasx/doc.pdf".
Proof.
  apply (removeAll_idempotent Sample.full "/aasx/doc.pdf"). reflexivity.
Defined.

(** ** Part identity *)

Lemma split_join_slashFree segments :
  segments <> [] -> slashFree segments ->
  Js.split "/" (Js.join "/" segments) = segments.
Proof.
  induction segments as [|x segments IH]; intros N G; [contradiction|].
  inversion G as [|? ? O G']; subst.
  destruct segments as [|y segments].
  - cbn. now apply split_no_separator.
  - change (Js.join "/" (x :: y :: segments))
      with (x ++ String "/" (Js.join "/" (y :: segments))).
    rewrite split_append_separator by exact O.
    now rewrite IH by (discriminate || assumption).
Qed.

Lemma normalizeSegments_app before after : forall stack,
  normalizeSegments (before ++ after) stack
  = normalizeSegments after (rev (normalizeSegments before stack)).
Proof.
  induction before as [|x before IH]; intros stack.
  - cbn. now rewrite rev_involutive.
  - cbn [app normalizeSegments].
    destruct (negb (Js.truthy x) || String.eqb x "."); [apply IH|].
    destruct (String.eqb x ".."); apply IH.
Qed.

Lemma normalizePath_pathOf_segments segments :
  slashFree segments ->
  normalizePath (pathOf segments) = pathOf (normalizeSegments segments []).
Proof.
  intros G. unfold normalizePath, pathOf. f_equal. f_equal.
  destruct segments as [|x segments]; [reflexivity|].
  change ("/" ++ Js.join "/" (x :: segments))
    with (String "/" (Js.join "/" (x :: segments))).
  rewrite split_cons_slash, split_join_slashFree by (discriminate || assumption).
  reflexivity.
Qed.

Lemma slashFree_app before after :
  slashFree before -> slashFree after -> slashFree (before ++ after).
Proof. intros B A. apply Forall_app. now split. Qed.

Lemma keyOfPath_pathOf segments :
  slashFree segments ->
  keyOfPath (pathOf segments)
  = Js.toLowerCase (pathOf (normalizeSegments segments [])).
Proof.
  intros G. unfold keyOfPath.
  assert (P : Js.startsWith (pathOf segments) "/" = true)
    by (unfold pathOf; cbn [append]; now rewrite startsWith_cons).
  rewrite P. unfold normalizePathForMap. rewrite P.
  change (Js.truthy (pathOf segments)) with true. cbn [negb].
  now rewrite normalizePath_pathOf_segments.
Qed.

Lemma keyOfPath_same p q : sameCanonicalPath p q -> keyOfPath p = keyOfPath q.
Proof.
  induction 1 as [p q E|p N|before after B A|before after B A
                 |before segment after B A O [T [D DD]]|p q _ IH
                 |p q r _ IH1 _ IH2].
  - unfold keyOfPath. apply normalizePathForMap_ignores_case.
    rewrite <- (startsWith_slash_toLowerCase p).
    rewrite <- (startsWith_slash_toLowerCase q), E.
    destruct (Js.startsWith _ "/"); [exact E|].
    now rewrite !toLowerCase_append, E.
  - unfold keyOfPath. rewrite N. cbn [append].
    now rewrite startsWith_cons.
  - rewrite !keyOfPath_pathOf.
    + rewrite !(normalizeSegments_app before). reflexivity.
    + now apply slashFree_app.
    + apply slashFree_app; [assumption|]. constructor; [reflexivity|assumption].
  - rewrite !keyOfPath_pathOf.
    + rewrite !(normalizeSegments_app before). reflexivity.
    + now apply slashFree_app.
    + apply slashFree_app; [assumption|]. constructor; [reflexivity|assumption].
  - rewrite !keyOfPath_pathOf.
    + rewrite !(normalizeSegments_app before).
      cbn [normalizeSegments]. rewrite T. cbn [negb orb].
      destruct (String.eqb_spec segment "."); [contradiction|].
      destruct (String.eqb_spec segment ".."); [contradiction|].
      reflexivity.
    + now apply slashFree_app.
    + apply slashFree_app; [assumption|].
      constructor; [assumption|]. constructor; [reflexivity|assumption].
  - now symmetry.
  - now transitivity (keyOfPath q).
Qed.

Lemma normalizeURI_same u1 u2 :
  sameCanonicalPath (pathFromUri u1) (pathFromUri u2) ->
  normalizeURI (Some u1) = normalizeURI (Some u2).
Proof. intros E. exact (keyOfPath_same _ _ E). Qed.

Lemma normalizeURI_segments uri :
  exists segments,
    normalizeURI (Some uri) = pathOf segments
    /\ Forall goodSegment segments
    /\ Js.toLowerCase (normalizeURI (Some uri)) = normalizeURI (Some uri).
Proof.
  unfold normalizeURI.
  set (value := if Js.startsWith (pathFromUri uri) "/" then pathFromUri uri
                else "/" ++ pathFromUri uri).
  assert (V : value <> "").
  { unfold value. destruct (pathFromUri uri) as [|c s]; [discriminate|].
    destruct (Js.startsWith (String c s) "/"); discriminate. }
  destruct (normalizePath_segments (normalizePathForMap value))
    as [segments [E G]].
  rewrite normalizePathForMap_normal_form in E by exact V.
  exists segments. split; [exact E|]. split; [exact G|].
  apply normalizePathForMap_lower.
Qed.

(** C7: a part is identified by its canonical path.  [PutPart] always
    returns a part and registers it under the canonical path of the URI,
    which is lower-case, starts with a slash and is made of non-empty
    segments none of which is [.] or [..].  [FindPart] returns that part
    under every URI whose path is another spelling of the same canonical
    path: another case of the letters, [.] or empty segments, or a segment
    taken back by a following [..].  When the canonical path was already
    registered the entry is replaced in place -- same key, same position, no
    second entry, the display URI kept, content type and bytes replaced --
    and otherwise one entry is appended; no other entry and no relationship
    changes. *)
Theorem PutPart_canonical_identity debug uri1 contentType bytes pkg :
  let key := normalizeURI (Some uri1) in
  let pkg' := exec (PutPart debug uri1 contentType bytes) pkg in
  exists part,
    outcome (PutPart debug uri1 contentType bytes) pkg = inr part
    /\ (exists segments,
          key = pathOf segments /\ Forall goodSegment segments
          /\ Js.toLowerCase key = key)
    /\ (forall uri2,
          sameCanonicalPath (pathFromUri uri1) (pathFromUri uri2) ->
          normalizeURI (Some uri2) = key
          /\ FindPart pkg' uri2 = inr (Some part))
    /\ ContentType part = contentType /\ content part = bytes
    /\ JsMap.get key (parts pkg') = Some part
    /\ match JsMap.get key (parts pkg) with
       | Some old =>
           URI part = URI old
           /\ JsMap.keys (parts pkg') = JsMap.keys (parts pkg)
       | None =>
           URI part = uri1
           /\ JsMap.keys (parts pkg') = (JsMap.keys (parts pkg) ++ [key])%list
       end
    /\ (forall k, k <> key -> JsMap.get k (parts pkg') = JsMap.get k (parts pkg))
    /\ relationships pkg' = relationships pkg
    /\ originURI pkg' = originURI pkg /\ nextRelID pkg' = nextRelID pkg.
Proof.
  intros key pkg'. unfold pkg', exec, outcome. rewrite PutPart_run.
  cbn zeta. cbn [fst snd]. eexists. split; [reflexivity|].
  split; [apply normalizeURI_segments|].
  split.
  { intros uri2 E. pose proof (normalizeURI_same uri1 uri2 E) as K.
    split; [now symmetry|].
    unfold FindPart, ret. rewrite <- K.
    cbn [parts setParts]. now rewrite get_set_same. }
  split; [destruct (JsMap.get _ _); reflexivity|].
  split; [destruct (JsMap.get _ _); reflexivity|].
  split; [cbn [parts setParts]; apply get_set_same|].
  split.
  { cbn [parts setParts]. fold key.
    destruct (JsMap.get key (parts pkg)) eqn:G; split; try reflexivity.
    - apply keys_set_present. congruence.
    - now apply keys_set_absent. }
  split; [intros k Hk; cbn [parts setParts]; now apply get_set_other|].
  repeat split.
Qed.

Lemma PutPart_canonical_identity_witness :
  let stored := Sample.url "/AASX/./Models//Spec.AAS.xml" in
  let asked := Sample.url "/aasx/models/old/../spec.aas.xml" in
  sameCanonicalPath (pathFromUri stored) (pathFromUri asked)
  /\ normalizeURI (Some stored) = "/aasx/models/spec.aas.xml"
  /\ FindPart
       (exec (PutPart true stored "application/xml" []) Sample.empty) asked
     = inr (Some (mkPart stored "application/xml" [])).
Proof.
  intros stored asked.
  assert (E : sameCanonicalPath (pathFromUri stored) (pathFromUri asked)).
  { apply same_trans with (pathOf ["aasx"; "."; "models"; ""; "spec.aas.xml"]);
      [apply same_case; reflexivity|].
    apply same_trans with (pathOf ["aasx"; "models"; ""; "spec.aas.xml"]);
      [apply (same_dot ["aasx"] ["models"; ""; "spec.aas.xml"]);
       repeat constructor|].
    apply same_trans with (pathOf ["aasx"; "models"; "spec.aas.xml"]);
      [apply (same_empty ["aasx"; "models"] ["spec.aas.xml"]);
       repeat constructor|].
    apply same_sym.
    apply (same_dotdot ["aasx"; "models"] "old" ["spec.aas.xml"]);
      repeat constructor; discriminate. }
  split; [exact E|]. split; [reflexivity|].
  destruct (PutPart_canonical_identity true stored "application/xml" []
              Sample.empty)
    as [part [O [_ [F _]]]].
  destruct (F asked E) as [_ ->]. f_equal. f_equal.
  vm_compute in O. injection O as <-. reflexivity.
Defined.

(** ** Deleting a part read from an archive *)

(** C2 fails on a part read from an archive.  The reader registers the
    entry [aasx/my spec.xml] under the key [/aasx/my spec.xml] and gives the
    part a URL whose path is [/aasx/my%20spec.xml]; [DeletePart] computes
    its key from the URL, as [PutPart] and [FindPart] do.  The part is a
    spec with one supplementary; [DeletePart] returns normally, and
    afterwards the part is still registered, the spec relationship to it is
    still in the graph and [Specs] still lists it. *)
Lemma DeletePart_keeps_opened_spec :
  exists pkg,
    SampleSpace.opened = inr pkg
    /\ JsMap.get "/aasx/my spec.xml" (parts pkg) = Some SampleSpace.spec
    /\ canonical SampleSpace.spec = "/aasx/my%20spec.xml"
    /\ Specs pkg = inr [SampleSpace.spec]
    /\ SupplementaryRelationships pkg
       = inr [mkSupplementaryRelationship SampleSpace.spec SampleSpace.doc]
    /\ (let pkg' := exec (DeletePart true SampleSpace.spec) pkg in
        outcome (DeletePart true SampleSpace.spec) pkg = inr tt
        /\ Specs pkg' = inr [SampleSpace.spec]
        /\ JsMap.get "/aasx/my spec.xml" (parts pkg') = Some SampleSpace.spec
        /\ bucket pkg' (originURI pkg')
           = [mkRel "R2" RelationTypeAasxSpec "/aasx/my spec.xml" "Internal"]
        /\ SupplementaryRelationships pkg' = inr []).
Proof.
  eexists. split; [vm_compute; reflexivity|].
  repeat split; vm_compute; reflexivity.
Qed.

(** With the relationships of the spec stored under the name of its entry,
    the supplementary relationship is in the bucket of the key
    [/aasx/my spec.xml]; [DeletePart] leaves that bucket, the spec
    relationship and the part where they are. *)
Example DeletePart_keeps_named_bucket :
  exists pkg,
    SampleSpace.openedByName = inr pkg
    /\ Specs pkg = inr [SampleSpace.spec]
    /\ bucket pkg "/aasx/my spec.xml" = SampleSpace.specRels
    /\ (let pkg' := exec (DeletePart true SampleSpace.spec) pkg in
        outcome (DeletePart true SampleSpace.spec) pkg = inr tt
        /\ Specs pkg' = inr [SampleSpace.spec]
        /\ bucket pkg' "/aasx/my spec.xml" = SampleSpace.specRels
        /\ JsMap.get "/aasx/my spec.xml" (parts pkg') = Some SampleSpace.spec).
Proof.
  eexists. split; [vm_compute; reflexivity|].
  repeat split; vm_compute; reflexivity.
Qed.
